(* ===== verification/_CoqProject ===== *)
-Q . S2P
Prelude.v
TimerWheel.v
TimerPlace.v
TimerAdvance.v
TimerProps.v
CStr.v
MsgNames.v
TimeFmt.v
TimerMan.v
TimerManProps.v
StdString.v
Cron.v
StringAssist.v
StringProps.v
SysUtil.v
Bytes.v
QtpMsg.v
QtpMsgProps.v
Decode.v
DecodeProps.v
Evbuffer.v
EvbufferProps.v
EvbufferAdd.v
EvbufferRead.v
EvbufferWrite.v
EvbufferQueue.v
Connection.v
Trace.v
ConnParams.v
Server.v
ServerProps.v
Mysql.v
MysqlProps.v
DBMan.v
DBProxy.v
DBProps.v
ProxyProps.v
PoolInit.v
PoolThreads.v
Metric.v
MetricProps.v
MetricFlow.v
MetricServ.v
LinkerServer.v
LinkerProps.v
LinkerClient.v
LinkerClientProps.v
SubPub.v
Heap.v
HeapProps.v
RedisMng.v
RedisProps.v
EventClient.v
EventClientProps.v
EventServer.v
LinkerCalls.v
EventServerProps.v
EventCallbacks.v
SpinLock.v
Log.v
LogProps.v
Samples.v
LinkerMain.v
Cmdline.v
CmdlineProps.v
App.v
AppProps.v
DBWork.v
DBWorkProps.v
ZkLock.v
