(* ===== verification/Prelude.v ===== *)
(** * A verification library for sample_tools

    [sample_tools] is a collection of C++ components a trading back end is made
    of, under [src/src]: a timer wheel, a message format with its TCP client and
    server, session servers, connection pools for MySQL and Redis, metrics, a
    subscription table, string and time helpers, and small programs over them.
    This library translates them to executable definitions, from the source
    line by line, and proves what makes them correct; where the code departs
    from what its comments or its callers expect, the departure is a theorem.

    ** How the program is modelled

    - Integers are [Z] in the range of their type; wrap-around is written out
      ([u64], [i32], ... in Prelude) and signed overflow is undefined.
    - Code that may stop returns [res]: a value, or a [fault] (undefined
      behaviour, a failed assertion or [std::terminate], an exception, [exit]).
      An access outside an object is [Undefined], never a default.
    - Objects with identity are addresses in an explicit heap (TimerWheel,
      TimerMan, Evbuffer), or names that say what they were made from (RedisMng,
      DBWork).
    - Third-party code is an argument.  Calls into libevent, OpenSSL, the MySQL
      connector, the kernel and the shell are values of an inductive [call],
      answered by an argument [handle] that keeps a state of its own; the log of
      calls is what the resource theorems speak of (Trace, Mysql, EventClient,
      EventServer, DBWork, MetricServ).  The byte buffer the decoder reads is a
      class ([EvBuffer]); the vendored libevent's own buffer, modelled from its
      source, is an instance (Connection).  The ZooKeeper servers are a class whose
      laws are their documented behaviour ([ZooKeeper]: stale reads, calls that
      fail after they were done, a counter of 32 bits), the JSON document a class
      of lookups ([MJson]), each with a concrete instance.  The concurrent queue of
      the metrics gives out the samples of any one producer in their order
      ([dequeue]).  Iteration orders of unordered containers, clocks,
      allocated addresses and the contents of files are arguments too.
    - Threads are interleavings of atomic steps: what a mutex protects, or one
      atomic operation, is one step; an access to shared data without the mutex
      is a step of its own (PoolThreads, Metric).  Where two such accesses can
      meet, the program has a data race: [PoolThreads.back_races] and
      [DBWorkProps.delete_races] show two of them, and the theorems say which steps
      they leave out.
    - libevent's loop is a list of turns ([turn] in EventServer): which callbacks
      each finds active, and whether the wait fails, are arguments.

    ** The parts

    - Timers: TimerWheel is [mybase/src/timer-wheel.h], pointer write by pointer
      write; TimerPlace the arithmetic of its eight levels; TimerAdvance the
      re-entrant [advance]; TimerProps the contract of its comments (events fire
      exactly at their tick and in order, operations are updates of a map of
      deadlines, calls compose).  TimerMan is the periodic timers of
      [mybase/src/timerman.cpp] over the wheel, with callbacks that set and stop
      timers themselves; TimerManProps shows that its run loop is a table of
      deadlines.
    - Time and text: CStr and StdString are the library routines on characters
      and [std::string]; TimeFmt the calendar of [mybase/mybase/timerman.h];
      StringAssist with StringProps the helpers of [include/string_assist.h] and
      [include/util.h]; SysUtil the rest of [util.h] over an abstract system.
    - Messages: Bytes is memory; QtpMsg with QtpMsgProps the class of
      [include/qtp_msg.h]; Decode with DecodeProps the framing of
      [tcp/src/event_wrapper.cpp] ([decode_msg_with_head]): what is sent is read back;
      MsgNames the enums and names of [linker/include/common.h].
    - Byte buffers: Evbuffer is the part of [deps/libevent/buffer.c] under the
      program's connections: chains of blocks in a heap, [evbuffer_add],
      [evbuffer_drain], [evbuffer_remove], [evbuffer_copyout], [evbuffer_pullup],
      [evbuffer_read] and [evbuffer_write_atmost], with the calls on them in
      [bufferevent_sock.c].  EvbufferProps has the invariant of the chains and the
      lemmas on taking bytes out, EvbufferAdd, EvbufferRead and EvbufferWrite those
      on the other operations; EvbufferQueue states them on the contents alone.
      Connection puts an output buffer, a byte stream and an input buffer together,
      and gives the input buffer to the decoder.
    - Network: EventClient and EventServer with their Props files are
      [tcp/src/event_client.cpp] and [tcp/src/event_server.cpp] with the event
      loop of [event_wrapper.cpp], over ConnParams; connections are freed once.
      LinkerCalls is what [linker/l1] does to its connections in the callbacks
      of the server.
      EventCallbacks is the rest of [event_wrapper.cpp].
    - Servers and clients of messages: Server with ServerProps is [linker/l2]
      (login, subscription, dispatch), LinkerServer with LinkerProps
      [linker/l1], LinkerClient with LinkerClientProps [linker/c1/main.cpp].
      They share the decoder; client and server are composed in
      [LinkerClientProps.login_session]: the session the server issues is the
      one the client sends.  LinkerMain puts the server programs
      ([linker/l1/ev_server.cpp], [linker/l2/main.cpp]) together: options, log,
      listener, event loop.
    - Databases: Mysql is [database/src/mysqldb.cpp]; DBMan the pools of
      [dbman.cpp] over the class [BaseDB], which [MysqlDB] objects implement;
      DBProxy [dbproxy.cpp]; MysqlProps and DBProps their theorems, DBProps
      against the class.  The layers are composed in ProxyProps (a call of the
      proxy down to the calls of the connector), PoolInit (from a configuration
      to the proxy) and PoolThreads (callers and the two threads, interleaved).
      RedisMng with
      RedisProps is [utils/redis_mng.cpp].  DBWork with DBWorkProps is the
      statement queue of [use_mysql/main.cpp].
    - Logging: Log with LogProps is [zlog/src/ztp_log.cc] and
      [use_mysql/slog.cpp], over spdlog's registry as the class [SpdLog].
    - The rest: Metric with MetricProps, MetricFlow and MetricServ ([iomn] and its
      program), SubPub
      ([include/subpub_man.h]), Heap with HeapProps ([topk]), SpinLock
      ([utils/spin_lock.h]), Cron ([sample_cron/main.cpp]), ZkLock
      ([zk_test/zklock.cpp]), Cmdline with CmdlineProps (the parser of [include/cmdline.h]),
      App with AppProps ([include/app.h], from the command line to the log), Samples
      ([file_test/zero_copy.cpp], [zk_test/zkfind.cpp], [include/stopwatch.h],
      [utils/lh_exception.h]).

    Records carry the names of the C++ members, definitions those of the
    functions; a loop or a lambda that is a definition of its own is named after
    what it does.

    ** What the theorems show

    - Refinement: timer operations and the run loop of the timers against a map of
      deadlines, pointer lists against lists, the chains of a byte buffer against a
      queue of bytes, a message sent through two buffers against the message decoded, the proxy against statements on a
      queue of connections, pools against FIFO queues, the client's queue against the
      messages that arrive, subscriptions against a relation.
    - Invariants and safety, over any sequence of operations or any
      interleaving: sessions, pools and their counters, connections freed once,
      statements executed at most once, mutual exclusion of both locks, no
      step of the database pools that is undefined from their configuration on,
      no accepted sample and no message of the log lost.
    - Equivalence: a byte stream cut in chunks, [advance] in two calls.
    - Round trips: encode and parse, send and decode, split and join, calendar
      and time stamps, configuration and task files; the command lines that are accepted
      are those a grammar renders, and what is read from them is what was rendered.
    - Functional behaviour, bounds, errors and termination of the single
      functions; where the code misbehaves (an interval longer than the ring, the body of a
      subscription, a [..] component, an empty pattern, [hour] -1) the theorem says on which
      inputs.
    - Liveness: the event loop stops, the check thread reconnects, the run loop of
      the timers fires every timer periodically, the metrics deliver every sample as long as
      the object runs, a connection
      can always deliver the bytes written to it.

    ** Bounds and fuel

    Loops that are not structural take fuel, and running out of it is a fault of
    its own ([OutOfFuel]), so a result is never that of an unfinished loop.
    String loops get the length of the string and one or two more, which the lemmas on
    [split] and [get_clean_path] show is enough; that of [replace] is an
    argument, since with an empty pattern none is enough; decoders and readers get the
    length of the input, as every frame and every line is at least a byte; a loop
    over the chains of a byte buffer gets one step more than its heap has blocks,
    and the theorems on the buffers show that it is enough.
    [advance] takes the number of executions as fuel:
    [TimerProps.advance_on_time] shows that some number is enough.  Endless loops
    (timers, metrics, the scheduler, event loops) are modelled by the turn, with the
    number of turns as an argument.  Decimal numbers have at most 20 digits,
    those of 64-bit values.

    ** Not modelled

    The text, the patterns and the flushing of log messages and what goes to the
    console; [database/main.cpp], [str_test] and [json], which print what a
    library or nothing answers; [singleton.h], [defines.h] and [ip_head.h], which
    have no operations; the generated headers of [gennerate_file]; what is
    vendored ([deps], [json.hpp], [concurrentqueue.h], the Redis and
    glog headers) but for the part of libevent named above.  Of [buffer.c] that
    leaves out prepending, moving chains between buffers, searching, callbacks, and
    the making of pinned, referenced and file chains, none of which the connections
    use.  [getopt] follows the C library without [POSIXLY_CORRECT]: it
    looks at the arguments in their order, options behind other arguments
    included.  The statement queue of DBWork is a list, in the order of its one
    producer.  What a data race does is outside the model: its accesses are
    steps in some order. *)
From stdpp Require Export prelude gmap strings list fin_maps numbers sorting.
From Stdlib Require Export Ascii.

(** ** Results of code that may stop

    [Thrown] is a C++ exception, [AssertFailed] a failing [assert] or [std::terminate],
    [Undefined] undefined behaviour (an access outside an object, a null
    dereference), [OutOfFuel] a loop bound of the model that was too small, [Exited] a call of
    [exit]. *)
Inductive fault : Type :=
  | Undefined
  | AssertFailed
  | Thrown
  | OutOfFuel
  | Exited (code : Z).

#[export] Instance fault_eq_dec : EqDecision fault.
Proof. solve_decision. Defined.

Inductive res (A : Type) : Type :=
  | Ok (a : A)
  | Fault (f : fault).
Arguments Ok {A} _.
Arguments Fault {A} _.

#[export] Instance res_ret : MRet res := @Ok.
#[export] Instance res_bind : MBind res :=
  fun A B k m => match m with Ok a => k a | Fault f => Fault f end.

Lemma res_bind_Ok {A B} (m : res A) (k : A -> res B) (b : B) :
  (m ≫= k) = Ok b <-> exists a, m = Ok a /\ k a = Ok b.
Proof. destruct m; simpl; split; [eauto | by intros (? & [= ->] & ?) | discriminate | by intros (? & ? & ?)]. Qed.

(** The value of a computation that is known to succeed. *)
Definition from_ok {A} (d : A) (r : res A) : A := match r with Ok a => a | Fault _ => d end.

(** An array or vector access: outside the object it is undefined. *)
Definition at_index {A} (l : list A) (i : nat) : res A :=
  match l !! i with Some x => Ok x | None => Fault Undefined end.

(** ** Machine integers

    A value of an unsigned [w]-bit type is a [Z] in [0, 2^w); arithmetic wraps
    with [uN].  A value of a signed type is a [Z] in [-2^(w-1), 2^(w-1)). *)
Open Scope Z_scope.

Definition wrap (w z : Z) : Z := z mod 2 ^ w.
Definition u8 (z : Z) : Z := wrap 8 z.
Definition u16 (z : Z) : Z := wrap 16 z.
Definition u32 (z : Z) : Z := wrap 32 z.
Definition u64 (z : Z) : Z := wrap 64 z.
Definition swrap (w z : Z) : Z := (z + 2 ^ (w - 1)) mod 2 ^ w - 2 ^ (w - 1).
Definition i32 (z : Z) : Z := swrap 32 z.
Definition i64 (z : Z) : Z := swrap 64 z.

(** Ranges, as booleans so that closed instances compute. *)
Definition in_u (w z : Z) : Prop := 0 <= z < 2 ^ w.
Definition in_s (w z : Z) : Prop := - 2 ^ (w - 1) <= z < 2 ^ (w - 1).

Lemma wrap_small w z : in_u w z -> wrap w z = z.
Proof. intros H. apply Z.mod_small, H. Qed.

Lemma wrap_range w z : 0 <= w -> in_u w (wrap w z).
Proof. intros H. apply Z.mod_pos_bound, Z.pow_pos_nonneg; lia. Qed.

Lemma u64_small z : 0 <= z < 2 ^ 64 -> u64 z = z.
Proof. apply wrap_small. Qed.
Lemma u32_small z : 0 <= z < 2 ^ 32 -> u32 z = z.
Proof. apply wrap_small. Qed.
Lemma u16_small z : 0 <= z < 2 ^ 16 -> u16 z = z.
Proof. apply wrap_small. Qed.
Lemma u8_small z : 0 <= z < 2 ^ 8 -> u8 z = z.
Proof. apply wrap_small. Qed.

Lemma swrap_small w z : in_s w z -> 0 < w -> swrap w z = z.
Proof.
  intros [H1 H2] Hw. unfold swrap.
  assert (2 ^ w = 2 * 2 ^ (w - 1)) as E
    by (rewrite <- Z.pow_succ_r by lia; f_equal; lia).
  rewrite Z.mod_small; lia.
Qed.

Lemma i32_small z : - 2 ^ 31 <= z < 2 ^ 31 -> i32 z = z.
Proof. intros H. apply swrap_small; [exact H | lia]. Qed.
Lemma i64_small z : - 2 ^ 63 <= z < 2 ^ 63 -> i64 z = z.
Proof. intros H. apply swrap_small; [exact H | lia]. Qed.

Lemma land_mask n z : 0 <= n -> Z.land z (Z.ones n) = z mod 2 ^ n.
Proof. apply Z.land_ones. Qed.

(** ** Filtered lists *)
Lemma length_filter_map {A B} (f : A -> B) (P : B -> bool) (l : list A) :
  length (filter (fun x => P (f x) = true) l) = length (filter (fun y => P y = true) (map f l)).
Proof.
  induction l as [|x l IH]; [done |]. cbn [map]. rewrite !filter_cons.
  destruct (decide (P (f x) = true)); cbn [length]; by rewrite ?IH.
Qed.

Lemma filter_none {A} (P : A -> Prop) `{forall x, Decision (P x)} (l : list A) :
  (forall x, x ∈ l -> ~ P x) -> filter P l = [].
Proof.
  induction l as [|x l IH]; intros Hn; [done |]. rewrite filter_cons_False by (apply Hn; left).
  apply IH. intros y Hy. apply Hn. by right.
Qed.

Lemma filter_all {A} (P : A -> Prop) `{forall x, Decision (P x)} (l : list A) :
  (forall x, x ∈ l -> P x) -> filter P l = l.
Proof.
  induction l as [|x l IH]; intros Ha; [done |]. rewrite filter_cons_True by (apply Ha; left).
  f_equal. apply IH. intros y Hy. apply Ha. by right.
Qed.

Lemma filter_same {A} (P Q : A -> bool) (l : list A) : (forall x, x ∈ l -> P x = Q x) ->
  filter (fun x => P x = true) l = filter (fun x => Q x = true) l.
Proof.
  induction l as [|x l IH]; intros H; [done |]. rewrite !filter_cons, (H x) by left.
  rewrite IH by (intros y Hy; apply H; by right). done.
Qed.

Lemma filter_only (c : Z) (l : list Z) : NoDup l -> c ∈ l -> length (filter (fun j => (j =? c) = true) l) = 1%nat.
Proof.
  intros Hn Hc. apply list_elem_of_split in Hc as (l1 & l2 & ->).
  apply NoDup_app in Hn as (H1 & H2 & H3). apply NoDup_cons in H3 as [H3 H4].
  rewrite filter_app, filter_cons_True, length_app by (by apply Z.eqb_eq).
  rewrite !filter_none; [done | |].
  - intros x Hx ->%Z.eqb_eq. done.
  - intros x Hx ->%Z.eqb_eq. by apply (H2 c Hx), list_elem_of_here.
Qed.

(** ** Tactics *)

Create HintDb sample discriminated.
#[export] Hint Resolve wrap_range : sample.

(** Take apart conjunctions, existentials and [Ok] equations. *)
Ltac inv_res :=
  repeat match goal with
  | H : Ok _ = Ok _ |- _ => injection H as H; subst
  | H : Fault _ = Ok _ |- _ => discriminate H
  | H : Ok _ = Fault _ |- _ => discriminate H
  | H : (_ ≫= _) = Ok _ |- _ =>
      apply res_bind_Ok in H; destruct H as (? & ? & H)
  | H : _ /\ _ |- _ => destruct H
  | H : exists _, _ |- _ => destruct H
  end.

Ltac case_bool :=
  match goal with
  | |- context [?a <? ?b] => destruct (Z.ltb_spec a b)
  | |- context [?a <=? ?b] => destruct (Z.leb_spec a b)
  | |- context [?a =? ?b] => destruct (Z.eqb_spec a b)
  | H : context [?a <? ?b] |- _ => destruct (Z.ltb_spec a b)
  | H : context [?a <=? ?b] |- _ => destruct (Z.leb_spec a b)
  | H : context [?a =? ?b] |- _ => destruct (Z.eqb_spec a b)
  end.

(** [lia] with quotients and remainders by constants. *)
Ltac zdiv := Z.to_euclidean_division_equations; lia.
