(* ===== verification/TimerWheel.v ===== *)
(** * The hierarchical timer wheel: [src/src/mybase/src/timer-wheel.h]

    The state is the C++ object graph: the event objects ([heap], by address)
    with their [slot_], [next_] and [prev_] pointers, the [events_] head of every
    slot, the eight [now_] counters and [ticks_pending_].  Every operation is
    translated pointer write by pointer write. *)
From S2P Require Import Prelude.
Open Scope Z_scope.

(** ** Constants (timer-wheel.h:257-263) *)
Definition WIDTH_BITS : Z := 8.
Definition NUM_LEVELS : Z := (64 + WIDTH_BITS - 1) / WIDTH_BITS.
Definition MAX_LEVEL : Z := NUM_LEVELS - 1.
Definition NUM_SLOTS : Z := Z.shiftl 1 WIDTH_BITS.
Definition MASK : Z := NUM_SLOTS - 1.

(** [Tick] is [uint64_t]. *)
Abbreviation Tick := Z.
(** The address of an event object. *)
Abbreviation eid := positive.
(** The address of a slot: [&slots_[level][slot_index]]. *)
Abbreviation slot_id := (nat * Z)%type.

(** The fields of [TimerEventInterface]; [None] is [NULL]. *)
Record TimerEventInterface : Type := mkEvent {
  scheduled_at_ : Tick;
  slot_ : option slot_id;
  next_ : option eid;
  prev_ : option eid }.

#[export] Instance event_inhabited : Inhabited TimerEventInterface :=
  populate (mkEvent 0 None None None).

(** A [TimerWheel] and the event objects it links.  [slots_] maps a slot to its
    [events_] pointer; a slot that is not in the map has [events_ == NULL].  An
    event that is not in [heap] has never been linked. *)
Record TimerWheel : Type := mkWheel {
  now_ : list Tick;
  ticks_pending_ : Tick;
  slots_ : gmap slot_id eid;
  heap : gmap eid TimerEventInterface }.

Definition TimerWheel_init (now : Tick) : TimerWheel :=
  mkWheel (map (fun i => Z.shiftr now (WIDTH_BITS * Z.of_nat i))
               (seq 0 (Z.to_nat NUM_LEVELS)))
          0 ∅ ∅.

(** ** Field access *)
Definition ev (w : TimerWheel) (e : eid) : TimerEventInterface := heap w !!! e.

Definition put_event (e : eid) (x : TimerEventInterface) (w : TimerWheel) : TimerWheel :=
  mkWheel (now_ w) (ticks_pending_ w) (slots_ w) (<[e := x]> (heap w)).

Definition set_next (e : eid) (n : option eid) (w : TimerWheel) : TimerWheel :=
  let x := ev w e in put_event e (mkEvent (scheduled_at_ x) (slot_ x) n (prev_ x)) w.
Definition set_prev (e : eid) (p : option eid) (w : TimerWheel) : TimerWheel :=
  let x := ev w e in put_event e (mkEvent (scheduled_at_ x) (slot_ x) (next_ x) p) w.
Definition set_slot (e : eid) (s : option slot_id) (w : TimerWheel) : TimerWheel :=
  let x := ev w e in put_event e (mkEvent (scheduled_at_ x) s (next_ x) (prev_ x)) w.
Definition set_scheduled_at (e : eid) (ts : Tick) (w : TimerWheel) : TimerWheel :=
  let x := ev w e in put_event e (mkEvent ts (slot_ x) (next_ x) (prev_ x)) w.

Definition set_head (s : slot_id) (h : option eid) (w : TimerWheel) : TimerWheel :=
  mkWheel (now_ w) (ticks_pending_ w) (partial_alter (fun _ => h) s (slots_ w)) (heap w).
Definition set_now (level : nat) (t : Tick) (w : TimerWheel) : TimerWheel :=
  mkWheel (<[level := t]> (now_ w)) (ticks_pending_ w) (slots_ w) (heap w).
Definition set_pending (t : Tick) (w : TimerWheel) : TimerWheel :=
  mkWheel (now_ w) t (slots_ w) (heap w).

Definition now (w : TimerWheel) : Tick := now_ w !!! 0%nat.
Definition active (w : TimerWheel) (e : eid) : bool := bool_decide (slot_ (ev w e) <> None).
Definition scheduled_at (w : TimerWheel) (e : eid) : Tick := scheduled_at_ (ev w e).

(** ** Events: relink, cancel, pop *)

(** [TimerEventInterface::relink], first half: unlink from the old location. *)
Definition unlink (e : eid) (w : TimerWheel) : TimerWheel :=
  match slot_ (ev w e) with
  | Some s =>
      let prev := prev_ (ev w e) in
      let next := next_ (ev w e) in
      let w := match next with Some n => set_prev n prev w | None => w end in
      match prev with
      | Some p => set_next p next w
      | None => set_head s next w
      end
  | None => w
  end.

(** Second half: insert in the new slot. *)
Definition insert_in (e : eid) (new_slot : option slot_id) (w : TimerWheel) : TimerWheel :=
  let w :=
    match new_slot with
    | Some s =>
        let old := slots_ w !! s in
        let w := set_next e old w in
        let w := match old with Some o => set_prev o (Some e) w | None => w end in
        set_head s (Some e) w
    | None => set_next e None w
    end in
  let w := set_prev e None w in
  set_slot e new_slot w.

Definition relink (e : eid) (new_slot : option slot_id) (w : TimerWheel) : TimerWheel :=
  if decide (new_slot = slot_ (ev w e)) then w
  else insert_in e new_slot (unlink e w).

(** [TimerEventInterface::cancel] *)
Definition cancel (e : eid) (w : TimerWheel) : TimerWheel :=
  match slot_ (ev w e) with
  | None => w
  | Some _ => relink e None w
  end.

(** [TimerWheelSlot::pop_event], called with [events_] not null. *)
Definition pop_event (s : slot_id) (event : eid) (w : TimerWheel) : TimerWheel :=
  let w := set_head s (next_ (ev w event)) w in
  let w := match slots_ w !! s with Some h => set_prev h None w | None => w end in
  let w := set_next event None w in
  set_slot event None w.

(** ** Scheduling *)

(** The loop of [TimerWheel::schedule]: it walks the [now_] array; reading past
    its end is undefined. *)
Fixpoint find_slot (nows : list Tick) (level : nat) (delta : Tick) : res slot_id :=
  match nows with
  | [] => Fault Undefined
  | n :: rest =>
      if NUM_SLOTS <=? delta
      then find_slot rest (S level)
             (Z.shiftr (u64 (delta + Z.land n MASK)) WIDTH_BITS)
      else Ok (level, Z.land (u64 (n + delta)) MASK)
  end.

(** [TimerWheel::schedule] *)
Definition schedule (event : eid) (delta : Tick) (w : TimerWheel) : res TimerWheel :=
  if negb (0 <? delta) then Fault AssertFailed
  else
    let w := set_scheduled_at event (u64 (now w + delta)) w in
    slot ← find_slot (now_ w) 0 delta;
    Ok (relink event (Some slot) w).

(** The mask loop of [TimerWheel::schedule_in_range]; [mask] loses eight bits in
    each round, so it is 0 after eight. *)
Fixpoint range_mask (fuel : nat) (start end_ mask : Tick) : res Tick :=
  match fuel with
  | O => Fault OutOfFuel
  | S f =>
      if Z.land start mask =? Z.land end_ mask then Ok mask
      else range_mask f start end_ (u64 (Z.shiftl mask WIDTH_BITS))
  end.

Definition range_delta (start end_ : Tick) : res Tick :=
  mask ← range_mask 9 start end_ (2 ^ 64 - 1);
  Ok (Z.land end_ (Z.shiftr mask WIDTH_BITS)).

(** [TimerWheel::schedule_in_range] *)
Definition schedule_in_range (event : eid) (start end_ : Tick) (w : TimerWheel) : res TimerWheel :=
  if negb (start <? end_) then Fault AssertFailed
  else
    let current := u64 (scheduled_at w event - now w) in
    if active w event && (start <=? current) && (current <=? end_) then Ok w
    else
      delta ← range_delta start end_;
      schedule event delta w.

(** ** ticks_to_next_event *)

(** The events linked from [h] along [next_]; [fuel] bounds the walk. *)
Fixpoint walk (fuel : nat) (w : TimerWheel) (h : option eid) : list eid :=
  match fuel, h with
  | S f, Some e => e :: walk f w (next_ (ev w e))
  | _, _ => []
  end.

Definition slot_events (w : TimerWheel) (s : slot_id) : list eid :=
  walk (S (size (heap w))) w (slots_ w !! s).

Definition min_over (w : TimerWheel) (m : Tick) (l : list eid) : Tick :=
  fold_left (fun m e => Z.min m (u64 (scheduled_at w e - now w))) l m.

(** One round of the slot loop: [inl] is a [return]. *)
Definition ticks_round (w : TimerWheel) (level : nat) (i : Z) (m : Tick) : Tick + Tick :=
  let slot_index := Z.land (u64 (now_ w !!! level + 1 + i)) MASK in
  let m :=
    if (slot_index =? 0) && (Z.of_nat level <? MAX_LEVEL)
       && ((0 <? Z.of_nat level) || bool_decide (slots_ w !! (level, slot_index) = None))
    then
      let up_slot_index := Z.land (u64 (now_ w !!! S level + 1)) MASK in
      min_over w m (slot_events w (S level, up_slot_index))
    else m in
  match slot_events w (level, slot_index) with
  | [] => inr m
  | e :: rest =>
      if (level =? 0)%nat then inl (min_over w m [e])
      else inl (min_over w m (e :: rest))
  end.

Fixpoint ticks_loop (w : TimerWheel) (level : nat) (n : nat) (i : Z) (m : Tick) : Tick + Tick :=
  match n with
  | O => inr m
  | S n' =>
      match ticks_round w level i m with
      | inl r => inl r
      | inr m' => ticks_loop w level n' (i + 1) m'
      end
  end.

(** [k] is the number of levels above; [level] is [MAX_LEVEL - k]. *)
Fixpoint ticks_from (k : nat) (w : TimerWheel) (max : Tick) : Tick :=
  let level := (Z.to_nat MAX_LEVEL - k)%nat in
  if negb (ticks_pending_ w =? 0) then 0
  else
    match ticks_loop w level (Z.to_nat NUM_SLOTS) 0 max with
    | inl r => r
    | inr _ =>
        match k with
        | O => max
        | S k' =>
            if 0 <? Z.shiftr max (WIDTH_BITS * Z.of_nat level + 1)
            then ticks_from k' w max
            else max
        end
    end.

(** [TimerWheel::ticks_to_next_event] *)
Definition ticks_to_next_event (w : TimerWheel) (max : Tick) (level : nat) : Tick :=
  ticks_from (Z.to_nat MAX_LEVEL - level) w max.

(** ** Linked slots

    [dseg w s p l n]: the events [l] form a segment of slot [s]'s list, with
    [p] the event before it and [n] the event after it. *)
Fixpoint dseg (w : TimerWheel) (s : slot_id) (p : option eid) (l : list eid) (n : option eid) : Prop :=
  match l with
  | [] => True
  | e :: l' =>
      slot_ (ev w e) = Some s /\ prev_ (ev w e) = p /\
      next_ (ev w e) = match l' with [] => n | e' :: _ => Some e' end /\
      dseg w s (Some e) l' n
  end.

(** [linked w L]: slot [s] links exactly the events [L s], in order, and no
    other event says it is in [s]. *)
Record linked (w : TimerWheel) (L : slot_id -> list eid) : Prop := {
  linked_head : forall s, slots_ w !! s = head (L s);
  linked_seg : forall s, dseg w s None (L s) None;
  linked_nodup : forall s, NoDup (L s);
  linked_all : forall e s, slot_ (ev w e) = Some s -> e ∈ L s }.

(** Replacing the list of one slot. *)
Definition upd_slot (L : slot_id -> list eid) (s : slot_id) (l : list eid) : slot_id -> list eid :=
  fun s' => if decide (s' = s) then l else L s'.

Lemma upd_slot_eq L s l : upd_slot L s l s = l.
Proof. unfold upd_slot. by rewrite decide_True. Qed.
Lemma upd_slot_ne L s l s' : s' <> s -> upd_slot L s l s' = L s'.
Proof. intros H. unfold upd_slot. by rewrite decide_False. Qed.

(** *** Reading back field writes *)
Lemma ev_put_eq e x w : ev (put_event e x w) e = x.
Proof. unfold ev, put_event. simpl. apply lookup_total_insert_eq. Qed.
Lemma ev_put_ne e e' x w : e <> e' -> ev (put_event e x w) e' = ev w e'.
Proof. intros H. unfold ev, put_event. simpl. by apply lookup_total_insert_ne. Qed.
Lemma slots_set_head s h w : slots_ (set_head s h w) !! s = h.
Proof. unfold set_head. simpl. apply lookup_partial_alter_eq. Qed.
Lemma slots_set_head_ne s s' h w : s <> s' -> slots_ (set_head s h w) !! s' = slots_ w !! s'.
Proof. intros. unfold set_head. simpl. by apply lookup_partial_alter_ne. Qed.

Lemma dseg_slot w s p l n e : dseg w s p l n -> e ∈ l -> slot_ (ev w e) = Some s.
Proof.
  revert p. induction l as [|x l IH]; intros p Hd He; [by apply not_elem_of_nil in He |].
  destruct Hd as (Hs & _ & _ & Hd). apply elem_of_cons in He as [-> | He]; eauto.
Qed.

(** A segment only depends on its own events. *)
Lemma dseg_frame w w' s p l n :
  (forall e, e ∈ l -> ev w' e = ev w e) -> dseg w s p l n -> dseg w' s p l n.
Proof.
  revert p. induction l as [|x l IH]; intros p Hf Hd; [done |].
  destruct Hd as (Hs & Hp & Hn & Hd). simpl. rewrite !(Hf x) by set_solver.
  repeat split; try done. apply IH; [set_solver | done].
Qed.

Definition hd_or (l : list eid) (n : option eid) : option eid :=
  match l with [] => n | e :: _ => Some e end.
Definition last_or (l : list eid) (p : option eid) : option eid :=
  match last l with Some e => Some e | None => p end.

Lemma last_or_cons e l p : last_or (e :: l) p = last_or l (Some e).
Proof. unfold last_or. rewrite last_cons. by destruct (last l). Qed.

Lemma dseg_app w s p l1 l2 n :
  dseg w s p (l1 ++ l2) n <->
  dseg w s p l1 (hd_or l2 n) /\ dseg w s (last_or l1 p) l2 n.
Proof.
  revert p. induction l1 as [|x l1 IH]; intros p; simpl; [tauto |].
  rewrite last_or_cons, IH. clear IH.
  destruct l1 as [|y l1]; simpl; [destruct l2; simpl; tauto | tauto].
Qed.

(** Changing the [next_] of the last event, the [prev_] of the first. *)
Lemma dseg_set_next w s p l e n n' :
  NoDup (l ++ [e]) -> dseg w s p (l ++ [e]) n ->
  dseg (set_next e n' w) s p (l ++ [e]) n'.
Proof.
  intros Hnd [H1 (Hs & Hp & Hn & _)]%dseg_app. apply dseg_app. split.
  - eapply dseg_frame; [| exact H1]. intros x Hx. apply ev_put_ne.
    apply NoDup_app in Hnd as (_ & Hnd & _). set_solver.
  - simpl. unfold set_next. rewrite ev_put_eq. simpl. done.
Qed.

Lemma dseg_set_prev w s p p' l e n :
  NoDup (e :: l) -> dseg w s p (e :: l) n ->
  dseg (set_prev e p' w) s p' (e :: l) n.
Proof.
  intros Hnd (Hs & Hp & Hn & H). simpl. unfold set_prev. rewrite ev_put_eq. simpl.
  repeat split; try done. eapply dseg_frame; [| exact H].
  intros x Hx. apply ev_put_ne. apply NoDup_cons in Hnd as [Hnd _]. set_solver.
Qed.

(** [w'] has the links of [w]: only [scheduled_at_], clocks differ. *)
Definition same_links (w w' : TimerWheel) : Prop :=
  slots_ w' = slots_ w /\
  forall e, slot_ (ev w' e) = slot_ (ev w e) /\ next_ (ev w' e) = next_ (ev w e)
            /\ prev_ (ev w' e) = prev_ (ev w e).

Lemma dseg_same w w' s p l n : same_links w w' -> dseg w s p l n -> dseg w' s p l n.
Proof.
  intros [_ H]. revert p. induction l as [|x l IH]; intros p; simpl; [done |].
  destruct (H x) as (-> & -> & ->). intros (?&?&?&?). by auto.
Qed.

Lemma linked_same w w' L : same_links w w' -> linked w L -> linked w' L.
Proof.
  intros Hs [H1 H2 H3 H4]. pose proof Hs as [Hsl Hev]. split.
  - intros s. by rewrite Hsl.
  - intros s. eapply dseg_same; eauto.
  - done.
  - intros e s. destruct (Hev e) as (-> & _). apply H4.
Qed.

(** [linked] for every event but [e], which is in no slot. *)
Record linked_but (e : eid) (w : TimerWheel) (L : slot_id -> list eid) : Prop := {
  lb_head : forall s, slots_ w !! s = head (L s);
  lb_seg : forall s, dseg w s None (L s) None;
  lb_nodup : forall s, NoDup (L s);
  lb_all : forall x s, x <> e -> slot_ (ev w x) = Some s -> x ∈ L s;
  lb_out : forall s, e ∉ L s }.

Lemma linked_slot w L e s : linked w L -> e ∈ L s <-> slot_ (ev w e) = Some s.
Proof.
  intros H. split; [| apply (linked_all _ _ H)].
  apply (dseg_slot w s None (L s) None), (linked_seg _ _ H).
Qed.

Lemma linked_free w L e : linked w L -> slot_ (ev w e) = None -> linked_but e w L.
Proof.
  intros H He. split; try apply H.
  - intros x s _. apply H.
  - intros s Hs. apply (linked_slot w L e s H) in Hs. congruence.
Qed.

(** Reading an event after a field write. *)
Create HintDb wheel discriminated.
Create Rewrite HintDb wheel.
Lemma ev_set_next e n w x :
  ev (set_next e n w) x =
  if decide (e = x) then mkEvent (scheduled_at_ (ev w x)) (slot_ (ev w x)) n (prev_ (ev w x))
  else ev w x.
Proof. unfold set_next. case_decide as H; [subst; apply ev_put_eq | by apply ev_put_ne]. Qed.
Lemma ev_set_prev e n w x :
  ev (set_prev e n w) x =
  if decide (e = x) then mkEvent (scheduled_at_ (ev w x)) (slot_ (ev w x)) (next_ (ev w x)) n
  else ev w x.
Proof. unfold set_prev. case_decide as H; [subst; apply ev_put_eq | by apply ev_put_ne]. Qed.
Lemma ev_set_slot e n w x :
  ev (set_slot e n w) x =
  if decide (e = x) then mkEvent (scheduled_at_ (ev w x)) n (next_ (ev w x)) (prev_ (ev w x))
  else ev w x.
Proof. unfold set_slot. case_decide as H; [subst; apply ev_put_eq | by apply ev_put_ne]. Qed.
Lemma ev_set_scheduled_at e t w x :
  ev (set_scheduled_at e t w) x =
  if decide (e = x) then mkEvent t (slot_ (ev w x)) (next_ (ev w x)) (prev_ (ev w x))
  else ev w x.
Proof. unfold set_scheduled_at. case_decide as H; [subst; apply ev_put_eq | by apply ev_put_ne]. Qed.
Lemma ev_set_head s h w x : ev (set_head s h w) x = ev w x.
Proof. done. Qed.
#[export] Hint Rewrite ev_set_next ev_set_prev ev_set_slot ev_set_scheduled_at ev_set_head : wheel.

Ltac ev_cases :=
  autorewrite with wheel; repeat (case_decide; simplify_eq/=); try done.

(** The slot and the deadline of every event, and the clocks. *)
Definition same_frame (w w' : TimerWheel) : Prop :=
  now_ w' = now_ w /\ ticks_pending_ w' = ticks_pending_ w /\
  forall x, scheduled_at w' x = scheduled_at w x.

Lemma same_frame_refl w : same_frame w w.
Proof. by repeat split. Qed.
Lemma same_frame_trans w1 w2 w3 : same_frame w1 w2 -> same_frame w2 w3 -> same_frame w1 w3.
Proof. intros (?&?&H) (?&?&H'). repeat split; congruence. Qed.

Lemma set_next_frame e n w : same_frame w (set_next e n w).
Proof. repeat split. intros x. unfold scheduled_at. by ev_cases. Qed.
Lemma set_prev_frame e n w : same_frame w (set_prev e n w).
Proof. repeat split. intros x. unfold scheduled_at. by ev_cases. Qed.
Lemma set_slot_frame e n w : same_frame w (set_slot e n w).
Proof. repeat split. intros x. unfold scheduled_at. by ev_cases. Qed.
Lemma set_head_frame s n w : same_frame w (set_head s n w).
Proof. by repeat split. Qed.

#[export] Hint Resolve same_frame_refl set_next_frame set_prev_frame
  set_slot_frame set_head_frame : wheel.
Ltac frame :=
  repeat (first [ solve [auto with wheel] | case_match
                | eapply same_frame_trans; [| solve [auto with wheel]] ]).

Lemma unlink_frame e w : same_frame w (unlink e w).
Proof. unfold unlink. frame. Qed.
Lemma insert_in_frame e s w : same_frame w (insert_in e s w).
Proof. unfold insert_in. simpl. frame. Qed.
Lemma relink_frame e s w : same_frame w (relink e s w).
Proof.
  unfold relink. case_decide; [apply same_frame_refl |].
  eapply same_frame_trans; [apply unlink_frame | apply insert_in_frame].
Qed.
Lemma pop_event_frame s e w : same_frame w (pop_event s e w).
Proof. unfold pop_event. simpl. frame. Qed.

Lemma unlink_slot e w x : slot_ (ev (unlink e w) x) = slot_ (ev w x).
Proof. unfold unlink. repeat case_match; ev_cases; done. Qed.

Lemma insert_in_slot e s w x :
  slot_ (ev (insert_in e s w) x) = if decide (x = e) then s else slot_ (ev w x).
Proof.
  unfold insert_in. simpl.
  destruct s as [s|]; [destruct (slots_ w !! s) |]; ev_cases.
Qed.

Lemma relink_slot e s w x :
  slot_ (ev (relink e s w) x) = if decide (x = e) then s else slot_ (ev w x).
Proof.
  unfold relink. case_decide as Hd.
  - by case_decide; subst.
  - rewrite insert_in_slot. by rewrite unlink_slot.
Qed.

(** *** The pointer operations implement the list operations *)

Lemma upd_slot_in L s l s' x :
  (forall y, y ∈ l -> y ∈ L s) -> x ∈ upd_slot L s l s' -> x ∈ L s'.
Proof. intros H. unfold upd_slot. case_decide; subst; auto. Qed.

Lemma head_hd_or (l : list eid) : head l = hd_or l None.
Proof. by destruct l. Qed.
Lemma hd_or_app l1 l2 n : hd_or (l1 ++ l2) n = hd_or l1 (hd_or l2 n).
Proof. by destruct l1. Qed.

Lemma dseg_prev w s p l1 e l2 n :
  dseg w s p (l1 ++ e :: l2) n -> prev_ (ev w e) = last_or l1 p.
Proof. intros [_ (_ & H & _)]%dseg_app. done. Qed.
Lemma dseg_next w s p l1 e l2 n :
  dseg w s p (l1 ++ e :: l2) n -> next_ (ev w e) = hd_or l2 n.
Proof. intros [_ (_ & _ & H & _)]%dseg_app. by destruct l2. Qed.

(** Segments of events that a write does not touch. *)
Lemma dseg_set_next_out w s p l n e v :
  e ∉ l -> dseg w s p l n -> dseg (set_next e v w) s p l n.
Proof. intros He. apply dseg_frame. intros x Hx. ev_cases. Qed.
Lemma dseg_set_prev_out w s p l n e v :
  e ∉ l -> dseg w s p l n -> dseg (set_prev e v w) s p l n.
Proof. intros He. apply dseg_frame. intros x Hx. ev_cases. Qed.
Lemma dseg_set_slot_out w s p l n e v :
  e ∉ l -> dseg w s p l n -> dseg (set_slot e v w) s p l n.
Proof. intros He. apply dseg_frame. intros x Hx. ev_cases. Qed.

(** Bridging the gap left by [e] between [l1] and [l2]. *)
Definition bridge_next (w : TimerWheel) (l2 : list eid) (p : option eid) : TimerWheel :=
  match hd_or l2 None with Some n => set_prev n p w | None => w end.

Lemma bridge_next_seg w s p l2 :
  NoDup l2 ->
  forall q, dseg w s q l2 None -> dseg (bridge_next w l2 p) s p l2 None.
Proof.
  intros Hnd q. unfold bridge_next. destruct l2 as [|n l2]; simpl hd_or; [done |].
  apply (dseg_set_prev w s q p l2 n None Hnd).
Qed.

Lemma bridge_next_out w s q l n p l2 :
  (forall x, x ∈ l -> x ∉ l2) -> dseg w s q l n -> dseg (bridge_next w l2 p) s q l n.
Proof.
  intros Hd. unfold bridge_next. destruct l2 as [|m l2]; simpl; [done |].
  apply dseg_set_prev_out. intros Hm. apply (Hd m Hm). set_solver.
Qed.

Lemma dseg_slot_other w L s s' x : linked w L -> s' <> s -> x ∈ L s -> x ∉ L s'.
Proof. intros H Hne Hx Hx'. apply (linked_slot _ _ _ _ H) in Hx, Hx'. congruence. Qed.

(** [unlink] of the event between [l1] and [l2]. *)
Definition bridge (s : slot_id) (l1 l2 : list eid) (w : TimerWheel) : TimerWheel :=
  let w := bridge_next w l2 (last_or l1 None) in
  match last_or l1 None with
  | Some p => set_next p (hd_or l2 None) w
  | None => set_head s (hd_or l2 None) w
  end.

Lemma unlink_bridge e w s l1 l2 :
  slot_ (ev w e) = Some s -> dseg w s None (l1 ++ e :: l2) None -> unlink e w = bridge s l1 l2 w.
Proof.
  intros Hs Hseg. unfold unlink. rewrite Hs.
  by rewrite (dseg_prev _ _ _ _ _ _ _ Hseg), (dseg_next _ _ _ _ _ _ _ Hseg).
Qed.

Lemma bridge_head w s l1 l2 s' e :
  slots_ w !! s = head (l1 ++ e :: l2) ->
  slots_ (bridge s l1 l2 w) !! s' = if decide (s' = s) then head (l1 ++ l2) else slots_ w !! s'.
Proof.
  intros Hh. unfold bridge, last_or. destruct (decide (s' = s)) as [->|Hne].
  - destruct (last l1) as [p|] eqn:E1.
    + transitivity (slots_ w !! s); [unfold bridge_next; by destruct (hd_or l2 None) |].
      rewrite Hh. by destruct l1.
    + apply last_None in E1 as ->. rewrite slots_set_head. by destruct l2.
  - unfold bridge_next. destruct (last l1), (hd_or l2 None); try done; by rewrite slots_set_head_ne by done.
Qed.

Lemma bridge_seg w s l1 l2 e :
  NoDup (l1 ++ e :: l2) -> dseg w s None (l1 ++ e :: l2) None -> dseg (bridge s l1 l2 w) s None (l1 ++ l2) None.
Proof.
  intros (Hn1 & Hn12 & [He2 Hn2]%NoDup_cons)%NoDup_app [Hseg1 (_ & _ & _ & Hseg2)]%dseg_app.
  assert (forall x, x ∈ l1 -> x ∉ l2) as Hdis by set_solver.
  apply dseg_app. unfold bridge, last_or in *. destruct (last l1) as [p|] eqn:E1.
  - apply last_Some in E1 as [l1' ->]. split.
    + eapply dseg_set_next, bridge_next_out; [done | exact Hdis | exact Hseg1].
    + apply dseg_set_next_out; [set_solver |]. by eapply bridge_next_seg.
  - apply last_None in E1 as ->. split; [done |].
    apply (dseg_frame (bridge_next w l2 None)); [done |]. by eapply bridge_next_seg.
Qed.

Lemma bridge_seg_other w s l1 l2 s' l :
  (forall x, x ∈ l -> x ∉ l1 ++ l2) -> dseg w s' None l None -> dseg (bridge s l1 l2 w) s' None l None.
Proof.
  intros Hout Hs'.
  assert (dseg (bridge_next w l2 (last_or l1 None)) s' None l None) as Hb
    by (apply bridge_next_out; [set_solver | done]).
  unfold bridge, last_or in *. destruct (last l1) as [p|] eqn:E1.
  - apply dseg_set_next_out; [| done]. intros Hp. apply (Hout p Hp).
    apply last_Some in E1 as [l1' ->]. set_solver.
  - by apply (dseg_frame (bridge_next w l2 None)).
Qed.

Lemma unlink_linked e w L s l1 l2 :
  linked w L -> slot_ (ev w e) = Some s -> L s = l1 ++ e :: l2 ->
  linked_but e (unlink e w) (upd_slot L s (l1 ++ l2)).
Proof.
  intros HL Hs Hl. pose proof (linked_seg _ _ HL s) as Hseg. rewrite Hl in Hseg.
  pose proof (linked_nodup _ _ HL s) as Hnd. rewrite Hl in Hnd.
  pose proof Hnd as (Hn1 & Hn12 & [He2 Hn2]%NoDup_cons)%NoDup_app.
  assert (e ∉ l1 ++ l2) as Heout by (specialize (Hn12 e); set_solver).
  split; intros s'; [rewrite (unlink_bridge _ _ _ _ _ Hs Hseg).. | | |]; unfold upd_slot.
  - rewrite (bridge_head _ _ _ _ _ e) by (rewrite <- Hl; apply HL). case_decide; [done | apply HL].
  - case_decide as Hd; [subst; by apply (bridge_seg w s l1 l2 e) |].
    apply bridge_seg_other; [| apply HL]. intros x Hx Hx'.
    apply (dseg_slot_other w L s' s x HL); [congruence | done | rewrite Hl; set_solver].
  - case_decide; [apply NoDup_app; set_solver | apply HL].
  - intros s2 Hx. rewrite unlink_slot. intros Hx'.
    pose proof (linked_all _ _ HL _ _ Hx') as Hin.
    case_decide; subst; [rewrite Hl in Hin; set_solver | done].
  - case_decide as Hd; [done |]. apply (dseg_slot_other w L s s' e HL); [done | rewrite Hl; set_solver].
Qed.

(** The first writes of an insertion at the head of [s]: [e] before its list. *)
Definition link_front (e : eid) (l : list eid) (w : TimerWheel) : TimerWheel :=
  let w := set_next e (head l) w in
  match head l with Some o => set_prev o (Some e) w | None => w end.

Lemma link_front_next e l w : e ∉ l -> next_ (ev (link_front e l w) e) = head l.
Proof. unfold link_front. intros He. destruct l as [|o l]; simpl; ev_cases. Qed.

Lemma link_front_head e l w s : slots_ (link_front e l w) !! s = slots_ w !! s.
Proof. unfold link_front. by destruct (head l). Qed.

Lemma link_front_seg e w L s s' : linked_but e w L ->
  dseg (link_front e (L s) w) s' (if decide (s' = s) then Some e else None) (L s') None.
Proof.
  intros [Hh Hseg Hnd Hall Hout]. unfold link_front.
  assert (forall s', dseg (set_next e (head (L s)) w) s' None (L s') None) as Hw1
    by (intros x; by apply dseg_set_next_out). case_decide as Hd; [subst s'|].
  - specialize (Hw1 s). specialize (Hnd s). destruct (L s) as [|o l] eqn:E; [done |].
    by apply (dseg_set_prev _ s None).
  - specialize (Hw1 s'). destruct (L s) as [|o l] eqn:E; [done |]. apply dseg_set_prev_out; [| done].
    intros Ho. pose proof (dseg_slot _ _ _ _ _ _ (Hseg s') Ho) as E1.
    pose proof (dseg_slot _ _ _ _ _ o (Hseg s)) as E2. rewrite E in E2.
    assert (Some s' = Some s) by (rewrite <- E1; apply E2; set_solver). congruence.
Qed.

Lemma insert_linked e w L s :
  linked_but e w L -> linked (insert_in e (Some s) w) (upd_slot L s (e :: L s)).
Proof.
  intros Hb. pose proof (fun s' => link_front_seg e w L s s' Hb) as Hw2.
  destruct Hb as [Hh Hseg Hnd Hall Hout]. pose proof (link_front_next e (L s) w (Hout s)) as Hnext.
  split; intros s'; [| | |intros s2; rewrite insert_in_slot]; unfold upd_slot.
  4: { repeat case_decide; subst; intros Hx; simplify_eq; set_solver. }
  3: { case_decide; [by constructor | done]. }
  all: unfold insert_in; rewrite (Hh s); change (match head (L s) with
      | Some o => set_prev o (Some e) ?v | None => ?v end) with (link_front e (L s) w); set (w2 := link_front e (L s) w) in *.
  - transitivity (slots_ (set_head s (Some e) w2) !! s'); [done |].
    case_decide as Hd; [subst; apply slots_set_head |].
    rewrite slots_set_head_ne by done. unfold w2. by rewrite link_front_head.
  - assert (forall l p, e ∉ l -> dseg w2 s' p l None ->
      dseg (set_slot e (Some s) (set_prev e None (set_head s (Some e) w2))) s' p l None) as Hf.
    { intros l p He H. apply dseg_set_slot_out, dseg_set_prev_out; [done | done |]. by apply (dseg_frame w2). }
    specialize (Hw2 s'). case_decide as Hd; [subst s' | by apply Hf].
    cbn [dseg]. split; [ev_cases | split; [ev_cases | split; [| by apply Hf]]].
    transitivity (head (L s)); [| by destruct (L s)].
    rewrite <- Hnext. autorewrite with wheel. by rewrite !decide_True by done.
Qed.

Lemma insert_none_linked e w L :
  linked_but e w L -> linked (insert_in e None w) L.
Proof.
  intros [Hh Hseg Hnd Hall Hout]. split.
  - apply Hh.
  - intros s. unfold insert_in.
    apply dseg_set_slot_out, dseg_set_prev_out, dseg_set_next_out; auto.
  - done.
  - intros x s. rewrite insert_in_slot. case_decide; [done | by apply Hall].
Qed.

(** The contract of [relink] on the lists of the slots. *)
Definition drop_event (e : eid) (l : list eid) : list eid := filter (fun x => x <> e) l.

Definition list_relink (L : slot_id -> list eid) (e : eid) (old new : option slot_id)
    : slot_id -> list eid :=
  if decide (new = old) then L
  else
    let L1 := match old with Some s => upd_slot L s (drop_event e (L s)) | None => L end in
    match new with Some s => upd_slot L1 s (e :: L1 s) | None => L1 end.

Lemma linked_ext w L L' : (forall s, L s = L' s) -> linked w L -> linked w L'.
Proof.
  intros H [H1 H2 H3 H4]. split; [intros s | intros s | intros s | intros e s Hs];
    rewrite <- H; auto.
Qed.

Lemma drop_event_out e l : e ∉ l -> drop_event e l = l.
Proof.
  intros H. unfold drop_event. induction l as [|x l IH]; [done |].
  rewrite filter_cons_True by set_solver. f_equal. apply IH. set_solver.
Qed.

Lemma drop_event_mid e l1 l2 :
  NoDup (l1 ++ e :: l2) -> drop_event e (l1 ++ e :: l2) = l1 ++ l2.
Proof.
  intros (H1 & H2 & [H3 H4]%NoDup_cons)%NoDup_app. unfold drop_event.
  rewrite filter_app, filter_cons_False by auto.
  f_equal; apply drop_event_out; [| done]. intros He. apply (H2 e He). set_solver.
Qed.

Lemma unlink_linked_but e w L :
  linked w L ->
  linked_but e (unlink e w)
    (match slot_ (ev w e) with Some s => upd_slot L s (drop_event e (L s)) | None => L end).
Proof.
  intros HL. destruct (slot_ (ev w e)) as [s|] eqn:Hs.
  - pose proof (linked_all _ _ HL _ _ Hs) as (l1 & l2 & Hl)%list_elem_of_split.
    pose proof (linked_nodup _ _ HL s) as Hnd.
    rewrite Hl in Hnd |- *. rewrite (drop_event_mid _ _ _ Hnd). by apply unlink_linked.
  - unfold unlink. rewrite Hs. by apply linked_free.
Qed.

(** C-level refinement of [relink]. *)
Lemma relink_linked e new w L :
  linked w L -> linked (relink e new w) (list_relink L e (slot_ (ev w e)) new).
Proof.
  intros HL. unfold relink, list_relink. case_decide as Hd; [done |].
  pose proof (unlink_linked_but e w L HL) as Hb.
  destruct new as [s|]; [by apply insert_linked | by apply insert_none_linked].
Qed.

Lemma pop_event_linked w L s e l :
  linked w L -> L s = e :: l -> linked (pop_event s e w) (upd_slot L s l).
Proof.
  intros HL Hl. pose proof (linked_seg _ _ HL s) as Hseg.
  pose proof (linked_nodup _ _ HL s) as Hnd. rewrite Hl in Hseg, Hnd.
  destruct Hseg as (Hsl & Hpv & Hnx & Hrest). apply NoDup_cons in Hnd as [Hel Hnd].
  assert (next_ (ev w e) = head l) as Hnx' by (by destruct l).
  unfold pop_event. rewrite Hnx', slots_set_head.
  set (w0 := set_head s (head l) w).
  set (w1 := match head l with Some h => set_prev h None w0 | None => w0 end).
  assert (forall s' p l', e ∉ l' -> dseg w1 s' p l' None ->
    dseg (set_slot e None (set_next e None w1)) s' p l' None) as Hf.
  { intros s' p l' He H. by apply dseg_set_slot_out, dseg_set_next_out. }
  assert (forall s', s' <> s -> e ∉ L s' /\ forall x, x ∈ l -> x ∉ L s') as Hother.
  { intros s' Hne. split; [| intros x Hx];
      eapply (dseg_slot_other w L s); eauto; rewrite Hl; set_solver. }
  split.
  - intros s'. transitivity (slots_ w0 !! s'); [unfold w1; by destruct (head l) |].
    destruct (decide (s' = s)) as [->|Hne].
    + rewrite upd_slot_eq. apply slots_set_head.
    + rewrite upd_slot_ne by done. unfold w0. rewrite slots_set_head_ne by done. apply HL.
  - intros s'. destruct (decide (s' = s)) as [->|Hne].
    + rewrite upd_slot_eq. apply Hf; [done |].
      apply (dseg_frame (bridge_next w0 l None)).
      { intros x _. unfold w1, bridge_next. by destruct l. }
      eapply bridge_next_seg; [done |]. by apply (dseg_frame w).
    + rewrite upd_slot_ne by done. destruct (Hother s' Hne) as [He Hout].
      apply Hf; [done |]. unfold w1. pose proof (linked_seg _ _ HL s') as Hs'.
      destruct l as [|h l]; simpl; [by apply (dseg_frame w) |].
      apply dseg_set_prev_out; [set_solver | by apply (dseg_frame w)].
  - intros s'. unfold upd_slot. case_decide; [done | apply HL].
  - intros x s'. assert (slot_ (ev w1 x) = slot_ (ev w x)) as Hw1.
    { unfold w1, w0. destruct (head l); ev_cases. }
    rewrite ev_set_slot, ev_set_next. case_decide as Hx; simpl; [done |].
    rewrite Hw1. intros Hs.
    pose proof (linked_all _ _ HL _ _ Hs) as Hin. unfold upd_slot.
    case_decide; [subst; rewrite Hl in Hin; set_solver | done].
Qed.

Lemma pop_event_slot s e w x :
  slot_ (ev (pop_event s e w) x) = if decide (x = e) then None else slot_ (ev w x).
Proof.
  unfold pop_event. simpl. case_match; ev_cases.
Qed.

Lemma list_relink_length L e old new s :
  new <> Some s -> (length (list_relink L e old new s) <= length (L s))%nat.
Proof.
  intros Hne. unfold list_relink. case_decide; [done |].
  set (L1 := match old with Some s' => upd_slot L s' (drop_event e (L s')) | None => L end).
  assert (length (L1 s) <= length (L s))%nat as H1.
  { unfold L1. destruct old as [s'|]; [| done].
    destruct (decide (s = s')) as [->|Hs];
      [rewrite upd_slot_eq; apply length_filter | by rewrite upd_slot_ne]. }
  destruct new as [s'|]; [| done]. rewrite upd_slot_ne by congruence. done.
Qed.
