(* ===== verification/TimerPlace.v ===== *)
(** * Where the timer wheel puts an event

    Arithmetic of the eight levels, the slot chosen by [schedule], the delta
    chosen by [schedule_in_range], and the placement invariant of the wheel. *)
From S2P Require Import Prelude TimerWheel.
Open Scope Z_scope.

(** ** The time of a level *)
Definition sh (z : Z) (l : nat) : Z := Z.shiftr z (WIDTH_BITS * Z.of_nat l).

(** [now_] when every level has caught up with time [n]. *)
Definition clock (n : Tick) : list Tick := map (sh n) (seq 0 8).

Lemma sh_0 z : sh z 0 = z.
Proof. apply Z.shiftr_0_r. Qed.

Lemma sh_div z l : sh z l = z / 2 ^ (8 * Z.of_nat l).
Proof. unfold sh, WIDTH_BITS. rewrite Z.shiftr_div_pow2 by lia. done. Qed.

Lemma sh_S z l : sh z (S l) = sh z l / 256.
Proof.
  unfold sh, WIDTH_BITS. change 256 with (2 ^ 8).
  rewrite <- Z.shiftr_div_pow2, Z.shiftr_shiftr by lia. f_equal. lia.
Qed.

Lemma sh_nonneg z l : 0 <= z -> 0 <= sh z l.
Proof. intros H. rewrite sh_div. apply Z.div_pos; [done |]. apply Z.pow_pos_nonneg; lia. Qed.

Lemma sh_mono a b l : a <= b -> sh a l <= sh b l.
Proof.
  intros H. rewrite !sh_div. apply Z.div_le_mono; [| done]. apply Z.pow_pos_nonneg; lia.
Qed.

Lemma sh_lt z l k : 0 <= z < 2 ^ (8 * (Z.of_nat l + k)) -> 0 <= k -> 0 <= sh z l < 2 ^ (8 * k).
Proof.
  intros H Hk. split; [apply sh_nonneg; lia |]. rewrite sh_div.
  apply Z.div_lt_upper_bound; [apply Z.pow_pos_nonneg; lia |].
  rewrite <- Z.pow_add_r by lia. replace (8 * Z.of_nat l + 8 * k) with (8 * (Z.of_nat l + k)) by lia.
  lia.
Qed.

Lemma sh_8 z : 0 <= z < 2 ^ 64 -> sh z 8 = 0.
Proof. intros H. pose proof (sh_lt z 8 0) as H'. change (2 ^ (8 * 0)) with 1 in H'. simpl in H'. lia. Qed.

Lemma sh_le z l : 0 <= z -> sh z l <= z.
Proof.
  intros H. rewrite sh_div. apply Z.div_le_upper_bound; [apply Z.pow_pos_nonneg; lia |].
  assert (0 < 2 ^ (8 * Z.of_nat l)) by (apply Z.pow_pos_nonneg; lia). nia.
Qed.

Lemma sh_u64 z l : 0 <= z < 2 ^ 64 -> 0 <= sh z l < 2 ^ 64.
Proof. intros H. pose proof (sh_le z l). pose proof (sh_nonneg z l). lia. Qed.

Lemma land_MASK z : Z.land z MASK = z mod 256.
Proof. change MASK with (Z.ones 8). by rewrite land_mask. Qed.

Lemma land_MASK_u64 z : 0 <= z -> Z.land z MASK <= z.
Proof. intros H. rewrite land_MASK. apply Z.mod_le; lia. Qed.

(** [T] and [n] agree at a level when they agree at a lower one. *)
Lemma sh_eq_above a b l m : (l <= m)%nat -> sh a l = sh b l -> sh a m = sh b m.
Proof. intros Hle H. induction Hle; [done |]. rewrite !sh_S. congruence. Qed.

Lemma sh_lt_below a b l : sh a l < sh b l -> a < b.
Proof. intros H. destruct (Z.lt_ge_cases a b) as [|Hge]; [done |]. pose proof (sh_mono b a l Hge). lia. Qed.

(** ** The slot chosen by [schedule] *)
Lemma find_slot_spec k l n T :
  (l + k = 8)%nat -> 0 <= n -> n < T < 2 ^ 64 -> 0 < sh T l - sh n l ->
  exists m, find_slot (map (sh n) (seq l k)) l (sh T l - sh n l)
            = Ok (m, Z.land (sh T m) MASK) /\
    (l <= m < 8)%nat /\ 1 <= sh T m - sh n m <= 255.
Proof.
  revert l. induction k as [|k IH]; intros l Hlk Hn HT Hd.
  - exfalso. assert (l = 8%nat) as -> by lia. rewrite (sh_8 T), (sh_8 n) in Hd by lia. lia.
  - pose proof (sh_u64 T l ltac:(lia)). pose proof (sh_nonneg n l Hn). simpl.
    change NUM_SLOTS with 256. case_bool.
    + replace (Z.shiftr _ _) with (sh T (S l) - sh n (S l)).
      * destruct (IH (S l)) as (m & Hm & ? & ?); [lia | lia | lia | rewrite !sh_S; zdiv |].
        exists m. rewrite Hm. repeat split; lia.
      * rewrite land_MASK, u64_small by zdiv. rewrite !sh_S. unfold WIDTH_BITS.
        rewrite Z.shiftr_div_pow2 by lia. change (2 ^ 8) with 256. zdiv.
    + exists l. rewrite u64_small by lia. repeat split; try lia. do 2 f_equal. f_equal. lia.
Qed.

(** ** The delta chosen by [schedule_in_range] *)
Lemma land_high_mask x m j :
  0 <= j <= m -> 0 <= x < 2 ^ m -> Z.land x (2 ^ m - 2 ^ j) = Z.shiftl (Z.shiftr x j) j.
Proof.
  intros Hj Hx. replace (2 ^ m - 2 ^ j) with (Z.shiftl (Z.ones (m - j)) j).
  2: { rewrite Z.shiftl_mul_pow2, Z.ones_equiv by lia.
       rewrite Z.mul_comm. unfold Z.pred. rewrite Z.mul_add_distr_l, <- Z.pow_add_r by lia.
       replace (j + (m - j)) with m by lia. lia. }
  apply Z.bits_inj'. intros i Hi. rewrite Z.land_spec, !Z.shiftl_spec by lia.
  destruct (Z.lt_ge_cases i j).
  - rewrite !(Z.testbit_neg_r _ (i - j)) by lia. apply andb_false_r.
  - rewrite Z.shiftr_spec, Z.testbit_ones by lia. replace (i - j + j) with i by lia.
    destruct (Z.ltb_spec (i - j) (m - j)).
    + rewrite (proj2 (Z.leb_le 0 (i - j))) by lia. apply andb_true_r.
    + destruct (Z.eq_dec x 0) as [->|]; [by rewrite Z.testbit_0_l |].
      rewrite (Z.bits_above_log2 x i); [done | lia |]. apply Z.log2_lt_pow2; [lia |].
      apply Z.lt_le_trans with (2 ^ m); [lia |]. apply Z.pow_le_mono_r; lia.
Qed.

Definition level_mask (k : nat) : Z := 2 ^ 64 - 2 ^ (8 * Z.of_nat k).

Lemma land_level_mask x k :
  (k <= 8)%nat -> 0 <= x < 2 ^ 64 ->
  Z.land x (level_mask k) = Z.shiftl (sh x k) (8 * Z.of_nat k).
Proof. intros Hk Hx. unfold level_mask, sh. by rewrite land_high_mask by lia. Qed.

Lemma level_mask_next k : (k < 8)%nat -> u64 (Z.shiftl (level_mask k) WIDTH_BITS) = level_mask (S k).
Proof.
  intros Hk. do 8 (destruct k as [|k]; [vm_compute; reflexivity |]). lia.
Qed.

Lemma level_mask_down k :
  (k < 8)%nat -> Z.shiftr (level_mask (S k)) WIDTH_BITS = 2 ^ 56 - 2 ^ (8 * Z.of_nat k).
Proof.
  intros Hk. do 8 (destruct k as [|k]; [vm_compute; reflexivity |]). lia.
Qed.

Lemma shiftl_inj a b n : 0 <= n -> Z.shiftl a n = Z.shiftl b n -> a = b.
Proof.
  intros Hn. rewrite !Z.shiftl_mul_pow2 by done. pose proof (Z.pow_pos_nonneg 2 n). nia.
Qed.

Lemma range_mask_S f s t m :
  range_mask (S f) s t m =
  if Z.land s m =? Z.land t m then Ok m
  else range_mask f s t (u64 (Z.shiftl m WIDTH_BITS)).
Proof. done. Qed.

Lemma range_mask_spec j k s t :
  (k + j = 8)%nat -> 0 <= s < 2 ^ 64 -> 0 <= t < 2 ^ 64 ->
  exists m, range_mask (S j) s t (level_mask k) = Ok (level_mask m) /\
    (k <= m <= 8)%nat /\ sh s m = sh t m /\ (forall i, (k <= i < m)%nat -> sh s i <> sh t i).
Proof.
  revert k. induction j as [|j IH]; intros k Hk Hs Ht; rewrite range_mask_S.
  - assert (k = 8%nat) as -> by lia. exists 8%nat.
    rewrite !land_level_mask, !sh_8, Z.eqb_refl by lia. repeat split; lia.
  - rewrite !land_level_mask by lia. destruct (Z.eqb_spec (Z.shiftl (sh s k) (8 * Z.of_nat k))
      (Z.shiftl (sh t k) (8 * Z.of_nat k))) as [E|E].
    + apply shiftl_inj in E; [| lia]. exists k. repeat split; [lia | lia | done | lia].
    + rewrite level_mask_next by lia. destruct (IH (S k)) as (m & Hm & ? & ? & Hi); try lia.
      exists m. rewrite Hm. repeat split; try lia. intros i Hi'.
      destruct (decide (i = k)) as [->|]; [intros Hs'; apply E; by rewrite Hs' |].
      apply Hi. lia.
Qed.

(** [schedule_in_range] stays inside its range when the range ends below 2^56. *)
Lemma range_delta_spec s t :
  0 <= s -> s < t -> t < 2 ^ 56 -> exists d, range_delta s t = Ok d /\ s < d <= t.
Proof.
  intros Hs Hst Ht. unfold range_delta. change (2 ^ 64 - 1) with (level_mask 0).
  destruct (range_mask_spec 8 0 s t) as (m & Hm & Hle & Heq & Hne); [lia | lia | lia |].
  rewrite Hm. simpl. destruct m as [|m].
  { rewrite !sh_0 in Heq. lia. }
  rewrite level_mask_down by lia. eexists. split; [done |].
  destruct (Nat.le_gt_cases 7 m) as [Hm7|Hm7].
  { exfalso. apply (Hne 7%nat); [lia |].
    pose proof (sh_lt s 7 0). pose proof (sh_lt t 7 0).
    change (2 ^ (8 * 0)) with 1 in *. change (8 * (Z.of_nat 7 + 0)) with 56 in *. lia. }
  rewrite land_high_mask by (try apply conj; lia).
  change (Z.shiftr t (8 * Z.of_nat m)) with (sh t m).
  rewrite Z.shiftl_mul_pow2 by lia.
  assert (0 < 2 ^ (8 * Z.of_nat m)) as Hp by (apply Z.pow_pos_nonneg; lia).
  assert (sh s m < sh t m) as Hlt.
  { pose proof (sh_mono s t m ltac:(lia)). specialize (Hne m ltac:(lia)). lia. }
  rewrite !sh_div in *. pose proof (Z.div_mod s (2 ^ (8 * Z.of_nat m)) ltac:(lia)).
  pose proof (Z.mod_pos_bound s (2 ^ (8 * Z.of_nat m)) Hp).
  pose proof (Z.mul_div_le t (2 ^ (8 * Z.of_nat m)) Hp). nia.
Qed.
