(* ===== verification/TimerAdvance.v ===== *)
(** * Running the timer wheel: callbacks, [process_current_slot], [advance]

    A callback is an interaction with the wheel ([action]): it may schedule and
    cancel events, looking at the wheel after each operation, and it updates a
    client state.  [log] records every execution: which event, what [now()]
    returned, and what tick the event had been scheduled for. *)
From S2P Require Import Prelude TimerWheel TimerPlace.
Open Scope Z_scope.

Inductive wheel_op : Type :=
  | OpSchedule (e : eid) (delta : Tick)
  | OpRange (e : eid) (start end_ : Tick)
  | OpCancel (e : eid).

Definition apply_op (o : wheel_op) (w : TimerWheel) : res TimerWheel :=
  match o with
  | OpSchedule e d => schedule e d w
  | OpRange e s t => schedule_in_range e s t w
  | OpCancel e => Ok (cancel e w)
  end.

Inductive action : Type :=
  | Done
  | Act (o : wheel_op) (k : TimerWheel -> action).

Fixpoint run_action (a : action) (w : TimerWheel) : res TimerWheel :=
  match a with
  | Done => Ok w
  | Act o k => w' ← apply_op o w; run_action (k w') w'
  end.

Record fired : Type := mkFired { fired_event : eid; fired_now : Tick; fired_due : Tick }.

Record state (C : Type) : Type := mkState {
  wheel : TimerWheel;
  client : C;
  log : list fired }.
Arguments mkState {C} _ _ _.
Arguments wheel {C} _.
Arguments client {C} _.
Arguments log {C} _.

Section Run.
Context {C : Type} (callback : C -> eid -> TimerWheel -> C * action).

Definition with_wheel (f : TimerWheel -> TimerWheel) (st : state C) : state C :=
  mkState (f (wheel st)) (client st) (log st).

(** [event->execute()] *)
Definition execute (e : eid) (st : state C) : res (state C) :=
  let '(c, a) := callback (client st) e (wheel st) in
  w ← run_action a (wheel st);
  Ok (mkState w c (log st ++ [mkFired e (now (wheel st)) (scheduled_at (wheel st) e)])).

(** The [while (slot->events())] loop of [process_current_slot]; [fuel] bounds
    its rounds. *)
Fixpoint drain_slot (fuel : nat) (level : nat) (slot : slot_id) (max_events : Z) (st : state C)
    : res (state C * bool) :=
  match fuel with
  | O => Fault OutOfFuel
  | S f =>
      match slots_ (wheel st) !! slot with
      | None => Ok (st, true)
      | Some event =>
          let st := with_wheel (pop_event slot event) st in
          let w := wheel st in
          let run :=
            st ← execute event st;
            let max_events := u64 (max_events - 1) in
            if max_events =? 0 then Ok (st, false)
            else drain_slot f level slot max_events st in
          if 0 <? Z.of_nat level then
            if negb (Z.land (now w) MASK =? 0) then Fault AssertFailed
            else if scheduled_at w event <=? now w then run
            else
              w ← schedule event (u64 (scheduled_at w event - now w)) w;
              drain_slot f level slot max_events (mkState w (client st) (log st))
          else run
      end
  end.

(** [process_current_slot], given the call [advance(1, max_events, level + 1)]. *)
Definition process_body (advance_up : state C -> res (state C * bool))
    (fuel : nat) (level : nat) (max_events : Z) (t : Tick) (st : state C)
    : res (state C * bool) :=
  let slot_index := Z.land t MASK in
  if (slot_index =? 0) && (Z.of_nat level <? MAX_LEVEL) then
    '(st, ok) ← advance_up st;
    if (ok : bool) then drain_slot fuel level (level, slot_index) max_events st
    else Ok (st, false)
  else drain_slot fuel level (level, slot_index) max_events st.

(** The [while (delta--)] loop of [advance]. *)
Fixpoint tick_loop (process : Tick -> state C -> res (state C * bool))
    (level : nat) (delta : nat) (st : state C) : res (state C * bool) :=
  match delta with
  | O => Ok (st, true)
  | S delta' =>
      let t := u64 (now_ (wheel st) !!! level + 1) in
      let st := with_wheel (set_now level t) st in
      '(st, ok) ← process t st;
      if (ok : bool) then tick_loop process level delta' st
      else Ok (with_wheel (set_pending (u64 (Z.of_nat delta' + 1))) st, false)
  end.

Definition advance_body (process : Tick -> state C -> res (state C * bool))
    (level : nat) (delta : Tick) (st : state C) : res (state C * bool) :=
  if negb (ticks_pending_ (wheel st) =? 0) then
    let st :=
      if (level =? 0)%nat
      then with_wheel (fun w => set_pending (u64 (ticks_pending_ w + delta)) w) st
      else st in
    '(st, ok) ← process (now_ (wheel st) !!! level) st;
    if negb (ok : bool) then Ok (st, false)
    else if (level =? 0)%nat then
      let delta := u64 (ticks_pending_ (wheel st) - 1) in
      tick_loop process level (Z.to_nat delta) (with_wheel (set_pending 0) st)
    else Ok (st, true)
  else if negb (0 <? delta) then Fault AssertFailed
  else tick_loop process level (Z.to_nat delta) st.

(** [k] levels lie above this one: [level] is [MAX_LEVEL - k]. *)
Fixpoint advance_from (k : nat) (fuel : nat) (delta : Tick) (max_events : Z) (st : state C)
    : res (state C * bool) :=
  let level := (Z.to_nat MAX_LEVEL - k)%nat in
  let advance_up :=
    match k with
    | O => fun st => Ok (st, true)
    | S k' => advance_from k' fuel 1 max_events
    end in
  advance_body (process_body advance_up fuel level max_events) level delta st.

(** [TimerWheel::process_current_slot] *)
Definition process_current_slot (fuel : nat) (t : Tick) (max_events : Z) (level : nat)
    (st : state C) : res (state C * bool) :=
  process_body
    (match (Z.to_nat MAX_LEVEL - level)%nat with
     | O => fun st => Ok (st, true)
     | S k' => advance_from k' fuel 1 max_events
     end) fuel level max_events t st.

(** [TimerWheel::advance] *)
Definition advance (fuel : nat) (delta : Tick) (max_events : Z) (level : nat) (st : state C)
    : res (state C * bool) :=
  advance_from (Z.to_nat MAX_LEVEL - level) fuel delta max_events st.
End Run.

(** ** The wheel as a set of deadlines

    [view w e] is the tick event [e] is scheduled for, or [None] when it is not
    scheduled: the contract of the wheel is stated on this partial map. *)
Definition view (w : TimerWheel) (e : eid) : option Tick :=
  match slot_ (ev w e) with Some _ => Some (scheduled_at w e) | None => None end.

Lemma view_relink e s w x :
  view (relink e s w) x =
  if decide (x = e) then (match s with Some _ => Some (scheduled_at w e) | None => None end)
  else view w x.
Proof.
  unfold view. rewrite relink_slot. destruct (relink_frame e s w) as (_ & _ & Hs).
  case_decide; subst; [| by rewrite Hs]. destruct s; by rewrite ?Hs.
Qed.

Lemma view_cancel e w x : view (cancel e w) x = if decide (x = e) then None else view w x.
Proof.
  unfold cancel. destruct (slot_ (ev w e)) eqn:E; [by rewrite view_relink |].
  unfold view. case_decide; [subst; by rewrite E | done].
Qed.

Lemma view_pop s e w x :
  view (pop_event s e w) x = if decide (x = e) then None else view w x.
Proof.
  unfold view. rewrite pop_event_slot. destruct (pop_event_frame s e w) as (_ & _ & Hs).
  rewrite Hs. by case_decide.
Qed.

(** ** The levels that run out at tick [n] *)
Definition due (n : Tick) (l : nat) : Prop := forall i, (i < l)%nat -> sh n i mod 256 = 0.

Lemma due_S n l : due n (S l) <-> due n l /\ sh n l mod 256 = 0.
Proof.
  unfold due. split.
  - intros H. split; [intros i Hi; apply H; lia | apply H; lia].
  - intros [H1 H2] i Hi. destruct (decide (i = l)) as [->|]; [done | apply H1; lia].
Qed.

Lemma due_0 n : due n 0.
Proof. intros i Hi. lia. Qed.

Lemma due_le n l m : (m <= l)%nat -> due n l -> due n m.
Proof. intros Hle H i Hi. apply H. lia. Qed.

Lemma due_below n l T : due n l -> sh n l <= sh T l -> n <= T.
Proof.
  induction l as [|l IH]; intros Hd Hl; [by rewrite !sh_0 in Hl |].
  apply due_S in Hd as [Hd Hm]. apply IH; [done |]. rewrite !sh_S in Hl. zdiv.
Qed.

Lemma sh_pred n l : due n l -> sh (n - 1) l = sh n l - 1.
Proof.
  induction l as [|l IH]; intros Hd; [by rewrite !sh_0 |].
  apply due_S in Hd as [Hd Hm]. rewrite !sh_S, IH by done. zdiv.
Qed.

Lemma sh_pred_same n l m :
  due n l -> sh n l mod 256 <> 0 -> (l < m)%nat -> sh (n - 1) m = sh n m.
Proof.
  intros Hd Hm Hlt. apply (sh_eq_above _ _ (S l)); [lia |].
  rewrite !sh_S, sh_pred by done. zdiv.
Qed.

(** [now_] while tick [n] is reached: the levels up to [l] have advanced. *)
Definition clk (n : Tick) (l : nat) : list Tick :=
  map (fun m => if (m <=? l)%nat then sh n m else sh (n - 1) m) (seq 0 8).

Lemma clock_lookup n l : (l < 8)%nat -> clock n !!! l = sh n l.
Proof. intros H. unfold clock. do 8 (destruct l as [|l]; [done |]). lia. Qed.

Lemma clk_lookup n l m :
  (m < 8)%nat -> clk n l !!! m = if (m <=? l)%nat then sh n m else sh (n - 1) m.
Proof. intros H. unfold clk. do 8 (destruct m as [|m]; [done |]). lia. Qed.

Lemma clk_eq n l :
  (l < 8)%nat -> due n l -> sh n l mod 256 <> 0 \/ l = 7%nat -> clk n l = clock n.
Proof.
  intros Hl Hd Hm. unfold clk, clock. apply list_fmap_ext. intros i m Hi.
  apply lookup_seq in Hi as [-> Hi]. destruct (Nat.leb_spec (0 + i) l); [done |].
  destruct Hm as [Hm|Hm]; [| lia]. by eapply sh_pred_same.
Qed.

Lemma insert_map {A} (f : nat -> A) l x k :
  <[l := x]> (map f (seq 0 k)) = map (fun m => if decide (m = l) then x else f m) (seq 0 k).
Proof.
  apply list_eq. intros i. destruct (decide (i = l)) as [->|Hne].
  - destruct (decide (l < k)%nat).
    + rewrite list_lookup_insert_eq by (by rewrite length_map, length_seq).
      rewrite list_lookup_fmap, lookup_seq_lt by done. simpl. by rewrite decide_True.
    + rewrite list_insert_ge by (rewrite length_map, length_seq; lia).
      by rewrite !list_lookup_fmap, lookup_seq_ge by lia.
  - rewrite list_lookup_insert_ne by done. rewrite !list_lookup_fmap.
    destruct (seq 0 k !! i) as [y|] eqn:E; [| done]. apply lookup_seq in E as [-> _].
    simpl. by rewrite decide_False.
Qed.

Lemma clk_step n l :
  0 < n < 2 ^ 64 -> (S l < 8)%nat -> due n (S l) ->
  <[S l := u64 (clk n l !!! S l + 1)]> (clk n l) = clk n (S l).
Proof.
  intros Hn Hl Hd.
  assert (clk n l !!! S l = sh n (S l) - 1) as ->.
  { rewrite clk_lookup by done. rewrite (proj2 (Nat.leb_gt (S l) l)) by lia.
    by apply sh_pred. }
  pose proof (sh_u64 n (S l) ltac:(lia)). rewrite u64_small by lia.
  unfold clk. rewrite insert_map. apply list_fmap_ext. intros i m Hi.
  apply lookup_seq in Hi as [-> Hi]. case_decide as Hx.
  - rewrite Hx. rewrite Nat.leb_refl. lia.
  - destruct (Nat.leb_spec (0 + i) l), (Nat.leb_spec (0 + i) (S l)); try done; lia.
Qed.

Lemma clk_0 n :
  0 < n < 2 ^ 64 -> <[0%nat := u64 (clock (n - 1) !!! 0%nat + 1)]> (clock (n - 1)) = clk n 0.
Proof.
  intros Hn. rewrite clock_lookup, sh_0, u64_small by lia.
  unfold clk, clock. rewrite insert_map. apply list_fmap_ext. intros i m Hi.
  apply lookup_seq in Hi as [-> Hi]. simpl. case_decide; subst; [rewrite sh_0; simpl; lia |].
  destruct i; [done |]. done.
Qed.

(** ** The placement invariant

    An event scheduled for [T] is in the slot of level [l] that [T] falls in,
    less than one rotation ahead; it is in the slot the level is at only at the
    levels [P] still to be processed. *)
Definition at_slot (n : Tick) (P : nat -> Prop) (T : Tick) (s : slot_id) : Prop :=
  (s.1 < 8)%nat /\ s.2 = Z.land (sh T s.1) MASK /\
  0 <= sh T s.1 - sh n s.1 <= 255 /\ (sh T s.1 = sh n s.1 -> P s.1) /\ 0 <= T < 2 ^ 64.

Definition placed (N : Z) (n : Tick) (P : nat -> Prop) (w : TimerWheel) : Prop :=
  forall e s, slot_ (ev w e) = Some s -> Z.pos e < N /\ at_slot n P (scheduled_at w e) s.

(** The slot level [l] is at, at tick [n]. *)
Definition cur (n : Tick) (l : nat) : slot_id := (l, Z.land (sh n l) MASK).

Lemma at_slot_weaken n P Q T s : (forall m, (m < 8)%nat -> P m -> Q m) -> at_slot n P T s -> at_slot n Q T s.
Proof. unfold at_slot. naive_solver. Qed.

Lemma placed_weaken N n P Q w :
  (forall m, (m < 8)%nat -> P m -> Q m) -> placed N n P w -> placed N n Q w.
Proof.
  intros H Hp e s Hs. destruct (Hp e s Hs) as [? ?]. eauto using at_slot_weaken.
Qed.

(** An event in the current slot of a level is due at that level. *)
Lemma at_slot_cur n P T l : 0 <= n -> at_slot n P T (cur n l) -> sh T l = sh n l.
Proof.
  intros Hn (_ & Hi & Hd & _ & HT). simpl in *. rewrite !land_MASK in Hi. zdiv.
Qed.

(** A tick later every placement still holds, the slots reached being due. *)
Lemma at_slot_tick n T s :
  0 <= n -> at_slot n (fun _ => False) T s -> at_slot (n + 1) (due (n + 1)) T s.
Proof.
  intros Hn (Hl & Hi & Hd & HP & HT). destruct s as [l i]; simpl in *.
  assert (sh n l < sh T l) as Hlt by (destruct (Z.eq_dec (sh T l) (sh n l)); [naive_solver | lia]).
  assert (forall m, due (n + 1) m \/ sh (n + 1) m = sh n m) as Hcase.
  { induction m as [|m IH]; [left; apply due_0 |]. destruct IH as [Hm|Hm].
    - destruct (Z.eq_dec (sh (n + 1) m mod 256) 0) as [E|E]; [left; by apply due_S |].
      right. pose proof (sh_pred_same (n + 1) m (S m) Hm E ltac:(lia)) as H.
      by replace (n + 1 - 1) with n in H by lia.
    - right. by rewrite !sh_S, Hm. }
  repeat split; try done; try lia; simpl.
  - destruct (Hcase l) as [H|H]; [| lia]. pose proof (sh_pred (n + 1) l H) as H'.
    replace (n + 1 - 1) with n in H' by lia. lia.
  - pose proof (sh_mono n (n + 1) l ltac:(lia)). lia.
  - intros E. destruct (Hcase l) as [H|H]; [done | lia].
Qed.

(** ** Operations keep the wheel well formed *)
Record sane (N : Z) (n : Tick) (P : nat -> Prop) (w : TimerWheel) (L : slot_id -> list eid) : Prop := {
  sane_linked : linked w L;
  sane_placed : placed N n P w;
  sane_due : forall l, P l -> due n l }.

Definition none_overdue (n : Tick) (w : TimerWheel) : Prop := forall e T, view w e = Some T -> n <= T.

Lemma at_slot_ge n P T s : (forall l, P l -> due n l) -> at_slot n P T s -> n <= T.
Proof.
  intros HP (_ & _ & Hd & Heq & _). destruct (Z.eq_dec (sh T s.1) (sh n s.1)) as [E|E].
  - apply (due_below n s.1 T); [auto | lia].
  - apply Z.lt_le_incl, (sh_lt_below n T s.1). lia.
Qed.

Lemma sane_not_overdue N n P w L : sane N n P w L -> none_overdue n w.
Proof.
  intros Hw e T Hv. unfold view in Hv. destruct (slot_ (ev w e)) as [s|] eqn:Hs; [| done].
  injection Hv as <-. destruct (sane_placed _ _ _ _ _ Hw e s Hs) as [_ Hat].
  by apply (at_slot_ge n P _ s); [apply Hw |].
Qed.

(** The slots being processed at tick [n] receive no event. *)
Definition shrink (n : Tick) (L L' : slot_id -> list eid) : Prop :=
  forall l, (length (L' (cur n l)) <= length (L (cur n l)))%nat.

Lemma shrink_refl n L : shrink n L L.
Proof. intros l. done. Qed.
Lemma shrink_trans n L1 L2 L3 : shrink n L1 L2 -> shrink n L2 L3 -> shrink n L1 L3.
Proof. intros H1 H2 l. specialize (H1 l). specialize (H2 l). lia. Qed.

(** [w'] is reached from [w] at tick [n] by operations that leave the clocks
    alone. *)
Definition op_step (N : Z) (n : Tick) (P : nat -> Prop) (w : TimerWheel)
    (L : slot_id -> list eid) (w' : TimerWheel) : Prop :=
  exists L', sane N n P w' L' /\ now_ w' = now_ w /\
    ticks_pending_ w' = ticks_pending_ w /\ shrink n L L'.

Lemma op_step_refl N n P w L : sane N n P w L -> op_step N n P w L w.
Proof. intros H. exists L. split_and!; [done | done | done | apply shrink_refl]. Qed.

Lemma sane_relink N n P e s w L :
  sane N n P w L ->
  match s with
  | Some s => Z.pos e < N /\ at_slot n P (scheduled_at w e) s /\ forall l, s <> cur n l
  | None => True
  end ->
  op_step N n P w L (relink e s w).
Proof.
  intros [HL HP HD] Hs. exists (list_relink L e (slot_ (ev w e)) s).
  destruct (relink_frame e s w) as (Hn & Hp & Hsch). split_and!; [split | done | done |].
  - by apply relink_linked.
  - intros x t. rewrite relink_slot, Hsch. case_decide; subst; [| apply HP].
    intros ->. destruct Hs as (? & ? & _). done.
  - done.
  - intros l. apply list_relink_length. intros ->. destruct Hs as (_ & _ & Hs). by apply (Hs l).
Qed.

Lemma sane_same N n P w w' L :
  same_links w w' -> (forall x, slot_ (ev w x) <> None -> scheduled_at w' x = scheduled_at w x) ->
  sane N n P w L -> sane N n P w' L.
Proof.
  intros Hs Hsch [HL HP HD]. split; [by eapply linked_same | | done].
  intros x t. destruct Hs as [_ Hs]. destruct (Hs x) as (-> & _ & _). intros Hx.
  rewrite Hsch by congruence. by apply HP.
Qed.

(** [set_scheduled_at] on an event that is then moved. *)
Lemma sched_links e t w : same_links w (set_scheduled_at e t w).
Proof. split; [done |]. intros x. rewrite ev_set_scheduled_at. by case_decide. Qed.

Lemma scheduled_at_set e t w x :
  scheduled_at (set_scheduled_at e t w) x = if decide (x = e) then t else scheduled_at w x.
Proof.
  unfold scheduled_at. rewrite ev_set_scheduled_at. repeat case_decide; subst; done.
Qed.

Lemma view_set_scheduled_at e t w x :
  x <> e -> view (set_scheduled_at e t w) x = view w x.
Proof.
  intros Hx. unfold view. rewrite scheduled_at_set, decide_False by done.
  destruct (sched_links e t w) as [_ H]. by destruct (H x) as (-> & _).
Qed.

Lemma relink_moved N n P e s t w L :
  (forall l, P l -> due n l) -> linked w L -> (forall x s', x <> e -> slot_ (ev w x) = Some s' ->
    Z.pos x < N /\ at_slot n P (scheduled_at w x) s') ->
  Z.pos e < N -> at_slot n P t s -> (forall l, s <> cur n l) ->
  op_step N n P w L (relink e (Some s) (set_scheduled_at e t w)).
Proof.
  intros HD HL HP He Hat Hcur. pose proof (sched_links e t w) as Hs.
  set (w1 := set_scheduled_at e t w). exists (list_relink L e (slot_ (ev w1 e)) (Some s)).
  destruct (relink_frame e (Some s) w1) as (Hn & Hp & Hsch).
  split_and!; [split | done | done |].
  - apply relink_linked. by eapply linked_same.
  - intros x u. rewrite relink_slot, Hsch. unfold w1. rewrite scheduled_at_set.
    case_decide; subst; [by intros [= ->] |].
    destruct Hs as [_ Hs]. destruct (Hs x) as (-> & _). by apply HP.
  - done.
  - intros l. apply list_relink_length. intros [= ->]. by apply (Hcur l).
Qed.

Lemma schedule_step N n P w L e d :
  (forall l, P l -> due n l) -> linked w L -> (forall x s', x <> e -> slot_ (ev w x) = Some s' ->
    Z.pos x < N /\ at_slot n P (scheduled_at w x) s') ->
  now_ w = clock n -> 0 <= n -> 0 < d -> n + d < 2 ^ 64 -> Z.pos e < N ->
  exists w', schedule e d w = Ok w' /\ op_step N n P w L w' /\
    forall x, view w' x = if decide (x = e) then Some (n + d) else view w x.
Proof.
  intros HD HL HP Hnow Hn Hd Hnd He. unfold schedule, now. rewrite (proj2 (Z.ltb_lt 0 d)) by done.
  simpl. rewrite Hnow, clock_lookup, sh_0, u64_small by lia.
  destruct (find_slot_spec 8 0 n (n + d)) as (m & Hm & Hm8 & Hdiff); [done | lia | lia |
    rewrite !sh_0; lia |].
  rewrite !sh_0 in Hm. replace (n + d - n) with d in Hm by lia.
  unfold clock at 1. rewrite Hm. simpl. eexists. split; [done |]. split.
  - apply relink_moved; try done.
    + split_and!; simpl; try lia; try done.
    + intros l. unfold cur. intros [= -> E]. rewrite !land_MASK in E. zdiv.
  - intros x. rewrite view_relink. case_decide; subst.
    + rewrite scheduled_at_set. by rewrite decide_True.
    + by apply view_set_scheduled_at.
Qed.

Lemma cancel_step N n P w L e :
  sane N n P w L -> op_step N n P w L (cancel e w).
Proof.
  intros H. unfold cancel. destruct (slot_ (ev w e)); [by apply sane_relink | by apply op_step_refl].
Qed.

Lemma sane_but N n P w L e :
  sane N n P w L -> forall x s', x <> e -> slot_ (ev w x) = Some s' ->
    Z.pos x < N /\ at_slot n P (scheduled_at w x) s'.
Proof. intros [_ HP _] x s' _. apply HP. Qed.

(** What [schedule_in_range] leaves: an event in the range, the rest unchanged. *)
Lemma schedule_in_range_step N n P w L e s t :
  sane N n P w L -> now_ w = clock n -> 0 <= n -> 0 <= s -> s < t -> t < 2 ^ 56 ->
  n + t < 2 ^ 64 -> Z.pos e < N ->
  exists w' d, schedule_in_range e s t w = Ok w' /\ op_step N n P w L w' /\
    s <= d <= t /\
    forall x, view w' x = if decide (x = e) then Some (n + d) else view w x.
Proof.
  intros Hw Hnow Hn Hs Hst Ht Hnt He. unfold schedule_in_range.
  rewrite (proj2 (Z.ltb_lt s t)) by done. simpl.
  assert (now w = n) as Hnow' by (unfold now; by rewrite Hnow, clock_lookup, sh_0 by lia).
  rewrite Hnow'. destruct (active w e && _ && _) eqn:E.
  - apply andb_true_iff in E as [[Ha E1]%andb_true_iff E2].
    apply Z.leb_le in E1, E2. unfold active in Ha. apply bool_decide_eq_true in Ha.
    destruct (slot_ (ev w e)) as [sl|] eqn:Hsl; [| done].
    destruct (sane_placed _ _ _ _ _ Hw e sl Hsl) as (_ & Hat).
    pose proof (at_slot_ge n P _ sl (sane_due _ _ _ _ _ Hw) Hat) as Hge.
    destruct Hat as (_ & _ & _ & _ & HT). rewrite u64_small in E1, E2 by lia.
    exists w, (scheduled_at w e - n).
    split_and!; [done | by apply op_step_refl | lia | lia |].
    intros x. destruct (decide (x = e)) as [->|]; [| done].
    unfold view. rewrite Hsl. f_equal. lia.
  - destruct (range_delta_spec s t) as (d & Hrd & Hd); [lia | lia | lia |].
    rewrite Hrd. simpl.
    destruct (schedule_step N n P w L e d) as (w' & Hw' & Hst' & Hv);
      [apply Hw | apply Hw | by eapply sane_but | done | lia | lia | lia | done |].
    exists w', d. split_and!; [done | done | lia | lia | done].
Qed.

(** ** What a callback may do

    The obligations the header comment states for [schedule] and
    [schedule_in_range], the absence of 64-bit overflow, and event addresses
    below [N]. *)
Definition ok_op (N : Z) (o : wheel_op) (w : TimerWheel) : Prop :=
  match o with
  | OpSchedule e d => Z.pos e < N /\ 0 < d /\ now w + d < 2 ^ 64
  | OpRange e s t => Z.pos e < N /\ 0 < s /\ s < t /\ t < 2 ^ 56 /\ now w + t < 2 ^ 64
  | OpCancel e => True
  end.

Fixpoint ok_action (N : Z) (a : action) (w : TimerWheel) : Prop :=
  match a with
  | Done => True
  | Act o k => ok_op N o w /\ forall w', apply_op o w = Ok w' -> ok_action N (k w') w'
  end.

Lemma apply_op_step N n P w L o :
  sane N n P w L -> now_ w = clock n -> 0 <= n -> ok_op N o w ->
  exists w', apply_op o w = Ok w' /\ op_step N n P w L w'.
Proof.
  intros Hw Hnow Hn Hok.
  assert (now w = n) as Hnw by (unfold now; by rewrite Hnow, clock_lookup, sh_0 by lia).
  destruct o as [e d | e s t | e]; simpl in Hok |- *; rewrite ?Hnw in Hok.
  - destruct (schedule_step N n P w L e d) as (w' & H1 & H2 & _); try apply Hw; try lia;
      [by eapply sane_but | done | eauto].
  - destruct (schedule_in_range_step N n P w L e s t) as (w' & d & H1 & H2 & _);
      try done; try lia; eauto.
  - eexists. split; [done |]. by apply cancel_step.
Qed.

Lemma run_action_step N n P a : forall w L,
  sane N n P w L -> now_ w = clock n -> 0 <= n -> ok_action N a w ->
  exists w', run_action a w = Ok w' /\ op_step N n P w L w'.
Proof.
  induction a as [|o k IH]; intros w L Hw Hnow Hn Hok; simpl.
  { eexists. split; [done | by apply op_step_refl]. }
  destruct Hok as [Ho Hk].
  destruct (apply_op_step N n P w L o) as (w1 & E1 & L1 & Hw1 & Hn1 & Hp1 & Hs1); [done.. |].
  rewrite E1. simpl.
  destruct (IH w1 w1 L1) as (w2 & E2 & L2 & Hw2 & Hn2 & Hp2 & Hs2);
    [done | by rewrite Hn1 | done | by apply Hk |].
  exists w2. split; [done |]. exists L2.
  split_and!; [done | congruence | congruence | by eapply shrink_trans].
Qed.

(** ** Correctness of the run *)
Section Spec.
Context {C : Type} (callback : C -> eid -> TimerWheel -> C * action).
(** Event addresses are below [N]; the clock stays at most [H]. *)
Context (N H : Z) (HH : H < 2 ^ 64).
(** A client invariant: it may speak of [view], of the client state, of the log
    and of the time, and survives the execution of any event at its tick. *)
Context (J : Tick -> state C -> Prop).
Hypothesis J_ext : forall n st st',
  (forall x, view (wheel st') x = view (wheel st) x) -> client st' = client st ->
  log st' = log st -> J n st -> J n st'.
Hypothesis J_tick : forall n n' st, n <= n' -> J n st -> J n' st.
Hypothesis J_execute : forall n e s st st',
  0 <= n <= H -> J n st -> view (wheel st) e = Some n -> now (wheel st) = n ->
  none_overdue n (wheel st) ->
  execute callback e (with_wheel (pop_event s e) st) = Ok st' -> J n st'.
(** The callbacks keep their obligations. *)
Hypothesis callback_ok : forall n e s st,
  0 <= n <= H -> J n st -> view (wheel st) e = Some n -> now (wheel st) = n -> Z.pos e < N ->
  let w := pop_event s e (wheel st) in ok_action N (callback (client st) e w).2 w.

Lemma now_clock w n : now_ w = clock n -> now w = n.
Proof. intros E. unfold now. by rewrite E, clock_lookup, sh_0 by lia. Qed.

(** *** One slot *)
Lemma pop_sane n P w L s e l :
  sane N n P w L -> L s = e :: l ->
  sane N n P (pop_event s e w) (upd_slot L s l) /\ shrink n L (upd_slot L s l) /\
  now_ (pop_event s e w) = now_ w /\ ticks_pending_ (pop_event s e w) = ticks_pending_ w.
Proof.
  intros [HL HP HD] Hs. destruct (pop_event_frame s e w) as (E1 & E2 & E3).
  split_and!; try done.
  - split; [by eapply pop_event_linked | | done].
    intros x t. rewrite pop_event_slot, E3. case_decide; [done | apply HP].
  - intros m. destruct (decide (cur n m = s)) as [<-|Hne];
      [rewrite upd_slot_eq, Hs; simpl; lia | by rewrite upd_slot_ne].
Qed.

Lemma execute_step n P e st L :
  sane N n P (wheel st) L -> now_ (wheel st) = clock n -> 0 <= n <= H ->
  ok_action N (callback (client st) e (wheel st)).2 (wheel st) ->
  exists st', execute callback e st = Ok st' /\ op_step N n P (wheel st) L (wheel st').
Proof.
  intros Hw Hnow Hn Hok. unfold execute.
  destruct (callback (client st) e (wheel st)) as [c a]. simpl in Hok.
  destruct (run_action_step N n P a (wheel st) L) as (w' & E & Hst); try done; try lia.
  rewrite E. simpl. eexists. split; [done |]. done.
Qed.

(** The result of a run of a part of a tick. *)
Definition tick_post (n : Tick) (P : nat -> Prop) (L0 : slot_id -> list eid) (p : Tick)
    (st' : state C) : Prop :=
  exists L', sane N n P (wheel st') L' /\ now_ (wheel st') = clock n /\
    ticks_pending_ (wheel st') = p /\ shrink n L0 L' /\ J n st'.

Lemma tick_post_trans n P L0 L1 p st' :
  shrink n L0 L1 -> tick_post n P L1 p st' -> tick_post n P L0 p st'.
Proof.
  intros Hs (L' & ? & ? & ? & ? & ?). exists L'. split_and!; try done. by eapply shrink_trans.
Qed.

Lemma pop_last n l w L :
  sane N n (fun m => due n m /\ (m <= l)%nat) w L -> 0 <= n -> L (cur n l) = [] ->
  sane N n (fun m => due n m /\ (m < l)%nat) w L.
Proof.
  intros [HL HP HD] Hn He. split; [done | | intros m [? ?]; done].
  intros x s Hs. destruct (HP x s Hs) as [Hx Hat]. split; [done |].
  destruct Hat as (H1 & H2 & H3 & H4 & H5). split_and!; try done; try lia.
  intros E. destruct (H4 E) as [Hd Hle]. split; [done |].
  destruct (Nat.eq_dec s.1 l) as [El|]; [exfalso | lia].
  apply (linked_slot _ _ _ _ HL) in Hs.
  assert (s = cur n l) as -> by (destruct s as [a b]; unfold cur; simpl in *; subst; by rewrite E).
  rewrite He in Hs. by apply not_elem_of_nil in Hs.
Qed.

Lemma due_promote_or_run n l e (st : state C) L rest :
  sane N n (fun m => due n m /\ (m <= l)%nat) (wheel st) L -> 0 <= n ->
  L (cur n l) = e :: rest ->
  let T := scheduled_at (wheel st) e in
  view (wheel st) e = Some T /\ n <= T < 2 ^ 64 /\ (l = 0%nat -> T = n) /\
  (0 < Z.of_nat l -> Z.land n MASK = 0) /\ Z.pos e < N.
Proof.
  intros Hw Hn He T.
  assert (slot_ (ev (wheel st) e) = Some (cur n l)) as Hs.
  { apply (linked_slot _ L); [apply Hw | rewrite He; set_solver]. }
  destruct (sane_placed _ _ _ _ _ Hw e _ Hs) as [Hx Hat].
  pose proof (at_slot_ge _ _ _ _ (sane_due _ _ _ _ _ Hw) Hat) as Hge.
  pose proof (at_slot_cur _ _ _ _ Hn Hat) as E. destruct Hat as (_ & _ & _ & HP & HT).
  simpl in E, HP, HT. destruct (HP E) as [Hd _]. fold T in Hge, E, HT.
  split_and!; try done; try lia.
  - unfold view. by rewrite Hs.
  - intros ->. by rewrite !sh_0 in E.
  - intros Hl. rewrite land_MASK. rewrite <- (sh_0 n). apply Hd. lia.
Qed.

(** One round of the loop promotes the first event of the slot or executes it. *)
Lemma drain_step_eq n l e rest (st : state C) L max f :
  0 <= n <= H -> sane N n (fun m => due n m /\ (m <= l)%nat) (wheel st) L -> now_ (wheel st) = clock n ->
  L (cur n l) = e :: rest -> 1 <= max < 2 ^ 64 ->
  let st1 := with_wheel (pop_event (cur n l) e) st in
  let T := scheduled_at (wheel st) e in
  drain_slot callback (S f) l (cur n l) max st =
  if (0 <? Z.of_nat l) && (n <? T) then
    w ← schedule e (T - n) (wheel st1);
    drain_slot callback f l (cur n l) max (mkState w (client st1) (log st1))
  else
    st2 ← execute callback e st1;
    if max =? 1 then Ok (st2, false) else drain_slot callback f l (cur n l) (max - 1) st2.
Proof.
  intros Hn Hw Hnow He Hmax st1 T.
  destruct (due_promote_or_run n l e st L rest Hw ltac:(lia) He) as (_ & HT & _ & Hm & _).
  destruct (pop_sane n _ _ L (cur n l) e rest Hw He) as (_ & _ & Hpn & _).
  assert (scheduled_at (wheel st1) e = T) as HT1 by apply (pop_event_frame (cur n l) e (wheel st)).
  assert (now (wheel st1) = n) as Hn1 by (apply now_clock; etransitivity; [exact Hpn | exact Hnow]).
  cbn [drain_slot]. rewrite (linked_head _ _ (sane_linked _ _ _ _ _ Hw)), He.
  cbn [head]. fold st1. rewrite HT1, Hn1, (u64_small (T - n)), (u64_small (max - 1)) by (unfold T; lia).
  replace (max - 1 =? 0) with (max =? 1) by (destruct (Z.eqb_spec max 1), (Z.eqb_spec (max - 1) 0); lia).
  destruct (0 <? Z.of_nat l) eqn:E; [| done]. apply Z.ltb_lt in E.
  rewrite Hm by done. simpl. by rewrite Z.leb_antisym; destruct (n <? T).
Qed.

Lemma drain_round n l e rest (st : state C) L max :
  0 <= n <= H -> (l < 8)%nat -> sane N n (fun m => due n m /\ (m <= l)%nat) (wheel st) L ->
  now_ (wheel st) = clock n -> J n st -> L (cur n l) = e :: rest -> 1 <= max < 2 ^ 64 ->
  exists (ran : bool) st1 L1,
    (forall f, drain_slot callback (S f) l (cur n l) max st =
       if ran && (max =? 1) then Ok (st1, false)
       else drain_slot callback f l (cur n l) (if ran then max - 1 else max) st1) /\
    sane N n (fun m => due n m /\ (m <= l)%nat) (wheel st1) L1 /\ now_ (wheel st1) = clock n /\
    ticks_pending_ (wheel st1) = ticks_pending_ (wheel st) /\ shrink n L L1 /\ J n st1 /\
    (length (L1 (cur n l)) <= length rest)%nat.
Proof.
  intros Hn Hl Hw Hnow HJ He Hmax.
  destruct (due_promote_or_run n l e st L rest Hw ltac:(lia) He) as (Hv & HT & H0 & Hm & HeN).
  destruct (pop_sane n _ _ L (cur n l) e rest Hw He) as (Hpw & Hps & Hpn & Hpp).
  pose proof (fun f => drain_step_eq n l e rest st L max f Hn Hw Hnow He Hmax) as Hstep. cbv zeta in Hstep.
  set (st1 := with_wheel (pop_event (cur n l) e) st) in *. set (T := scheduled_at (wheel st) e) in *.
  assert (now_ (wheel st1) = clock n) as Hnow1 by (etransitivity; [exact Hpn | exact Hnow]).
  assert (ticks_pending_ (wheel st1) = ticks_pending_ (wheel st)) as Hpp1 by exact Hpp.
  set (L1 := upd_slot L (cur n l) rest) in *.
  assert (L1 (cur n l) = rest) as Hk1 by (unfold L1; by rewrite upd_slot_eq).
  destruct ((0 <? Z.of_nat l) && (n <? T)) eqn:Ecase.
  - apply andb_true_iff in Ecase as [_ Elt%Z.ltb_lt].
    destruct (schedule_step N n (fun m => due n m /\ (m <= l)%nat) (wheel st1) L1 e (T - n))
      as (w' & Ew & (L2 & Hw2 & Hn2 & Hp2 & Hs2) & Hv2); try done; try lia;
      [apply Hpw | apply Hpw | by eapply sane_but |].
    exists false, (mkState w' (client st1) (log st1)), L2. cbn [andb wheel]. split_and!.
    + intros f. by rewrite Hstep, Ew.
    + done.
    + congruence.
    + congruence.
    + eapply shrink_trans; [exact Hps | exact Hs2].
    + eapply (J_ext n st); [| done | done | done]. intros x. simpl. rewrite Hv2. simpl.
      rewrite view_pop. case_decide as Hx; [rewrite Hx, Hv; f_equal; lia | done].
    + specialize (Hs2 l). rewrite Hk1 in Hs2. lia.
  - assert (T = n) as ETn.
    { apply andb_false_iff in Ecase as [E%Z.ltb_ge|E%Z.ltb_ge]; [apply H0 |]; lia. }
    assert (ok_action N (callback (client st1) e (wheel st1)).2 (wheel st1)) as Hok
      by (apply (callback_ok n e (cur n l) st); try done; [by rewrite Hv, ETn | by apply now_clock]).
    pose proof (execute_step n _ e st1 L1 Hpw Hnow1 Hn Hok) as (st2 & Ex & L2 & Hw2 & Hn2 & Hp2 & Hs2).
    exists true, st2, L2. cbn [andb]. split_and!.
    + intros f. by rewrite Hstep, Ex.
    + done.
    + congruence.
    + congruence.
    + eapply shrink_trans; [exact Hps | exact Hs2].
    + eapply J_execute; [exact Hn | exact HJ | by rewrite Hv, ETn | by apply now_clock | by eapply sane_not_overdue | exact Ex].
    + specialize (Hs2 l). rewrite Hk1 in Hs2. lia.
Qed.

Lemma drain_slot_spec n l k : forall (st : state C) L max,
  0 <= n <= H -> (l < 8)%nat ->
  sane N n (fun m => due n m /\ (m <= l)%nat) (wheel st) L ->
  now_ (wheel st) = clock n -> J n st -> (length (L (cur n l)) <= k)%nat -> 1 <= max < 2 ^ 64 ->
  exists st' b,
    (forall fuel, (k < fuel)%nat -> drain_slot callback fuel l (cur n l) max st = Ok (st', b)) /\
    tick_post n (fun m => due n m /\ if b : bool then (m < l)%nat else (m <= l)%nat) L
      (ticks_pending_ (wheel st)) st' /\
    (Z.of_nat k < max -> b = true).
Proof.
  induction k as [|k IH]; intros st L max Hn Hl Hw Hnow HJ Hk Hmax.
  all: destruct (L (cur n l)) as [|e rest] eqn:He.
  1,3: exists st, true; split_and!; [| | done];
    [ intros [|fuel] Hf; [lia |]; simpl;
      by rewrite (linked_head _ _ (sane_linked _ _ _ _ _ Hw)), He
    | exists L; split_and!; [by apply pop_last; try lia | done | done | apply shrink_refl | done] ].
  { simpl in Hk. lia. }
  destruct (drain_round n l e rest st L max) as (ran & st1 & L1 & Hstep & Hw1 & Hn1 & Hp1 & Hs1 & HJ1 & Hl1); try done.
  cbn [length] in Hk. destruct (ran && (max =? 1)) eqn:Elast.
  - apply andb_true_iff in Elast as [_ Em%Z.eqb_eq]. exists st1, false. split_and!.
    + intros [|f] Hf; [lia |]. apply Hstep.
    + by exists L1.
    + lia.
  - assert (1 <= (if ran then max - 1 else max) < 2 ^ 64) as Hmax1.
    { destruct ran; [| done]. cbn [andb] in Elast. apply Z.eqb_neq in Elast. lia. }
    destruct (IH st1 L1 (if ran then max - 1 else max)) as (st' & b & Hrun & Hpost & Hb); try done; try lia.
    exists st', b. split_and!.
    + intros [|f] Hf; [lia |]. rewrite Hstep. apply Hrun. lia.
    + rewrite Hp1 in Hpost. by eapply tick_post_trans.
    + intros ?. apply Hb. destruct ran; lia.
Qed.

(** *** One tick at one level *)
Lemma addr_bound (l : list eid) (M : Z) :
  NoDup l -> (forall e, e ∈ l -> Z.pos e < M) -> 0 < M -> Z.of_nat (length l) < M.
Proof.
  intros Hnd Hb HM.
  assert (length l <= length (map Pos.of_nat (seq 1 (Z.to_nat M - 1))))%nat as Hle.
  { apply NoDup_incl_length; [by apply NoDup_ListNoDup |]. intros e He%list_elem_of_In.
    specialize (Hb e He). apply in_map_iff. exists (Pos.to_nat e).
    rewrite Pos2Nat.id. split; [done |]. apply in_seq. lia. }
  rewrite length_map, length_seq in Hle. lia.
Qed.

Lemma slot_short n P w L s max :
  sane N n P w L -> N <= max -> 0 < max -> Z.of_nat (length (L s)) < max.
Proof.
  intros Hw Hle Hpos.
  apply addr_bound; [apply (linked_nodup _ _ (sane_linked _ _ _ _ _ Hw)) | | done].
  intros e He. apply (linked_slot _ _ _ _ (sane_linked _ _ _ _ _ Hw)) in He.
  destruct (sane_placed _ _ _ _ _ Hw e _ He). lia.
Qed.

Lemma sane_weaken n (P Q : nat -> Prop) w L :
  (forall m, (m < 8)%nat -> P m -> Q m) -> (forall m, Q m -> due n m) ->
  sane N n P w L -> sane N n Q w L.
Proof. intros HPQ HQ [HL HP HD]. split; [done | by eapply placed_weaken | done]. Qed.

Lemma sane_clock_fields n P w L f :
  (f = id \/ (exists l t, f = set_now l t) \/ exists p, f = set_pending p) ->
  sane N n P w L -> sane N n P (f w) L.
Proof.
  intros Hf. apply sane_same; destruct Hf as [->|[(l & t & ->)|(p & ->)]]; done.
Qed.

(** The state after part of a tick: the levels below [l] are still due when the
    part was completed ([b]), all of them otherwise. *)
Definition tick_done (n : Tick) (l : nat) (b : bool) (st' : state C) : Prop :=
  exists L', sane N n (fun m => due n m /\ (b = true -> (m < l)%nat)) (wheel st') L' /\
    now_ (wheel st') = clock n /\ J n st'.

(** The state before level [l] is processed: fresh, or resumed. *)
Definition tick_ready (n : Tick) (l : nat) (st : state C) : Prop :=
  due n l /\ (exists L, sane N n (due n) (wheel st) L) /\ J n st /\
  now_ (wheel st) = (if ticks_pending_ (wheel st) =? 0 then clk n l else clock n).

Definition upper (k fuel : nat) (max : Z) : state C -> res (state C * bool) :=
  match k with O => fun st => Ok (st, true) | S k' => advance_from callback k' fuel 1 max end.

Lemma advance_from_upper k fuel d max st :
  advance_from callback k fuel d max st =
  advance_body (process_body callback (upper k fuel max) fuel (7 - k) max) (7 - k) d st.
Proof. by destruct k. Qed.

Lemma drain_level n l (st : state C) L max :
  0 <= n <= H -> (l < 8)%nat -> 1 <= max < 2 ^ 64 ->
  sane N n (fun m => due n m /\ (m <= l)%nat) (wheel st) L ->
  now_ (wheel st) = clock n -> J n st ->
  exists F st' b,
    (forall fuel, (F <= fuel)%nat -> drain_slot callback fuel l (cur n l) max st = Ok (st', b)) /\
    tick_done n l b st' /\ ticks_pending_ (wheel st') = ticks_pending_ (wheel st) /\
    (N <= max -> b = true).
Proof.
  intros Hn Hl Hmax Hw Hnow HJ.
  destruct (drain_slot_spec n l (length (L (cur n l))) st L max) as (st' & b & Hrun & Hpost & Hb);
    try done.
  exists (S (length (L (cur n l)))), st', b. destruct Hpost as (L' & Hw' & Hn' & Hp' & _ & HJ').
  split_and!; [intros fuel Hf; apply Hrun; lia | | done |].
  - exists L'. split_and!; [| done | done]. eapply sane_weaken; [| | exact Hw'].
    + intros m _ [? ?]. split; [done |]. intros ->. done.
    + naive_solver.
  - intros HN. apply Hb. eapply slot_short; [exact Hw | done | lia].
Qed.

Definition process_post n l (st : state C) (st' : state C) (b : bool) (max : Z) : Prop :=
  tick_done n l b st' /\
  (b = true -> ticks_pending_ (wheel st') = ticks_pending_ (wheel st)) /\
  (b = false -> ticks_pending_ (wheel st) <> 0 ->
     ticks_pending_ (wheel st') = ticks_pending_ (wheel st)) /\
  (N <= max -> b = true).

Lemma tick_ready_last n l (st : state C) :
  tick_ready n l st -> (l < 8)%nat -> 0 <= n -> sh n l mod 256 <> 0 \/ l = 7%nat ->
  now_ (wheel st) = clock n /\
  exists L, sane N n (fun m => due n m /\ (m <= l)%nat) (wheel st) L.
Proof.
  intros (Hd & (L & Hw) & _ & Hnow) Hl Hn Hm. split.
  - rewrite Hnow. case_match; [by apply clk_eq | done].
  - exists L. eapply sane_weaken; [| | exact Hw]; [| naive_solver].
    intros m Hm8 Hdm. split; [done |]. destruct Hm as [Hm|]; [| lia].
    destruct (Nat.le_gt_cases m l) as [|Hlt]; [done |]. exfalso. apply Hm, Hdm. lia.
Qed.

(** One level up, through [advance(1, max, level + 1)]. *)
Definition step_up (l : nat) (st : state C) : state C :=
  if ticks_pending_ (wheel st) =? 0
  then with_wheel (set_now (S l) (u64 (now_ (wheel st) !!! S l + 1))) st else st.

Lemma step_up_pending l (st : state C) : ticks_pending_ (wheel (step_up l st)) = ticks_pending_ (wheel st).
Proof. unfold step_up. by case_match. Qed.

Lemma step_up_ready n l (st : state C) :
  (l < 7)%nat -> 0 < n <= H -> tick_ready n l st -> due n (S l) -> tick_ready n (S l) (step_up l st).
Proof.
  intros Hl Hn (Hd & (L & Hw) & HJ & Hnow) HdS. unfold step_up.
  destruct (Z.eqb_spec (ticks_pending_ (wheel st)) 0) as [Ep|Ep].
  - split_and!; [done | | | ].
    + exists L. apply (sane_clock_fields n (due n) (wheel st) L); [eauto | done].
    + by eapply (J_ext n st).
    + simpl. rewrite Ep, Hnow. simpl. apply clk_step; [lia | lia | done].
  - split_and!; [done | by exists L | done |]. rewrite Hnow. by rewrite (proj2 (Z.eqb_neq _ 0)).
Qed.

Lemma step_up_now n l (st : state C) :
  (l < 7)%nat -> 0 < n <= H -> tick_ready n l st -> due n (S l) ->
  (if ticks_pending_ (wheel st) =? 0 then u64 (now_ (wheel st) !!! S l + 1) else now_ (wheel st) !!! S l)
  = sh n (S l).
Proof.
  intros Hl Hn (_ & _ & _ & ->) HdS.
  destruct (Z.eqb_spec (ticks_pending_ (wheel st)) 0); [| by apply clock_lookup; lia].
  rewrite clk_lookup, (proj2 (Nat.leb_gt (S l) l)) by lia.
  rewrite sh_pred by done. pose proof (sh_u64 n (S l) ltac:(lia)). rewrite u64_small; lia.
Qed.

Lemma advance_up_spec n l k max (st : state C) :
  (l + S k = 7)%nat -> 0 < n <= H -> tick_ready n l st -> due n (S l) ->
  (forall st1 : state C, tick_ready n (S l) st1 -> exists F st' b,
    (forall fuel, (F <= fuel)%nat ->
       process_body callback (upper k fuel max) fuel (S l) max (sh n (S l)) st1 = Ok (st', b)) /\
    process_post n (S l) st1 st' b max) ->
  exists F st' b,
    (forall fuel, (F <= fuel)%nat -> upper (S k) fuel max st = Ok (st', b)) /\
    process_post n (S l) st st' b max.
Proof.
  intros Hlk Hn Hr HdS IH. assert (l = 6 - k)%nat as Hl by lia.
  destruct (IH (step_up l st)) as (F & st' & b & Hrun & Hpost); [apply step_up_ready; try done; lia |].
  pose proof (step_up_now n l st ltac:(lia) Hn Hr HdS) as Hsh. pose proof (step_up_pending l st) as Hp1.
  set (p := ticks_pending_ (wheel st)) in *. destruct Hpost as ((L' & Hw' & Hn' & HJ') & Ht & Hf & Hmax).
  exists F, (if (p =? 0) && negb b then with_wheel (set_pending 1) st' else st'), b.
  split.
  - intros fuel Hfu. specialize (Hrun fuel Hfu). rewrite <- Hsh in Hrun.
    change (upper (S k) fuel max st) with (advance_from callback k fuel 1 max st).
    rewrite advance_from_upper. replace (7 - k)%nat with (S l) by lia.
    revert Hrun. generalize (process_body callback (upper k fuel max) fuel (S l) max).
    intros pr Hpr. unfold advance_body. fold p. unfold step_up in Hpr. fold p in Hpr.
    destruct (p =? 0); simpl; rewrite Hpr; by destruct b.
  - rewrite Hp1 in Ht, Hf. fold p.
    split_and!.
    + exists L'. destruct ((p =? 0) && negb b); [| by split_and!].
      split_and!; [| done |].
      * apply (sane_clock_fields _ _ (wheel st') L'); [eauto | done].
      * by eapply (J_ext n st').
    + intros ->. rewrite andb_false_r. auto.
    + intros ->. rewrite andb_true_r. intros Hp. rewrite (proj2 (Z.eqb_neq p 0)) by done. auto.
    + done.
Qed.

(** The last level of a tick: its slot is not the first of the level, or there
    is no level above. *)
Lemma process_last n max l adv (st : state C) :
  (l < 8)%nat -> 0 < n <= H -> 1 <= max < 2 ^ 64 ->
  tick_ready n l st -> sh n l mod 256 <> 0 \/ l = 7%nat ->
  exists F st' b,
    (forall fuel, (F <= fuel)%nat ->
       process_body callback (adv fuel) fuel l max (sh n l) st = Ok (st', b)) /\
    process_post n l st st' b max.
Proof.
  intros Hl Hn Hmax Hr Hm.
  destruct (tick_ready_last n l st Hr Hl ltac:(lia) Hm) as (Hnow & L & Hw).
  destruct (drain_level n l st L max) as (F & st' & b & Hrun & Hd & Hp & Hb);
    try done; try lia; [apply Hr |].
  exists F, st', b. split; [| split_and!; auto].
  intros fuel Hf. unfold process_body. rewrite <- (Hrun fuel Hf).
  destruct (Z.eqb_spec (Z.land (sh n l) MASK) 0) as [E|]; [| done].
  rewrite land_MASK in E. destruct Hm as [Hm| ->]; done.
Qed.

(** A level whose slot is the first: the level above, then the slot. *)
Lemma process_body_first n max l k fuel (st : state C) :
  (l < 7)%nat -> sh n l mod 256 = 0 ->
  process_body callback (upper k fuel max) fuel l max (sh n l) st =
  ('(st, ok) ← upper k fuel max st;
   if (ok : bool) then drain_slot callback fuel l (cur n l) max st else Ok (st, false)).
Proof.
  intros Hl E. unfold process_body. rewrite land_MASK, E, Z.eqb_refl.
  rewrite (proj2 (Z.ltb_lt (Z.of_nat l) MAX_LEVEL)) by (change MAX_LEVEL with 7; lia).
  unfold cur. by rewrite land_MASK, E.
Qed.

Lemma process_spec n max k : forall l (st : state C),
  (l + k = 7)%nat -> 0 < n <= H -> 1 <= max < 2 ^ 64 -> tick_ready n l st ->
  exists F st' b,
    (forall fuel, (F <= fuel)%nat ->
       process_body callback (upper k fuel max) fuel l max (sh n l) st = Ok (st', b)) /\
    process_post n l st st' b max.
Proof.
  induction k as [|k IH]; intros l st Hlk Hn Hmax Hr.
  { apply (process_last n max l (fun fuel => upper 0 fuel max)); try done; lia. }
  destruct (Z.eq_dec (sh n l mod 256) 0) as [E|E];
    [| apply (process_last n max l (fun fuel => upper (S k) fuel max)); try done; [lia | auto]].
  assert (due n (S l)) as HdS by (apply due_S; split; [apply Hr | done]).
  destruct (advance_up_spec n l k max st) as (F1 & st1 & b1 & Hup & Hpost); try done.
  { intros st1 Hr1. apply IH; try done. lia. }
  destruct Hpost as ((L1 & Hw1 & Hn1 & HJ1) & Ht & Hf & Hb1).
  pose proof (fun fuel => process_body_first n max l (S k) fuel st ltac:(lia) E) as Hbody.
  destruct b1.
  - destruct (drain_level n l st1 L1 max) as (F2 & st' & b & Hrun & Hd & Hp & Hb); try done; try lia.
    { eapply sane_weaken; [| | exact Hw1]; [| naive_solver].
      intros m _ [? Hm]. split; [done |]. specialize (Hm eq_refl). lia. }
    exists (F1 `max` F2)%nat, st', b. split.
    + intros fuel Hfu. rewrite Hbody, Hup by lia. simpl. apply Hrun. lia.
    + rewrite Ht in Hp by done. split_and!; auto.
  - exists F1, st1, false. split.
    + intros fuel Hfu. by rewrite Hbody, Hup.
    + split_and!; [| done | auto | auto].
      exists L1. split_and!; [| done | done].
      eapply sane_weaken; [| | exact Hw1]; [naive_solver | naive_solver].
Qed.

(** *** The whole call *)

(** The states between calls of [advance]: nothing is left of tick [n], or a
    partially processed tick is pending. *)
Definition wheel_inv (n : Tick) (w : TimerWheel) : Prop :=
  0 <= n /\ (ticks_pending_ w <> 0 -> 0 < n) /\ now_ w = clock n /\ 0 <= ticks_pending_ w /\
  exists L, sane N n (fun m => due n m /\ ticks_pending_ w <> 0) w L.

(** The time the wheel is to reach. *)
Definition target (n p : Tick) : Tick := if p =? 0 then n else n + p - 1.

Definition advance_post (st' : state C) (b : bool) (t : Tick) (n : Tick) (max : Z) : Prop :=
  exists n', n <= n' /\ wheel_inv n' (wheel st') /\ J n' st' /\
    target n' (ticks_pending_ (wheel st')) = t /\
    (b = true <-> ticks_pending_ (wheel st') = 0) /\ (N <= max -> b = true).

(** The start of the next tick. *)
Lemma next_tick_ready n (st : state C) :
  wheel_inv n (wheel st) -> ticks_pending_ (wheel st) = 0 -> J n st -> n + 1 <= H ->
  tick_ready (n + 1) 0 (with_wheel (set_now 0 (n + 1)) st).
Proof.
  intros (Hn & Hn0 & Hnow & Hp & L & Hw) Hp0 HJ HnH. split_and!; [apply due_0 | | |].
  - exists L. apply (sane_clock_fields _ _ (wheel st)); [eauto |].
    split; [apply Hw | | done]. intros e s Hs.
    destruct (sane_placed _ _ _ _ _ Hw e s Hs) as [? Hat]. split; [done |].
    apply at_slot_tick; [done |]. eapply at_slot_weaken; [| exact Hat]. naive_solver.
  - eapply J_tick; [| by eapply (J_ext n st)]. lia.
  - simpl. rewrite Hp0, Hnow. simpl. rewrite <- clk_0 by lia.
    replace (n + 1 - 1) with n by lia. rewrite clock_lookup, sh_0, u64_small by lia. done.
Qed.

Lemma tick_loop_step n d pr (st st2 : state C) b :
  now_ (wheel st) = clock n -> 0 <= n < 2 ^ 64 - 1 ->
  pr (sh (n + 1) 0) (with_wheel (set_now 0 (n + 1)) st) = Ok (st2, b) ->
  tick_loop pr 0 (S d) st =
  if b then tick_loop pr 0 d st2
  else Ok (with_wheel (set_pending (u64 (Z.of_nat d + 1))) st2, false).
Proof.
  intros Hnow Hn Hpr. rewrite sh_0 in Hpr.
  assert (u64 (now_ (wheel st) !!! 0%nat + 1) = n + 1) as Ht1
    by (rewrite Hnow, clock_lookup, sh_0, u64_small by lia; done).
  cbn [tick_loop]. rewrite Ht1, Hpr. simpl. by destruct b.
Qed.

(** A tick that is done leaves the wheel between two ticks. *)
Lemma tick_done_inv n (st' : state C) b :
  tick_done n 0 b st' -> 0 < n -> 0 <= ticks_pending_ (wheel st') ->
  (b = false -> ticks_pending_ (wheel st') <> 0) -> wheel_inv n (wheel st').
Proof.
  intros (L' & Hw & Hn' & _) Hn Hp Hb. split_and!; [lia | lia | done | lia |].
  exists L'. eapply sane_weaken; [| | exact Hw]; [| naive_solver].
  intros m _ [? Hm]. split; [done |]. destruct b; [specialize (Hm eq_refl); lia | auto].
Qed.

Lemma tick_loop_spec max d : forall n (st : state C),
  wheel_inv n (wheel st) -> ticks_pending_ (wheel st) = 0 -> J n st ->
  n + Z.of_nat d <= H -> 1 <= max < 2 ^ 64 ->
  exists F st' b,
    (forall fuel, (F <= fuel)%nat ->
       tick_loop (process_body callback (upper 7 fuel max) fuel 0 max) 0 d st = Ok (st', b)) /\
    advance_post st' b (n + Z.of_nat d) n max.
Proof.
  induction d as [|d IH]; intros n st Hi Hp0 HJ Hd Hmax.
  { exists 0%nat, st, true. split; [done |]. exists n. rewrite Hp0.
    split_and!; [lia | done | done | unfold target; simpl; lia | done | done]. }
  pose proof Hi as (Hn & _ & Hnow & _). pose proof (next_tick_ready n st Hi Hp0 HJ ltac:(lia)) as Hr.
  destruct (process_spec (n + 1) max 7 0 _ ltac:(lia) ltac:(lia) Hmax Hr) as (F1 & st2 & b & Hrun & Hpost).
  destruct Hpost as (Hdone & Ht & Hf & Hb).
  pose proof (fun fuel Hfu => tick_loop_step n d _ st st2 b Hnow ltac:(lia) (Hrun fuel Hfu)) as Hstep.
  destruct b.
  - specialize (Ht eq_refl). simpl in Ht. rewrite Hp0 in Ht.
    destruct (IH (n + 1) st2) as (F2 & st' & b & Hrun2 & n' & Hn' & Hi' & HJ' & Htg & Hb1 & Hb2);
      [eapply tick_done_inv; [exact Hdone | lia..|]; by rewrite Ht | done
      | destruct Hdone as (? & _ & _ & ?); done | lia | done |].
    exists (F1 `max` F2)%nat, st', b. split.
    + intros fuel Hfu. rewrite Hstep by lia. apply Hrun2. lia.
    + exists n'. split_and!; try done; [lia |]. rewrite Htg. lia.
  - exists F1, (with_wheel (set_pending (u64 (Z.of_nat d + 1))) st2), false.
    split; [apply Hstep |]. exists (n + 1). rewrite u64_small by lia.
    split_and!; [lia | | | | split; [done | simpl; lia] | done].
    + apply (tick_done_inv _ _ false); simpl; [| lia..].
      destruct Hdone as (L2 & Hw2 & Hn2 & HJ2). exists L2.
      split_and!; [apply (sane_clock_fields _ _ (wheel st2)); eauto | done | by eapply (J_ext (n + 1) st2)].
    + destruct Hdone as (_ & _ & _ & HJ2). by eapply (J_ext (n + 1) st2).
    + unfold target. simpl. destruct (Z.eqb_spec (Z.of_nat d + 1) 0); lia.
Qed.

Lemma advance_body_resumed pr delta (st : state C) :
  ticks_pending_ (wheel st) <> 0 ->
  advance_body pr 0 delta st =
  ('(st2, ok) ← pr (now_ (wheel st) !!! 0%nat)
       (with_wheel (set_pending (u64 (ticks_pending_ (wheel st) + delta))) st);
   if (ok : bool) then
     tick_loop pr 0 (Z.to_nat (u64 (ticks_pending_ (wheel st2) - 1))) (with_wheel (set_pending 0) st2)
   else Ok (st2, false)).
Proof.
  intros Hp. unfold advance_body. rewrite (proj2 (Z.eqb_neq _ 0)) by done. simpl.
  destruct (pr _ _) as [[st2 []] |]; done.
Qed.

(** A call that finds ticks pending: what it processes first is ready. *)
Lemma resumed_ready n delta (st : state C) :
  wheel_inv n (wheel st) -> J n st -> ticks_pending_ (wheel st) <> 0 -> 0 <= delta ->
  tick_ready n 0 (with_wheel (set_pending (ticks_pending_ (wheel st) + delta)) st).
Proof.
  intros (Hn & _ & Hnow & Hp & L & Hw) HJ Hp0 Hd. split_and!; [apply due_0 | | by eapply (J_ext n st) |].
  - exists L. apply (sane_clock_fields _ _ (wheel st)); [eauto |].
    eapply sane_weaken; [| | exact Hw]; naive_solver.
  - simpl. destruct (Z.eqb_spec (ticks_pending_ (wheel st) + delta) 0); [lia | done].
Qed.

Lemma advance_resumed n delta max fuel (st st2 : state C) b :
  let p := ticks_pending_ (wheel st) in
  now_ (wheel st) = clock n -> 0 <= n < 2 ^ 64 -> 0 < p -> 0 <= delta -> p + delta < 2 ^ 64 ->
  (b = true -> ticks_pending_ (wheel st2) = p + delta) ->
  process_body callback (upper 7 fuel max) fuel 0 max n (with_wheel (set_pending (p + delta)) st) = Ok (st2, b) ->
  advance callback fuel delta max 0 st =
  if b then tick_loop (process_body callback (upper 7 fuel max) fuel 0 max) 0 (Z.to_nat (p + delta - 1))
              (with_wheel (set_pending 0) st2)
  else Ok (st2, false).
Proof.
  intros p Hnow Hn Hp Hd Hb Hpt Hpr. unfold advance. rewrite (advance_from_upper 7).
  revert Hpr. change (7 - 7)%nat with 0%nat.
  generalize (process_body callback (upper 7 fuel max) fuel 0 max). intros pr Hpr.
  rewrite advance_body_resumed, Hnow, clock_lookup, sh_0, u64_small by (unfold p in *; lia).
  unfold p in Hpr. rewrite Hpr. simpl. destruct b; [| done].
  rewrite (Hpt eq_refl), u64_small by lia. done.
Qed.

Lemma advance_spec_fresh n delta max (st : state C) :
  wheel_inv n (wheel st) -> J n st -> ticks_pending_ (wheel st) = 0 -> 0 < delta ->
  n + delta <= H -> 1 <= max < 2 ^ 64 ->
  exists F st' b,
    (forall fuel, (F <= fuel)%nat -> advance callback fuel delta max 0 st = Ok (st', b)) /\
    advance_post st' b (n + delta) n max.
Proof.
  intros Hi HJ Hp0 Hd Ht Hmax.
  destruct (tick_loop_spec max (Z.to_nat delta) n st) as (F & st' & b & Hrun & Hpost); try done; try lia.
  rewrite Z2Nat.id in Hpost by lia. exists F, st', b. split; [| done].
  intros fuel Hf. unfold advance. rewrite (advance_from_upper 7). unfold advance_body.
  rewrite Hp0. simpl. rewrite (proj2 (Z.ltb_lt 0 delta)) by auto. by apply Hrun.
Qed.

Theorem advance_spec n delta max (st : state C) :
  wheel_inv n (wheel st) -> J n st -> 0 <= delta ->
  (ticks_pending_ (wheel st) = 0 -> 0 < delta) ->
  target n (ticks_pending_ (wheel st)) + delta <= H -> 1 <= max < 2 ^ 64 ->
  exists F st' b,
    (forall fuel, (F <= fuel)%nat -> advance callback fuel delta max 0 st = Ok (st', b)) /\
    advance_post st' b (target n (ticks_pending_ (wheel st)) + delta) n max.
Proof.
  intros Hi HJ Hd Hd0 Ht Hmax. unfold target in *.
  destruct (Z.eqb_spec (ticks_pending_ (wheel st)) 0) as [Hp0|Hp0]; [apply advance_spec_fresh; auto |].
  pose proof Hi as (Hn & Hn0 & Hnow & Hp & _). specialize (Hn0 Hp0).
  set (p := ticks_pending_ (wheel st)) in *.
  destruct (process_spec n max 7 0 _ ltac:(lia) ltac:(lia) Hmax (resumed_ready n delta st Hi HJ Hp0 Hd))
    as (F1 & st2 & b & Hrun & Hdone & Hpt & Hpf & Hb). simpl in Hpt, Hpf. rewrite sh_0 in Hrun.
  pose proof Hdone as (_ & _ & _ & HJ2).
  assert (forall fuel, (F1 <= fuel)%nat -> _) as Hstep
    by (intros fuel Hfu; exact (advance_resumed n delta max fuel st st2 b Hnow ltac:(lia) ltac:(lia) Hd
          ltac:(lia) Hpt (Hrun fuel Hfu))).
  destruct b.
  - destruct (tick_loop_spec max (Z.to_nat (p + delta - 1)) n (with_wheel (set_pending 0) st2))
      as (F2 & st' & b & Hrun2 & Hpost); try done; try lia.
    { destruct Hdone as (L2 & Hw2 & Hn2 & _). apply (tick_done_inv _ _ true); simpl; [| lia | done | done].
      exists L2. split_and!; [apply (sane_clock_fields _ _ (wheel st2)); eauto | done | by eapply (J_ext n st2)]. }
    { by eapply (J_ext n st2). }
    exists (F1 `max` F2)%nat, st', b. split; [intros fuel Hfu; rewrite Hstep by lia; apply Hrun2; lia |].
    rewrite Z2Nat.id in Hpost by lia.
    by replace (n + p - 1 + delta) with (n + (p + delta - 1)) by lia.
  - exists F1, st2, false. split; [exact Hstep |]. specialize (Hpf eq_refl ltac:(lia)).
    exists n. rewrite Hpf. split_and!; [lia | | done | | split; [done | lia] | done].
    + apply (tick_done_inv _ _ false); [done | lia..].
    + unfold target. rewrite (proj2 (Z.eqb_neq _ 0)); lia.
Qed.
End Spec.
