(* ===== verification/TimerProps.v ===== *)
(** * What the timer wheel promises

    The contract stated in the comments of [timer-wheel.h], over the models of
    TimerWheel and TimerAdvance: the operations refine a map of deadlines
    ([abs_op]), [advance] fires every event at its tick and in order, calls
    compose, and the two places where the code departs from its comments. *)
From S2P Require Import Prelude TimerWheel TimerPlace TimerAdvance.
Open Scope Z_scope.

(** ** The abstract wheel: a partial map from events to deadlines *)
Abbreviation deadlines := (eid -> option Tick).

Definition set_deadline (e : eid) (t : option Tick) (m : deadlines) : deadlines :=
  fun x => if decide (x = e) then t else m x.

(** What each operation does to the deadlines at tick [n]; a range leaves the
    choice of the tick to the implementation. *)
Inductive abs_op (n : Tick) (m : deadlines) : wheel_op -> deadlines -> Prop :=
  | abs_schedule e d : abs_op n m (OpSchedule e d) (set_deadline e (Some (n + d)) m)
  | abs_range e s t d : s <= d <= t -> abs_op n m (OpRange e s t) (set_deadline e (Some (n + d)) m)
  | abs_cancel e : abs_op n m (OpCancel e) (set_deadline e None m).

Lemma wheel_inv_step N n w w' L :
  0 <= n -> (ticks_pending_ w <> 0 -> 0 < n) -> now_ w = clock n -> 0 <= ticks_pending_ w ->
  op_step N n (fun m => due n m /\ ticks_pending_ w <> 0) w L w' -> wheel_inv N n w'.
Proof.
  intros Hn Hn0 Hnow Hp (L' & Hw & Hn' & Hp' & _). unfold wheel_inv. rewrite Hn', Hp'.
  split_and!; try done. by exists L'.
Qed.

Lemma wheel_inv_now N n w : wheel_inv N n w -> now w = n.
Proof. intros (_ & _ & Hnow & _). by apply now_clock. Qed.

(** Nothing scheduled is overdue; with no tick pending all of it lies ahead. *)
Lemma wheel_inv_ahead N n w e T :
  wheel_inv N n w -> view w e = Some T ->
  n <= T < 2 ^ 64 /\ (ticks_pending_ w = 0 -> n < T) /\ Z.pos e < N.
Proof.
  intros (Hn & _ & _ & _ & L & Hw) Hv. unfold view in Hv.
  destruct (slot_ (ev w e)) as [s|] eqn:Hs; [| done]. injection Hv as <-.
  destruct (sane_placed _ _ _ _ _ Hw e s Hs) as [Hx Hat].
  pose proof (at_slot_ge _ _ _ _ (sane_due _ _ _ _ _ Hw) Hat) as Hge.
  destruct Hat as (_ & _ & Hd & HP & HT). split_and!; [lia | lia | | done].
  intros Hp. apply (sh_lt_below n _ s.1).
  destruct (Z.eq_dec (sh (scheduled_at w e) s.1) (sh n s.1)) as [E|E]; [| lia].
  by destruct (HP E).
Qed.

Lemma TimerWheel_init_inv N n : 0 <= n < 2 ^ 64 -> wheel_inv N n (TimerWheel_init n).
Proof.
  intros Hn. split_and!; [lia | done | reflexivity | done |].
  exists (fun _ => []). split.
  - split; try done. intros. constructor.
  - done.
  - intros l [_ H]. done.
Qed.

(** ** Firing on time *)
Definition on_time (n0 n : Tick) (new : list fired) : Prop :=
  Forall (fun f => fired_now f = fired_due f /\ n0 <= fired_now f <= n) new /\
  Sorted Z.le (map fired_now new).

Lemma on_time_mono n0 n n' new : n <= n' -> on_time n0 n new -> on_time n0 n' new.
Proof.
  intros Hle [Hf Hs]. split; [| done]. eapply Forall_impl; [exact Hf |]. naive_solver lia.
Qed.

Lemma Sorted_snoc l x : Sorted Z.le l -> Forall (fun y => y <= x) l -> Sorted Z.le (l ++ [x]).
Proof.
  induction l as [|a l IH]; intros Hs Hf; simpl; [by repeat constructor |].
  apply Sorted_inv in Hs as [Hs Hh]. apply Forall_cons in Hf as [Ha Hf]. constructor; [auto |].
  destruct l; simpl; constructor; [done | by inversion Hh].
Qed.

Lemma on_time_snoc n0 n new e :
  n0 <= n -> on_time n0 n new -> on_time n0 n (new ++ [mkFired e n n]).
Proof.
  intros Hn [Hf Hs]. split.
  - apply Forall_app. split; [done |]. apply Forall_singleton. simpl. lia.
  - rewrite map_app. simpl. apply Sorted_snoc; [done |]. apply Forall_map.
    eapply Forall_impl; [exact Hf |]. simpl. lia.
Qed.

(** Every callback that runs while the clock is at most [H], for an event below
    the address bound [N], keeps the obligations of [ok_op]. *)
Definition callbacks_keep_obligations {C} (callback : C -> eid -> TimerWheel -> C * action) (N H : Z) : Prop :=
  forall c e w, Z.pos e < N -> 0 <= now w <= H -> ok_action N (callback c e w).2 w.

Lemma obligations_ok {C} (callback : C -> eid -> TimerWheel -> C * action) N H :
  callbacks_keep_obligations callback N H ->
  forall n e s (st : state C), 0 <= n <= H -> now (wheel st) = n -> Z.pos e < N ->
  let w := pop_event s e (wheel st) in ok_action N (callback (client st) e w).2 w.
Proof.
  intros Hok n e s st Hn Hnow He w. apply Hok; [done |]. unfold w, now.
  destruct (pop_event_frame s e (wheel st)) as (-> & _). unfold now in Hnow. lia.
Qed.

Section Contract.
Context {C : Type} (callback : C -> eid -> TimerWheel -> C * action) (N H : Z).

Lemma execute_log e s n (st st' : state C) :
  view (wheel st) e = Some n -> now (wheel st) = n ->
  execute callback e (with_wheel (pop_event s e) st) = Ok st' ->
  log st' = log st ++ [mkFired e n n].
Proof.
  intros Hv Hn. unfold execute. simpl. destruct (callback _ _ _) as [c a]. intros Hx.
  inv_res. simpl. destruct (pop_event_frame s e (wheel st)) as (Hnow & _ & Hsch).
  rewrite Hsch. unfold now. rewrite Hnow. unfold view in Hv. case_match; [| done].
  by injection Hv as ->.
Qed.

(** The client invariants the theorems below are proved with. *)
Definition fires_on_time (n0 : Tick) (st0 : state C) (n : Tick) (st : state C) : Prop :=
  n0 <= n /\ exists new, log st = log st0 ++ new /\ on_time n0 n new.

Lemma fires_on_time_execute n0 st0 n e s (st st' : state C) :
  fires_on_time n0 st0 n st -> view (wheel st) e = Some n -> now (wheel st) = n ->
  execute callback e (with_wheel (pop_event s e) st) = Ok st' -> fires_on_time n0 st0 n st'.
Proof.
  intros [Hn (new & Hl & Ht)] Hv Hnow Hx. split; [done |].
  exists (new ++ [mkFired e n n]). rewrite (execute_log e s n st st'), Hl, app_assoc by done.
  split; [done |]. by apply on_time_snoc.
Qed.

(** C1: a call of [advance] whose callbacks keep the obligations of the header
    comment always returns, whatever they schedule or cancel.  The events it
    executes run one by one in the order of their ticks, each when [now()] is
    the tick it was scheduled for; the wheel is well formed afterwards; the time
    reached plus the ticks left pending is the old time plus [delta]; the call
    returns [true] exactly when nothing is left pending, in particular when
    [max_execute] exceeds the number of events; then nothing that is still
    scheduled is due. *)
Theorem advance_on_time n delta max (st : state C) :
  H < 2 ^ 64 ->
  callbacks_keep_obligations callback N H ->
  wheel_inv N n (wheel st) -> 0 <= delta -> (ticks_pending_ (wheel st) = 0 -> 0 < delta) ->
  target n (ticks_pending_ (wheel st)) + delta <= H -> 1 <= max < 2 ^ 64 ->
  exists F st' b new n',
    (forall fuel, (F <= fuel)%nat -> advance callback fuel delta max 0 st = Ok (st', b)) /\
    log st' = log st ++ new /\ on_time n n' new /\
    now (wheel st') = n' /\ wheel_inv N n' (wheel st') /\
    target n' (ticks_pending_ (wheel st')) = target n (ticks_pending_ (wheel st)) + delta /\
    (b = true <-> ticks_pending_ (wheel st') = 0) /\ (N <= max -> b = true) /\
    (b = true -> forall e T, view (wheel st') e = Some T -> n' < T).
Proof.
  intros HH Hok Hi Hd Hd0 Ht Hmax.
  destruct (advance_spec callback N H HH (fires_on_time n st)) with (n := n) (delta := delta)
    (max := max) (st := st) as (F & st' & b & Hrun & n' & Hn' & Hi' & [_ (new & Hl & Hot)] & Htg & Hb & Hbm);
    try done.
  { by intros m st1 st2 _ _ Hl [Hm (new & E & Hot)]; split; [| exists new; rewrite Hl]. }
  { intros m m' st1 Hm [Hm' (new & E & Hot)]. split; [lia |]. exists new. eauto using on_time_mono. }
  { intros; by eapply fires_on_time_execute. }
  { intros; by eapply obligations_ok. }
  { split; [done |]. exists []. rewrite app_nil_r. by repeat constructor. }
  exists F, st', b, new, n'. split_and!; try done; [by eapply wheel_inv_now |].
  intros E e T Hv. apply (wheel_inv_ahead N n' (wheel st') e T Hi' Hv). by apply Hb.
Qed.

(** ** Callbacks that leave the wheel alone *)
Definition passive : Prop := forall c e w, (callback c e w).2 = Done.

(** From [st0]: the events executed are gone, the others have their deadlines. *)
Definition tracks (st0 : state C) (st : state C) : Prop :=
  exists new, log st = log st0 ++ new /\ NoDup (map fired_event new) /\
    (forall f, f ∈ new -> view (wheel st0) (fired_event f) = Some (fired_due f)) /\
    (forall e, view (wheel st) e =
       if decide (e ∈ map fired_event new) then None else view (wheel st0) e).

Lemma tracks_execute st0 n e s (st st' : state C) :
  passive -> tracks st0 st -> view (wheel st) e = Some n -> now (wheel st) = n ->
  execute callback e (with_wheel (pop_event s e) st) = Ok st' -> tracks st0 st'.
Proof.
  intros Hpas (new & Hl & Hnd & Hf & Hv) He Hn Hx.
  pose proof (execute_log e s n st st' He Hn Hx) as Hlog.
  assert (e ∉ map fired_event new) as Hout by (rewrite Hv in He; by case_decide).
  assert (wheel st' = pop_event s e (wheel st)) as Hw.
  { unfold execute in Hx. simpl in Hx. specialize (Hpas (client st) e (pop_event s e (wheel st))).
    destruct (callback _ _ _) as [c a]. simpl in Hpas. rewrite Hpas in Hx. simpl in Hx. by inv_res. }
  exists (new ++ [mkFired e n n]). rewrite Hlog, Hl, app_assoc, map_app. split_and!.
  - done.
  - apply NoDup_app. split_and!; [done | set_solver | apply NoDup_singleton].
  - intros f [Hin|Hin%list_elem_of_singleton]%elem_of_app; [auto | subst; simpl].
    rewrite Hv in He. by rewrite decide_False in He.
  - intros x. rewrite Hw, view_pop, Hv. simpl. repeat case_decide; set_solver.
Qed.

(** With callbacks that do not touch the wheel and an unlimited call, the
    events executed are exactly those whose deadline lies within the [delta]
    ticks, each once and at its deadline; the others stay scheduled as they
    were. *)
Theorem advance_exact n delta max (st : state C) :
  H < 2 ^ 64 -> passive -> wheel_inv N n (wheel st) -> ticks_pending_ (wheel st) = 0 ->
  0 < delta -> n + delta <= H -> 1 <= max < 2 ^ 64 -> N <= max ->
  exists F st' new,
    (forall fuel, (F <= fuel)%nat -> advance callback fuel delta max 0 st = Ok (st', true)) /\
    log st' = log st ++ new /\ NoDup (map fired_event new) /\ Sorted Z.le (map fired_now new) /\
    (forall e t T, mkFired e t T ∈ new <-> view (wheel st) e = Some T /\ T <= n + delta /\ t = T) /\
    (forall e, view (wheel st') e =
       match view (wheel st) e with
       | Some T => if T <=? n + delta then None else Some T
       | None => None
       end).
Proof.
  intros HH Hpas Hi Hp Hd Ht Hmax HN.
  destruct (advance_spec callback N H HH (fun m s => fires_on_time n st m s /\ tracks st s))
    with (n := n) (delta := delta) (max := max) (st := st)
    as (F & st' & b & Hrun & n' & Hn' & Hi' & [[_ (new & Hl & Hot & Hs)] (new' & Hl' & Hnd & Hf & Hv)]
        & Htg & Hb & Hbm); try done; rewrite ?Hp; try done.
  { intros m st1 st2 Hv _ Hl [[Hm (new & E & Hot)] (new' & Hl' & Hnd & Hf & Hv')].
    split; [split; [done | exists new; by rewrite Hl] |].
    exists new'. rewrite Hl. split_and!; try done. intros e. by rewrite Hv. }
  { intros m m' st1 Hm [[Hm' (new & E & Hot)] Htr]. split; [| done]. split; [lia |].
    exists new. eauto using on_time_mono. }
  { intros m e s st1 st2 _ [H1 H2] Hv Hn _ Hx.
    split; [by eapply fires_on_time_execute | by eapply tracks_execute]. }
  { intros m e s st1 _ _ _ _ _. cbv zeta. by rewrite Hpas. }
  { split; [split; [done |]; exists []; rewrite app_nil_r; by repeat constructor |].
    exists []. rewrite app_nil_r. split_and!; [done | constructor | set_solver |].
    intros e. rewrite decide_False; [done | set_solver]. }
  { lia. }
  rewrite Hl in Hl'. apply app_inv_head in Hl'. subst new'.
  assert (b = true) as -> by auto. assert (ticks_pending_ (wheel st') = 0) as Hp' by (by apply Hb).
  rewrite Hp, Hp' in Htg. unfold target in Htg. simpl in Htg. subst n'.
  assert (forall e T, view (wheel st) e = Some T -> T <= n + delta -> e ∈ map fired_event new) as Hin.
  { intros e T HeT HT. specialize (Hv e). case_decide as Hd'; [done |].
    rewrite HeT in Hv. apply (wheel_inv_ahead N (n + delta) _ e T Hi') in Hv as (_ & Hv & _).
    specialize (Hv Hp'). lia. }
  exists F, st', new. split_and!; try done.
  - intros e t T. split.
    + intros Hm. pose proof (Hf _ Hm) as Hv0. simpl in Hv0.
      rewrite Forall_forall in Hot. destruct (Hot _ Hm) as [E1 E2]. simpl in E1, E2.
      split_and!; [done | lia | done].
    + intros (HeT & HT & ->). specialize (Hin e T HeT HT). apply list_elem_of_fmap in Hin.
      destruct Hin as ([e' t' T'] & -> & Hm). pose proof (Hf _ Hm) as Hv0. simpl in Hv0, HeT.
      rewrite HeT in Hv0. injection Hv0 as ->. rewrite Forall_forall in Hot.
      destruct (Hot _ Hm) as [E1 _]. simpl in E1. by subst.
  - intros e. rewrite Hv. case_decide as Hm.
    + apply list_elem_of_fmap in Hm as (f & -> & Hm). rewrite (Hf f Hm).
      rewrite Forall_forall in Hot. destruct (Hot _ Hm). rewrite (proj2 (Z.leb_le _ _)); [done | lia].
    + destruct (view (wheel st) e) as [T|] eqn:E; [| done].
      destruct (Z.leb_spec T (n + delta)); [| done]. by destruct Hm; eapply Hin.
Qed.

(** ** Splitting a call *)
Lemma tick_loop_app pr d1 d2 (st st1 : state C) :
  tick_loop pr 0 d1 st = Ok (st1, true) ->
  tick_loop pr 0 (d1 + d2) st = tick_loop pr 0 d2 st1.
Proof.
  revert st. induction d1 as [|d1 IH]; intros st; simpl; [by intros [= ->] |].
  destruct (pr _ _) as [[st2 []]|] eqn:E; simpl; [apply IH | done | done].
Qed.

Lemma advance_idle fuel delta max (st : state C) :
  ticks_pending_ (wheel st) = 0 -> 0 < delta ->
  advance callback fuel delta max 0 st =
  tick_loop (process_body callback (upper callback 7 fuel max) fuel 0 max) 0 (Z.to_nat delta) st.
Proof.
  intros Hp Hd. unfold advance. change (Z.to_nat MAX_LEVEL - 0)%nat with 7%nat.
  rewrite (advance_from_upper callback 7). unfold advance_body. rewrite Hp. simpl.
  by rewrite (proj2 (Z.ltb_lt 0 delta)) by done.
Qed.

(** Advancing by [d1] and then by [d2] ends in the same state, the
    same executions included, as advancing once by [d1 + d2]. *)
Theorem advance_compose n d1 d2 max (st : state C) :
  H < 2 ^ 64 ->
  callbacks_keep_obligations callback N H ->
  wheel_inv N n (wheel st) -> ticks_pending_ (wheel st) = 0 -> 0 < d1 -> 0 < d2 ->
  n + d1 + d2 <= H -> 1 <= max < 2 ^ 64 -> N <= max ->
  exists F st1 st2, forall fuel, (F <= fuel)%nat ->
    advance callback fuel d1 max 0 st = Ok (st1, true) /\
    advance callback fuel d2 max 0 st1 = Ok (st2, true) /\
    advance callback fuel (d1 + d2) max 0 st = Ok (st2, true).
Proof.
  intros HH Hok Hi Hp Hd1 Hd2 Ht Hmax HN.
  pose proof (advance_spec callback N H HH (fun _ _ => True)) as Hspec.
  do 3 specialize (Hspec ltac:(done)).
  specialize (Hspec ltac:(intros; by eapply obligations_ok)).
  destruct (Hspec n d1 max st) as (F1 & st1 & b1 & Hrun1 & n1 & Hn1 & Hi1 & _ & Ht1 & Hb1 & Hm1);
    try done; try (unfold target; rewrite ?Hp; simpl; lia).
  assert (b1 = true) as -> by auto. assert (ticks_pending_ (wheel st1) = 0) as Hp1 by (by apply Hb1).
  rewrite Hp, Hp1 in Ht1. unfold target in Ht1. simpl in Ht1. subst n1.
  destruct (Hspec (n + d1) d2 max st1) as (F2 & st2 & b2 & Hrun2 & n2 & Hn2 & _ & _ & _ & _ & Hm2);
    try done; try (unfold target; rewrite ?Hp1; simpl; lia).
  assert (b2 = true) as -> by auto.
  exists (F1 `max` F2)%nat, st1, st2. intros fuel Hf.
  specialize (Hrun1 fuel ltac:(lia)). specialize (Hrun2 fuel ltac:(lia)).
  split_and!; [done | done |].
  rewrite advance_idle in Hrun1, Hrun2 |- * by (done || lia).
  rewrite Z2Nat.inj_add by lia. by rewrite (tick_loop_app _ _ _ _ st1).
Qed.
End Contract.

(** ** The operations *)

(** C2: [schedule], [schedule_in_range] and [cancel], inside or outside a
    callback, refine the map of deadlines: none of them stops, each keeps the
    wheel well formed, changes the deadline of its event only, and
    [schedule_in_range] chooses a tick of its range. *)
Theorem operations_refine_deadlines N n (o : wheel_op) (w : TimerWheel) :
  wheel_inv N n w -> ok_op N o w ->
  exists w' m, apply_op o w = Ok w' /\ wheel_inv N n w' /\
    ticks_pending_ w' = ticks_pending_ w /\
    abs_op n (view w) o m /\ forall x, view w' x = m x.
Proof.
  intros Hi Hok. pose proof (wheel_inv_now N n w Hi) as Hnw.
  destruct Hi as (Hn & Hn0 & Hnow & Hp & L & Hw).
  set (P := fun m => due n m /\ ticks_pending_ w <> 0) in *.
  assert (forall w', op_step N n P w L w' -> wheel_inv N n w' /\ ticks_pending_ w' = ticks_pending_ w)
    as Hstep by (intros w' Hs; split; [by eapply wheel_inv_step | by destruct Hs as (? & ? & ? & ? & ?)]).
  destruct o as [e d | e s t | e]; simpl in *; rewrite ?Hnw in Hok.
  - destruct (schedule_step N n P w L e d) as (w' & Hr & Hs & Hv);
      [apply Hw | apply Hw | by eapply sane_but | done | lia.. |].
    destruct (Hstep w' Hs). eexists w', _. split_and!; [done.. | by constructor | done].
  - destruct (schedule_in_range_step N n P w L e s t) as (w' & d & Hr & Hs & Hd & Hv);
      [done | done | lia.. |].
    destruct (Hstep w' Hs). eexists w', _. split_and!; [done.. | by apply (abs_range _ _ e s t d) | done].
  - pose proof (cancel_step N n P w L e Hw) as Hs. destruct (Hstep _ Hs).
    eexists _, _. split_and!; [done.. | by constructor |]. intros x. by rewrite view_cancel.
Qed.

(** C32: the pointer surgery of [relink] (unlink from the old slot, insert at
    the head of the new one, either possibly absent) keeps every slot a
    well-formed doubly linked list, and acts on the slots' event lists as
    removing the event from its old list and consing it to the new one. *)
Theorem relink_is_list_move w L e (new : option slot_id) :
  linked w L ->
  exists L', linked (relink e new w) L' /\
    (forall s, L' s =
       if decide (new = slot_ (ev w e)) then L s
       else (if decide (new = Some s) then cons e else id)
            (if decide (slot_ (ev w e) = Some s) then filter (fun x => x <> e) (L s) else L s)) /\
    (forall x, view (relink e new w) x =
       if decide (x = e) then (match new with Some _ => Some (scheduled_at w e) | None => None end)
       else view w x).
Proof.
  intros HL. eexists. split; [by apply relink_linked |]. split; [| intros x; apply view_relink].
  intros s. unfold list_relink, upd_slot, drop_event.
  destruct (slot_ (ev w e)), new; repeat case_decide; simplify_eq; done.
Qed.

(** Once [end] reaches 2^56, [schedule_in_range] can choose a tick before
    [start]: the mask is shifted out entirely and [mask >> WIDTH_BITS] no longer
    keeps the high bits. *)
Theorem schedule_in_range_early :
  exists w', schedule_in_range 1 (2 ^ 56) (2 ^ 56 + 1) (TimerWheel_init 0) = Ok w' /\
    view w' 1%positive = Some 1.
Proof. eexists. split; vm_compute; reflexivity. Qed.

(** ** [ticks_to_next_event] *)
Lemma walk_dseg w s l : forall fuel p,
  dseg w s p l None -> (length l < fuel)%nat -> walk fuel w (head l) = l.
Proof.
  induction l as [|e l IH]; intros [|fuel] p Hd Hf; simpl in *; try lia; [done |].
  destruct Hd as (_ & _ & Hn & Hd). f_equal. rewrite Hn.
  rewrite <- (IH fuel (Some e) Hd) at 2 by lia. by destruct l.
Qed.

Lemma slot_events_linked w L s : linked w L -> slot_events w s = L s.
Proof.
  intros HL. unfold slot_events. rewrite (linked_head _ _ HL).
  eapply walk_dseg; [apply (linked_seg _ _ HL) |].
  assert (length (L s) <= size (dom (heap w)))%nat as H; [| by rewrite size_dom in H; lia].
  rewrite <- (size_list_to_set (C := gset eid) (L s)) by apply (linked_nodup _ _ HL).
  apply subseteq_size. intros e He%elem_of_list_to_set. apply elem_of_dom.
  apply (linked_slot _ _ _ _ HL) in He. unfold ev in He. rewrite lookup_total_alt in He.
  destruct (heap w !! e); [eauto | done].
Qed.

(** [r] is [m], or the distance from tick [n] to the deadline of an event. *)
Definition candidate (w : TimerWheel) (n m r : Tick) : Prop :=
  r <= m /\ (r = m \/ exists e, view w e = Some (n + r)).

Lemma candidate_trans w n m m' r : candidate w n m m' -> candidate w n m' r -> candidate w n m r.
Proof. unfold candidate. intros [H1 [->|H2]] [H3 [->|H4]]; split; auto; lia. Qed.

Lemma min_over_candidate N n w l m :
  wheel_inv N n w -> (forall e, e ∈ l -> slot_ (ev w e) <> None) -> candidate w n m (min_over w m l).
Proof.
  intros Hi. pose proof (wheel_inv_now _ _ _ Hi) as Hn. pose proof (proj1 Hi) as Hn0.
  unfold min_over. revert m. induction l as [|e l IH]; intros m Hl; simpl; [split; auto; lia |].
  eapply candidate_trans; [| apply IH; set_solver].
  assert (view w e = Some (scheduled_at w e)) as Hv.
  { unfold view. destruct (slot_ (ev w e)) eqn:E; [done |]. exfalso. apply (Hl e); [set_solver | done]. }
  destruct (wheel_inv_ahead _ _ _ _ _ Hi Hv) as (Ha & _). rewrite Hn, u64_small by lia.
  split; [lia |]. destruct (Z.min_spec m (scheduled_at w e - n)) as [[_ ->]|[_ ->]]; [by left |].
  right. exists e. rewrite Hv. f_equal. lia.
Qed.

Lemma min_over_le w m l : min_over w m l <= m.
Proof.
  unfold min_over. revert m. induction l as [|e l IH]; intros m; simpl; [lia |].
  etransitivity; [apply IH | lia].
Qed.

Section NextEvent.
Context (N n : Z) (w : TimerWheel) (L : slot_id -> list eid).
Hypothesis Hi : wheel_inv N n w.
Hypothesis HL : linked w L.

Lemma slot_events_active s e : e ∈ slot_events w s -> slot_ (ev w e) <> None.
Proof. rewrite (slot_events_linked _ L) by done. intros He%(linked_slot _ _ _ _ HL). congruence. Qed.

Lemma ticks_round_candidate level i m :
  match ticks_round w level i m with inl r | inr r => candidate w n m r end.
Proof.
  unfold ticks_round. cbv zeta.
  match goal with |- context [slot_events w (level, ?x)] => set (si := x) end.
  set (m1 := if (_ : bool) then min_over _ _ _ else m).
  assert (candidate w n m m1) as Hm1.
  { unfold m1. case_match; [| split; [lia | by left]].
    eapply min_over_candidate; [done | apply slot_events_active]. }
  destruct (slot_events w (level, si)) as [|e rest] eqn:E; [done |].
  assert (forall x, x ∈ e :: rest -> slot_ (ev w x) <> None) as Hact
    by (intros x Hx; eapply slot_events_active; by rewrite E).
  destruct (level =? 0)%nat; (eapply candidate_trans; [exact Hm1 |]);
    eapply min_over_candidate; try done. intros x Hx. apply Hact. set_solver.
Qed.

Lemma ticks_loop_candidate level k : forall i m r,
  ticks_loop w level k i m = inl r -> candidate w n m r.
Proof.
  induction k as [|k IH]; intros i m r; [done |]. simpl.
  pose proof (ticks_round_candidate level i m) as H.
  destruct (ticks_round w level i m); [by intros [= ->] |].
  intros Hr. eapply candidate_trans; [exact H | by eapply IH].
Qed.

Lemma ticks_from_candidate (k : nat) (max : Tick) : ticks_pending_ w = 0 -> candidate w n max (ticks_from k w max).
Proof.
  intros Hp. induction k as [|k IH]; cbn [ticks_from]; rewrite Hp; cbn [Z.eqb negb].
  all: destruct (ticks_loop _ _ _ _ _) eqn:E; [by eapply ticks_loop_candidate |].
  - split; [lia | by left].
  - case_match; [done | split; [lia | by left]].
Qed.
End NextEvent.

(** The core wheel is scanned in the order of the ticks. *)
Lemma ticks_loop_core N n w L e d k : forall i m,
  wheel_inv N n w -> ticks_pending_ w = 0 -> sane N n (fun _ => False) w L ->
  slot_ (ev w e) = Some (0%nat, Z.land (n + d) MASK) -> scheduled_at w e = n + d ->
  1 <= d <= 255 -> 0 <= i < d -> d <= i + Z.of_nat k -> n + 255 < 2 ^ 64 ->
  exists r, ticks_loop w 0 k i m = inl r /\ r <= d.
Proof.
  induction k as [|k IH]; intros i m Hi Hp Hw Hs He Hd Hid Hk Hn; [lia |].
  assert (now_ w !!! 0%nat = n) as Hnow by apply (wheel_inv_now _ _ _ Hi).
  pose proof (proj1 Hi) as Hn0.
  assert (forall x, x ∈ slot_events w (0%nat, Z.land (n + 1 + i) MASK) -> scheduled_at w x = n + 1 + i) as Hx.
  { intros x Hx. rewrite (slot_events_linked _ L) in Hx by apply Hw.
    apply (linked_slot _ _ _ _ (sane_linked _ _ _ _ _ Hw)) in Hx.
    destruct (sane_placed _ _ _ _ _ Hw x _ Hx) as [_ (_ & Hsl & Hdist & Hne & HT)].
    simpl in Hsl, Hdist, Hne. rewrite !sh_0 in *. rewrite !land_MASK in Hsl.
    destruct (Z.eq_dec (scheduled_at w x) n); [by destruct Hne |]. zdiv. }
  simpl. unfold ticks_round. rewrite Hnow, u64_small by lia.
  set (m1 := if (_ : bool) then min_over _ _ _ else m).
  destruct (slot_events w (0%nat, Z.land (n + 1 + i) MASK)) as [|x rest] eqn:Es.
  - apply IH; try done; try lia. split; [lia |].
    destruct (Z.eq_dec (i + 1) d) as [E|]; [exfalso | lia].
    apply (linked_slot _ _ _ _ (sane_linked _ _ _ _ _ Hw)) in Hs.
    replace (n + 1 + i) with (n + d) in Es by lia.
    rewrite (slot_events_linked _ L) in Es by apply Hw. rewrite Es in Hs. set_solver.
  - eexists. split; [done |]. unfold min_over. simpl.
    rewrite (Hx x), (wheel_inv_now _ _ _ Hi), u64_small by (set_solver || lia). lia.
Qed.

(** [ticks_to_next_event] is 0 while a tick is pending; otherwise its
    result is [max] or the distance to the deadline of some scheduled event,
    and it is no later than any event on the core wheel. *)
Theorem ticks_to_next_event_sound N n max w :
  wheel_inv N n w -> n + 255 < 2 ^ 64 ->
  let r := ticks_to_next_event w max 0 in
  (ticks_pending_ w <> 0 -> r = 0) /\
  (ticks_pending_ w = 0 ->
     r <= max /\ (r = max \/ exists e, view w e = Some (n + r)) /\
     forall e T i, view w e = Some T -> slot_ (ev w e) = Some (0%nat, i) -> r <= T - n).
Proof.
  intros Hi Hn r. unfold r, ticks_to_next_event. change (Z.to_nat MAX_LEVEL - 0)%nat with 7%nat.
  pose proof Hi as (Hn0 & _ & Hnow & _ & L & Hw). split.
  { intros Hp. cbn [ticks_from]. by rewrite (proj2 (Z.eqb_neq _ 0)). }
  intros Hp. assert (sane N n (fun _ => False) w L) as Hw'
    by (eapply sane_weaken; [| | exact Hw]; naive_solver).
  destruct (ticks_from_candidate N n w L Hi (sane_linked _ _ _ _ _ Hw) 7 max Hp) as [H1 H2].
  split_and!; [done | done |]. intros e T i Hv Hs.
  destruct (sane_placed _ _ _ _ _ Hw' e _ Hs) as [_ (_ & Hsl & Hdist & Hne & HT)].
  simpl in Hsl, Hdist, Hne. rewrite !sh_0 in *.
  assert (T = scheduled_at w e) as -> by (unfold view in Hv; rewrite Hs in Hv; congruence).
  set (d := scheduled_at w e - n).
  assert (scheduled_at w e = n + d) as HTd by (unfold d; lia).
  assert (1 <= d <= 255) as Hd
    by (unfold d; destruct (Z.eq_dec (scheduled_at w e) n); [by destruct Hne | lia]).
  destruct (ticks_loop_core N n w L e d 256 0 max) as (r0 & Hr0 & Hle); try done; try lia.
  { by rewrite Hs, Hsl, HTd. }
  cbn [ticks_from]. rewrite Hp. cbn [Z.eqb negb].
  change (Z.to_nat NUM_SLOTS) with 256%nat. change (Z.to_nat MAX_LEVEL - 7)%nat with 0%nat.
  by rewrite Hr0.
Qed.

(** ** Concrete wheels *)
Definition no_op (c : unit) (_ : eid) (_ : TimerWheel) : unit * action := (c, Done).
(** A callback that schedules its event again, [MemberTimerEvent] style. *)
Definition again (c : unit) (e : eid) (_ : TimerWheel) : unit * action :=
  (c, Act (OpSchedule e 3) (fun _ => Done)).

Definition start (w : TimerWheel) : state unit := mkState w () [].
Definition run_ops (ops : list wheel_op) (w : TimerWheel) : TimerWheel :=
  fold_left (fun w o => from_ok w (apply_op o w)) ops w.

Lemma apply_op_inv N n o w :
  wheel_inv N n w -> ok_op N o w -> exists w', apply_op o w = Ok w' /\ wheel_inv N n w'.
Proof.
  intros Hi Ho. destruct Hi as (Hn & Hn0 & Hnow & Hp & L & Hw).
  destruct (apply_op_step N n _ w L o Hw Hnow Hn Ho) as (w' & E & Hs).
  exists w'. split; [done |]. by eapply wheel_inv_step.
Qed.

Lemma run_ops_inv N n ops : forall w,
  wheel_inv N n w -> Forall (fun o => forall w, now w = n -> ok_op N o w) ops ->
  wheel_inv N n (run_ops ops w).
Proof.
  induction ops as [|o ops IH]; intros w Hi Hf; [done |]. apply Forall_cons in Hf as [Ho Hf].
  apply IH; [| done].
  destruct (apply_op_inv N n o w Hi (Ho w (wheel_inv_now N n w Hi))) as (w' & -> & Hw). done.
Qed.

Definition demo : TimerWheel :=
  run_ops [OpSchedule 1 5; OpSchedule 2 300; OpRange 3 10 400; OpSchedule 4 7] (TimerWheel_init 0).

Lemma demo_inv : wheel_inv 100 0 demo.
Proof.
  apply run_ops_inv; [by apply TimerWheel_init_inv |].
  repeat (apply Forall_cons; split); [.. | by apply Forall_nil]; intros w Hn; simpl; rewrite Hn; lia.
Qed.

Lemma again_ok : callbacks_keep_obligations again 100 (2 ^ 32).
Proof. intros c e w He Hw. simpl. split; [lia | done]. Qed.

Lemma advance_on_time_witness :
  exists F st' b new n',
    (forall fuel, (F <= fuel)%nat -> advance again fuel 20 1000 0 (start demo) = Ok (st', b)) /\
    log st' = [] ++ new /\ on_time 0 n' new /\
    now (wheel st') = n' /\ wheel_inv 100 n' (wheel st') /\
    target n' (ticks_pending_ (wheel st')) = target 0 0 + 20 /\
    (b = true <-> ticks_pending_ (wheel st') = 0) /\ (100 <= 1000 -> b = true) /\
    (b = true -> forall e T, view (wheel st') e = Some T -> n' < T).
Proof.
  apply (advance_on_time again 100 (2 ^ 32) 0 20 1000 (start demo));
    [done | apply again_ok | apply demo_inv | lia | lia | vm_compute; discriminate | lia].
Defined.

Lemma advance_exact_witness :
  exists F st' new,
    (forall fuel, (F <= fuel)%nat -> advance no_op fuel 6 1000 0 (start demo) = Ok (st', true)) /\
    log st' = [] ++ new /\ NoDup (map fired_event new) /\ Sorted Z.le (map fired_now new) /\
    (forall e t T, mkFired e t T ∈ new <-> view demo e = Some T /\ T <= 0 + 6 /\ t = T) /\
    (forall e, view (wheel st') e =
       match view demo e with Some T => if T <=? 0 + 6 then None else Some T | None => None end).
Proof.
  apply (advance_exact no_op 100 (2 ^ 32) 0 6 1000 (start demo));
    [done | intros []; done | apply demo_inv | done | lia | lia | lia | lia].
Defined.

Lemma advance_compose_witness :
  exists F st1 st2, forall fuel, (F <= fuel)%nat ->
    advance again fuel 6 1000 0 (start demo) = Ok (st1, true) /\
    advance again fuel 300 1000 0 st1 = Ok (st2, true) /\
    advance again fuel (6 + 300) 1000 0 (start demo) = Ok (st2, true).
Proof.
  apply (advance_compose again 100 (2 ^ 32) 0 6 300 1000 (start demo));
    [done | apply again_ok | apply demo_inv | done | lia | lia | lia | lia | lia].
Defined.

Lemma operations_refine_deadlines_witness :
  exists w' m, apply_op (OpRange 2 500 700) demo = Ok w' /\ wheel_inv 100 0 w' /\
    ticks_pending_ w' = ticks_pending_ demo /\
    abs_op 0 (view demo) (OpRange 2 500 700) m /\ forall x, view w' x = m x.
Proof.
  apply (operations_refine_deadlines 100 0 (OpRange 2 500 700) demo); [apply demo_inv |].
  simpl. rewrite (wheel_inv_now 100 0 demo demo_inv). lia.
Defined.

Lemma relink_is_list_move_witness :
  exists L', linked (relink 1 (Some (1%nat, 9)) (TimerWheel_init 0)) L' /\
    (forall s, L' s =
       if decide (Some (1%nat, 9) = slot_ (ev (TimerWheel_init 0) 1)) then []
       else (if decide (Some (1%nat, 9) = Some s) then cons 1%positive else id)
            (if decide (slot_ (ev (TimerWheel_init 0) 1) = Some s)
             then filter (fun x => x <> 1%positive) [] else [])) /\
    (forall x, view (relink 1 (Some (1%nat, 9)) (TimerWheel_init 0)) x =
       if decide (x = 1%positive) then Some (scheduled_at (TimerWheel_init 0) 1)
       else view (TimerWheel_init 0) x).
Proof.
  apply (relink_is_list_move (TimerWheel_init 0) (fun _ => []) 1 (Some (1%nat, 9))).
  split; try done. intros. constructor.
Defined.

Lemma ticks_to_next_event_sound_witness :
  let r := ticks_to_next_event demo 1000 0 in
  (ticks_pending_ demo <> 0 -> r = 0) /\
  (ticks_pending_ demo = 0 ->
     r <= 1000 /\ (r = 1000 \/ exists e, view demo e = Some (0 + r)) /\
     forall e T i, view demo e = Some T -> slot_ (ev demo e) = Some (0%nat, i) -> r <= T - 0).
Proof. apply (ticks_to_next_event_sound 100 0 1000 demo); [apply demo_inv | lia]. Defined.

(** ** Where the code departs from its comments *)

(** [ticks_to_next_event] can answer too late.  From a wheel reached by
    [schedule] and [advance] alone it promises 10 ticks, and the event on an
    outer wheel, which is promoted through two levels at once, runs 6 ticks
    later. *)
Theorem ticks_to_next_event_late :
  (w ← apply_op (OpSchedule 1 65536) (TimerWheel_init 0);
   '(st, _) ← advance no_op 10 65530 (2 ^ 64 - 1) 0 (start w);
   w ← apply_op (OpSchedule 2 10) (wheel st);
   '(st', _) ← advance no_op 10 6 (2 ^ 64 - 1) 0 (start w);
   Ok (ticks_to_next_event w (2 ^ 64 - 1) 0, log st'))
  = Ok (10, [mkFired 1 65536 65536]).
Proof. vm_compute. reflexivity. Qed.

(** [max_execute] bounds the events of one slot, not of the call: with a
    limit of 2, a call of three ticks executes three events and returns
    [true]. *)
Theorem max_execute_exceeded :
  ('(st, b) ← advance no_op 10 3 2 0
      (start (run_ops [OpSchedule 1 1; OpSchedule 2 2; OpSchedule 3 3] (TimerWheel_init 0)));
   Ok (map fired_event (log st), b))
  = Ok ([1; 2; 3]%positive, true).
Proof. vm_compute. reflexivity. Qed.
