(* ===== verification/CStr.v ===== *)
(** * Character strings and the C library routines on numbers

    A C or C++ string is a [list ascii] without its terminator.  The routines
    modelled are those the sources call: [snprintf] with [%d] and [%0Nd],
    [sscanf] with [%d] and literal characters, [atoi], [isspace] and
    [isalnum]-like classes. *)
From S2P Require Import Prelude.
Open Scope Z_scope.

Abbreviation str := (list ascii).
Definition lit (s : string) : str := String.list_ascii_of_string s.

Definition chr (z : Z) : ascii := ascii_of_N (Z.to_N z).
Definition ord (c : ascii) : Z := Z.of_N (N_of_ascii c).

Lemma ord_chr z : 0 <= z < 256 -> ord (chr z) = z.
Proof. intros H. unfold ord, chr. rewrite N_ascii_embedding; lia. Qed.
Lemma chr_ord c : chr (ord c) = c.
Proof. unfold ord, chr. rewrite N2Z.id. apply ascii_N_embedding. Qed.
Lemma ord_range c : 0 <= ord c < 256.
Proof. unfold ord. pose proof (N_ascii_bounded c). lia. Qed.
Lemma ord_inj c d : ord c = ord d -> c = d.
Proof. intros H. rewrite <- (chr_ord c), <- (chr_ord d). congruence. Qed.

(** ** Character classes of the "C" locale *)
Definition is_digit (c : ascii) : bool := (48 <=? ord c) && (ord c <=? 57).
Definition is_space (c : ascii) : bool := (ord c =? 32) || ((9 <=? ord c) && (ord c <=? 13)).

Definition digit (n : Z) : ascii := chr (48 + n).
Definition digit_val (c : ascii) : Z := ord c - 48.

Lemma digit_is_digit n : 0 <= n < 10 -> is_digit (digit n) = true.
Proof. intros H. unfold is_digit, digit. rewrite ord_chr by lia. lia. Qed.
Lemma digit_val_digit n : 0 <= n < 10 -> digit_val (digit n) = n.
Proof. intros H. unfold digit_val, digit. rewrite ord_chr by lia. lia. Qed.

(** ** Printing: [%d], [%0Nd] *)

(** The decimal digits of [n], at most [fuel]. *)
Fixpoint digits (fuel : nat) (n : Z) : str :=
  match fuel with
  | O => []
  | S f => (if n <? 10 then [] else digits f (n / 10)) ++ [digit (n mod 10)]
  end.

(** 64-bit values have at most 20 decimal digits. *)
Definition show_nat (n : Z) : str := digits 20 n.
Definition show_int (z : Z) : str := if z <? 0 then "-"%char :: show_nat (- z) else show_nat z.

(** [%0wd]: the sign, then zeros up to the width. *)
Definition pad0 (w : nat) (z : Z) : str :=
  if z <? 0 then "-"%char :: replicate (w - 1 - length (show_nat (- z))) "0"%char ++ show_nat (- z)
  else replicate (w - length (show_nat z)) "0"%char ++ show_nat z.

(** ** Reading: [%d] *)
Fixpoint scan_digits (acc : Z) (s : str) : Z * str :=
  match s with
  | c :: s' => if is_digit c then scan_digits (10 * acc + digit_val c) s' else (acc, s)
  | [] => (acc, [])
  end.

Fixpoint skip_space (s : str) : str :=
  match s with
  | c :: s' => if is_space c then skip_space s' else s
  | [] => []
  end.

Definition scan_nat (s : str) : option (Z * str) :=
  match s with
  | c :: _ => if is_digit c then Some (scan_digits 0 s) else None
  | [] => None
  end.

(** One [%d] conversion: blanks, a sign, at least one digit. *)
Definition scan_int (s : str) : option (Z * str) :=
  match skip_space s with
  | "-"%char :: s' => match scan_nat s' with Some (n, r) => Some (- n, r) | None => None end
  | "+"%char :: s' => scan_nat s'
  | s' => scan_nat s'
  end.

Definition atoi (s : str) : Z := match scan_int s with Some (n, _) => n | None => 0 end.

(** [atoi] of a number that does not fit an [int] is undefined. *)
Definition atoi_int (s : str) : res Z :=
  let n := atoi s in if (- 2 ^ 31 <=? n) && (n <? 2 ^ 31) then Ok n else Fault Undefined.

(** [sscanf]: a format is [%d] conversions and literals; a blank in the format
    matches any blanks.  The values converted before the first mismatch. *)
Inductive directive : Type := PercentD | Literal (c : ascii).

Fixpoint sscanf (fmt : list directive) (s : str) : list Z :=
  match fmt with
  | [] => []
  | PercentD :: fmt' => match scan_int s with Some (n, r) => n :: sscanf fmt' r | None => [] end
  | Literal c :: fmt' =>
      if is_space c then sscanf fmt' (skip_space s)
      else match s with
           | d :: s' => if decide (c = d) then sscanf fmt' s' else []
           | [] => []
           end
  end.

(** ** Reading back what was printed *)
Lemma scan_digits_app s : forall acc r,
  Forall (fun c => is_digit c = true) s ->
  scan_digits acc (s ++ r) = scan_digits (scan_digits acc s).1 r.
Proof.
  induction s as [|c s IH]; intros acc r Hf; [done |]. apply Forall_cons in Hf as [Hc Hf].
  simpl. rewrite Hc. by apply IH.
Qed.

Lemma digits_all_digits fuel : forall n, 0 <= n -> Forall (fun c => is_digit c = true) (digits fuel n).
Proof.
  induction fuel as [|f IH]; intros n Hn; simpl; [by constructor |].
  apply Forall_app. split; [case_match; [by constructor | apply IH; zdiv] |].
  apply Forall_singleton, digit_is_digit. zdiv.
Qed.

Lemma digits_value fuel : forall n acc, 0 <= n < 10 ^ Z.of_nat fuel ->
  (scan_digits acc (digits fuel n)).1 = acc * 10 ^ Z.of_nat (length (digits fuel n)) + n.
Proof.
  induction fuel as [|f IH]; intros n acc Hn; simpl; [rewrite Z.pow_0_r in Hn; lia |].
  assert (0 <= n / 10 < 10 ^ Z.of_nat f) as Hq
    by (rewrite Nat2Z.inj_succ, Z.pow_succ_r in Hn by lia; zdiv).
  rewrite length_app, Nat2Z.inj_add, Z.pow_add_r by lia. simpl length.
  change (10 ^ Z.of_nat 1) with 10.
  assert (forall a, (scan_digits a [digit (n mod 10)]).1 = 10 * a + n mod 10) as Hlast.
  { intros a. simpl. rewrite digit_is_digit, digit_val_digit by zdiv. done. }
  rewrite scan_digits_app by (case_match; [by constructor | apply digits_all_digits; lia]).
  rewrite Hlast. destruct (Z.ltb_spec n 10) as [Hlt|Hge]; simpl.
  - rewrite Z.mod_small by lia. lia.
  - rewrite IH by done. set (P := 10 ^ _). zdiv.
Qed.

Lemma show_nat_cons n : 0 <= n -> exists c s, show_nat n = c :: s /\ is_digit c = true.
Proof.
  intros Hn. pose proof (digits_all_digits 20 n Hn) as H. unfold show_nat.
  destruct (digits 20 n) as [|c s] eqn:E.
  - change 20%nat with (S 19) in E. cbn [digits] in E. by apply app_eq_nil in E as [_ E].
  - apply Forall_cons in H as [Hc _]. eauto.
Qed.

Definition no_digit (r : str) : Prop := match r with c :: _ => is_digit c = false | [] => True end.

Lemma scan_digits_stop acc r : no_digit r -> scan_digits acc r = (acc, r).
Proof. destruct r as [|c r]; simpl; [done | by intros ->]. Qed.

Lemma scan_digits_zeros k r : scan_digits 0 (replicate k "0"%char ++ r) = scan_digits 0 r.
Proof. induction k; simpl; done. Qed.

Lemma scan_digits_show n r : 0 <= n < 10 ^ 20 -> no_digit r ->
  scan_digits 0 (show_nat n ++ r) = (n, r).
Proof.
  intros Hn Hr. unfold show_nat. rewrite scan_digits_app by (apply digits_all_digits; lia).
  rewrite digits_value by done. by rewrite scan_digits_stop, Z.mul_0_l.
Qed.

Lemma scan_int_digit c s : is_digit c = true -> scan_int (c :: s) = Some (scan_digits 0 (c :: s)).
Proof.
  intros Hc. unfold scan_int. cbn [skip_space].
  assert (is_space c = false) as -> by (unfold is_digit in Hc; unfold is_space; lia).
  destruct c as [[] [] [] [] [] [] [] []]; try discriminate Hc; reflexivity.
Qed.

Lemma scan_int_pad0 w n r : 0 <= n < 10 ^ 20 -> no_digit r ->
  scan_int (pad0 w n ++ r) = Some (n, r).
Proof.
  intros Hn Hr. unfold pad0. destruct (Z.ltb_spec n 0); [lia |].
  rewrite <- app_assoc. set (k := (_ - _)%nat).
  destruct (show_nat_cons n ltac:(lia)) as (c & s & E & Hc).
  assert (exists c' s', replicate k "0"%char ++ show_nat n ++ r = c' :: s' /\ is_digit c' = true)
    as (c' & s' & E' & Hc').
  { destruct k; [rewrite E; simpl; eauto | simpl; eauto]. }
  rewrite E', scan_int_digit, <- E', scan_digits_zeros by done. by rewrite scan_digits_show.
Qed.

Lemma scan_int_show_nat n r : 0 <= n < 10 ^ 20 -> no_digit r ->
  scan_int (show_nat n ++ r) = Some (n, r).
Proof.
  intros Hn Hr. rewrite <- (scan_int_pad0 0 n r) by done. unfold pad0.
  destruct (Z.ltb_spec n 0); [lia | done].
Qed.

(** The width of a padded number. *)
Lemma digits_length fuel : forall n w, (0 < w)%nat -> 0 <= n < 10 ^ Z.of_nat w ->
  (length (digits fuel n) <= w)%nat.
Proof.
  induction fuel as [|f IH]; intros n w Hw Hn; simpl; [lia |].
  rewrite length_app. simpl. destruct (Z.ltb_spec n 10); simpl; [lia |].
  destruct w as [|[|w]]; [lia | simpl in Hn; lia |].
  specialize (IH (n / 10) (S w) ltac:(lia)).
  rewrite Nat2Z.inj_succ, Z.pow_succ_r in Hn by lia.
  specialize (IH ltac:(zdiv)). lia.
Qed.

Lemma pad0_length w n : (0 < w)%nat -> 0 <= n < 10 ^ Z.of_nat w -> length (pad0 w n) = w.
Proof.
  intros Hw Hn. unfold pad0. destruct (Z.ltb_spec n 0); [lia |].
  rewrite length_app, length_replicate. pose proof (digits_length 20 n w Hw Hn).
  unfold show_nat. lia.
Qed.

#[export] Hint Resolve digit_is_digit digits_all_digits : sample.
