(* ===== verification/MsgNames.v ===== *)
(** * Message types and their names: [src/src/linker/include/common.h] *)
From S2P Require Import Prelude CStr.
Open Scope Z_scope.

Inductive FactorMsgT : Type :=
  | kMtCmnServiceStatus | kMtCmnLogin | kMtCmnLoginAns | kMtCmnSubscribe | kMtCmnSubscribeAns | kMtCmnPublish
  | kMtCmnUnsubscribe | kMtCmnUnsubscribeAns | kMtCmnQueryFormular | kMtCmnQueryFormularAns | kMtCmnQueryFactor
  | kMtCmnQueryFactorAns | kMtCmnFactorOper | kMtCmnFactorOperAns | kMtCmnFactorSupplement | kMtCmnFactorSupplementAns
  | kMtCmnClientDisconnected | kMtFactorCalc | kMtFactorCalcAns | kMtFactorConf | kMtFactorConfAns
  | kMtModifyFormularType | kMtModifyFormularTypeAns | kMtQueryFormularType | kMtQueryFormularTypeAns
  | kMtCmnQueryFormularTree | kMtCmnQueryFormularTreeAns.

#[export] Instance FactorMsgT_eq_dec : EqDecision FactorMsgT.
Proof. solve_decision. Defined.

Definition msg_value (t : FactorMsgT) : Z :=
  match t with
  | kMtCmnServiceStatus => 1000 | kMtCmnLogin => 1001 | kMtCmnLoginAns => 1002 | kMtCmnSubscribe => 1003
  | kMtCmnSubscribeAns => 1004 | kMtCmnPublish => 1005 | kMtCmnUnsubscribe => 1006 | kMtCmnUnsubscribeAns => 1007
  | kMtCmnQueryFormular => 1008 | kMtCmnQueryFormularAns => 1009 | kMtCmnQueryFactor => 1010
  | kMtCmnQueryFactorAns => 1011 | kMtCmnFactorOper => 1012 | kMtCmnFactorOperAns => 1013
  | kMtCmnFactorSupplement => 1014 | kMtCmnFactorSupplementAns => 1015 | kMtCmnClientDisconnected => 1099
  | kMtFactorCalc => 2000 | kMtFactorCalcAns => 2001 | kMtFactorConf => 2002 | kMtFactorConfAns => 2003
  | kMtModifyFormularType => 2004 | kMtModifyFormularTypeAns => 2005 | kMtQueryFormularType => 2006
  | kMtQueryFormularTypeAns => 2007 | kMtCmnQueryFormularTree => 2008 | kMtCmnQueryFormularTreeAns => 2009
  end.

(** [#type]; the cases of the [switch], in its order. *)
Definition named_types : list (FactorMsgT * str) :=
  [ (kMtCmnServiceStatus, lit "kMtCmnServiceStatus");
    (kMtCmnLogin, lit "kMtCmnLogin");
    (kMtCmnLoginAns, lit "kMtCmnLoginAns");
    (kMtCmnSubscribe, lit "kMtCmnSubscribe");
    (kMtCmnSubscribeAns, lit "kMtCmnSubscribeAns");
    (kMtCmnPublish, lit "kMtCmnPublish");
    (kMtCmnUnsubscribe, lit "kMtCmnUnsubscribe");
    (kMtCmnUnsubscribeAns, lit "kMtCmnUnsubscribeAns");
    (kMtCmnQueryFormular, lit "kMtCmnQueryFormular");
    (kMtCmnQueryFormularAns, lit "kMtCmnQueryFormularAns");
    (kMtCmnQueryFactor, lit "kMtCmnQueryFactor");
    (kMtCmnQueryFactorAns, lit "kMtCmnQueryFactorAns");
    (kMtCmnFactorSupplement, lit "kMtCmnFactorSupplement");
    (kMtCmnFactorSupplementAns, lit "kMtCmnFactorSupplementAns");
    (kMtCmnClientDisconnected, lit "kMtCmnClientDisconnected");
    (kMtFactorCalc, lit "kMtFactorCalc");
    (kMtFactorCalcAns, lit "kMtFactorCalcAns");
    (kMtFactorConf, lit "kMtFactorConf");
    (kMtFactorConfAns, lit "kMtFactorConfAns");
    (kMtModifyFormularType, lit "kMtModifyFormularType");
    (kMtModifyFormularTypeAns, lit "kMtModifyFormularTypeAns");
    (kMtQueryFormularType, lit "kMtQueryFormularType");
    (kMtQueryFormularTypeAns, lit "kMtQueryFormularTypeAns");
    (kMtCmnQueryFormularTree, lit "kMtCmnQueryFormularTree");
    (kMtCmnQueryFormularTreeAns, lit "kMtCmnQueryFormularTreeAns") ].

Fixpoint name_in (l : list (FactorMsgT * str)) (item : Z) : str :=
  match l with
  | [] => lit "MessageFactorMsgT Not Found"
  | (t, n) :: l => if item =? msg_value t then n else name_in l item
  end.
Definition MessageFactorMsgT (item : Z) : str := name_in named_types item.

Definition mapMsgType (typ : FactorMsgT) : str :=
  match typ with
  | kMtFactorCalc => show_int (msg_value kMtFactorCalc)
  | kMtFactorConf => show_int (msg_value kMtFactorConf)
  | kMtModifyFormularType => show_int (msg_value kMtModifyFormularType)
  | kMtQueryFormularType => show_int (msg_value kMtQueryFormularType)
  | kMtCmnQueryFormularTree => show_int (msg_value kMtCmnQueryFormularTree)
  | _ => []
  end.

Inductive ErrorCodeT : Type := kErrorNone | kErrorServiceOffline | kErrorPyvmNotReady.
Definition error_value (e : ErrorCodeT) : Z :=
  match e with kErrorNone => 0 | kErrorServiceOffline => 10000 | kErrorPyvmNotReady => 10001 end.
Definition mapErrorCode (err : ErrorCodeT) : str :=
  match err with
  | kErrorServiceOffline => lit "kErrorServiceOffline"
  | kErrorNone => lit "kErrorNone"
  | _ => []
  end.

(** ** Names tell the types apart *)
Lemma msg_value_inj t u : msg_value t = msg_value u -> t = u.
Proof. destruct t, u; done. Qed.

Lemma named_types_distinct : NoDup named_types.*2.
Proof. apply (bool_decide_unpack _). vm_compute. exact I. Qed.

Definition Not_Found : str := lit "MessageFactorMsgT Not Found".

Lemma name_in_some l item t n :
  NoDup l.*1 -> (t, n) ∈ l -> item = msg_value t -> name_in l item = n.
Proof.
  induction l as [|[u m] l IH]; [by intros _ ?%elem_of_nil |]. cbn. intros [Hu Hl]%NoDup_cons Hin ->.
  destruct (Z.eqb_spec (msg_value t) (msg_value u)) as [E|E].
  - apply msg_value_inj in E as ->. apply elem_of_cons in Hin as [[= <-]|Hin]; [done |].
    exfalso. apply Hu. apply list_elem_of_fmap. by exists (u, n).
  - apply elem_of_cons in Hin as [[= <- <-]|Hin]; [done |]. by apply IH.
Qed.

Lemma name_in_none l item : (forall t n, (t, n) ∈ l -> item <> msg_value t) -> name_in l item = Not_Found.
Proof.
  induction l as [|[u m] l IH]; cbn; [done |]. intros Hl. destruct (Z.eqb_spec item (msg_value u)) as [E|E].
  - by destruct (Hl u m); [left |].
  - apply IH. intros t n Hin. apply (Hl t n). by right.
Qed.

(** Every message type but the two for operations on factors has a name of its
    own, which gives the type back; those two, and numbers that are no message
    type, are not found. *)
Theorem MessageFactorMsgT_spec item :
  (exists t n, (t, n) ∈ named_types /\ item = msg_value t /\ MessageFactorMsgT item = n /\ n <> Not_Found /\
     forall item', MessageFactorMsgT item' = n -> item' = item) \/
  MessageFactorMsgT item = Not_Found /\
    (item = msg_value kMtCmnFactorOper \/ item = msg_value kMtCmnFactorOperAns \/ forall t, item <> msg_value t).
Proof.
  assert (NoDup named_types.*1) as Hnd by (apply (bool_decide_unpack _); vm_compute; exact I).
  destruct (list_find (fun p => item = msg_value p.1) named_types) as [[i [t n]]|] eqn:E.
  - left. apply list_find_Some in E as (Hi & Ei & _). cbn in Ei. apply list_elem_of_lookup_2 in Hi.
    exists t, n. split_and!; [done | done | by apply (name_in_some _ _ t) | |].
    + intros ->. assert (Not_Found ∉ named_types.*2) as Hnot by (apply (bool_decide_unpack _); vm_compute; exact I).
      apply Hnot. apply list_elem_of_fmap. by exists (t, Not_Found).
    + intros item' E'. destruct (list_find (fun p => item' = msg_value p.1) named_types) as [[j [t' n']]|] eqn:F.
      * apply list_find_Some in F as (Hj & Ej & _). cbn in Ej. apply list_elem_of_lookup_2 in Hj.
        assert (n' = n) as -> by (rewrite <- E'; symmetry; by apply (name_in_some _ _ t')).
        pose proof named_types_distinct as Hd.
        apply list_elem_of_lookup in Hi as [a Ha], Hj as [b Hb].
        assert (a = b) as ->.
        { apply (NoDup_lookup _ a b n Hd); rewrite list_lookup_fmap; [by rewrite Ha | by rewrite Hb]. }
        rewrite Ha in Hb. injection Hb as <-. congruence.
      * exfalso. rewrite list_find_None, Forall_forall in F.
        assert (Not_Found ∉ named_types.*2) as Hnot by (apply (bool_decide_unpack _); vm_compute; exact I).
        apply Hnot. apply list_elem_of_fmap. exists (t, n). split; [| done]. cbn. rewrite <- E'. symmetry.
        apply name_in_none. intros u m Hu. by apply (F (u, m)).
  - right. rewrite list_find_None, Forall_forall in E. split.
    + apply name_in_none. intros u m Hu. by apply (E (u, m)).
    + destruct (decide (item = msg_value kMtCmnFactorOper)) as [|H1]; [by left |].
      destruct (decide (item = msg_value kMtCmnFactorOperAns)) as [|H2]; [by right; left |]. right; right.
      intros t Ht. destruct t; try done;
        match type of Ht with item = msg_value ?k =>
          apply (E (k, MessageFactorMsgT (msg_value k))); [apply (bool_decide_unpack _); vm_compute; exact I | done] end.
Qed.

(** The codes of errors: the one for a scripting engine that is not ready has no
    name. *)
Lemma mapErrorCode_spec e : mapErrorCode e = [] <-> e = kErrorPyvmNotReady.
Proof. by destruct e. Qed.
