(* ===== verification/TimeFmt.v ===== *)
(** * Calendar and time strings: [namespace mybase::time] of
    [src/src/mybase/mybase/timerman.h]

    [FastSecondToDate] is translated with C's truncating division and with every
    product and sum that can leave [int] checked ([sint]); the calendar it is
    compared with is the successor function of the Gregorian calendar
    ([next_day]).  [mktime] and [strptime] are arguments. *)
From S2P Require Import Prelude CStr.
Open Scope Z_scope.

(** Signed arithmetic: overflow is undefined. *)
Definition sint (z : Z) : res Z :=
  if (- 2 ^ 31 <=? z) && (z <? 2 ^ 31) then Ok z else Fault Undefined.

Lemma sint_ok z : - 2 ^ 31 <= z < 2 ^ 31 -> sint z = Ok z.
Proof. intros H. unfold sint. by rewrite (proj2 (Z.leb_le _ _)), (proj2 (Z.ltb_lt _ _)) by lia. Qed.

(** The fields of [struct tm] the sources use. *)
Record tm : Type := mkTm {
  tm_sec : Z; tm_min : Z; tm_hour : Z; tm_mday : Z; tm_mon : Z; tm_year : Z }.

Definition kHoursInDay : Z := 24.
Definition kMinutesInHour : Z := 60.
Definition kDaysFromUnixTime : Z := 2472632.
Definition kDaysFromYear : Z := 153.
Definition kMagicUnkonwnFirst : Z := 146097.
Definition kMagicUnkonwnSec : Z := 1461.

(** [FastSecondToDate], second half: from the day number to the date. *)
Definition date_of_days (days : Z) : res (Z * Z * Z) :=
  a ← sint (days + kDaysFromUnixTime);
  a4 ← sint (a * 4 + 3);
  let b := Z.quot a4 kMagicUnkonwnFirst in
  bm ← sint (- b * kMagicUnkonwnFirst);
  let c := Z.quot bm 4 + a in
  c4 ← sint (c * 4 + 3);
  let d := Z.quot c4 kMagicUnkonwnSec in
  let e := - d * kMagicUnkonwnSec in
  let e := Z.quot e 4 + c in
  let m := Z.quot (5 * e + 2) kDaysFromYear in
  let mday := Z.quot (- (kDaysFromYear * m + 2)) 5 + e + 1 in
  let mon := Z.quot (- m) 10 * 12 + m + 2 in
  let year := b * 100 + d - 6700 + Z.quot m 10 in
  Ok (year, mon, mday).

(** [FastSecondToDate]; [int i = unix_sec / 60] converts to 32 bits. *)
Definition FastSecondToDate (unix_sec time_zone : Z) : res tm :=
  let sec := Z.rem unix_sec kMinutesInHour in
  let i := i32 (Z.quot unix_sec kMinutesInHour) in
  let min := Z.rem i kMinutesInHour in
  let i := Z.quot i kMinutesInHour in
  it ← sint (i + time_zone);
  let hour := Z.rem it kHoursInDay in
  let mday := Z.quot it kHoursInDay in
  '(year, mon, mday) ← date_of_days mday;
  Ok (mkTm sec min hour mday mon year).

(** [unixTimeToDateTime] *)
Definition unixTimeToDateTime (unix_datetime : Z) : res (Z * Z) :=
  tm ← FastSecondToDate (Z.quot unix_datetime 1000) 8;
  let date_yyyymmdd := (tm_year tm + 1900) * 10000 + (tm_mon tm + 1) * 100 + tm_mday tm in
  let time_hhmmsssss :=
    Z.rem unix_datetime 1000 + tm_hour tm * 10000000 + tm_min tm * 100000 + tm_sec tm * 1000 in
  Ok (date_yyyymmdd, i32 time_hhmmsssss).

(** [makeUnixTimeMs]; [today] is [TimerMan]'s [dateNowYMD()]. *)
Definition tm_of_ymd_hms (ymd hms : Z) : tm :=
  let mday := Z.rem ymd 100 in
  let ymd := Z.quot ymd 100 in
  let mon := Z.rem ymd 100 - 1 in
  let year := Z.quot ymd 100 - 1900 in
  let hms := Z.quot hms 1000 in
  let sec := Z.rem hms 100 in
  let hms := Z.quot hms 100 in
  let min := Z.rem hms 100 in
  let hour := Z.quot hms 100 in
  mkTm sec min hour mday mon year.

Definition makeUnixTimeMs (mktime : tm -> Z) (today : Z) (ymd hms : Z) : Z :=
  let ymd := if ymd <=? 0 then today else ymd in
  let ms := Z.rem hms 1000 in
  mktime (tm_of_ymd_hms ymd hms) * 1000 + ms.

(** [partStrtime2unixALL] *)
Definition partStrtime2unixALL (mktime : tm -> Z) (today unixTimeNowMs : Z) (strtime : option str)
    : res Z :=
  match strtime with
  | None => Ok unixTimeNowMs
  | Some s =>
      if (length s <? 12)%nat then Ok unixTimeNowMs
      else
        let vs := sscanf [PercentD; Literal ":"; PercentD; Literal ":"; PercentD; Literal "."; PercentD] s in
        let f i := nth i vs 0 in
        h ← sint (f 0%nat * 10000000);
        mi ← sint (f 1%nat * 100000);
        hm ← sint (h + mi);
        se ← sint (f 2%nat * 1000);
        hms ← sint (hm + se);
        hhmmss ← sint (hms + f 3%nat);
        Ok (makeUnixTimeMs mktime today (i32 today) hhmmss)
  end.

(** [strtime2unix]; [strptime] with the format "%Y-%m-%d %H:%M:%S". *)
Definition strtime2unix (strptime : str -> tm) (mktime : tm -> Z) (now : Z) (strtime : option str) : Z :=
  match strtime with
  | None => 0
  | Some s =>
      if (length s <? 19)%nat then 0
      else
        let ms := if (19 <? length s)%nat then atoi (drop 20 s) else 0 in
        let ret := mktime (strptime s) * 1000 + ms in
        if ret <? 0 then now else ret
  end.

(** [strtime2int64] *)
Definition datetime_format : list directive :=
  [PercentD; Literal "-"; PercentD; Literal "-"; PercentD; Literal " ";
   PercentD; Literal ":"; PercentD; Literal ":"; PercentD; Literal "."; PercentD].

Definition strtime2int64 (strtime : option str) : res Z :=
  match strtime with
  | None => Ok 0
  | Some s =>
      if (length s <? 19)%nat then Ok 0
      else
        let vs := sscanf datetime_format s in
        let f i := nth i vs 0 in
        mo ← sint (f 1%nat * 100000000);
        d ← sint (f 2%nat * 1000000);
        h ← sint (f 3%nat * 10000);
        mi ← sint (f 4%nat * 100);
        let ret := f 0%nat * 10000000000 + mo + d + h + mi + f 5%nat in
        Ok (ret * 1000 + f 6%nat)
  end.

(** [snprintf] into a buffer of 32 characters. *)
Definition snprintf32 (s : str) : str := take 31 s.

(** [unix2Hmss] *)
Definition unix2Hmss (unixtime : Z) : res str :=
  tm ← FastSecondToDate (Z.quot unixtime 1000) 8;
  Ok (snprintf32 (pad0 2 (tm_hour tm) ++ [":"%char] ++ pad0 2 (tm_min tm) ++ [":"%char]
        ++ pad0 2 (tm_sec tm) ++ ["."%char] ++ pad0 3 (i32 (Z.rem unixtime 1000)))).

(** [unix2Full] *)
Definition unix2Full (unixtime : Z) : res str :=
  tm ← FastSecondToDate (Z.quot unixtime 1000) 8;
  Ok (snprintf32 (pad0 4 (tm_year tm + 1900) ++ ["-"%char] ++ pad0 2 (tm_mon tm + 1) ++ ["-"%char]
        ++ pad0 2 (tm_mday tm) ++ [" "%char] ++ pad0 2 (tm_hour tm) ++ [":"%char]
        ++ pad0 2 (tm_min tm) ++ [":"%char] ++ pad0 2 (tm_sec tm) ++ ["."%char]
        ++ pad0 3 (i32 (Z.rem unixtime 1000)))).

(** ** The calendar *)
Definition leap (y : Z) : bool :=
  ((y mod 4 =? 0) && negb (y mod 100 =? 0)) || (y mod 400 =? 0).

Definition days_in_month (y m : Z) : Z :=
  if m =? 2 then (if leap y then 29 else 28)
  else if (m =? 4) || (m =? 6) || (m =? 9) || (m =? 11) then 30 else 31.

(** The day after [(y, m, d)]. *)
Definition next_day (t : Z * Z * Z) : Z * Z * Z :=
  let '(y, m, d) := t in
  if d <? days_in_month y m then (y, m, d + 1)
  else if m <? 12 then (y, m + 1, 1) else (y + 1, 1, 1).

(** [n] days after 1 January 1970. *)
Definition civil (n : nat) : Z * Z * Z := Nat.iter n next_day (1970, 1, 1).

(** The date in terms of [struct tm]'s offsets. *)
Definition to_civil (t : Z * Z * Z) : Z * Z * Z :=
  let '(year, mon, mday) := t in (year + 1900, mon + 1, mday).

(** *** The day number, split into centuries, years and days from 1 March *)
Definition cen (a : Z) : Z := (4 * a + 3) / 146097.
Definition cen_day (a : Z) : Z := a - 146097 * cen a / 4.
Definition yr (c : Z) : Z := (4 * c + 3) / 1461.
Definition yr_day (c : Z) : Z := c - 1461 * yr c / 4.

Definition split (a : Z) : Z * Z * Z :=
  (cen a, yr (cen_day a), yr_day (cen_day a)).

(** Month (March is 0) and day of the month of a day counted from 1 March. *)
Definition month_of (e : Z) : Z := (5 * e + 2) / 153.

Definition date_parts (t : Z * Z * Z) : Z * Z * Z :=
  let '(b, d, e) := t in
  let m := month_of e in
  (b * 100 + d - 6700 + m / 10, m + 2 - 12 * (m / 10), e + 1 - (153 * m + 2) / 5).

Definition year_len (b d : Z) : Z := if leap (100 * b + d + 1) then 366 else 365.

Lemma leap_spec y : leap y = true <-> y mod 4 = 0 /\ (y mod 100 <> 0 \/ y mod 400 = 0).
Proof. unfold leap. rewrite orb_true_iff, andb_true_iff, negb_true_iff, !Z.eqb_eq, Z.eqb_neq. zdiv. Qed.

Lemma leap_march b d : 0 <= d <= 99 ->
  leap (100 * b + d + 1) = (d mod 4 =? 3) && (negb (d =? 99) || (b mod 4 =? 3)).
Proof.
  intros Hd. apply eq_bool_prop_intro. rewrite !Is_true_true, leap_spec.
  rewrite andb_true_iff, orb_true_iff, negb_true_iff, !Z.eqb_eq, Z.eqb_neq. split; intros H; zdiv.
Qed.

Lemma cen_day_range a : 0 <= a ->
  0 <= cen_day a < 36524 + (if cen a mod 4 =? 3 then 1 else 0) /\ 0 <= cen a.
Proof. intros Ha. unfold cen_day, cen. case_bool; zdiv. Qed.

Lemma split_range a : 0 <= a ->
  let '(b, d, e) := split a in 0 <= d <= 99 /\ 0 <= e < year_len b d /\ 0 <= b.
Proof.
  intros Ha. unfold split. destruct (cen_day_range a Ha) as [Hc Hb].
  set (b := cen a) in *. set (c := cen_day a) in *. clearbody b c.
  assert (0 <= yr c <= 99) as Hd by (unfold yr; destruct (b mod 4 =? 3); zdiv).
  split; [done |]. split; [| done]. unfold year_len. rewrite leap_march by done.
  unfold yr_day. assert (4 * c + 3 = 1461 * yr c + (4 * c + 3) mod 1461) as E by (unfold yr; zdiv).
  pose proof (Z.mod_pos_bound (4 * c + 3) 1461 ltac:(lia)).
  set (d := yr c) in *. clearbody d. destruct (Z.eqb_spec (b mod 4) 3), (Z.eqb_spec (d mod 4) 3), (Z.eqb_spec d 99);
    simpl; zdiv.
Qed.

Lemma cen_step a : 0 <= a ->
  (cen (a + 1), cen_day (a + 1)) =
  if cen_day a + 1 <? 36524 + (if cen a mod 4 =? 3 then 1 else 0)
  then (cen a, cen_day a + 1) else (cen a + 1, 0).
Proof.
  intros Ha. destruct (cen_day_range a Ha) as [Hc Hb].
  assert (4 * a + 3 = 146097 * cen a + (4 * a + 3) mod 146097) as E by (unfold cen; zdiv).
  assert (forall b', 146097 * b' <= 4 * (a + 1) + 3 < 146097 * (b' + 1) -> cen (a + 1) = b') as U
    by (intros b' H; unfold cen; zdiv).
  unfold cen_day in *. set (b := cen a) in *. clearbody b.
  destruct (Z.ltb_spec (a - 146097 * b / 4 + 1) (36524 + (if b mod 4 =? 3 then 1 else 0))) as [Hlt|Hge].
  - rewrite (U b) by (destruct (Z.eqb_spec (b mod 4) 3); zdiv). f_equal. lia.
  - rewrite (U (b + 1)) by (destruct (Z.eqb_spec (b mod 4) 3); zdiv). f_equal.
    destruct (Z.eqb_spec (b mod 4) 3); zdiv.
Qed.

Lemma yr_step c : 0 <= c ->
  (yr (c + 1), yr_day (c + 1)) =
  if yr_day c + 1 <? 365 + (if yr c mod 4 =? 3 then 1 else 0)
  then (yr c, yr_day c + 1) else (yr c + 1, 0).
Proof.
  intros Hc. assert (4 * c + 3 = 1461 * yr c + (4 * c + 3) mod 1461) as E by (unfold yr; zdiv).
  assert (forall d, 1461 * d <= 4 * (c + 1) + 3 < 1461 * (d + 1) -> yr (c + 1) = d) as U
    by (intros d H; unfold yr; zdiv).
  unfold yr_day in *. set (d := yr c) in *. clearbody d.
  destruct (Z.ltb_spec (c - 1461 * d / 4 + 1) (365 + (if d mod 4 =? 3 then 1 else 0))) as [Hlt|Hge].
  - rewrite (U d) by (destruct (Z.eqb_spec (d mod 4) 3); zdiv). f_equal. lia.
  - rewrite (U (d + 1)) by (destruct (Z.eqb_spec (d mod 4) 3); zdiv). f_equal.
    destruct (Z.eqb_spec (d mod 4) 3); zdiv.
Qed.

(** The next day: in the same year, or 1 March of the next. *)
Lemma split_step a : 0 <= a ->
  split (a + 1) =
  let '(b, d, e) := split a in
  if e + 1 <? year_len b d then (b, d, e + 1)
  else if d <? 99 then (b, d + 1, 0) else (b + 1, 0, 0).
Proof.
  intros Ha. pose proof (split_range a Ha) as Hr. unfold split in *.
  destruct (cen_day_range a Ha) as [Hc Hb]. pose proof (cen_step a Ha) as Hcs.
  destruct Hr as (Hd & He & _). unfold year_len in *. rewrite leap_march in * by done.
  pose proof (yr_step (cen_day a) ltac:(lia)) as Hys.
  assert (cen_day a = 1461 * yr (cen_day a) / 4 + yr_day (cen_day a)) as Ec by (unfold yr_day; lia).
  set (b := cen a) in *. set (c := cen_day a) in *.
  set (d := yr c) in *. set (e := yr_day c) in *.
  destruct (Z.ltb_spec (c + 1) (36524 + (if b mod 4 =? 3 then 1 else 0))) as [Hlt|Hge].
  - injection Hcs as -> ->.
    destruct (Z.ltb_spec (e + 1) (365 + (if d mod 4 =? 3 then 1 else 0))) as [Hl|Hl];
      injection Hys as -> ->; clearbody b c d e;
      destruct (Z.eqb_spec (b mod 4) 3), (Z.eqb_spec (d mod 4) 3), (Z.eqb_spec d 99);
      simpl in *; repeat case_bool; try done; exfalso; zdiv.
  - injection Hcs as -> ->. change (yr 0) with 0. change (yr_day 0) with 0. clear Hys.
    clearbody b c d e.
    destruct (Z.eqb_spec (b mod 4) 3), (Z.eqb_spec (d mod 4) 3), (Z.eqb_spec d 99);
      simpl in *; repeat case_bool; try done; exfalso; zdiv.
Qed.

(** *** The dates of the days *)
Ltac pairs := repeat match goal with |- (_, _) = (_, _) => f_equal end.

Lemma month_cases e : 0 <= e < 366 ->
  0 <= month_of e <= 11 /\ (153 * month_of e + 2) / 5 <= e < (153 * (month_of e + 1) + 2) / 5.
Proof. intros H. unfold month_of. zdiv. Qed.

Ltac each_month m H :=
  assert (m = 0 \/ m = 1 \/ m = 2 \/ m = 3 \/ m = 4 \/ m = 5 \/ m = 6 \/ m = 7 \/ m = 8 \/
          m = 9 \/ m = 10 \/ m = 11) as H by lia;
  destruct H as [H|[H|[H|[H|[H|[H|[H|[H|[H|[H|[H|H]]]]]]]]]]].

(** The day after the [e]-th of the year, in months. *)
Lemma month_step e m :
  month_of e = m -> 0 <= e < 366 ->
  month_of (e + 1) = if e + 1 <? (153 * (m + 1) + 2) / 5 then m else m + 1.
Proof.
  intros Hm He. destruct (month_cases e He) as [Hr Hb]. rewrite Hm in *.
  unfold month_of in *. each_month m H; subst m; rewrite H in *; case_bool; vm_compute in Hb; zdiv.
Qed.

Lemma leap_year_shift b d : leap (b * 100 + d - 6700 + 1 + 1900) = leap (100 * b + d + 1).
Proof. apply eq_bool_prop_intro. rewrite !Is_true_true, !leap_spec. zdiv. Qed.

(** The length of a month, February excepted, and the month after it. *)
Lemma month_length y m : 0 <= m <= 10 ->
  days_in_month y (m + 3 - 12 * (m / 10)) = (153 * (m + 1) + 2) / 5 - (153 * m + 2) / 5.
Proof. intros H. each_month m Hm; subst m; try reflexivity; lia. Qed.

Lemma next_month y m d : 0 <= m <= 10 -> d = days_in_month (y + m / 10) (m + 3 - 12 * (m / 10)) ->
  next_day (y + m / 10, m + 3 - 12 * (m / 10), d) =
  (y + (m + 1) / 10, m + 1 + 3 - 12 * ((m + 1) / 10), 1).
Proof.
  intros H Hd. unfold next_day. rewrite (proj2 (Z.ltb_ge _ _)) by lia.
  destruct (Z.ltb_spec (m + 3 - 12 * (m / 10)) 12); pairs; zdiv.
Qed.

Lemma date_parts_civil b d e :
  let m := month_of e in
  to_civil (date_parts (b, d, e)) =
  (100 * b + d - 4800 + m / 10, m + 3 - 12 * (m / 10), e + 1 - (153 * m + 2) / 5).
Proof. unfold date_parts, to_civil. pairs; lia. Qed.

Lemma civil_step b d e :
  0 <= e < year_len b d -> d <= 99 ->
  to_civil (date_parts (if e + 1 <? year_len b d then (b, d, e + 1)
                        else if d <? 99 then (b, d + 1, 0) else (b + 1, 0, 0)))
  = next_day (to_civil (date_parts (b, d, e))).
Proof.
  intros He Hd. assert (365 <= year_len b d <= 366) as Hlen by (unfold year_len; case_match; lia).
  destruct (month_cases e ltac:(lia)) as [Hr Hb].
  pose proof (month_step e (month_of e) eq_refl ltac:(lia)) as Hs.
  rewrite (date_parts_civil b d e). cbv zeta. remember (month_of e) as m eqn:Em. symmetry in Em.
  destruct (Z.eq_dec m 11) as [->|Hm].
  - change (11 / 10) with 1. change ((153 * 11 + 2) / 5) with 337 in *.
    change ((153 * (11 + 1) + 2) / 5) with 367 in *.
    assert (days_in_month (100 * b + d - 4800 + 1) 2 = year_len b d - 337) as Hfeb.
    { unfold days_in_month, year_len. simpl. replace (leap (100 * b + d - 4800 + 1)) with (leap (100 * b + d + 1));
        [by destruct (leap _) |]. apply eq_bool_prop_intro. rewrite !Is_true_true, !leap_spec. zdiv. }
    change (11 + 3 - 12 * 1) with 2. unfold next_day. rewrite Hfeb.
    destruct (Z.ltb_spec (e + 1) (year_len b d)).
    + rewrite (proj2 (Z.ltb_lt (e + 1 - 337) _)) by lia. rewrite date_parts_civil, Hs. cbv zeta.
      rewrite (proj2 (Z.ltb_lt (e + 1) 367)) by lia. pairs; zdiv.
    + rewrite (proj2 (Z.ltb_ge (e + 1 - 337) _)) by lia. simpl.
      destruct (Z.ltb_spec d 99); rewrite date_parts_civil; cbv zeta;
        change (month_of 0) with 0; pairs; zdiv.
  - assert (e + 1 < year_len b d) as Hlt by zdiv.
    rewrite (proj2 (Z.ltb_lt _ _)) by done. rewrite date_parts_civil, Hs. cbv zeta.
    pose proof (month_length (100 * b + d - 4800 + m / 10) m ltac:(lia)) as Hml.
    destruct (Z.ltb_spec (e + 1) ((153 * (m + 1) + 2) / 5)).
    + unfold next_day. rewrite (proj2 (Z.ltb_lt _ _)) by lia. pairs; lia.
    + rewrite next_month by lia. pairs. lia.
Qed.

Lemma quot_opp_mul x k : 0 <= x -> 0 <= k -> Z.quot (- x * k) 4 = - (k * x / 4).
Proof. intros Hx Hk. rewrite Z.mul_opp_l, Z.quot_opp_l by lia. rewrite Z.quot_div_nonneg by nia. by rewrite Z.mul_comm. Qed.

(** [date_of_days] computes the date of the day number, without overflow. *)
Lemma date_of_days_parts days : 0 <= days < 500000000 ->
  date_of_days days = Ok (date_parts (split (days + kDaysFromUnixTime))).
Proof.
  intros Hd. set (a := days + kDaysFromUnixTime).
  assert (2472632 <= a < 502472632) as Ha by (unfold a, kDaysFromUnixTime; lia).
  pose proof (split_range a ltac:(lia)) as Hr. unfold split in *. destruct Hr as (Hyr & He & Hcb).
  destruct (cen_day_range a ltac:(lia)) as [Hc _].
  assert (cen_day a < 36525) as Hc' by (case_match; lia).
  assert (146097 * cen a <= 4 * a + 3) as Hcb' by (unfold cen; zdiv).
  unfold date_of_days. fold a. rewrite sint_ok by lia. simpl.
  rewrite sint_ok by lia. simpl.
  assert (Z.quot (a * 4 + 3) kMagicUnkonwnFirst = cen a) as ->
    by (unfold cen, kMagicUnkonwnFirst; rewrite Z.quot_div_nonneg; [f_equal |..]; lia).
  rewrite sint_ok by (unfold kMagicUnkonwnFirst; lia). simpl.
  assert (Z.quot (- cen a * kMagicUnkonwnFirst) 4 + a = cen_day a) as ->
    by (unfold cen_day, kMagicUnkonwnFirst; rewrite quot_opp_mul by lia; lia).
  rewrite sint_ok by lia. simpl.
  assert (Z.quot (cen_day a * 4 + 3) kMagicUnkonwnSec = yr (cen_day a)) as ->
    by (unfold yr, kMagicUnkonwnSec; rewrite Z.quot_div_nonneg; [f_equal |..]; lia).
  assert (Z.quot (- yr (cen_day a) * kMagicUnkonwnSec) 4 + cen_day a = yr_day (cen_day a)) as ->
    by (unfold yr_day, kMagicUnkonwnSec; rewrite quot_opp_mul by lia; lia).
  set (e := yr_day (cen_day a)) in *.
  assert (Z.quot (5 * e + 2) kDaysFromYear = month_of e) as ->
    by (unfold month_of, kDaysFromYear; rewrite Z.quot_div_nonneg; lia).
  assert (0 <= month_of e) as Hm by (unfold month_of; zdiv).
  unfold date_parts, kDaysFromYear. cbv zeta. f_equal. pairs; zdiv.
Qed.

Lemma civil_days n : Z.of_nat n < 500000000 ->
  to_civil (date_parts (split (Z.of_nat n + kDaysFromUnixTime))) = civil n.
Proof.
  induction n as [|n IH]; intros Hn; [reflexivity |].
  unfold civil. rewrite Nat.iter_succ. fold (civil n). rewrite <- IH by lia.
  replace (Z.of_nat (S n) + kDaysFromUnixTime) with (Z.of_nat n + kDaysFromUnixTime + 1) by lia.
  rewrite split_step by (unfold kDaysFromUnixTime; lia).
  pose proof (split_range (Z.of_nat n + kDaysFromUnixTime) ltac:(unfold kDaysFromUnixTime; lia)) as Hr.
  destruct (split _) as [[b d] e]. apply civil_step; lia.
Qed.

(** *** The fields *)

(** The largest time the conversion to [int] minutes allows: the year 6053. *)
Definition max_seconds : Z := 60 * 2 ^ 31.

Lemma FastSecondToDate_fields s tz :
  0 <= s < max_seconds -> 0 <= tz < 24 ->
  let days := (s / 3600 + tz) / 24 in
  exists y mo d, civil (Z.to_nat days) = (y, mo, d) /\
    FastSecondToDate s tz =
      Ok (mkTm (s mod 60) (s / 60 mod 60) ((s / 3600 + tz) mod 24) d (mo - 1) (y - 1900)).
Proof.
  intros Hs Htz days. unfold max_seconds in Hs.
  assert (0 <= days < 500000000) as Hd by (unfold days; zdiv).
  unfold FastSecondToDate, kMinutesInHour, kHoursInDay.
  rewrite Z.quot_div_nonneg by lia. rewrite i32_small by zdiv.
  rewrite !Z.rem_mod_nonneg by (lia || zdiv). rewrite (Z.quot_div_nonneg (s / 60)) by (lia || zdiv).
  rewrite Z.div_div by lia. change (60 * 60) with 3600.
  rewrite sint_ok by zdiv. simpl. rewrite Z.rem_mod_nonneg, Z.quot_div_nonneg by (lia || zdiv).
  fold days. rewrite date_of_days_parts by done.
  pose proof (civil_days (Z.to_nat days) ltac:(lia)) as Hc. rewrite Z2Nat.id in Hc by lia.
  destruct (date_parts _) as [[y mo] d]. simpl. exists (y + 1900), (mo + 1), d.
  split; [by rewrite <- Hc |]. f_equal. f_equal; lia.
Qed.

Lemma civil_bounds n : Z.of_nat n < 1600000 ->
  let '(y, mo, d) := civil n in 1900 <= y < 7000 /\ 1 <= mo <= 12 /\ 1 <= d <= 31.
Proof.
  intros Hn. rewrite <- civil_days by lia. unfold kDaysFromUnixTime.
  set (a := Z.of_nat n + 2472632). pose proof (split_range a ltac:(lia)) as Hr.
  assert (67 <= cen a < 115) as Hb by (unfold cen; zdiv). unfold split in *.
  destruct Hr as (Hd & He & _). rewrite date_parts_civil. cbv zeta.
  set (e := yr_day _) in *. assert (0 <= e < 366) as He' by (unfold year_len in He; case_match; lia).
  destruct (month_cases e He') as [Hm Hr]. set (m := month_of e) in *. clearbody m.
  split_and!; zdiv.
Qed.

Lemma days_bound t : 0 <= t < 1000 * max_seconds -> Z.of_nat (Z.to_nat ((t / 1000 / 3600 + 8) / 24)) < 1600000.
Proof. unfold max_seconds. intros H. zdiv. Qed.

(** The fields of a millisecond time stamp, in the East 8 zone. *)
Lemma time_fields t : 0 <= t < 1000 * max_seconds ->
  exists y mo d h mi s ms,
    civil (Z.to_nat ((t / 1000 / 3600 + 8) / 24)) = (y, mo, d) /\
    FastSecondToDate (Z.quot t 1000) 8 = Ok (mkTm s mi h d (mo - 1) (y - 1900)) /\
    1900 <= y < 7000 /\ 1 <= mo <= 12 /\ 1 <= d <= 31 /\
    0 <= h < 24 /\ 0 <= mi < 60 /\ 0 <= s < 60 /\ 0 <= ms < 1000 /\ Z.rem t 1000 = ms /\
    t = ((((t / 1000 / 3600 + 8) / 24) * 24 + h - 8) * 3600 + mi * 60 + s) * 1000 + ms.
Proof.
  intros Ht. pose proof (civil_bounds _ (days_bound t Ht)) as Hb.
  destruct (FastSecondToDate_fields (t / 1000) 8) as (y & mo & d & Hc & Hf);
    [unfold max_seconds in *; zdiv | lia |].
  rewrite Hc in Hb. rewrite Z.quot_div_nonneg, Hf by lia.
  exists y, mo, d, ((t / 1000 / 3600 + 8) mod 24), (t / 1000 / 60 mod 60), (t / 1000 mod 60), (t mod 1000).
  rewrite Z.rem_mod_nonneg by lia. split_and!; try done; try lia; zdiv.
Qed.

Lemma unixTimeToDateTime_fields t y mo d h mi s ms :
  FastSecondToDate (Z.quot t 1000) 8 = Ok (mkTm s mi h d (mo - 1) (y - 1900)) ->
  Z.rem t 1000 = ms -> 0 <= h < 24 -> 0 <= mi < 60 -> 0 <= s < 60 -> 0 <= ms < 1000 ->
  unixTimeToDateTime t =
    Ok (y * 10000 + mo * 100 + d, h * 10000000 + mi * 100000 + s * 1000 + ms).
Proof.
  intros Hf Hms Hh Hmi Hs Hm. unfold unixTimeToDateTime. rewrite Hf, Hms. simpl.
  f_equal. f_equal; [lia |]. rewrite i32_small by lia. lia.
Qed.

(** ** [mktime] in the East 8 zone *)

(** The day number of a date: the inverse of [civil]. *)
Definition days_of (y mo d : Z) : Z :=
  let m := if mo <=? 2 then mo + 9 else mo - 3 in
  let Y := (if mo <=? 2 then y - 1 else y) + 4800 in
  146097 * (Y / 100) / 4 + 1461 * (Y mod 100) / 4 + (153 * m + 2) / 5 + d - 1 - kDaysFromUnixTime.

Lemma days_of_civil n y mo d :
  Z.of_nat n < 500000000 -> civil n = (y, mo, d) -> days_of y mo d = Z.of_nat n.
Proof.
  intros Hn Hc. rewrite <- civil_days in Hc by done.
  set (a := Z.of_nat n + kDaysFromUnixTime) in *.
  assert (0 <= a) as Ha by (unfold a, kDaysFromUnixTime; lia).
  pose proof (split_range a Ha) as Hr. unfold split in *. destruct Hr as (Hd & He & _).
  rewrite date_parts_civil in Hc. cbv zeta in Hc.
  assert (a = 146097 * cen a / 4 + (1461 * yr (cen_day a) / 4 + yr_day (cen_day a))) as Ea
    by (unfold yr_day, cen_day; lia).
  set (e := yr_day _) in *. assert (0 <= e < 366) as He' by (unfold year_len in He; case_match; lia).
  destruct (month_cases e He') as [Hm Hr]. set (m := month_of e) in *. clearbody m e.
  set (b := cen a) in *. set (dd := yr (cen_day a)) in *. clearbody b dd.
  injection Hc as <- <- <-. unfold days_of.
  assert ((if m + 3 - 12 * (m / 10) <=? 2 then m + 3 - 12 * (m / 10) + 9 else m + 3 - 12 * (m / 10) - 3) = m /\
    (if m + 3 - 12 * (m / 10) <=? 2 then 100 * b + dd - 4800 + m / 10 - 1 else 100 * b + dd - 4800 + m / 10) + 4800
    = 100 * b + dd) as [-> ->] by (case_bool; zdiv).
  replace ((100 * b + dd) / 100) with b by zdiv. replace ((100 * b + dd) mod 100) with dd by zdiv.
  fold a. unfold a in Ea |- *. lia.
Qed.

Definition mktime8 (t : tm) : Z :=
  days_of (tm_year t + 1900) (tm_mon t + 1) (tm_mday t) * 86400
  + tm_hour t * 3600 + tm_min t * 60 + tm_sec t - 8 * 3600.

(** What [mktime] documents, for a machine in the East 8 zone, on the fields of
    a date: seconds since the epoch. *)
Definition mktime_east8 (mktime : tm -> Z) : Prop :=
  forall n y mo d h mi s, Z.of_nat n < 1600000 -> civil n = (y, mo, d) ->
    0 <= h < 24 -> 0 <= mi < 60 -> 0 <= s < 60 ->
    mktime (mkTm s mi h d (mo - 1) (y - 1900)) = Z.of_nat n * 86400 + h * 3600 + mi * 60 + s - 8 * 3600.

Lemma mktime8_east8 : mktime_east8 mktime8.
Proof.
  intros n y mo d h mi s Hn Hc Hh Hmi Hs. unfold mktime8. simpl.
  replace (y - 1900 + 1900) with y by lia. replace (mo - 1 + 1) with mo by lia.
  by rewrite (days_of_civil n) by (done || lia).
Qed.

Lemma tm_of_ymd_hms_fields y mo d h mi s ms :
  0 <= y -> 1 <= mo <= 12 -> 1 <= d <= 31 -> 0 <= h < 24 -> 0 <= mi < 60 -> 0 <= s < 60 -> 0 <= ms < 1000 ->
  tm_of_ymd_hms (y * 10000 + mo * 100 + d) (h * 10000000 + mi * 100000 + s * 1000 + ms)
  = mkTm s mi h d (mo - 1) (y - 1900).
Proof. intros. unfold tm_of_ymd_hms. cbv zeta. f_equal; zdiv. Qed.

(** *** Properties *)

(** C29: [FastSecondToDate] runs without integer overflow for every
    time from the epoch up to [max_seconds] and computes the Gregorian date that
    many days after 1 January 1970, and the time of the day. *)
Theorem FastSecondToDate_calendar s tz :
  0 <= s < max_seconds -> 0 <= tz < 24 ->
  exists t, FastSecondToDate s tz = Ok t /\
    (tm_year t + 1900, tm_mon t + 1, tm_mday t) = civil (Z.to_nat ((s + 3600 * tz) / 86400)) /\
    tm_hour t * 3600 + tm_min t * 60 + tm_sec t = (s + 3600 * tz) mod 86400 /\
    0 <= tm_hour t < 24 /\ 0 <= tm_min t < 60 /\ 0 <= tm_sec t < 60.
Proof.
  intros Hs Htz. destruct (FastSecondToDate_fields s tz Hs Htz) as (y & mo & d & Hc & ->).
  eexists. split; [done |]. simpl.
  replace ((s + 3600 * tz) / 86400) with ((s / 3600 + tz) / 24) by zdiv. rewrite Hc.
  split_and!; [pairs; lia | zdiv..].
Qed.

Lemma FastSecondToDate_calendar_witness :
  exists t, FastSecondToDate 1709164799 8 = Ok t /\
    (tm_year t + 1900, tm_mon t + 1, tm_mday t) = civil (Z.to_nat ((1709164799 + 3600 * 8) / 86400)) /\
    tm_hour t * 3600 + tm_min t * 60 + tm_sec t = (1709164799 + 3600 * 8) mod 86400 /\
    0 <= tm_hour t < 24 /\ 0 <= tm_min t < 60 /\ 0 <= tm_sec t < 60.
Proof. apply (FastSecondToDate_calendar 1709164799 8); unfold max_seconds; lia. Defined.

(** On a machine in the East 8 zone [makeUnixTimeMs] undoes
    [unixTimeToDateTime]. *)
Theorem unixTime_roundtrip mktime today t :
  mktime_east8 mktime -> 0 <= t < 1000 * max_seconds ->
  exists ymd hms, unixTimeToDateTime t = Ok (ymd, hms) /\ makeUnixTimeMs mktime today ymd hms = t.
Proof.
  intros Hmk Ht.
  destruct (time_fields t Ht) as (y & mo & d & h & mi & s & ms & Hc & Hf & Hy & Hmo & Hd & Hh & Hmi & Hs & Hms & Hr & Et).
  eexists _, _. split; [by eapply unixTimeToDateTime_fields |].
  unfold makeUnixTimeMs. rewrite (proj2 (Z.leb_gt _ _)), tm_of_ymd_hms_fields by lia.
  rewrite (Hmk _ _ _ _ _ _ _ (days_bound t Ht) Hc) by done.
  rewrite Z2Nat.id by (unfold max_seconds in *; zdiv).
  rewrite Et at 2. zdiv.
Qed.

Lemma unixTime_roundtrip_witness :
  exists ymd hms, unixTimeToDateTime 1663294746262 = Ok (ymd, hms) /\
    makeUnixTimeMs mktime8 20200203 ymd hms = 1663294746262.
Proof. apply (unixTime_roundtrip mktime8 20200203); [apply mktime8_east8 | unfold max_seconds; lia]. Defined.

(** The text of a date and time, as [unix2Full] prints it. *)
Definition full_text (y mo d h mi s ms : Z) : str :=
  pad0 4 y ++ ["-"%char] ++ pad0 2 mo ++ ["-"%char] ++ pad0 2 d ++ [" "%char] ++ pad0 2 h
  ++ [":"%char] ++ pad0 2 mi ++ [":"%char] ++ pad0 2 s ++ ["."%char] ++ pad0 3 ms.

Lemma sscanf_D fmt w n r : 0 <= n < 10 ^ 20 -> no_digit r ->
  sscanf (PercentD :: fmt) (pad0 w n ++ r) = n :: sscanf fmt r.
Proof. intros Hn Hr. cbn [sscanf]. by rewrite scan_int_pad0. Qed.

Lemma sscanf_L fmt c r : is_space c = false ->
  sscanf (Literal c :: fmt) (c :: r) = sscanf fmt r.
Proof. intros Hc. cbn [sscanf]. by rewrite Hc, decide_True. Qed.

Lemma skip_space_idem s : skip_space (skip_space s) = skip_space s.
Proof. induction s as [|c s IH]; simpl; [done |]. destruct (is_space c) eqn:E; [done |]. simpl. by rewrite E. Qed.

Lemma sscanf_blank fmt r :
  sscanf (Literal " " :: PercentD :: fmt) (" "%char :: r) = sscanf (PercentD :: fmt) r.
Proof. cbn [sscanf]. simpl skip_space. unfold scan_int. by rewrite skip_space_idem. Qed.

Lemma sscanf_full_text y mo d h mi s ms :
  0 <= y < 7000 -> 0 <= mo < 100 -> 0 <= d < 100 -> 0 <= h < 100 -> 0 <= mi < 100 ->
  0 <= s < 100 -> 0 <= ms < 1000 ->
  sscanf datetime_format (full_text y mo d h mi s ms) = [y; mo; d; h; mi; s; ms].
Proof.
  intros. unfold full_text, datetime_format. rewrite <- (app_nil_r (pad0 3 ms)). cbn [app].
  do 2 (rewrite sscanf_D, sscanf_L by (done || lia)). rewrite sscanf_D, sscanf_blank by (done || lia).
  do 3 (rewrite sscanf_D, sscanf_L by (done || lia)). by rewrite sscanf_D by (done || lia).
Qed.

Lemma full_text_length y mo d h mi s ms :
  0 <= y < 7000 -> 0 <= mo < 100 -> 0 <= d < 100 -> 0 <= h < 100 -> 0 <= mi < 100 ->
  0 <= s < 100 -> 0 <= ms < 1000 -> length (full_text y mo d h mi s ms) = 23%nat.
Proof.
  intros. unfold full_text. repeat (rewrite length_app; simpl length).
  rewrite !pad0_length by (simpl; lia). done.
Qed.

(** [strtime2int64] reads the text [unix2Full] writes, giving the date and
    time fields of [unixTimeToDateTime] as one number. *)
Theorem unix2Full_strtime2int64 t :
  0 <= t < 1000 * max_seconds ->
  exists text ymd hms, unix2Full t = Ok text /\ unixTimeToDateTime t = Ok (ymd, hms) /\
    strtime2int64 (Some text) = Ok (ymd * 1000000000 + hms).
Proof.
  intros Ht.
  destruct (time_fields t Ht) as (y & mo & d & h & mi & s & ms & Hc & Hf & Hy & Hmo & Hd & Hh & Hmi & Hs & Hms & Hr & Et).
  exists (full_text y mo d h mi s ms), (y * 10000 + mo * 100 + d), (h * 10000000 + mi * 100000 + s * 1000 + ms).
  assert (length (full_text y mo d h mi s ms) = 23%nat) as Hl by (apply full_text_length; lia).
  split_and!; [| by apply unixTimeToDateTime_fields |].
  - unfold unix2Full. rewrite Hf, Hr, i32_small by lia. simpl.
    replace (y - 1900 + 1900) with y by lia. replace (mo - 1 + 1) with mo by lia.
    unfold snprintf32. by rewrite take_ge by (change (length (full_text y mo d h mi s ms) <= 31)%nat; lia).
  - unfold strtime2int64. rewrite Hl. cbn [Nat.ltb Nat.leb].
    rewrite sscanf_full_text by lia. cbn [nth].
    repeat (rewrite sint_ok by lia; cbn [mbind res_bind]). f_equal. lia.
Qed.

Lemma unix2Full_strtime2int64_witness :
  exists text ymd hms, unix2Full 1663294746262 = Ok text /\
    unixTimeToDateTime 1663294746262 = Ok (ymd, hms) /\
    strtime2int64 (Some text) = Ok (ymd * 1000000000 + hms).
Proof. apply (unix2Full_strtime2int64 1663294746262); unfold max_seconds; lia. Defined.

(** Times before the epoch: C's remainder is negative, so are the fields. *)
Example FastSecondToDate_before_epoch : unix2Hmss (-1) = Ok (lit "08:00:00.-01").
Proof. vm_compute. reflexivity. Qed.
