(* ===== verification/TimerMan.v ===== *)
(** * Periodic timers: [src/src/mybase/src/timerman.cpp]

    A [TMEvent] is an object on the C++ heap: [timers] holds the live ones, by
    address ([delete] removes them).  The address and the indeterminate value
    of the uninitialised member [cnts_] come from the allocation.  User
    callbacks are an argument: what one does is a list of [TimerMan] calls, which
    may depend on the live timers (the allocator does) and on a state the
    callbacks share. *)
From S2P Require Import Prelude TimerWheel TimerPlace TimerAdvance TimerProps CStr TimeFmt.
Open Scope Z_scope.

Definition MIN_RESOLUTION : Tick := 5.

Section TimerMan.
Context {Cb : Type}.

Record TMEvent : Type := mkTMEvent {
  ms_ : Z; cnts_ : Z; max_cnts_ : Z; canceled_ : bool; cb_ : Cb }.

Record _TimerImpl : Type := mkTimerImpl { impl_wheel : TimerWheel; timers : gmap eid TMEvent }.

(** The calls a callback can make; [SetTimer] carries what [new TMEvent()]
    returned: the address, and the value found in [cnts_]. *)
Inductive cmd : Type :=
  | SetTimer (evt : eid) (garbage : Z) (ms cnt : Z) (cb : Cb)
  | StopTimer (htimer : option eid).

(** [_TimerImpl::set] and [TMEvent::start] *)
Definition set (evt : eid) (garbage : Z) (ms cnt : Z) (cb : Cb) (d : _TimerImpl) : res _TimerImpl :=
  let ts := <[evt := mkTMEvent ms garbage cnt false cb]> (timers d) in
  w ← schedule evt (u64 ms) (impl_wheel d);
  Ok (mkTimerImpl w ts).

(** [_TimerImpl::cancel], with [TMEvent::cancel] and [delete evt]; a handle
    that is not live is a dangling pointer. *)
Definition cancel_timer (htimer : option eid) (d : _TimerImpl) : res _TimerImpl :=
  match htimer with
  | None => Ok d
  | Some evt =>
      match timers d !! evt with
      | None => Fault Undefined
      | Some _ => Ok (mkTimerImpl (cancel evt (impl_wheel d)) (delete evt (timers d)))
      end
  end.

Definition run_cmd (c : cmd) (d : _TimerImpl) : res _TimerImpl :=
  match c with
  | SetTimer evt g ms cnt cb => set evt g ms cnt cb d
  | StopTimer h => cancel_timer h d
  end.

Fixpoint run_cmds (cs : list cmd) (d : _TimerImpl) : res _TimerImpl :=
  match cs with
  | [] => Ok d
  | c :: cs' => d' ← run_cmd c d; run_cmds cs' d'
  end.

(** [count_up t k] is [t] after [k] executions; the test of [onTimer]. *)
Definition count_up (t : TMEvent) (k : Z) : TMEvent :=
  mkTMEvent (ms_ t) (cnts_ t + k) (max_cnts_ t) (canceled_ t) (cb_ t).
Definition rearmed (t : TMEvent) : bool := negb (canceled_ t) && (cnts_ t <? max_cnts_ t).

(** What the user's callbacks do: the state [Env] they share, and their calls. *)
Context {Env : Type} (user : Cb -> Env -> gmap eid TMEvent -> Env * list cmd).

(** [TMEvent::onTimer]: the members are read again after the callback. *)
Definition onTimer (evt : eid) (env : Env) (d : _TimerImpl) : res (Env * _TimerImpl) :=
  match timers d !! evt with
  | None => Fault Undefined
  | Some t =>
      let '(env, cs) := user (cb_ t) env (timers d) in
      d ← run_cmds cs d;
      match timers d !! evt with
      | None => Fault Undefined
      | Some t =>
          if 2 ^ 31 <=? cnts_ t + 1 then Fault Undefined
          else
            let t := count_up t 1 in
            let ts := <[evt := t]> (timers d) in
            if rearmed t then
              w ← schedule evt (u64 (ms_ t)) (impl_wheel d);
              Ok (env, mkTimerImpl w ts)
            else Ok (env, mkTimerImpl (impl_wheel d) ts)
      end
  end.

(** *** [onTimer] as a callback of the wheel

    The wheel hands out the events one by one; what is not its own state is the
    client's: the live timers, the state of the user, and the first fault. *)
Record Client : Type := mkClient { live : gmap eid TMEvent; env : Env; failed : option fault }.

Definition cmd_timers (c : cmd) (ts : gmap eid TMEvent) : res (gmap eid TMEvent) :=
  match c with
  | SetTimer evt g ms cnt cb => Ok (<[evt := mkTMEvent ms g cnt false cb]> ts)
  | StopTimer None => Ok ts
  | StopTimer (Some evt) => match ts !! evt with None => Fault Undefined | Some _ => Ok (delete evt ts) end
  end.
Fixpoint cmds_timers (cs : list cmd) (ts : gmap eid TMEvent) : res (gmap eid TMEvent) :=
  match cs with
  | [] => Ok ts
  | c :: cs' => ts' ← cmd_timers c ts; cmds_timers cs' ts'
  end.

Fixpoint cmd_actions (cs : list cmd) (k : action) : action :=
  match cs with
  | [] => k
  | SetTimer evt _ ms _ _ :: cs' => Act (OpSchedule evt (u64 ms)) (fun _ => cmd_actions cs' k)
  | StopTimer None :: cs' => cmd_actions cs' k
  | StopTimer (Some evt) :: cs' => Act (OpCancel evt) (fun _ => cmd_actions cs' k)
  end.

Definition timer_callback (c : Client) (evt : eid) (_ : TimerWheel) : Client * action :=
  match failed c, live c !! evt with
  | Some _, _ => (c, Done)
  | None, None => (mkClient (live c) (env c) (Some Undefined), Done)
  | None, Some t =>
      let '(env', cs) := user (cb_ t) (env c) (live c) in
      match cmds_timers cs (live c) with
      | Fault f => (mkClient (live c) env' (Some f), Done)
      | Ok ts =>
          match ts !! evt with
          | None => (mkClient ts env' (Some Undefined), cmd_actions cs Done)
          | Some t =>
              if 2 ^ 31 <=? cnts_ t + 1 then (mkClient ts env' (Some Undefined), cmd_actions cs Done)
              else
                let t := count_up t 1 in
                (mkClient (<[evt := t]> ts) env' None,
                 cmd_actions cs
                   (if rearmed t then Act (OpSchedule evt (u64 (ms_ t))) (fun _ => Done) else Done))
          end
      end
  end.

(** The loop of [TimerMan::run], [k] rounds of it. *)
Fixpoint run (k : nat) (fuel : nat) (st : state Client) : res (state Client) :=
  match k with
  | O => Ok st
  | S k' =>
      '(st, _) ← advance timer_callback fuel MIN_RESOLUTION (2 ^ 64 - 1) 0 st;
      match failed (client st) with
      | Some f => Fault f
      | None => run k' fuel st
      end
  end.
End TimerMan.
Arguments TMEvent : clear implicits.
Arguments _TimerImpl : clear implicits.
Arguments cmd : clear implicits.
Arguments Client : clear implicits.

(** ** The object and its threads *)

(** One sample of the clock thread: the time stamp, [yyyymmdd] and [HHMMSSsss]
    from [ftime] and the local time. *)
Definition sample_clock (t_now millitm : Z) (pstm : tm) : Z * Z * Z :=
  (t_now * 1000 + millitm,
   (tm_year pstm + 1900) * 10000 + (tm_mon pstm + 1) * 100 + tm_mday pstm,
   tm_hour pstm * 10000000 + tm_min pstm * 100000 + tm_sec pstm * 1000 + millitm).

(** [impl_] is [None] after the destructor; [clock] is [time_ms_],
    [date_ymd_], [time_hmss_]. *)
Record Manager (Cb : Type) : Type := mkManager {
  impl_ : option (_TimerImpl Cb); is_stoped_ : bool; clock : Z * Z * Z }.
Arguments mkManager {Cb} _ _ _.
Arguments impl_ {Cb} _.
Arguments is_stoped_ {Cb} _.
Arguments clock {Cb} _.

Section Manager.
Context {Cb : Type}.

Definition TimerMan_new : Manager Cb := mkManager (Some (mkTimerImpl (TimerWheel_init 0) ∅)) false (0, 0, 0).
Definition TimerMan_delete (m : Manager Cb) : Manager Cb := mkManager None true (clock m).

Definition setTimer (evt : eid) (garbage timerout_ms cnt : Z) (cb : Cb) (m : Manager Cb) : res (Manager Cb) :=
  match impl_ m with
  | None => Fault Undefined
  | Some d => d ← set evt garbage timerout_ms cnt cb d; Ok (mkManager (Some d) (is_stoped_ m) (clock m))
  end.
Definition stopTimer (htimer : option eid) (m : Manager Cb) : res (Manager Cb) :=
  match impl_ m with
  | None => Fault Undefined
  | Some d => d ← cancel_timer htimer d; Ok (mkManager (Some d) (is_stoped_ m) (clock m))
  end.

(** The detached threads of [run]: before the test of the loop, in its body,
    ended.  The first advances the wheel through a reference it took at the
    start, the second stores the time. *)
Inductive thread : Type := Testing | Advancing | Ended.

Definition timer_thread {Env} (user : Cb -> Env -> gmap eid (TMEvent Cb) -> Env * list (cmd Cb))
    (fuel : nat) (t : thread) (e : Env) (m : Manager Cb) : res (thread * Env * Manager Cb) :=
  match t with
  | Testing => Ok (if is_stoped_ m then Ended else Advancing, e, m)
  | Advancing =>
      match impl_ m with
      | None => Fault Undefined
      | Some d =>
          st ← run user 1 fuel (mkState (impl_wheel d) (mkClient (timers d) e None) []);
          Ok (Testing, env (client st),
              mkManager (Some (mkTimerImpl (wheel st) (live (client st)))) (is_stoped_ m) (clock m))
      end
  | Ended => Ok (Ended, e, m)
  end.

Definition clock_thread (t_now millitm : Z) (pstm : tm) (t : thread) (m : Manager Cb) : thread * Manager Cb :=
  match t with
  | Testing => (if is_stoped_ m then Ended else Advancing, m)
  | Advancing => (Testing, mkManager (impl_ m) (is_stoped_ m) (sample_clock t_now millitm pstm))
  | Ended => (Ended, m)
  end.
End Manager.

(** The destructor does not wait for the thread: between the test and the body
    of its loop the wheel goes away under it, before the test it ends well. *)
Lemma delete_under_thread {Cb Env} user fuel (e : Env) (m : Manager Cb) :
  timer_thread user fuel Advancing e (TimerMan_delete m) = Fault Undefined /\
  timer_thread user fuel Testing e (TimerMan_delete m) = Ok (Ended, e, TimerMan_delete m).
Proof. done. Qed.
