(* ===== verification/TimerManProps.v ===== *)
(** * What the periodic timers promise

    [TimerMan] refines a table of timers with their deadlines ([simulates]):
    time passes until the earliest deadline, the timer that is due runs its
    callback, whose calls set and remove timers at once, and is given its next
    deadline.  What a timer does over its life is proved on the table. *)
From S2P Require Import Prelude TimerWheel TimerPlace TimerAdvance TimerProps TimerMan.
Open Scope Z_scope.

(** ** The table of timers *)
Section Table.
Context {Cb Env : Type} (user : Cb -> Env -> gmap eid (TMEvent Cb) -> Env * list (cmd Cb)).
Notation TMEvent := (TMEvent Cb).
Notation cmd := (cmd Cb).

Notation table := (gmap eid (TMEvent * option Tick)).

Definition t_cmd (n : Tick) (A : table) (c : cmd) : table :=
  match c with
  | SetTimer e g ms cnt cb => <[e := (mkTMEvent ms g cnt false cb, Some (n + ms))]> A
  | StopTimer None => A
  | StopTimer (Some e) => delete e A
  end.
Definition t_cmds (n : Tick) (cs : list cmd) (A : table) : table := foldl (t_cmd n) A cs.

Definition t_fire (n : Tick) (e : eid) (t : TMEvent) (S : table * Env) : table * Env :=
  let '(env', cs) := user (cb_ t) S.2 (fst <$> S.1) in
  let t' := count_up t 1 in
  (<[e := (t', if rearmed t' then Some (n + ms_ t) else None)]> (t_cmds n cs S.1), env').

(** No deadline is before [n]. *)
Definition ahead (n : Tick) (A : table) : Prop := forall e t T, A !! e = Some (t, Some T) -> n <= T.

(** What happens between [n0] and [n], with the executions in order. *)
Inductive simulates (n0 : Tick) (S0 : table * Env) : Tick -> table * Env -> list fired -> Prop :=
  | sim_start : simulates n0 S0 n0 S0 []
  | sim_wait n n' S l : simulates n0 S0 n S l -> n <= n' -> ahead n' S.1 -> simulates n0 S0 n' S l
  | sim_fire n e t S l : simulates n0 S0 n S l -> S.1 !! e = Some (t, Some n) ->
      simulates n0 S0 n (t_fire n e t S) (l ++ [mkFired e n n]).

(** ** What the callbacks may do

    A timer gets a fresh address below [N], a positive period and a counter that
    does not overflow; a handle that is stopped is live and not that of the timer
    whose callback runs. *)
Context (N : Z).

Definition good_timer (t : TMEvent) : Prop :=
  0 < ms_ t < 2 ^ 31 /\ canceled_ t = false /\ - 2 ^ 31 <= cnts_ t < 2 ^ 31 - 1 /\ max_cnts_ t < 2 ^ 31.

Definition ok_cmd (evt : eid) (c : cmd) (ts : gmap eid TMEvent) : Prop :=
  match c with
  | SetTimer e g ms cnt cb => ts !! e = None /\ Z.pos e < N /\ good_timer (mkTMEvent ms g cnt false cb)
  | StopTimer None => True
  | StopTimer (Some e) => e <> evt /\ is_Some (ts !! e)
  end.

Fixpoint ok_cmds (evt : eid) (cs : list cmd) (ts : gmap eid TMEvent) : Prop :=
  match cs with
  | [] => True
  | c :: cs' => ok_cmd evt c ts /\ forall ts', cmd_timers c ts = Ok ts' -> ok_cmds evt cs' ts'
  end.

(** [I] is what the callbacks know of their state and of the live timers. *)
Definition well_behaved (I : Env -> gmap eid TMEvent -> Prop) : Prop :=
  forall env ts evt t, I env ts -> ts !! evt = Some t ->
    let '(env', cs) := user (cb_ t) env ts in
    ok_cmds evt cs ts /\
    forall ts', cmds_timers cs ts = Ok ts' -> I env' (<[evt := count_up t 1]> ts').

Lemma ok_cmd_runs evt c ts : ok_cmd evt c ts -> exists ts', cmd_timers c ts = Ok ts'.
Proof. destruct c as [e g ms cnt cb|[e|]]; simpl; [eauto | intros [_ [t ->]]; eauto | eauto]. Qed.

Lemma ok_cmds_run evt cs : forall ts, ok_cmds evt cs ts -> exists ts', cmds_timers cs ts = Ok ts'.
Proof.
  induction cs as [|c cs IH]; intros ts Hok; simpl; [eauto |]. destruct Hok as [Hc Hcs].
  destruct (ok_cmd_runs _ _ _ Hc) as [ts' E]. rewrite E. by apply IH, Hcs.
Qed.

(** The timer whose callback runs stays as it is. *)
Lemma ok_cmd_self evt c ts ts' t :
  ok_cmd evt c ts -> ts !! evt = Some t -> cmd_timers c ts = Ok ts' -> ts' !! evt = Some t.
Proof.
  destruct c as [e g ms cnt cb|[e|]]; simpl; intros Hc Ht.
  - intros [= <-]. destruct Hc as (Hn & _). rewrite lookup_insert_ne; congruence.
  - destruct Hc as [Hne [t' ->]]. intros [= <-]. by rewrite lookup_delete_ne.
  - by intros [= <-].
Qed.

Lemma ok_cmds_self evt t cs : forall ts ts',
  ok_cmds evt cs ts -> ts !! evt = Some t -> cmds_timers cs ts = Ok ts' -> ts' !! evt = Some t.
Proof.
  induction cs as [|c cs IH]; intros ts ts' Hok Ht; simpl; [by intros [= <-] |].
  destruct Hok as [Hc Hcs]. destruct (cmd_timers c ts) as [ts1|] eqn:E; [| done]. simpl.
  apply IH; [by apply Hcs | by eapply ok_cmd_self].
Qed.

(** The table without its deadlines is the map of live timers. *)
Lemma t_cmd_live n c A ts' : cmd_timers c (fst <$> A) = Ok ts' -> fst <$> t_cmd n A c = ts'.
Proof.
  destruct c as [e g ms cnt cb|[e|]]; simpl.
  - intros [= <-]. by rewrite fmap_insert.
  - rewrite lookup_fmap. destruct (A !! e); [| done]. intros [= <-]. by rewrite fmap_delete.
  - by intros [= <-].
Qed.

Lemma t_cmds_live n cs : forall A ts', cmds_timers cs (fst <$> A) = Ok ts' -> fst <$> t_cmds n cs A = ts'.
Proof.
  induction cs as [|c cs IH]; intros A ts'; simpl; [by intros [= <-] |].
  destruct (cmd_timers c (fst <$> A)) as [ts1|] eqn:E; [| done]. simpl. intros Hcs.
  apply IH. by rewrite (t_cmd_live n c A ts1).
Qed.

(** *** Well-formed tables *)
Definition armed (A : table) : Prop :=
  forall e t T, A !! e = Some (t, Some T) -> good_timer t /\ Z.pos e < N.

Lemma armed_insert e t o A :
  (forall T, o = Some T -> good_timer t /\ Z.pos e < N) -> armed A -> armed (<[e := (t, o)]> A).
Proof.
  intros Ho HA x t' T. destruct (decide (x = e)) as [->|Hne].
  - rewrite lookup_insert_eq. intros [= <- E]. by apply (Ho T).
  - rewrite lookup_insert_ne by done. apply HA.
Qed.

Lemma t_cmds_armed n evt cs : forall A,
  ok_cmds evt cs (fst <$> A) -> armed A -> armed (t_cmds n cs A).
Proof.
  induction cs as [|c cs IH]; intros A; simpl; [done |]. intros [Hc Hcs] HA.
  destruct (ok_cmd_runs _ _ _ Hc) as [ts' E]. apply IH.
  - rewrite (t_cmd_live n c A ts' E). by apply Hcs.
  - destruct c as [e g ms cnt cb|[e|]]; simpl in *; [| | done].
    + apply armed_insert; [| done]. intros T _. naive_solver.
    + intros x t T Hx. apply lookup_delete_Some in Hx as [_ Hx]. by apply HA in Hx.
Qed.

Context (I : Env -> gmap eid TMEvent -> Prop).
Definition table_ok (S : table * Env) : Prop := I S.2 (fst <$> S.1) /\ armed S.1.

Hypothesis user_ok : well_behaved I.

(** What is known when a timer is about to run. *)
Lemma user_runs e t T S :
  table_ok S -> S.1 !! e = Some (t, Some T) ->
  exists env' cs ts', user (cb_ t) S.2 (fst <$> S.1) = (env', cs) /\ (fst <$> S.1) !! e = Some t /\
    ok_cmds e cs (fst <$> S.1) /\ cmds_timers cs (fst <$> S.1) = Ok ts' /\ ts' !! e = Some t /\
    I env' (<[e := count_up t 1]> ts') /\ good_timer t /\ Z.pos e < N.
Proof.
  intros [HI HA] Ht. destruct (HA e t T Ht) as [Hg HN].
  assert ((fst <$> S.1) !! e = Some t) as Hl by (by rewrite lookup_fmap, Ht).
  pose proof (user_ok _ _ _ _ HI Hl) as Hu. destruct (user (cb_ t) S.2 (fst <$> S.1)) as [env' cs].
  destruct Hu as [Hok Hpost]. destruct (ok_cmds_run _ _ _ Hok) as [ts' Ets].
  exists env', cs, ts'. split_and!; auto. by eapply ok_cmds_self.
Qed.

Lemma good_timer_again t :
  good_timer t -> rearmed (count_up t 1) = true -> good_timer (count_up t 1).
Proof. unfold good_timer, rearmed. simpl. intros (? & -> & ? & ?) [_ ?%Z.ltb_lt]%andb_true_iff. lia. Qed.

Lemma t_fire_ok n e t T S : table_ok S -> S.1 !! e = Some (t, Some T) -> table_ok (t_fire n e t S).
Proof.
  intros HS Ht. destruct (user_runs e t T S HS Ht) as (env' & cs & ts' & Eu & Hl & Hok & Ets & Hs & HI & Hg & HN).
  unfold t_fire. rewrite Eu. split; simpl.
  - by rewrite fmap_insert, (t_cmds_live n cs S.1 ts').
  - apply armed_insert; [| eapply t_cmds_armed; [done | apply HS]].
    intros T' HT. case_match eqn:E; [| done]. auto using good_timer_again.
Qed.

Lemma simulates_ok n0 S0 n S l : table_ok S0 -> simulates n0 S0 n S l -> table_ok S.
Proof. induction 2; [done | done |]. by eapply t_fire_ok. Qed.

Lemma simulates_times n0 S0 n S l :
  simulates n0 S0 n S l -> n0 <= n /\ on_time n0 n l.
Proof.
  induction 1 as [|n n' S l _ [IH1 IH2] Hn|n e t S l _ [IH1 IH2] _].
  - split; [lia |]. by repeat constructor.
  - split; [lia |]. by eapply on_time_mono.
  - split; [done |]. by apply on_time_snoc.
Qed.

(** The timer that runs next is one with the earliest deadline: none is ever
    passed over. *)
Lemma t_cmds_ahead n evt cs : forall A,
  ok_cmds evt cs (fst <$> A) -> ahead n A -> ahead n (t_cmds n cs A).
Proof.
  induction cs as [|c cs IH]; intros A; simpl; [done |]. intros [Hc Hcs] HA.
  destruct (ok_cmd_runs _ _ _ Hc) as [ts' E]. apply IH.
  - rewrite (t_cmd_live n c A ts' E). by apply Hcs.
  - destruct c as [e g ms cnt cb|[e|]]; simpl in *; [| | done]; intros x t T Hx.
    + destruct (decide (x = e)) as [->|Hne].
      * rewrite lookup_insert_eq in Hx. injection Hx as <- <-. destruct Hc as (_ & _ & Hm & _). simpl in Hm. lia.
      * rewrite lookup_insert_ne in Hx by done. by eapply HA.
    + apply lookup_delete_Some in Hx as [_ Hx]. by eapply HA.
Qed.

Lemma simulates_ahead n0 S0 n S l :
  table_ok S0 -> ahead n0 S0.1 -> simulates n0 S0 n S l -> ahead n S.1.
Proof.
  intros HS HA. induction 1 as [| |n e t S l Hsim IH He]; [done | done |].
  pose proof (simulates_ok _ _ _ _ _ HS Hsim) as Hok.
  destruct (user_runs e t n S Hok He) as (env' & cs & ts' & Eu & _ & Hcs & _ & _ & _ & Hg & _).
  unfold t_fire. rewrite Eu. simpl. intros x t' T Hx. destruct (decide (x = e)) as [->|Hne].
  - rewrite lookup_insert_eq in Hx. injection Hx as <- E. case_match; [| done].
    injection E as <-. destruct Hg as (Hm & _). lia.
  - rewrite lookup_insert_ne in Hx by done. by eapply t_cmds_ahead.
Qed.

(** *** The life of one timer *)

(** No callback stops [e]. *)
Definition spared (e : eid) : Prop := forall cb env ts, StopTimer (Some e) ∉ (user cb env ts).2.

Lemma t_cmds_other n evt x cs : forall A,
  ok_cmds evt cs (fst <$> A) -> x = evt \/ StopTimer (Some x) ∉ cs -> is_Some (A !! x) ->
  t_cmds n cs A !! x = A !! x.
Proof.
  induction cs as [|c cs IH]; intros A; simpl; [done |]. intros [Hc Hcs] Hsp Hx.
  destruct (ok_cmd_runs _ _ _ Hc) as [ts' E]. rewrite not_elem_of_cons in Hsp.
  assert (t_cmd n A c !! x = A !! x) as Ex.
  { destruct c as [e g ms cnt cb|[e|]]; simpl in *; [| | done].
    - rewrite lookup_insert_ne; [done |]. intros ->. destruct Hc as (Hn & _).
      rewrite lookup_fmap in Hn. by destruct Hx as [? Hx]; rewrite Hx in Hn.
    - rewrite lookup_delete_ne; [done |]. intros ->. destruct Hsp as [->|[Hsp _]]; [by destruct Hc | done]. }
  change (t_cmds n cs (t_cmd n A c) !! x = A !! x). rewrite IH; [done | | naive_solver | by rewrite Ex].
  rewrite (t_cmd_live n c A ts' E). by apply Hcs.
Qed.

Definition times (e : eid) (l : list fired) : list Tick :=
  map fired_now (filter (fun f => fired_event f = e) l).

Lemma times_snoc e f l :
  times e (l ++ [f]) = times e l ++ (if decide (fired_event f = e) then [fired_now f] else []).
Proof.
  unfold times. rewrite filter_app, map_app. f_equal.
  rewrite filter_cons. by case_decide.
Qed.

(** [k] multiples of the period, from the first deadline on. *)
Definition periodic (T ms : Z) (k : nat) : list Tick :=
  map (fun i => T + ms * Z.of_nat i) (seq 0 k).

Lemma periodic_S T ms k : periodic T ms (S k) = periodic T ms k ++ [T + ms * Z.of_nat k].
Proof. unfold periodic. by rewrite seq_S, map_app. Qed.

(** A timer with deadline [T], as it was then, has fired [k] times. *)
Definition fired_times (T : Tick) (t : TMEvent) (e : eid) (l : list fired) (A : table) (k : nat) : Prop :=
  times e l = periodic T (ms_ t) k /\
  ((1 < k)%nat -> cnts_ t + Z.of_nat k - 1 < max_cnts_ t) /\
  A !! e = Some (count_up t (Z.of_nat k),
    if decide (k = 0%nat \/ cnts_ t + Z.of_nat k < max_cnts_ t)
    then Some (T + ms_ t * Z.of_nat k) else None).

Lemma count_up_add (t : TMEvent) a b : count_up (count_up t a) b = count_up t (a + b).
Proof. unfold count_up. simpl. f_equal. lia. Qed.

Lemma count_up_0 (t : TMEvent) : count_up t 0 = t.
Proof. destruct t. unfold count_up. simpl. f_equal. lia. Qed.

Lemma simulates_fired n0 S0 n S l e t T :
  table_ok S0 -> spared e -> S0.1 !! e = Some (t, Some T) -> simulates n0 S0 n S l ->
  exists k, fired_times T t e l S.1 k.
Proof.
  intros HS Hsp He. induction 1 as [|n n' S l Hsim IH|n x tx S l Hsim (k & Htimes & Hlim & Hcur) Hx].
  { exists 0%nat. split_and!; [done | lia |]. rewrite He, decide_True, count_up_0 by auto. do 3 f_equal. lia. }
  { done. }
  pose proof (simulates_ok _ _ _ _ _ HS Hsim) as Hok.
  destruct (user_runs x tx n S Hok Hx) as (env' & cs & ts' & Eu & _ & Hcs & _).
  pose proof (Hsp (cb_ tx) S.2 (fst <$> S.1)) as Hsp'. rewrite Eu in Hsp'. simpl in Hsp'.
  unfold t_fire. rewrite Eu. simpl.
  destruct (decide (x = e)) as [->|Hne].
  - rewrite Hcur in Hx. case_decide as Hk; [| done]. injection Hx as <- <-.
    destruct (proj2 HS e t T He) as [(Hm & Hc & _) _].
    exists (Datatypes.S k). split_and!.
    + rewrite times_snoc, Htimes, periodic_S. simpl. by rewrite decide_True.
    + intros ?. destruct Hk; lia.
    + rewrite lookup_insert_eq, count_up_add. unfold rearmed. simpl. rewrite Hc. simpl.
      replace (Z.of_nat k + 1) with (Z.of_nat (Datatypes.S k)) by lia. do 2 f_equal.
      destruct (Z.ltb_spec (cnts_ t + Z.of_nat (Datatypes.S k)) (max_cnts_ t)).
      * rewrite decide_True by lia. f_equal. lia.
      * rewrite decide_False by lia. done.
  - exists k. split_and!; [by rewrite times_snoc, decide_False, app_nil_r | done |].
    rewrite lookup_insert_ne by done. by rewrite (t_cmds_other n x e); auto; rewrite Hcur.
Qed.

(** How often a timer has fired at time [n]: as often as its period fits, at
    most the number of times its counter allows, which is never less than one. *)
Definition fire_count (t : TMEvent) (T n : Tick) : nat :=
  Z.to_nat (Z.min (Z.max 1 (max_cnts_ t - cnts_ t)) ((n - T) / ms_ t + 1)).

Lemma fired_times_count l e T t k n A :
  good_timer t -> fired_times T t e l A k -> Forall (fun f => fired_now f <= n) l ->
  (forall t' T', A !! e = Some (t', Some T') -> n < T') -> k = fire_count t T n.
Proof.
  intros ((Hms & _) & _) (Ht & Hlim & Hv) Hle Hahead.
  assert (0 < Z.of_nat k -> T + ms_ t * (Z.of_nat k - 1) <= n) as Hlast.
  { intros Hk. rewrite Forall_forall in Hle.
    assert (T + ms_ t * (Z.of_nat k - 1) ∈ times e l) as Hin.
    { rewrite Ht. apply list_elem_of_fmap. exists (k - 1)%nat. split; [do 2 f_equal; lia |]. apply elem_of_seq. lia. }
    apply list_elem_of_fmap in Hin as (f & -> & [_ Hf]%list_elem_of_filter). by apply Hle. }
  unfold fire_count. case_decide as Hk.
  - specialize (Hahead _ _ Hv). destruct (decide (k = 0%nat)) as [->|Hk0].
    + assert ((n - T) / ms_ t < 0); [apply Z.div_lt_upper_bound; lia | lia].
    + specialize (Hlast ltac:(lia)).
      assert ((n - T) / ms_ t = Z.of_nat k - 1) as ->; [| lia].
      symmetry. apply Z.div_unique with (r := n - T - ms_ t * (Z.of_nat k - 1)); lia.
  - specialize (Hlast ltac:(lia)).
    assert (Z.of_nat k - 1 <= (n - T) / ms_ t) as Hq by (apply Z.div_le_lower_bound; lia).
    destruct (decide (k = 1%nat)) as [->|]; [lia |]. specialize (Hlim ltac:(lia)). lia.
Qed.

(** ** The run loop refines the table *)
Definition abs_table (w : TimerWheel) (ts : gmap eid TMEvent) : table :=
  map_imap (fun e t => Some (t, view w e)) ts.

Lemma abs_lookup w ts x : abs_table w ts !! x = (fun t => (t, view w x)) <$> ts !! x.
Proof. unfold abs_table. rewrite map_lookup_imap. by destruct (ts !! x). Qed.

Lemma abs_live w ts : fst <$> abs_table w ts = ts.
Proof. apply map_eq. intros x. rewrite lookup_fmap, abs_lookup. by destruct (ts !! x). Qed.

Lemma abs_ext w w' ts : (forall x, view w' x = view w x) -> abs_table w' ts = abs_table w ts.
Proof. intros Hv. apply map_eq. intros x. by rewrite !abs_lookup, Hv. Qed.

Definition active_live (w : TimerWheel) (ts : gmap eid TMEvent) : Prop :=
  forall e, is_Some (view w e) -> is_Some (ts !! e).

Lemma schedule_view e d w w' x :
  schedule e d w = Ok w' ->
  view w' x = if decide (x = e) then Some (u64 (now w + d)) else view w x.
Proof.
  unfold schedule. intros H. case_match; [done |]. inv_res. rewrite view_relink.
  case_decide; subst; [by rewrite scheduled_at_set, decide_True |].
  by apply view_set_scheduled_at.
Qed.

Lemma schedule_now e d w w' : schedule e d w = Ok w' -> now w' = now w.
Proof.
  unfold schedule. intros H. case_match; [done |]. inv_res. unfold now.
  by rewrite (proj1 (relink_frame _ _ _)).
Qed.

(** Setting a timer, from the wheel and from the live timers. *)
Lemma set_abs n e t w w' ts :
  now w = n -> 0 <= n -> n + 2 ^ 31 < 2 ^ 64 -> 0 < ms_ t < 2 ^ 31 ->
  schedule e (u64 (ms_ t)) w = Ok w' ->
  now w' = n /\ abs_table w' (<[e := t]> ts) = <[e := (t, Some (n + ms_ t))]> (abs_table w ts) /\
  (active_live w ts -> active_live w' (<[e := t]> ts)).
Proof.
  intros Hn Hn0 Hb Hm Hs. pose proof (fun x => schedule_view _ _ _ _ x Hs) as Hv.
  rewrite Hn, !u64_small in Hv by (rewrite ?u64_small; lia). split_and!.
  - by rewrite (schedule_now _ _ _ _ Hs).
  - apply map_eq. intros x. rewrite abs_lookup, Hv.
    destruct (decide (x = e)) as [->|]; [by rewrite !lookup_insert_eq |].
    by rewrite !lookup_insert_ne, abs_lookup by done.
  - intros HL x. rewrite Hv. case_decide; [subst; rewrite lookup_insert_eq; eauto |].
    rewrite lookup_insert_ne by done. apply HL.
Qed.

Lemma stop_abs e w ts :
  abs_table (cancel e w) (delete e ts) = delete e (abs_table w ts) /\
  (active_live w ts -> active_live (cancel e w) (delete e ts)).
Proof.
  split.
  - apply map_eq. intros x. rewrite abs_lookup, view_cancel.
    destruct (decide (x = e)) as [->|]; [by rewrite !lookup_delete_eq |].
    by rewrite !lookup_delete_ne, abs_lookup by done.
  - intros HL x. rewrite view_cancel. case_decide; [by intros [? ?] |].
    rewrite lookup_delete_ne by done. apply HL.
Qed.

Lemma cancel_now e w : now (cancel e w) = now w.
Proof. unfold cancel. case_match; [| done]. unfold now. by rewrite (proj1 (relink_frame _ _ _)). Qed.

Lemma run_cmd_actions n evt k cs : forall w ts ts' w',
  now w = n -> 0 <= n -> n + 2 ^ 31 < 2 ^ 64 -> ok_cmds evt cs ts ->
  cmds_timers cs ts = Ok ts' -> run_action (cmd_actions cs k) w = Ok w' ->
  exists w1, run_action k w1 = Ok w' /\ now w1 = n /\
    abs_table w1 ts' = t_cmds n cs (abs_table w ts) /\ (active_live w ts -> active_live w1 ts').
Proof.
  induction cs as [|c cs IH]; intros w ts ts' w' Hn Hn0 Hb Hok Hts Hw; simpl in *.
  { injection Hts as <-. by exists w. }
  destruct Hok as [Hc Hcs]. destruct (cmd_timers c ts) as [ts1|] eqn:E; [| done]. simpl in Hts.
  specialize (Hcs ts1 eq_refl). destruct c as [e g ms cnt cb|[e|]]; simpl in *.
  - injection E as <-. destruct (schedule e (u64 ms) w) as [w1|] eqn:Es; [| done]. simpl in Hw.
    destruct Hc as (_ & _ & Hm & _).
    destruct (set_abs n e (mkTMEvent ms g cnt false cb) w w1 ts Hn Hn0 Hb Hm Es) as (Hn1 & Ha & HL).
    destruct (IH w1 _ ts' w' Hn1 Hn0 Hb Hcs Hts Hw) as (w2 & Hk & Hn2 & Ha2 & HL2).
    exists w2. split_and!; auto. by rewrite Ha2, Ha.
  - destruct (ts !! e); [| done]. injection E as <-. destruct (stop_abs e w ts) as [Ha HL].
    destruct (IH (cancel e w) (delete e ts) ts' w') as (w2 & Hk & Hn2 & Ha2 & HL2); auto; [by rewrite cancel_now |].
    exists w2. split_and!; auto. by rewrite Ha2, Ha.
  - injection E as <-. by apply IH.
Qed.

(** What the commands ask of the wheel is allowed. *)
Lemma cmd_actions_ok n evt k cs : forall w ts,
  now w = n -> 0 <= n -> n + 2 ^ 31 < 2 ^ 64 -> ok_cmds evt cs ts ->
  (forall w', now w' = n -> ok_action N k w') -> ok_action N (cmd_actions cs k) w.
Proof.
  induction cs as [|c cs IH]; intros w ts Hn Hn0 Hb Hok Hk; simpl in *; [auto |].
  destruct Hok as [Hc Hcs]. destruct c as [e g ms cnt cb|[e|]]; simpl in *.
  - destruct Hc as (_ & HN & Hm & _). simpl in Hm. rewrite u64_small by lia. split; [lia |].
    intros w' Hs. apply (IH w' (<[e := mkTMEvent ms g cnt false cb]> ts)); auto.
    by rewrite (schedule_now _ _ _ _ Hs).
  - destruct Hc as [_ [t Et]]. split; [done |]. intros w' [= <-].
    apply (IH _ (delete e ts)); auto; [by rewrite cancel_now |]. apply Hcs. by rewrite Et.
  - apply (IH w ts); auto.
Qed.

Lemma t_cmds_but n e cs : forall A B,
  delete e A = delete e B -> delete e (t_cmds n cs A) = delete e (t_cmds n cs B).
Proof.
  induction cs as [|c cs IH]; intros A B HAB; simpl; [done |]. apply IH.
  destruct c as [x g ms cnt cb|[x|]]; simpl; [| | done].
  - destruct (decide (x = e)) as [->|]; [by rewrite !delete_insert_eq |].
    by rewrite !delete_insert_ne, HAB by done.
  - rewrite !(delete_delete _ e x). by rewrite HAB.
Qed.

Definition abs (st : state (Client Cb Env)) : table * Env :=
  (abs_table (wheel st) (live (client st)), env (client st)).

Lemma abs_pop s e w ts t :
  ts !! e = Some t -> abs_table (pop_event s e w) ts = <[e := (t, None)]> (abs_table w ts).
Proof.
  intros Ht. apply map_eq. intros x. rewrite abs_lookup, view_pop.
  destruct (decide (x = e)) as [->|]; [by rewrite lookup_insert_eq, Ht |].
  by rewrite lookup_insert_ne, abs_lookup by done.
Qed.

(** The end of [onTimer]: the timer is given its next deadline or none. *)
Lemma rearm_abs n e t w w' ts :
  now w = n -> 0 <= n -> n + 2 ^ 31 < 2 ^ 64 -> 0 < ms_ t < 2 ^ 31 -> view w e = None ->
  run_action (if rearmed t then Act (OpSchedule e (u64 (ms_ t))) (fun _ => Done) else Done) w = Ok w' ->
  abs_table w' (<[e := t]> ts) = <[e := (t, if rearmed t then Some (n + ms_ t) else None)]> (abs_table w ts) /\
  (active_live w ts -> active_live w' (<[e := t]> ts)).
Proof.
  intros Hn Hn0 Hb Hm Hv. destruct (rearmed t); simpl.
  - destruct (schedule e (u64 (ms_ t)) w) as [w1|] eqn:Es; [| done]. intros [= <-].
    by apply (set_abs n e t w w1 ts).
  - intros [= <-]. split.
    + apply map_eq. intros x. rewrite abs_lookup.
      destruct (decide (x = e)) as [->|]; [by rewrite !lookup_insert_eq; simpl; rewrite Hv |].
      by rewrite !lookup_insert_ne, abs_lookup by done.
    + intros HL x Hx. destruct (decide (x = e)) as [->|]; [rewrite lookup_insert_eq; eauto |].
      rewrite lookup_insert_ne by done. by apply HL.
Qed.

Record consistent (st : state (Client Cb Env)) : Prop := {
  no_fault : failed (client st) = None;
  events_live : active_live (wheel st) (live (client st));
  table_fine : table_ok (abs st) }.

Lemma execute_fires n e s (st st' : state (Client Cb Env)) :
  consistent st -> view (wheel st) e = Some n -> now (wheel st) = n -> 0 <= n -> n + 2 ^ 31 < 2 ^ 64 ->
  execute (timer_callback user) e (with_wheel (pop_event s e) st) = Ok st' ->
  exists t, (abs st).1 !! e = Some (t, Some n) /\ abs st' = t_fire n e t (abs st) /\
    failed (client st') = None /\ active_live (wheel st') (live (client st')).
Proof.
  intros [Hf HL Hok] Hv Hnow Hn Hb Hx. destruct (HL e) as [t Ht]; [by rewrite Hv |].
  assert ((abs st).1 !! e = Some (t, Some n)) as Ha by (simpl; by rewrite abs_lookup, Ht; simpl; rewrite Hv).
  exists t. split; [done |].
  destruct (user_runs e t n _ Hok Ha) as (env' & cs & ts' & Eu & _ & Hcs & Ets & Hs & _ & Hg & _).
  simpl in Eu, Hcs, Ets. rewrite abs_live in Eu, Hcs, Ets.
  unfold execute, timer_callback in Hx. simpl in Hx. rewrite Hf, Ht, Eu, Ets, Hs in Hx.
  destruct Hg as (Hm & _ & Hcn & _). rewrite (proj2 (Z.leb_gt _ _)) in Hx by lia. simpl in Hx.
  destruct (run_action _ _) as [w'|] eqn:Ew in Hx; [| done]. injection Hx as <-. simpl.
  assert (now (pop_event s e (wheel st)) = n) as Hn1
    by (unfold now in *; by rewrite (proj1 (pop_event_frame s e (wheel st)))).
  destruct (run_cmd_actions n e _ cs _ (live (client st)) ts' w' Hn1 Hn Hb Hcs Ets Ew)
    as (w1 & Hk & Hn2 & Ha1 & HL1). rewrite (abs_pop s e _ _ t Ht) in Ha1.
  assert (view w1 e = None) as Hv1.
  { pose proof (abs_lookup w1 ts' e) as E. rewrite Ha1, (t_cmds_other n e e) in E.
    - rewrite lookup_insert_eq, Hs in E. by injection E.
    - by rewrite fmap_insert, abs_live, insert_id.
    - auto.
    - rewrite lookup_insert_eq. eauto. }
  destruct (rearm_abs n e (count_up t 1) w1 w' ts' Hn2 Hn Hb Hm Hv1 Hk) as [Ha2 HL2].
  split_and!; [| done |].
  - unfold abs, t_fire. simpl. rewrite abs_live, Eu, Ha2, Ha1. f_equal.
    rewrite <- insert_delete_eq, <- (insert_delete_eq (t_cmds n cs (abs_table _ _))). f_equal.
    apply t_cmds_but. by rewrite delete_insert_eq.
  - apply HL2, HL1. intros x. rewrite view_pop. case_decide; [by intros [? ?] | apply HL].
Qed.

(** *** The invariant of the run loop *)
Definition tracks_table (n0 : Tick) (st0 : state (Client Cb Env)) (n : Tick) (st : state (Client Cb Env)) : Prop :=
  consistent st /\ exists new, log st = log st0 ++ new /\
    (ahead n (abs st).1 -> simulates n0 (abs st0) n (abs st) new).

Lemma ahead_mono n n' A : n <= n' -> ahead n' A -> ahead n A.
Proof. intros Hn HA e t T He. specialize (HA e t T He). lia. Qed.

Lemma not_overdue_ahead n (st : state (Client Cb Env)) : none_overdue n (wheel st) -> ahead n (abs st).1.
Proof.
  intros Ho e t T. simpl. rewrite abs_lookup. destruct (live (client st) !! e); simpl; [| done].
  intros [= _ Hv]. by apply (Ho e).
Qed.

Lemma tracks_table_ext n0 st0 n (st st' : state (Client Cb Env)) :
  (forall x, view (wheel st') x = view (wheel st) x) -> client st' = client st -> log st' = log st ->
  tracks_table n0 st0 n st -> tracks_table n0 st0 n st'.
Proof.
  intros Hv Hc Hl [[Hf HL Hok] (new & E & Hs)].
  assert (abs st' = abs st) as Ha by (unfold abs; by rewrite Hc, (abs_ext _ _ _ Hv)).
  split; [split; rewrite ?Ha, ?Hc; try done |].
  - intros x. rewrite Hv. apply HL.
  - exists new. by rewrite Hl, Ha.
Qed.

Lemma tracks_table_execute n0 st0 n e s (st st' : state (Client Cb Env)) :
  tracks_table n0 st0 n st -> 0 <= n -> n + 2 ^ 31 < 2 ^ 64 ->
  view (wheel st) e = Some n -> now (wheel st) = n -> none_overdue n (wheel st) ->
  execute (timer_callback user) e (with_wheel (pop_event s e) st) = Ok st' -> tracks_table n0 st0 n st'.
Proof.
  intros [Hc (new & Hl & Hs)] Hn Hb Hv Hnow Ho Hx.
  destruct (execute_fires n e s st st' Hc Hv Hnow Hn Hb Hx) as (t & Ht & Ha & Hf & HL).
  split.
  - split; [done | done |]. rewrite Ha. eapply t_fire_ok; [apply Hc | done].
  - exists (new ++ [mkFired e n n]).
    rewrite (execute_log _ e s n st st' Hv Hnow Hx), Hl, app_assoc. split; [done |]. intros _.
    rewrite Ha. apply sim_fire; [| done]. by apply Hs, not_overdue_ahead.
Qed.

Lemma callback_keeps n e s (st : state (Client Cb Env)) :
  consistent st -> view (wheel st) e = Some n -> now (wheel st) = n -> 0 <= n -> n + 2 ^ 31 < 2 ^ 64 ->
  let w := pop_event s e (wheel st) in ok_action N (timer_callback user (client st) e w).2 w.
Proof.
  intros [Hf HL Hok] Hv Hnow Hn Hb w. destruct (HL e) as [t Ht]; [by rewrite Hv |].
  assert ((abs st).1 !! e = Some (t, Some n)) as Ha by (simpl; by rewrite abs_lookup, Ht; simpl; rewrite Hv).
  destruct (user_runs e t n _ Hok Ha) as (env' & cs & ts' & Eu & _ & Hcs & Ets & Hs & _ & Hg & HeN).
  simpl in Eu, Hcs, Ets. rewrite abs_live in Eu, Hcs, Ets.
  unfold timer_callback. rewrite Hf, Ht, Eu, Ets, Hs. destruct Hg as (Hm & _ & Hcn & _).
  rewrite (proj2 (Z.leb_gt _ _)) by lia. simpl.
  apply (cmd_actions_ok n e _ cs w (live (client st))); try done.
  - unfold w, now in *. by rewrite (proj1 (pop_event_frame s e (wheel st))).
  - intros w' Hw'. case_match; simpl; [| done]. rewrite u64_small by lia. split; [lia | done].
Qed.

Lemma run_step H n0 st0 n (st : state (Client Cb Env)) :
  H + 2 ^ 31 < 2 ^ 64 -> 0 < N < 2 ^ 64 - 1 -> tracks_table n0 st0 n st ->
  wheel_inv N n (wheel st) -> ticks_pending_ (wheel st) = 0 -> n + MIN_RESOLUTION <= H ->
  exists F st', (forall fuel, (F <= fuel)%nat ->
      advance (timer_callback user) fuel MIN_RESOLUTION (2 ^ 64 - 1) 0 st = Ok (st', true)) /\
    wheel_inv N (n + MIN_RESOLUTION) (wheel st') /\ ticks_pending_ (wheel st') = 0 /\
    tracks_table n0 st0 (n + MIN_RESOLUTION) st'.
Proof.
  intros HH HN Htr Hi Hp Hn. unfold MIN_RESOLUTION in *.
  destruct (advance_spec (timer_callback user) N H ltac:(lia) (fun m s => tracks_table n0 st0 m s))
    with (n := n) (delta := 5) (max := 2 ^ 64 - 1) (st := st)
    as (F & st' & b & Hrun & n' & Hn' & Hi' & Htr' & Htg & Hb & Hbm); try done; try lia.
  - intros. by eapply tracks_table_ext.
  - intros m m' s1 Hm [Hc (new & Hl & Hs)]. split; [done |]. exists new. split; [done |].
    intros HA. eapply sim_wait; [apply Hs; by eapply ahead_mono | done | done].
  - intros m e s s1 s2 Hm Ht Hv Hnow Ho Hx. eapply tracks_table_execute; try done; lia.
  - intros m e s s1 Hm Ht Hv Hnow He. apply (callback_keeps m); try done; [apply Ht | lia..].
  - unfold target. rewrite Hp. simpl. lia.
  - assert (b = true) as -> by (apply Hbm; lia). assert (ticks_pending_ (wheel st') = 0) as Hp' by (by apply Hb).
    rewrite Hp, Hp' in Htg. unfold target in Htg. simpl in Htg. subst n'. by exists F, st'.
Qed.

Lemma run_spec H n0 st0 k : forall n st,
  H + 2 ^ 31 < 2 ^ 64 -> 0 < N < 2 ^ 64 - 1 -> tracks_table n0 st0 n st ->
  wheel_inv N n (wheel st) -> ticks_pending_ (wheel st) = 0 -> n + MIN_RESOLUTION * Z.of_nat k <= H ->
  exists F st', (forall fuel, (F <= fuel)%nat -> run user k fuel st = Ok st') /\
    wheel_inv N (n + MIN_RESOLUTION * Z.of_nat k) (wheel st') /\ ticks_pending_ (wheel st') = 0 /\
    tracks_table n0 st0 (n + MIN_RESOLUTION * Z.of_nat k) st'.
Proof.
  induction k as [|k IH]; intros n st HH HN Htr Hi Hp Hn.
  { exists 0%nat, st. rewrite Z.mul_0_r, Z.add_0_r. done. }
  unfold MIN_RESOLUTION in *.
  destruct (run_step H n0 st0 n st) as (F1 & st1 & Hrun1 & Hi1 & Hp1 & Htr1); try done;
    [unfold MIN_RESOLUTION; lia |].
  destruct (IH (n + 5) st1) as (F2 & st2 & Hrun2 & Hi2 & Hp2 & Htr2); try done; [lia |].
  replace (n + 5 * Z.of_nat (S k)) with (n + 5 + 5 * Z.of_nat k) by lia.
  exists (F1 `max` F2)%nat, st2. split_and!; try done.
  intros fuel Hf. simpl. rewrite Hrun1 by lia. simpl. rewrite (no_fault st1 (proj1 Htr1)). apply Hrun2. lia.
Qed.

Lemma tracks_table_refl n st : consistent st -> tracks_table n st n st.
Proof. intros Hc. split; [done |]. exists []. rewrite app_nil_r. split; [done |]. intros _. constructor. Qed.

(** The states of [run] at time [n], before and after a round. *)
Definition runnable (n : Tick) (st : state (Client Cb Env)) : Prop :=
  consistent st /\ wheel_inv N n (wheel st) /\ ticks_pending_ (wheel st) = 0.

Lemma runnable_ahead n st e t T : runnable n st -> (abs st).1 !! e = Some (t, Some T) -> n < T.
Proof.
  intros (_ & Hi & Hp) He. simpl in He. rewrite abs_lookup in He.
  destruct (live (client st) !! e); [| done]. simpl in He. injection He as _ Hv.
  by apply (wheel_inv_ahead N n _ e T Hi).
Qed.

Lemma run_simulates H n k (st : state (Client Cb Env)) :
  H + 2 ^ 31 < 2 ^ 64 -> 0 < N < 2 ^ 64 - 1 -> runnable n st -> n + MIN_RESOLUTION * Z.of_nat k <= H ->
  let n' := n + MIN_RESOLUTION * Z.of_nat k in
  exists F st' new,
    (forall fuel, (F <= fuel)%nat -> run user k fuel st = Ok st') /\
    log st' = log st ++ new /\ runnable n' st' /\ now (wheel st') = n' /\
    simulates n (abs st) n' (abs st') new.
Proof.
  intros HH HN (Hc & Hi & Hp) Hn n'.
  destruct (run_spec H n st k n st HH HN (tracks_table_refl n st Hc) Hi Hp Hn)
    as (F & st' & Hrun & Hi' & Hp' & Hc' & new & Hl & Hs).
  exists F, st', new. split_and!; try done; [by eapply now_clock, Hi' |].
  apply Hs. intros e t T He. pose proof (runnable_ahead n' st' e t T) as Ha.
  specialize (Ha ltac:(by split_and!) He). lia.
Qed.
End Table.

(** ** A concrete table

    Timer 1 runs every 10 ms, five times; its callback sets timer 2 (7 ms, three
    times) when there is none, and stops it otherwise. *)
Definition director (cb : bool) (_ : unit) (ts : gmap eid (TMEvent bool)) : unit * list (cmd bool) :=
  (tt, if cb then match ts !! 2%positive with
                  | None => [SetTimer 2 0 7 3 false]
                  | Some _ => [StopTimer (Some 2%positive)]
                  end else []).

Definition director_knows (_ : unit) (ts : gmap eid (TMEvent bool)) : Prop :=
  forall t, ts !! 2%positive = Some t -> cb_ t = false.

Definition one_timer {Cb} (cb : Cb) : _TimerImpl Cb :=
  from_ok (mkTimerImpl (TimerWheel_init 0) ∅) (set 1 0 10 5 cb (mkTimerImpl (TimerWheel_init 0) ∅)).

Definition start_state {Cb} (cb : Cb) : state (Client Cb unit) :=
  mkState (impl_wheel (one_timer cb)) (mkClient (timers (one_timer cb)) () None) [].

Lemma director_well_behaved : well_behaved director 10 director_knows.
Proof.
  intros [] ts evt t HI Ht. unfold director. destruct (cb_ t) eqn:Ecb.
  - assert (evt <> 2%positive) as Hne by (intros ->; rewrite (HI t Ht) in Ecb; done).
    destruct (ts !! 2%positive) as [t2|] eqn:E2.
    + split; [split; [split; eauto | done] |]. simpl. rewrite E2. intros ts' [= <-] t'.
      by rewrite lookup_insert_ne, lookup_delete_eq by done.
    + split; [unfold good_timer; simpl; split; [split_and!; try done; lia | done] |].
      simpl. intros ts' [= <-] t'. rewrite lookup_insert_ne, lookup_insert_eq by done. by intros [= <-].
  - split; [done |]. intros ts' [= <-] t'. destruct (decide (evt = 2%positive)) as [->|].
    + rewrite lookup_insert_eq. by intros [= <-].
    + rewrite lookup_insert_ne by done. apply HI.
Qed.

Lemma start_view {Cb} (cb : Cb) e :
  view (wheel (start_state cb)) e = if decide (e = 1%positive) then Some 10 else None.
Proof.
  change (wheel (start_state cb)) with (relink 1 (Some (0%nat, 10)) (set_scheduled_at 1 10 (TimerWheel_init 0))).
  rewrite view_relink. case_decide; [done |]. by rewrite view_set_scheduled_at.
Qed.

Lemma start_live {Cb} (cb : Cb) : live (client (start_state cb)) = {[1%positive := mkTMEvent 10 0 5 false cb]}.
Proof. done. Qed.

Lemma start_runnable {Cb} (cb : Cb) (I : unit -> gmap eid (TMEvent Cb) -> Prop) :
  I () {[1%positive := mkTMEvent 10 0 5 false cb]} -> runnable 10 I 0 (start_state cb).
Proof.
  intros HI. assert (forall e, is_Some (view (wheel (start_state cb)) e) -> e = 1%positive) as Hv
    by (intros e; rewrite start_view; case_decide; [done | by intros [? ?]]).
  split_and!; [split | | done].
  - done.
  - intros e He. rewrite (Hv e He), start_live, lookup_singleton_eq. eauto.
  - unfold table_ok, abs. rewrite start_live. cbn [fst snd]. split; [by rewrite abs_live |].
    intros e t T. rewrite abs_lookup. destruct (decide (e = 1%positive)) as [->|Hne].
    + rewrite lookup_singleton_eq. intros [= <- _]. unfold good_timer. simpl. lia.
    + by rewrite lookup_singleton_ne.
  - apply (run_ops_inv 10 0 [OpSchedule 1 10] (TimerWheel_init 0)); [by apply TimerWheel_init_inv |].
    apply Forall_singleton. intros w Hn. simpl. rewrite Hn. lia.
Qed.

Lemma director_starts : runnable 10 director_knows 0 (start_state true).
Proof. apply start_runnable. intros t. by rewrite lookup_singleton_ne. Qed.

(** ** Properties *)

(** C3: the thread of [TimerMan::run] refines the table of timers, for any
    callbacks that keep their obligations, whatever timers they set and stop:
    every number of rounds returns without a fault, at the time they add up to;
    what was executed is a run of the table ([simulates]), in which time never
    passes a deadline, the timer that is due runs its callback, the calls of the
    callback take effect at once, and its next deadline is one period later when
    its counter allows; and the state can be run again. *)
Theorem run_refines_table {Cb Env} (user : Cb -> Env -> gmap eid (TMEvent Cb) -> Env * list (cmd Cb))
    N I H n k (st : state (Client Cb Env)) :
  H + 2 ^ 31 < 2 ^ 64 -> 0 < N < 2 ^ 64 - 1 -> well_behaved user N I -> runnable N I n st ->
  n + MIN_RESOLUTION * Z.of_nat k <= H ->
  let n' := n + MIN_RESOLUTION * Z.of_nat k in
  exists F st' new,
    (forall fuel, (F <= fuel)%nat -> run user k fuel st = Ok st') /\
    log st' = log st ++ new /\ runnable N I n' st' /\ now (wheel st') = n' /\
    simulates user n (abs st) n' (abs st') new.
Proof. intros HH HN Hu Hr Hn n'. by apply (run_simulates user N I Hu H). Qed.

Lemma run_refines_table_witness :
  exists F st' new,
    (forall fuel, (F <= fuel)%nat -> run director 12 fuel (start_state true) = Ok st') /\
    log st' = log (start_state true) ++ new /\ runnable 10 director_knows (0 + MIN_RESOLUTION * Z.of_nat 12) st' /\
    now (wheel st') = 0 + MIN_RESOLUTION * Z.of_nat 12 /\
    simulates director 0 (abs (start_state true)) (0 + MIN_RESOLUTION * Z.of_nat 12) (abs st') new.
Proof.
  apply (run_refines_table director 10 director_knows (2 ^ 32));
    [lia | lia | apply director_well_behaved | apply director_starts | unfold MIN_RESOLUTION; lia].
Defined.

(** What it executes: timer 2 runs once between two executions of timer 1. *)
Example director_runs :
  (st ← run director 12 20 (start_state true) : res _; Ok (map (fun f => (fired_event f, fired_now f)) (log st)))
  = Ok [(1%positive, 10); (2%positive, 17); (1%positive, 20); (1%positive, 30); (2%positive, 37); (1%positive, 40); (1%positive, 50); (2%positive, 57)].
Proof. vm_compute. reflexivity. Qed.

(** C34: a timer that no callback stops fires at its first deadline and then once
    per period, as often as its counter allows and the time reached permits,
    whatever the callbacks do to the other timers. *)
Theorem run_fires_periodically {Cb Env} (user : Cb -> Env -> gmap eid (TMEvent Cb) -> Env * list (cmd Cb))
    N I H n k (st : state (Client Cb Env)) :
  H + 2 ^ 31 < 2 ^ 64 -> 0 < N < 2 ^ 64 - 1 -> well_behaved user N I -> runnable N I n st ->
  n + MIN_RESOLUTION * Z.of_nat k <= H ->
  let n' := n + MIN_RESOLUTION * Z.of_nat k in
  exists F st' new,
    (forall fuel, (F <= fuel)%nat -> run user k fuel st = Ok st') /\ log st' = log st ++ new /\
    now (wheel st') = n' /\
    forall e T t, view (wheel st) e = Some T -> live (client st) !! e = Some t -> spared user e ->
      times e new = periodic T (ms_ t) (fire_count t T n').
Proof.
  intros HH HN Hu Hr Hn n'.
  destruct (run_simulates user N I Hu H n k st HH HN Hr Hn) as (F & st' & new & Hrun & Hl & Hr' & Hnow & Hsim).
  exists F, st', new. split_and!; [done.. |]. intros e T t Hv Ht Hsp.
  assert ((abs st).1 !! e = Some (t, Some T)) as He by (simpl; rewrite abs_lookup, Ht; simpl; by rewrite Hv).
  pose proof (table_fine _ _ _ (proj1 Hr)) as Hok.
  destruct (simulates_fired user N I Hu n _ n' _ new e t T Hok Hsp He Hsim) as (j & Hj).
  destruct (simulates_times user n _ n' _ new Hsim) as (_ & Hon & _).
  rewrite <- (fired_times_count new e T t j n' (abs st').1); [apply Hj | | done | |].
  - by eapply (proj2 Hok).
  - eapply Forall_impl; [exact Hon |]. simpl. lia.
  - intros t' T'. by apply (runnable_ahead N I).
Qed.

Lemma run_fires_periodically_witness :
  exists F st' new,
    (forall fuel, (F <= fuel)%nat -> run director 7 fuel (start_state true) = Ok st') /\
    log st' = log (start_state true) ++ new /\ now (wheel st') = 0 + MIN_RESOLUTION * Z.of_nat 7 /\
    forall e T t, view (wheel (start_state true)) e = Some T -> live (client (start_state true)) !! e = Some t ->
      spared director e ->
      times e new = periodic T (ms_ t) (fire_count t T (0 + MIN_RESOLUTION * Z.of_nat 7)).
Proof.
  apply (run_fires_periodically director 10 director_knows (2 ^ 32));
    [lia | lia | apply director_well_behaved | apply director_starts | unfold MIN_RESOLUTION; lia].
Defined.

(** Timer 1 is spared; two deadlines of it are within 27 ticks, all five within
    1000. *)
Example director_spares : spared director 1.
Proof.
  intros cb env ts. unfold director. destruct cb; [| apply not_elem_of_nil].
  destruct (ts !! 2%positive); simpl; rewrite not_elem_of_cons; by split; [| apply not_elem_of_nil].
Qed.
Example fire_count_27 : fire_count (mkTMEvent 10 0 5 false tt) 10 27 = 2%nat.
Proof. reflexivity. Qed.
Example fire_count_1000 : fire_count (mkTMEvent 10 0 5 false tt) 10 1000 = 5%nat.
Proof. reflexivity. Qed.

(** A callback that stops its own timer is undefined behaviour: [onTimer]
    goes on to use the object [stopTimer] has deleted. *)
Theorem stop_inside_callback_undefined {Cb Env} (user : Cb -> Env -> gmap eid (TMEvent Cb) -> Env * list (cmd Cb))
    evt env env' d t cs :
  timers d !! evt = Some t -> user (cb_ t) env (timers d) = (env', StopTimer (Some evt) :: cs) ->
  Forall (fun c => exists h, c = StopTimer h) cs ->
  onTimer user evt env d = Fault Undefined.
Proof.
  intros Ht Hu Hcs. unfold onTimer. rewrite Ht, Hu. simpl. rewrite Ht. simpl.
  set (d1 := mkTimerImpl _ _). assert (timers d1 !! evt = None) as Hd by apply lookup_delete_eq.
  clear Hu. clearbody d1. revert d1 Hd. induction Hcs as [|c cs (h & ->) _ IH]; intros d1 Hd; simpl.
  - by rewrite Hd.
  - destruct h as [h|]; simpl; [| by apply IH].
    destruct (timers d1 !! h) eqn:E; [| done]. simpl. apply IH. simpl.
    destruct (decide (h = evt)) as [->|]; [apply lookup_delete_eq | by rewrite lookup_delete_ne].
Qed.

Lemma stop_inside_callback_undefined_witness :
  onTimer (fun _ e _ => (e, [StopTimer (Some 1%positive)])) 1 tt (one_timer tt) = Fault Undefined.
Proof.
  apply (stop_inside_callback_undefined (fun _ e _ => (e, [StopTimer (Some 1%positive)])) 1 tt tt
    (one_timer tt) (mkTMEvent 10 0 5 false tt) []);
    [vm_compute; reflexivity | reflexivity | by constructor].
Defined.

(** The callback of the wheel is [onTimer]: where it reports no fault the two
    leave the same wheel, timers and state of the user; where it reports one,
    [onTimer] does not return. *)
Lemma run_cmds_split {Cb} (cs : list (cmd Cb)) k : forall d w ts,
  cmds_timers cs (timers d) = Ok ts -> run_action (cmd_actions cs k) (impl_wheel d) = Ok w ->
  exists d', run_cmds cs d = Ok d' /\ timers d' = ts /\ run_action k (impl_wheel d') = Ok w.
Proof.
  induction cs as [|c cs IH]; intros d w ts; simpl; [intros [= <-]; eauto |].
  destruct c as [e g ms cnt cb|[e|]]; simpl.
  - intros Hts Hw. unfold set. destruct (schedule _ _ _) as [w1|]; [| done]. simpl in *.
    by apply (IH (mkTimerImpl w1 _)).
  - destruct (timers d !! e); [| done]. simpl. intros Hts Hw. by apply (IH (mkTimerImpl _ _)).
  - apply IH.
Qed.

Theorem timer_callback_is_onTimer {Cb Env} (user : Cb -> Env -> gmap eid (TMEvent Cb) -> Env * list (cmd Cb))
    (c c' : Client Cb Env) evt a w w' :
  failed c = None -> timer_callback user c evt w = (c', a) -> failed c' = None -> run_action a w = Ok w' ->
  onTimer user evt (env c) (mkTimerImpl w (live c)) = Ok (env c', mkTimerImpl w' (live c')).
Proof.
  intros Hf Hc Hf' Ha. unfold timer_callback in Hc. rewrite Hf in Hc. unfold onTimer. simpl.
  destruct (live c !! evt) as [t|] eqn:Ht; [| by simplify_eq/=].
  destruct (user (cb_ t) (env c) (live c)) as [env' cs].
  destruct (cmds_timers cs (live c)) as [ts|] eqn:Ets; [| by simplify_eq/=].
  destruct (ts !! evt) as [t1|] eqn:Et1; [| by simplify_eq/=].
  destruct (2 ^ 31 <=? cnts_ t1 + 1) eqn:Eb; [by simplify_eq/= |]. simplify_eq/=.
  destruct (run_cmds_split cs _ (mkTimerImpl w (live c)) w' ts Ets Ha) as (d' & E & Hts & Hk).
  rewrite E. simpl. rewrite Hts, Et1, Eb. destruct (rearmed (count_up t1 1)); simpl in Hk.
  - change (ms_ (count_up t1 1)) with (ms_ t1). by destruct (schedule _ _ _); simplify_eq/=.
  - by simplify_eq/=.
Qed.

Lemma timer_callback_is_onTimer_witness :
  exists c' w', onTimer director 1 tt (one_timer true) = Ok (env c', mkTimerImpl w' (live c')).
Proof.
  destruct (timer_callback director (client (start_state true)) 1 (wheel (start_state true))) as [c' a] eqn:Ec.
  assert (failed c' = None) as Hf by (change c' with ((c', a).1); rewrite <- Ec; vm_compute; reflexivity).
  destruct (run_action a (wheel (start_state true))) as [w'|] eqn:Ew.
  - exists c', w'. by apply (timer_callback_is_onTimer director (client (start_state true)) _ 1 a (wheel (start_state true))).
  - exfalso. change a with ((c', a).2) in Ew. rewrite <- Ec in Ew. by vm_compute in Ew.
Defined.

(** [stopTimer] outside a callback removes the timer and its deadline and
    leaves every other timer and deadline; [setTimer] adds exactly one, at
    [now() + ms]. *)
Theorem set_stop_timers {Cb} N n (d : _TimerImpl Cb) :
  wheel_inv N n (impl_wheel d) ->
  (forall evt t, timers d !! evt = Some t ->
     exists d', cancel_timer (Some evt) d = Ok d' /\ timers d' = delete evt (timers d) /\
       wheel_inv N n (impl_wheel d') /\
       forall x, view (impl_wheel d') x = if decide (x = evt) then None else view (impl_wheel d) x) /\
  (forall evt g ms cnt cb, timers d !! evt = None -> Z.pos evt < N -> 0 < ms < 2 ^ 31 -> n + ms < 2 ^ 64 ->
     exists d', set evt g ms cnt cb d = Ok d' /\
       timers d' = <[evt := mkTMEvent ms g cnt false cb]> (timers d) /\
       wheel_inv N n (impl_wheel d') /\
       forall x, view (impl_wheel d') x = if decide (x = evt) then Some (n + ms) else view (impl_wheel d) x).
Proof.
  intros Hi. pose proof (wheel_inv_now _ _ _ Hi) as Hnow. pose proof (proj1 Hi) as Hn0. split.
  - intros evt t Ht. unfold cancel_timer. rewrite Ht. eexists. split; [done |]. simpl.
    split_and!; [done | | intros x; apply view_cancel].
    destruct (apply_op_inv N n (OpCancel evt) (impl_wheel d) Hi) as (w' & [= <-] & Hw); done.
  - intros evt g ms cnt cb Hev HN Hms Hb. unfold set. rewrite u64_small by lia.
    destruct (apply_op_inv N n (OpSchedule evt ms) (impl_wheel d) Hi) as (w' & E & Hw);
      [simpl; lia |]. simpl in E. rewrite E. eexists. split; [done |]. simpl.
    split_and!; [done | done |]. intros x. rewrite (schedule_view _ _ _ _ _ E), Hnow.
    by rewrite u64_small by lia.
Qed.

Lemma set_stop_timers_witness :
  (forall evt t, timers (one_timer tt) !! evt = Some t ->
     exists d', cancel_timer (Some evt) (one_timer tt) = Ok d' /\ timers d' = delete evt (timers (one_timer tt)) /\
       wheel_inv 10 0 (impl_wheel d') /\
       forall x, view (impl_wheel d') x = if decide (x = evt) then None else view (impl_wheel (one_timer tt)) x) /\
  (forall evt g ms cnt cb, timers (one_timer tt) !! evt = None -> Z.pos evt < 10 -> 0 < ms < 2 ^ 31 -> 0 + ms < 2 ^ 64 ->
     exists d', set evt g ms cnt cb (one_timer tt) = Ok d' /\
       timers d' = <[evt := mkTMEvent ms g cnt false cb]> (timers (one_timer tt)) /\
       wheel_inv 10 0 (impl_wheel d') /\
       forall x, view (impl_wheel d') x =
         if decide (x = evt) then Some (0 + ms) else view (impl_wheel (one_timer tt)) x).
Proof. apply (set_stop_timers 10 0 (one_timer tt)).
  by apply (start_runnable tt (fun _ _ => True)). Defined.

(** The member [cnts_] is not initialised: a timer set to run five
    times runs five times when its memory happened to hold 0, and once when it
    held 100. *)
Theorem uninitialised_count g :
  g = 0 \/ g = 100 ->
  (d ← set 1 g 10 5 tt (mkTimerImpl (TimerWheel_init 0) ∅);
   st ← run (fun _ e _ => (e, [])) 20 5 (mkState (impl_wheel d) (mkClient (timers d) tt None) []) : res _;
   Ok (map fired_now (log st)))
  = Ok (if g =? 0 then [10; 20; 30; 40; 50] else [10]).
Proof. intros [->| ->]; vm_compute; reflexivity. Qed.

Lemma uninitialised_count_witness :
  (d ← set 1 100 10 5 tt (mkTimerImpl (TimerWheel_init 0) ∅);
   st ← run (fun _ e _ => (e, [])) 20 5 (mkState (impl_wheel d) (mkClient (timers d) tt None) []) : res _;
   Ok (map fired_now (log st))) = Ok [10].
Proof. apply (uninitialised_count 100). by right. Defined.
