(* ===== verification/StdString.v ===== *)
(** * The members of [std::string] the sources call

    Positions are [size_t]: [Z] modulo 2^64, with [npos] = 2^64 - 1.  [substr]
    and [replace] throw [out_of_range] when the position is past the end. *)
From S2P Require Import Prelude CStr.
Open Scope Z_scope.

Definition npos : Z := 2 ^ 64 - 1.
Definition size (s : str) : Z := Z.of_nat (length s).

(** Strings are far shorter than the address space. *)
Definition short (s : str) : Prop := size s < 2 ^ 62.

(** Not more than the rest of the string. *)
Definition substr (s : str) (pos n : Z) : res str :=
  if size s <? pos then Fault Thrown
  else Ok (take (Z.to_nat (Z.min n (size s - pos))) (drop (Z.to_nat pos) s)).

(** The first index at or after [i] where [p] holds of the rest of the string. *)
Fixpoint find_index (p : str -> bool) (i : Z) (s : str) : Z :=
  match s with
  | [] => npos
  | c :: s' => if p s then i else find_index p (i + 1) s'
  end.

Definition in_chars (chars : str) (s : str) : bool :=
  match s with c :: _ => bool_decide (c ∈ chars) | [] => false end.

Definition find_first_of (s chars : str) (pos : Z) : Z :=
  if size s <? pos then npos else find_index (in_chars chars) pos (drop (Z.to_nat pos) s).

(** The last index where a character of [chars] stands. *)
Fixpoint last_index (p : str -> bool) (i : Z) (s : str) (found : Z) : Z :=
  match s with
  | [] => found
  | c :: s' => last_index p (i + 1) s' (if p s then i else found)
  end.
Definition find_last_of (s chars : str) : Z := last_index (in_chars chars) 0 s npos.

Definition is_prefix (p s : str) : bool := bool_decide (take (length p) s = p).

(** [find(old, pos)]: the empty string is found at every position up to the end. *)
Definition find (s old : str) (pos : Z) : Z :=
  if size s <? pos then npos
  else
    let r := drop (Z.to_nat pos) s in
    match find_index (is_prefix old) pos r with
    | i => if (i =? npos) && bool_decide (old = []) then size s else i
    end.

(** [str.replace(pos, n, t)] *)
Definition replace_at (s : str) (pos n : Z) (t : str) : res str :=
  if size s <? pos then Fault Thrown
  else Ok (take (Z.to_nat pos) s ++ t ++ drop (Z.to_nat (pos + n)) s).

(** ** Facts *)
Lemma size_nonneg s : 0 <= size s.
Proof. unfold size. lia. Qed.
Lemma size_app a b : size (a ++ b) = size a + size b.
Proof. unfold size. rewrite length_app. lia. Qed.
Lemma size_cons c s : size (c :: s) = 1 + size s.
Proof. unfold size. simpl length. lia. Qed.
Lemma size_nil : size [] = 0.
Proof. done. Qed.

Lemma drop_size a b : drop (Z.to_nat (size a)) (a ++ b) = b.
Proof. unfold size. rewrite Nat2Z.id. apply drop_app_length. Qed.
Lemma take_size a b : take (Z.to_nat (size a)) (a ++ b) = a.
Proof. unfold size. rewrite Nat2Z.id. apply take_app_length. Qed.

(** A part of the string, and its tail. *)
Lemma substr_mid a b c : substr (a ++ b ++ c) (size a) (size b) = Ok b.
Proof.
  unfold substr. rewrite (proj2 (Z.ltb_ge _ _)) by (rewrite !size_app; pose proof (size_nonneg b); pose proof (size_nonneg c); lia).
  rewrite Z.min_l by (rewrite !size_app; pose proof (size_nonneg c); lia).
  by rewrite drop_size, take_size.
Qed.

Lemma substr_tail a b n : size b <= n -> substr (a ++ b) (size a) n = Ok b.
Proof.
  intros Hn. unfold substr. rewrite (proj2 (Z.ltb_ge _ _)) by (rewrite size_app; pose proof (size_nonneg b); lia).
  rewrite drop_size, take_ge; [done |]. rewrite size_app, Z.min_r by lia. unfold size. lia.
Qed.

Lemma find_index_app p a b i :
  (forall x y, a = x ++ y -> y <> [] -> p (y ++ b) = false) ->
  find_index p i (a ++ b) = find_index p (i + size a) b.
Proof.
  revert i. induction a as [|c a IH]; intros i Ha; simpl; [by rewrite size_nil, Z.add_0_r |].
  pose proof (Ha [] (c :: a) eq_refl ltac:(done)) as E. simpl in E. rewrite E, IH.
  - rewrite size_cons. f_equal. lia.
  - intros x y -> Hy. by apply (Ha (c :: x) y).
Qed.

Lemma in_chars_free chars a b :
  Forall (fun c => c ∉ chars) a ->
  forall x y, a = x ++ y -> y <> [] -> in_chars chars (y ++ b) = false.
Proof.
  intros Hf x y -> Hy. apply Forall_app in Hf as [_ Hf]. destruct y as [|c y]; [done |].
  apply Forall_cons in Hf as [Hc _]. simpl. by apply bool_decide_eq_false.
Qed.

(** [find_first_of] from the end of [a]: skips [b], stops at [c]. *)
Lemma find_first_of_hit chars a b c r :
  Forall (fun x => x ∉ chars) b -> c ∈ chars ->
  find_first_of (a ++ b ++ c :: r) chars (size a) = size a + size b.
Proof.
  intros Hb Hc. unfold find_first_of.
  rewrite (proj2 (Z.ltb_ge _ _)) by (rewrite !size_app; pose proof (size_nonneg b); pose proof (size_nonneg (c :: r)); lia).
  rewrite drop_size, find_index_app by (by apply in_chars_free). simpl.
  by rewrite bool_decide_eq_true_2.
Qed.

Lemma find_first_of_miss chars a b :
  Forall (fun x => x ∉ chars) b -> find_first_of (a ++ b) chars (size a) = npos.
Proof.
  intros Hb. unfold find_first_of.
  rewrite (proj2 (Z.ltb_ge _ _)) by (rewrite size_app; pose proof (size_nonneg b); lia).
  rewrite drop_size. rewrite <- (app_nil_r b), find_index_app by (by apply in_chars_free). done.
Qed.

Lemma find_first_of_end s chars pos : size s < pos -> find_first_of s chars pos = npos.
Proof. intros H. unfold find_first_of. by rewrite (proj2 (Z.ltb_lt _ _)). Qed.

Lemma last_index_app p a b i found :
  last_index p i (a ++ b) found = last_index p (i + size a) b (last_index (fun s => p (s ++ b)) i a found).
Proof.
  revert i found. induction a as [|c a IH]; intros i found; simpl; [by rewrite size_nil, Z.add_0_r |].
  rewrite IH, size_cons. f_equal. lia.
Qed.

Lemma last_index_free chars a i found :
  Forall (fun c => c ∉ chars) a -> last_index (in_chars chars) i a found = found.
Proof.
  intros Hf. revert i. induction Hf as [|c a Hc _ IH]; intros i; simpl; [done |].
  rewrite bool_decide_eq_false_2 by done. apply IH.
Qed.

(** [find_last_of]: [c] is the last of the characters. *)
Lemma find_last_of_hit chars a c r :
  c ∈ chars -> Forall (fun x => x ∉ chars) r -> find_last_of (a ++ c :: r) chars = size a.
Proof.
  intros Hc Hr. unfold find_last_of. rewrite last_index_app. cbn [last_index].
  rewrite last_index_free by done. simpl. by rewrite bool_decide_eq_true_2.
Qed.

Lemma find_last_of_miss chars s : Forall (fun x => x ∉ chars) s -> find_last_of s chars = npos.
Proof. intros H. by apply last_index_free. Qed.

(** The string up to the first character of [chars]. *)
Lemma chars_split (chars s : str) :
  Forall (fun c => c ∉ chars) s \/
  exists a c r, s = a ++ c :: r /\ c ∈ chars /\ Forall (fun x => x ∉ chars) a.
Proof.
  induction s as [|c s IH]; [by left; constructor |].
  destruct (decide (c ∈ chars)) as [Hc|Hc]; [right; exists [], c, s; by repeat constructor |].
  destruct IH as [H|(a & d & r & -> & Hd & Ha)]; [left; by constructor |].
  right. exists (c :: a), d, r. split_and!; [done | done | by constructor].
Qed.

(** [std::getline]: the lines of a file. *)
Fixpoint file_lines (cur s : str) : list str :=
  match s with
  | [] => match cur with [] => [] | _ => [cur] end
  | c :: s' => if decide (c = chr 10) then cur :: file_lines [] s' else file_lines (cur ++ [c]) s'
  end.
