(* ===== verification/Cron.v ===== *)
(** * The task scheduler: [src/src/sample_cron/main.cpp]

    [localtime] is UTC shifted by a fixed number of seconds; how long a command
    runs is an argument. *)
From S2P Require Import Prelude CStr StdString.
Open Scope Z_scope.

Record Task : Type := mkTask { minute : Z; hour : Z; command : str }.

#[export] Instance Task_eq_dec : EqDecision Task.
Proof. solve_decision. Defined.

(** [iss >> n] for an [int]: blanks, a sign, digits; [None] sets [failbit]. *)
Definition read_int (s : str) : option (Z * str) :=
  match scan_int s with
  | Some (n, r) => if (- 2 ^ 31 <=? n) && (n <? 2 ^ 31) then Some (n, r) else None
  | None => None
  end.

Definition readTask (line : str) : option Task :=
  match read_int line with
  | None => None
  | Some (m, r) =>
      match read_int r with
      | None => None
      | Some (h, r) => Some (mkTask m h r)
      end
  end.

(** Lines that do not start with two numbers are skipped; [None]: the file
    cannot be opened. *)
Definition readTasks (file : option str) : list Task :=
  match file with
  | None => []
  | Some s => omap readTask (file_lines [] s)
  end.

Section Loop.
Context (offset : Z) (duration : str -> Z -> Z).

Definition tm_hour (t : Z) : Z := (t + offset) / 3600 mod 24.
Definition tm_min (t : Z) : Z := (t + offset) / 60 mod 60.

(** The condition of the loop over the tasks. *)
Definition due (t : Z) (k : Task) : bool :=
  ((hour k =? tm_hour t) && (minute k =? tm_min t)) ||
  ((minute k =? -1) && (hour k =? tm_hour t)) ||
  ((minute k =? -1) && (hour k =? -1)).

(** The tasks of one turn: [t] was read before it, [now] passes while they run. *)
Fixpoint run_tasks (t now : Z) (tasks : list Task) : list (Z * Task) * Z :=
  match tasks with
  | [] => ([], now)
  | k :: tasks =>
      if due t k then
        let '(l, now) := run_tasks t (now + duration (command k) now) tasks in ((t, k) :: l, now)
      else run_tasks t now tasks
  end.

(** [n] turns of the endless loop from the time [t]: what was executed, with the
    time of the turn, and the time after them. *)
Fixpoint turns (n : nat) (tasks : list Task) (t : Z) : list (Z * Task) * Z :=
  match n with
  | O => ([], t)
  | S n =>
      let '(l, now) := run_tasks t t tasks in
      let '(l', t') := turns n tasks (now + 60) in (l ++ l', t')
  end.
End Loop.

(** ** How often a task runs *)

(** Executions of [k] in a log. *)
Definition executions (k : Task) (l : list (Z * Task)) : nat := length (filter (fun e : Z * Task => e.2 = k) l).
Definition copies (k : Task) (tasks : list Task) : nat := length (filter (fun x => x = k) tasks).

Lemma executions_app k l l' : executions k (l ++ l') = (executions k l + executions k l')%nat.
Proof. unfold executions. by rewrite filter_app, length_app. Qed.

Section Idle.
Context (offset : Z).
Local Abbreviation no_time := (fun _ _ => 0).

Lemma run_tasks_idle t now tasks k :
  (run_tasks offset no_time t now tasks).2 = now /\
  executions k (run_tasks offset no_time t now tasks).1 = (if due offset t k then copies k tasks else 0)%nat.
Proof.
  revert now. induction tasks as [|x tasks IH]; intros now; cbn [run_tasks]; [by destruct (due offset t k) |].
  destruct (IH now) as [IH1 IH2]. destruct (due offset t x) eqn:E.
  - rewrite Z.add_0_r. destruct (run_tasks _ _ t now tasks) as [l n]. cbn [fst snd] in *. split; [done |].
    unfold executions, copies in *. rewrite !filter_cons. cbn [snd]. destruct (decide (x = k)) as [->|Hne].
    + rewrite E in *. cbn [length]. by rewrite IH2.
    + done.
  - split; [done |]. rewrite IH2. unfold copies. rewrite filter_cons. destruct (decide (x = k)) as [->|Hne]; [by rewrite E | done].
Qed.

(** The turns of commands that take no time are a minute apart. *)
Lemma turns_idle n tasks t k :
  executions k (turns offset no_time n tasks t).1 =
  (length (filter (fun i => due offset (t + 60 * i) k = true) (seqZ 0 (Z.of_nat n))) * copies k tasks)%nat.
Proof.
  assert (forall n t d, executions k (turns offset no_time n tasks (t + 60 * d)).1 =
    (length (filter (fun i => due offset (t + 60 * i) k = true) (seqZ d (Z.of_nat n))) * copies k tasks)%nat) as H.
  { clear n t. induction n as [|n IH]; intros t d; cbn [turns]; [done |].
    destruct (run_tasks_idle (t + 60 * d) (t + 60 * d) tasks k) as [H1 H2].
    destruct (run_tasks _ _ _ _ _) as [l now]. cbn [fst snd] in H1, H2. subst now.
    replace (t + 60 * d + 60) with (t + 60 * (d + 1)) by lia. specialize (IH t (d + 1)).
    destruct (turns _ _ n tasks _) as [l' t']. cbn [fst] in *. rewrite executions_app, H2, IH.
    rewrite (seqZ_cons d (Z.of_nat (S n))) by lia.
    replace (Z.succ d) with (d + 1) by lia. replace (Z.pred (Z.of_nat (S n))) with (Z.of_nat n) by lia.
    rewrite filter_cons. destruct (due offset (t + 60 * d) k).
    - rewrite decide_True by done. cbn [length]. lia.
    - rewrite decide_False by done. lia. }
  specialize (H n t 0). by rewrite Z.mul_0_r, Z.add_0_r in H.
Qed.
End Idle.

(** ** The minutes of a day *)
Lemma shift_perm a n : 0 < n -> map (fun i => (a + i) mod n) (seqZ 0 n) ≡ₚ seqZ 0 n.
Proof.
  intros Hn. apply NoDup_Permutation; [| apply NoDup_seqZ |].
  - apply NoDup_fmap_2_strong; [| apply NoDup_seqZ]. intros x y Hx%elem_of_seqZ Hy%elem_of_seqZ E.
    apply (f_equal (fun z => (z - a) mod n)) in E. rewrite !Zminus_mod_idemp_l in E.
    replace (a + x - a) with x in E by lia. replace (a + y - a) with y in E by lia. rewrite !Z.mod_small in E; lia.
  - intros x. rewrite elem_of_seqZ. split.
    + intros (i & -> & _)%list_elem_of_fmap. pose proof (Z.mod_pos_bound (a + i) n Hn). lia.
    + intros Hx. apply list_elem_of_fmap. exists ((x - a) mod n). rewrite elem_of_seqZ.
      pose proof (Z.mod_pos_bound (x - a) n Hn). split; [| lia].
      rewrite Zplus_mod_idemp_r. replace (a + (x - a)) with x by lia. rewrite Z.mod_small; lia.
Qed.

(** The condition at the minute [j] of the day. *)
Definition due_at (k : Task) (j : Z) : bool :=
  ((hour k =? j / 60) && (minute k =? j mod 60)) || ((minute k =? -1) && (hour k =? j / 60)) ||
  ((minute k =? -1) && (hour k =? -1)).

Lemma due_minute offset t i k : due offset (t + 60 * i) k = due_at k (((t + offset) / 60 + i) mod 1440).
Proof.
  unfold due, due_at, tm_hour, tm_min.
  assert (t + 60 * i + offset = t + offset + i * 60) as -> by lia. set (u := t + offset).
  assert ((u + i * 60) / 3600 mod 24 = (u / 60 + i) mod 1440 / 60) as ->.
  { rewrite <- (Z.div_div _ 60 60) by lia. rewrite Z.div_add by lia. zdiv. }
  assert ((u + i * 60) / 60 mod 60 = (u / 60 + i) mod 1440 mod 60) as -> by (rewrite Z.div_add by lia; zdiv).
  done.
Qed.

(** How often a task runs in a day. *)
Definition per_day (k : Task) : nat :=
  if minute k =? -1 then (if hour k =? -1 then 1440 else if (0 <=? hour k) && (hour k <? 24) then 60 else 0)
  else if (0 <=? minute k) && (minute k <? 60) && (0 <=? hour k) && (hour k <? 24) then 1 else 0.

Lemma hour_minutes h : 0 <= h < 24 -> length (filter (fun j => (h =? j / 60) = true) (seqZ 0 1440)) = 60%nat.
Proof.
  intros Hh.
  assert (forallb (fun h => bool_decide (length (filter (fun j => (h =? j / 60) = true) (seqZ 0 1440)) = 60%nat)) (seqZ 0 24) = true) as H
    by (vm_compute; reflexivity).
  rewrite forallb_forall in H. specialize (H h). apply bool_decide_eq_true in H; [done |].
  apply list_elem_of_In, elem_of_seqZ. lia.
Qed.

Lemma due_count k : length (filter (fun j => due_at k j = true) (seqZ 0 1440)) = per_day k.
Proof.
  unfold per_day. destruct (Z.eqb_spec (minute k) (-1)) as [Em|Em].
  - destruct (Z.eqb_spec (hour k) (-1)) as [Eh|Eh].
    + rewrite filter_all; [by rewrite length_seqZ |]. intros j _. unfold due_at. rewrite Em, Eh. apply orb_true_r.
    + rewrite (filter_same _ (fun j => hour k =? j / 60)).
      2: { intros j Hj%elem_of_seqZ. unfold due_at. rewrite Em, (proj2 (Z.eqb_neq (hour k) (-1))) by done.
           change (-1 =? -1) with true. rewrite (proj2 (Z.eqb_neq (-1) (j mod 60))) by zdiv.
           rewrite andb_false_r, orb_false_r. done. }
      destruct (Z.leb_spec 0 (hour k)), (Z.ltb_spec (hour k) 24); cbn [andb]; [by apply hour_minutes | | |];
        (rewrite filter_none; [done | intros j Hj%elem_of_seqZ; rewrite Z.eqb_eq; zdiv]).
  - rewrite (filter_same _ (fun j => (hour k =? j / 60) && (minute k =? j mod 60))).
    2: { intros j _. unfold due_at. rewrite (proj2 (Z.eqb_neq (minute k) (-1))) by done. cbn [andb]. by rewrite !orb_false_r. }
    destruct (Z.leb_spec 0 (minute k)), (Z.ltb_spec (minute k) 60), (Z.leb_spec 0 (hour k)), (Z.ltb_spec (hour k) 24);
      cbn [andb]; try (rewrite filter_none; [done |]; intros j Hj%elem_of_seqZ; rewrite andb_true_iff, !Z.eqb_eq; zdiv).
    rewrite (filter_same _ (fun j => j =? 60 * hour k + minute k)).
    + apply filter_only; [apply NoDup_seqZ | apply elem_of_seqZ; lia].
    + intros j Hj%elem_of_seqZ. apply eq_iff_eq_true. rewrite andb_true_iff, !Z.eqb_eq. zdiv.
Qed.

(** If the commands take no time, every day, that is in any 1440 turns of
    the loop, a task with an hour and a minute runs once, one with minute -1
    every minute of its hour, one with both -1 every minute; a task with a
    minute and hour -1, or with numbers that are not on the clock, never runs. *)
Theorem runs_per_day offset tasks t k :
  executions k (turns offset (fun _ _ => 0) 1440 tasks t).1 = (per_day k * copies k tasks)%nat.
Proof.
  rewrite turns_idle. f_equal. change (Z.of_nat 1440) with 1440.
  rewrite (filter_same _ (fun i => due_at k (((t + offset) / 60 + i) mod 1440))) by (intros i _; apply due_minute).
  rewrite (length_filter_map (fun i => ((t + offset) / 60 + i) mod 1440) (due_at k)).
  rewrite (shift_perm ((t + offset) / 60) 1440) by lia. apply due_count.
Qed.

(** A turn begins a minute after the commands of the one before ended; when they
    take a minute, the tasks of the next minute are not run. *)
Theorem minute_skipped offset duration tasks t :
  let now := (run_tasks offset duration t t tasks).2 in
  60 <= now - t ->
  (now + 60 + offset) / 60 >= (t + offset) / 60 + 2.
Proof. intros now Hn. zdiv. Qed.

(** ** The configuration file *)
Lemma read_int_show n r : - 2 ^ 31 <= n < 2 ^ 31 -> no_digit r -> read_int (show_int n ++ r) = Some (n, r).
Proof.
  intros Hn Hr. unfold read_int, show_int.
  assert (scan_int ((if n <? 0 then "-"%char :: show_nat (- n) else show_nat n) ++ r) = Some (n, r)) as ->.
  { destruct (Z.ltb_spec n 0); [| apply scan_int_show_nat; [lia | done]].
    rewrite <- app_comm_cons. unfold scan_int. cbn [skip_space]. change (is_space "-") with false. cbv iota.
    unfold scan_nat. destruct (show_nat_cons (- n) ltac:(lia)) as (c & s & E & Hc). rewrite E.
    rewrite <- app_comm_cons, Hc, app_comm_cons, <- E, scan_digits_show by (done || lia).
    by rewrite Z.opp_involutive. }
  by rewrite (proj2 (Z.leb_le _ _) (proj1 Hn)), (proj2 (Z.ltb_lt _ _) (proj2 Hn)).
Qed.

Lemma read_int_blank s : read_int (" "%char :: s) = read_int s.
Proof. done. Qed.

(** A task as a line of the file. *)
Definition task_line (k : Task) : str := show_int (minute k) ++ " "%char :: show_int (hour k) ++ command k.

(** A task whose line reads back as itself. *)
Record writable (k : Task) : Prop := {
  minute_int : - 2 ^ 31 <= minute k < 2 ^ 31;
  hour_int : - 2 ^ 31 <= hour k < 2 ^ 31;
  command_apart : no_digit (command k);
  command_line : chr 10 ∉ command k
}.

Lemma readTask_line k : writable k -> readTask (task_line k) = Some k.
Proof.
  intros [Hm Hh Hd _]. unfold readTask, task_line. rewrite read_int_show by done.
  rewrite read_int_blank, read_int_show by done. by destruct k.
Qed.

Lemma show_nat_newline n : 0 <= n -> chr 10 ∉ show_nat n.
Proof.
  intros Hn Hin. pose proof (digits_all_digits 20 n Hn) as H. rewrite Forall_forall in H.
  by specialize (H _ Hin).
Qed.

Lemma task_line_newline k : writable k -> chr 10 ∉ task_line k.
Proof.
  assert (forall n, chr 10 ∉ show_int n) as Hs.
  { intros n. unfold show_int. destruct (Z.ltb_spec n 0); [| by apply show_nat_newline].
    apply not_elem_of_cons. split; [done | apply show_nat_newline; lia]. }
  intros [_ _ _ Hc]. unfold task_line.
  repeat (rewrite not_elem_of_app || rewrite not_elem_of_cons). repeat split; auto; done.
Qed.

Lemma file_lines_line l : forall cur s, chr 10 ∉ l -> file_lines cur (l ++ chr 10 :: s) = (cur ++ l) :: file_lines [] s.
Proof.
  induction l as [|c l IH]; intros cur s Hl; cbn [app file_lines].
  - by rewrite decide_True, app_nil_r.
  - apply not_elem_of_cons in Hl as [Hc Hl]. rewrite decide_False by done. rewrite IH by done.
    by rewrite <- app_assoc.
Qed.

(** The tasks written to the file one line each, between lines that do not
    start with two numbers, are the tasks that are read, in their order. *)
Theorem readTasks_roundtrip (lines : list (str + Task)) :
  Forall (fun l => match l with inl junk => readTask junk = None /\ chr 10 ∉ junk | inr k => writable k end) lines ->
  readTasks (Some (concat (map (fun l => match l with inl junk => junk | inr k => task_line k end ++ [chr 10]) lines))) =
  omap (fun l => match l with inl _ => None | inr k => Some k end) lines.
Proof.
  unfold readTasks. induction lines as [|[junk|k] lines IH]; intros Hf; [done | |];
    apply Forall_cons in Hf as [Hl Hf]; cbn [map concat omap list_omap]; rewrite <- app_assoc; cbn [app].
  - destruct Hl as [Hn Hl]. rewrite file_lines_line by done. cbn [app omap list_omap]. rewrite Hn. by apply IH.
  - rewrite file_lines_line by by apply task_line_newline. cbn [app omap list_omap].
    rewrite readTask_line by done. f_equal. by apply IH.
Qed.

Lemma readTasks_roundtrip_witness :
  readTasks (Some (lit "# every day" ++ [chr 10] ++ lit "30 -1 ls" ++ [chr 10])) = [mkTask 30 (-1) (lit " ls")].
Proof.
  apply (readTasks_roundtrip [inl (lit "# every day"); inr (mkTask 30 (-1) (lit " ls"))]).
  constructor; [split; [reflexivity | by apply (bool_decide_unpack _)] |].
  constructor; [| constructor]. constructor; cbn; [lia | lia | done | by apply (bool_decide_unpack _)].
Defined.
