(* ===== verification/StringAssist.v ===== *)
(** * String helpers: [src/src/include/string_assist.h] and the string part of
    [src/src/include/util.h]

    The functions change their argument in place; here they return it.  Loops
    over positions take fuel. *)
From S2P Require Import Prelude CStr StdString.
Open Scope Z_scope.

(** ** [StringAssist] *)
Module Assist.

(** [replace]: the position moves past the new text. *)
Fixpoint replace_loop (fuel : nat) (s old_val new_val : str) (pos : Z) : res str :=
  match fuel with
  | O => Fault OutOfFuel
  | S f =>
      if pos =? npos then Ok s
      else
        let p := find s old_val pos in
        if negb (p =? npos) then
          s' ← replace_at s p (size old_val) new_val;
          replace_loop f s' old_val new_val (u64 (p + size new_val))
        else Ok s
  end.

Definition replace (fuel : nat) (s old_val new_val : str) : res str :=
  replace_loop fuel s old_val new_val 0.

(** [split], given the index the last search found. *)
Fixpoint split_loop (fuel : nat) (s sepr : str) (last index : Z) (elems : list str) : res (list str) :=
  match fuel with
  | O => Fault OutOfFuel
  | S f =>
      if negb (index =? npos) then
        e ← substr s last (u64 (index - last));
        let elems := elems ++ [e] in
        let last := u64 (index + size sepr) in
        split_loop f s sepr last (find_first_of s sepr last) elems
      else if 0 <? u64 (index - last) then
        e ← substr s last (u64 (index - last));
        Ok (elems ++ [e])
      else Ok elems
  end.

Definition split (s sepr : str) : res (list str) :=
  if size s =? 0 then Ok []
  else split_loop (S (length s)) s sepr 0 (find_first_of s sepr 0) [].

(** [toupper], [tolower] of the "C" locale. *)
Definition toupper (c : ascii) : ascii :=
  if (97 <=? ord c) && (ord c <=? 122) then chr (ord c - 32) else c.
Definition tolower (c : ascii) : ascii :=
  if (65 <=? ord c) && (ord c <=? 90) then chr (ord c + 32) else c.

Definition to_upper (s : str) : str := map toupper s.
Definition to_lower (s : str) : str := map tolower s.

Definition hex_chars : str := lit "0123456789abcdef".
Definition hex_char (n : Z) : ascii := nth (Z.to_nat n) hex_chars "000"%char.
Definition to_hex (s : str) : str :=
  flat_map (fun c => [hex_char (Z.shiftr (ord c) 4); hex_char (Z.land (ord c) 15)]) s.

Definition ltrim (s : str) : str := skip_space s.
Definition rtrim (s : str) : str := rev (skip_space (rev s)).
Definition trim (s : str) : str := ltrim (rtrim s).
End Assist.

(** ** [util] *)
Module Util.

(** [ParseUrl]: [None] is [false]; the flags and parts are left as found when
    [substr] throws, which is caught. *)
Definition ParseUrl (url : str) : option (bool * str * str) :=
  if bool_decide (url = []) then None
  else
    let is_ssl := negb (find url (lit "ssl://") 0 =? npos) in
    let pos := find_last_of url (lit "/") in
    let pos2 := find_last_of url (lit ":") in
    match substr url (u64 (pos + 1)) (u64 (pos2 - pos - 1)) with
    | Fault _ => None
    | Ok host =>
        match substr url (u64 (pos2 + 1)) npos with
        | Fault _ => None
        | Ok port => Some (is_ssl, host, port)
        end
    end.

(** [toUp]: the argument ends at the first NUL. *)
Fixpoint c_str (s : str) : str :=
  match s with
  | c :: s' => if ord c =? 0 then [] else c :: c_str s'
  | [] => []
  end.

Definition toUp (data : str) : str :=
  map (fun c => if (97 <=? ord c) && (ord c <=? 122) then chr (u8 (ord c - (97 - 65))) else c)
      (c_str data).

(** [trim]: the two files agree. *)
Definition trim (s : str) : str := Assist.trim s.

(** [split] *)
Fixpoint split_loop (fuel : nat) (s delim : str) (last index : Z) (ret : list str) : res (list str) :=
  match fuel with
  | O => Fault OutOfFuel
  | S f =>
      if negb (index =? npos) then
        e ← substr s last (u64 (index - last));
        let last := u64 (index + 1) in
        split_loop f s delim last (find_first_of s delim last) (ret ++ [e])
      else if 0 <? u64 (index - last) then
        e ← substr s last (u64 (index - last));
        Ok (ret ++ [e])
      else Ok ret
  end.

Definition split (s delim : str) (ret : list str) : res (list str) :=
  split_loop (S (S (length s))) s delim 0 (find_first_of s delim 0) ret.

(** [get_clean_path]: [it] is an index of [vec]; the predecessor of [begin()]
    is not a valid iterator. *)
Fixpoint clean_loop (fuel : nat) (vec : list str) (it : nat) : res (list str) :=
  match fuel with
  | O => Fault OutOfFuel
  | S f =>
      match vec !! it with
      | None => Ok vec
      | Some x =>
          if decide (x = lit ".") then clean_loop f (delete it vec) it
          else if decide (x = lit "..") then
            match it with
            | O => Fault Undefined
            | S i => clean_loop f (delete i vec) i
            end
          else clean_loop f vec (S it)
      end
  end.

Fixpoint join (sep : str) (l : list str) : str :=
  match l with
  | [] => []
  | [x] => x
  | x :: l' => x ++ sep ++ join sep l'
  end.

Definition get_clean_path (path : str) (clean_path : str) : res str :=
  vec ← split path (lit "/") [];
  vec ← clean_loop (2 * S (length vec)) vec 0;
  Ok (clean_path ++ join (lit "/") vec).

Definition get_full_path (dir path : str) : str :=
  let full_path := dir in
  (if bool_decide (full_path = []) then full_path else full_path ++ lit "/") ++ path.

(** [input_vec], [input_set], [input_map]: [extract] is [operator>>]. *)
Definition blank_out (sep : ascii) (s : str) : str := map (fun c => if decide (c = sep) then " "%char else c) s.

Fixpoint extract_all {T} (fuel : nat) (extract : str -> option (T * str)) (s : str) : list T :=
  match fuel with
  | O => []
  | S f => match extract s with Some (v, r) => v :: extract_all f extract r | None => [] end
  end.

Definition input_vec {T} (extract : str -> option (T * str)) (arg : str) (sep : ascii) : list T :=
  extract_all (S (length arg)) extract (blank_out sep arg).

Definition input_set `{Countable T} (extract : str -> option (T * str)) (arg : str) (sep : ascii) : gset T :=
  list_to_set (input_vec extract arg sep).

Fixpoint pairs_of {KT VT} (fuel : nat) (key : str -> option (KT * str)) (val : str -> option (VT * str)) (s : str)
    : list (KT * VT) :=
  match fuel with
  | O => []
  | S f =>
      match key s with
      | None => []
      | Some (k, r) => match val r with Some (v, r') => (k, v) :: pairs_of f key val r' | None => [] end
      end
  end.

(** [insert] keeps the value a key already has. *)
Definition insert_first `{Countable KT} {VT} (m : gmap KT VT) (kv : KT * VT) : gmap KT VT :=
  match m !! kv.1 with Some _ => m | None => <[kv.1 := kv.2]> m end.

Definition input_map `{Countable KT} {VT} (key : str -> option (KT * str)) (val : str -> option (VT * str))
    (arg : str) (sep_entry sep_kv : ascii) : gmap KT VT :=
  fold_left insert_first
    (pairs_of (S (length arg)) key val (blank_out sep_kv (blank_out sep_entry arg))) ∅.

(** [operator>>] into a [std::string]: a word. *)
Fixpoint word (s : str) : str * str :=
  match s with
  | c :: s' => if is_space c then ([], s) else let '(w, r) := word s' in (c :: w, r)
  | [] => ([], [])
  end.
Definition extract_word (s : str) : option (str * str) :=
  match skip_space s with [] => None | s' => Some (word s') end.
End Util.
