(* ===== verification/StringProps.v ===== *)
(** * What the string helpers compute

    Reference definitions ([parts], [replaced]) and the theorems about
    [split], [replace], [get_clean_path], [ParseUrl] and the case and blank
    conversions of StringAssist. *)
From S2P Require Import Prelude CStr StdString StringAssist.
Open Scope Z_scope.

Lemma u64_size a b : short (a ++ b) -> u64 (size a) = size a.
Proof.
  unfold short. rewrite size_app. intros H. apply u64_small.
  pose proof (size_nonneg a). pose proof (size_nonneg b). lia.
Qed.

(** ** [split] *)

(** The parts of a string between the characters of [delim]. *)
Fixpoint parts (delim s : str) : list str :=
  match s with
  | [] => [[]]
  | c :: s' =>
      if decide (c ∈ delim) then [] :: parts delim s'
      else match parts delim s' with p :: ps => (c :: p) :: ps | [] => [[c]] end
  end.

Lemma parts_cons delim s : exists p ps, parts delim s = p :: ps.
Proof. destruct s as [|c s]; simpl; [eauto |]. case_decide; [eauto |]. case_match; eauto. Qed.

Lemma parts_free delim b : Forall (fun x => x ∉ delim) b -> parts delim b = [b].
Proof.
  induction 1 as [|c b Hc _ IH]; simpl; [done |]. by rewrite decide_False, IH.
Qed.

Lemma parts_hit delim b c r : Forall (fun x => x ∉ delim) b -> c ∈ delim ->
  parts delim (b ++ c :: r) = b :: parts delim r.
Proof.
  intros Hb Hc. induction Hb as [|d b Hd _ IH]; simpl; [by rewrite decide_True |].
  by rewrite decide_False, IH.
Qed.

Lemma parts_join c s : Util.join [c] (parts [c] s) = s.
Proof.
  induction s as [|d s IH]; [done |]. simpl. destruct (parts_cons [c] s) as (p & ps & E). rewrite E in *.
  case_decide as Hd.
  - apply list_elem_of_singleton in Hd as ->. simpl. simpl in IH. by rewrite <- IH.
  - simpl in *. destruct ps; simpl in *; by rewrite IH.
Qed.

Lemma parts_clean delim s : Forall (Forall (fun x => x ∉ delim)) (parts delim s).
Proof.
  induction s as [|c s IH]; simpl; [by repeat constructor |].
  case_decide; [by constructor |]. destruct (parts_cons delim s) as (p & ps & E). rewrite E in *.
  apply Forall_cons in IH as [Hp Hps]. by repeat constructor.
Qed.

(** One round of a split loop, for both versions. *)
Lemma split_round_miss a b delim : short (a ++ b) -> Forall (fun x => x ∉ delim) b ->
  find_first_of (a ++ b) delim (size a) = npos /\
  0 <? u64 (npos - size a) = true /\ substr (a ++ b) (size a) (u64 (npos - size a)) = Ok b.
Proof.
  intros Hs Hb. unfold short in Hs. rewrite size_app in Hs.
  pose proof (size_nonneg a). pose proof (size_nonneg b).
  rewrite u64_small by (unfold npos; lia). split_and!.
  - by apply find_first_of_miss.
  - apply Z.ltb_lt. unfold npos. lia.
  - apply substr_tail. unfold npos. lia.
Qed.

Lemma split_round_hit a b c r delim : short (a ++ b ++ c :: r) ->
  Forall (fun x => x ∉ delim) b -> c ∈ delim ->
  let i := find_first_of (a ++ b ++ c :: r) delim (size a) in
  i = size (a ++ b) /\ (i =? npos) = false /\
  substr (a ++ b ++ c :: r) (size a) (u64 (i - size a)) = Ok b.
Proof.
  intros Hs Hb Hc i. unfold i. rewrite find_first_of_hit by done.
  unfold short in Hs. rewrite !size_app, size_cons in *.
  pose proof (size_nonneg a). pose proof (size_nonneg b). pose proof (size_nonneg r).
  split_and!; [done | apply Z.eqb_neq; unfold npos; lia |].
  rewrite u64_small by lia. replace (size a + size b - size a) with (size b) by lia.
  apply substr_mid.
Qed.

Lemma util_split_loop delim n : forall r a ret fuel,
  (length r <= n)%nat -> (n < fuel)%nat -> short (a ++ r) ->
  Util.split_loop fuel (a ++ r) delim (size a) (find_first_of (a ++ r) delim (size a)) ret
  = Ok (ret ++ parts delim r).
Proof.
  induction n as [|n IH]; intros r a ret [|fuel] Hn Hf Hs; try lia; cbn [Util.split_loop].
  all: destruct (chars_split delim r) as [Hr|(b & c & r' & -> & Hc & Hb)].
  1,3: destruct (split_round_miss a r delim Hs Hr) as (-> & Hlt & ->); simpl;
    rewrite Hlt, parts_free by done; done.
  { rewrite length_app in Hn. simpl in Hn. lia. }
  destruct (split_round_hit a b c r' delim Hs Hb Hc) as (Hi & Hne & Hsub).
  rewrite Hne, Hsub. simpl. rewrite Hi. rewrite parts_hit by done.
  assert (a ++ b ++ c :: r' = (a ++ b ++ [c]) ++ r') as E by (by rewrite <- !app_assoc).
  assert (u64 (size (a ++ b) + 1) = size (a ++ b ++ [c])) as ->.
  { replace (size (a ++ b) + 1) with (size (a ++ b ++ [c])) by (rewrite !size_app, ?size_cons, ?size_nil; lia).
    apply (u64_size _ r'). by rewrite <- E. }
  rewrite E in Hs |- *. rewrite IH; [by rewrite <- app_assoc | | lia | done].
  rewrite !length_app in Hn. simpl in Hn. lia.
Qed.

Lemma util_split_parts s delim ret : short s -> Util.split s delim ret = Ok (ret ++ parts delim s).
Proof. intros Hs. apply (util_split_loop delim (length s) s []); [lia | lia | done]. Qed.

Lemma assist_split_loop c n : forall r a elems fuel,
  (length r <= n)%nat -> (n < fuel)%nat -> short (a ++ r) ->
  Assist.split_loop fuel (a ++ r) [c] (size a) (find_first_of (a ++ r) [c] (size a)) elems
  = Ok (elems ++ parts [c] r).
Proof.
  induction n as [|n IH]; intros r a elems [|fuel] Hn Hf Hs; try lia; cbn [Assist.split_loop].
  all: destruct (chars_split [c] r) as [Hr|(b & d & r' & -> & Hc & Hb)].
  1,3: destruct (split_round_miss a r [c] Hs Hr) as (-> & Hlt & ->); simpl;
    rewrite Hlt, parts_free by done; done.
  { rewrite length_app in Hn. simpl in Hn. lia. }
  destruct (split_round_hit a b d r' [c] Hs Hb Hc) as (Hi & Hne & Hsub).
  rewrite Hne, Hsub. simpl. rewrite Hi. rewrite parts_hit by done.
  assert (a ++ b ++ d :: r' = (a ++ b ++ [d]) ++ r') as E by (by rewrite <- !app_assoc).
  assert (u64 (size (a ++ b) + size [c]) = size (a ++ b ++ [d])) as ->.
  { replace (size (a ++ b) + size [c]) with (size (a ++ b ++ [d])) by (rewrite !size_app, ?size_cons, ?size_nil; lia).
    apply (u64_size _ r'). by rewrite <- E. }
  rewrite E in Hs |- *. rewrite IH; [by rewrite <- app_assoc | | lia | done].
  rewrite !length_app in Hn. simpl in Hn. lia.
Qed.

(** The parts with the separator characters between them. *)
Fixpoint woven (ps : list str) (cs : str) : str :=
  match ps, cs with
  | p :: ps, c :: cs => p ++ c :: woven ps cs
  | p :: _, [] => p
  | [], _ => []
  end.

Lemma parts_woven delim s : exists cs,
  Forall (fun c => c ∈ delim) cs /\ length (parts delim s) = S (length cs) /\ woven (parts delim s) cs = s.
Proof.
  induction s as [|c s (cs & Hc & Hl & Hw)]; [by exists [] |]. cbn [parts]. case_decide as Hd.
  - exists (c :: cs). split_and!; [by constructor | cbn [length]; by rewrite Hl | cbn [woven app]; by rewrite Hw].
  - destruct (parts_cons delim s) as (p & ps & E). rewrite E in *. exists cs. split_and!; [done | done |].
    destruct cs as [|d cs]; cbn [woven app] in *; by rewrite Hw.
Qed.

(** C30: [split] of the utilities cuts a string at the characters of the
    separator, however many those are: no part contains one, and the parts with
    the separator characters between them are the string.  For a separator of one
    character joining the parts gives the string back, and [StringAssist::split]
    finds the same parts, except that it drops the single part of the empty
    string. *)
Theorem split_join s delim ret :
  short s ->
  exists (ps : list str) (cs : str), Util.split s delim ret = Ok (ret ++ ps) /\
    Forall (Forall (fun c => c ∉ delim)) ps /\ Forall (fun c => c ∈ delim) cs /\
    length ps = S (length cs) /\ woven ps cs = s /\
    forall c, delim = [c] ->
      Util.join [c] ps = s /\ Assist.split s [c] = Ok (if bool_decide (s = []) then [] else ps).
Proof.
  intros Hs. destruct (parts_woven delim s) as (cs & Hc & Hl & Hw). exists (parts delim s), cs. split_and!.
  - by apply util_split_parts.
  - apply parts_clean.
  - done.
  - done.
  - done.
  - intros c ->. split; [apply parts_join |]. unfold Assist.split. destruct s as [|d s]; [done |].
    rewrite (proj2 (Z.eqb_neq _ _)) by (rewrite size_cons; pose proof (size_nonneg s); lia).
    apply (assist_split_loop c (length (d :: s)) (d :: s) [] []); [lia | lia | done].
Qed.

Lemma split_join_witness :
  exists (ps : list str) (cs : str), Util.split (lit "node1, ,x,") [","%char] [lit "a"] = Ok ([lit "a"] ++ ps) /\
    length ps = S (length cs) /\ Util.join [","%char] ps = lit "node1, ,x," /\
    Assist.split (lit "node1, ,x,") [","%char] = Ok ps.
Proof.
  destruct (split_join (lit "node1, ,x,") [","%char] [lit "a"]) as (ps & cs & H1 & _ & _ & H4 & _ & H6); [vm_compute; reflexivity |].
  destruct (H6 ","%char eq_refl) as [H7 H8]. exists ps, cs. exact (conj H1 (conj H4 (conj H7 H8))).
Defined.

(** [StringAssist::split] throws [out_of_range] when the separator has more
    than one character and the string ends with one of them: the position is
    advanced by the length of the separator although one character was
    matched. *)
Theorem assist_split_throws a c sepr :
  short (a ++ [c]) -> size sepr < 2 ^ 62 -> 2 <= size sepr -> c ∈ sepr ->
  Forall (fun x => x ∉ sepr) a ->
  Assist.split (a ++ [c]) sepr = Fault Thrown.
Proof.
  intros Hs Hsz Hsep Hc Ha. unfold Assist.split. pose proof (size_nonneg a) as Ha0.
  rewrite (proj2 (Z.eqb_neq _ _)) by (rewrite size_app, size_cons, size_nil; lia).
  destruct (split_round_hit [] a c [] sepr Hs Ha Hc) as (Hi & Hne & Hsub).
  cbn [app] in *. cbn [Assist.split_loop]. rewrite size_nil in *. rewrite Hne, Hsub. simpl.
  rewrite Hi. unfold short in Hs. rewrite size_app, size_cons, size_nil in Hs.
  rewrite u64_small by lia. rewrite find_first_of_end by (rewrite size_app, size_cons, size_nil; lia).
  rewrite length_app, Nat.add_comm. simpl.
  rewrite (proj2 (Z.ltb_lt _ _)) by (rewrite u64_small; unfold npos; lia).
  unfold substr. rewrite (proj2 (Z.ltb_lt _ _)); [done |]. rewrite size_app, size_cons, size_nil. lia.
Qed.

Lemma assist_split_throws_witness : Assist.split (lit "a" ++ [";"%char]) (lit ", ;") = Fault Thrown.
Proof.
  apply (assist_split_throws (lit "a") ";"%char (lit ", ;")); try (vm_compute; congruence).
  - set_solver.
  - apply Forall_singleton. set_solver.
Defined.

(** ** [get_clean_path] *)
Definition dot : str := lit ".".
Definition dotdot : str := lit "..".
Lemma dot_dotdot : dot <> dotdot.
Proof. done. Qed.

Lemma clean_keep rest : forall done fuel,
  Forall (fun x => x <> dotdot) rest -> (length rest < fuel)%nat ->
  Util.clean_loop fuel (done ++ rest) (length done) = Ok (done ++ filter (fun x => x <> dot) rest).
Proof.
  induction rest as [|x rest IH]; intros d [|fuel] Hf Hl; simpl in Hl; try lia; cbn [Util.clean_loop].
  - rewrite app_nil_r, lookup_ge_None_2 by done. rewrite filter_nil, app_nil_r. done.
  - apply Forall_cons in Hf as [Hx Hf]. rewrite list_lookup_middle by done. rewrite filter_cons.
    change (lit ".") with dot. change (lit "..") with dotdot. destruct (decide (x = dot)) as [->|Hd].
    + rewrite decide_False by (intros H; by apply H). rewrite delete_middle. apply IH; [done | lia].
    + rewrite (decide_False (P := x = dotdot)), (decide_True (P := x <> dot)) by done.
      rewrite (cons_middle x d rest), app_assoc.
      replace (S (length d)) with (length (d ++ [x])) by (rewrite length_app; simpl; lia).
      rewrite IH by (done || lia). by rewrite <- app_assoc.
Qed.

(** Once at a [".."], everything before it is erased and then [begin() - 1] is
    used. *)
Lemma clean_up d : forall rest fuel,
  Forall (fun x => x <> dot) d -> (length d < fuel)%nat ->
  Util.clean_loop fuel (d ++ dotdot :: rest) (length d) = Fault Undefined.
Proof.
  induction d as [|x d IH] using rev_ind; intros rest [|fuel] Hf Hl; try (simpl in Hl; lia).
  - done.
  - rewrite length_app in *. simpl in Hl. cbn [Util.clean_loop].
    replace (length d + length [x])%nat with (length (d ++ [x])) by (by rewrite length_app).
    rewrite list_lookup_middle by done. change (lit ".") with dot. change (lit "..") with dotdot.
    rewrite decide_False, decide_True by done. rewrite length_app. simpl length.
    replace (length d + 1)%nat with (S (length d)) by lia. rewrite <- app_assoc. simpl app.
    rewrite delete_middle. apply IH; [by apply Forall_app in Hf as [? _] | lia].
Qed.

Lemma clean_dotdot pre : forall done rest fuel,
  Forall (fun x => x <> dotdot) pre -> Forall (fun x => x <> dot) done ->
  (length pre + length done + length pre < fuel)%nat ->
  Util.clean_loop fuel (done ++ pre ++ dotdot :: rest) (length done) = Fault Undefined.
Proof.
  induction pre as [|x pre IH]; intros d rest [|fuel] Hp Hd Hl; simpl in Hl; try lia.
  - cbn [app]. apply clean_up; [done | lia].
  - apply Forall_cons in Hp as [Hx Hp]. cbn [Util.clean_loop]. simpl app.
    rewrite list_lookup_middle by done. change (lit ".") with dot. change (lit "..") with dotdot.
    destruct (decide (x = dot)) as [->|Hne].
    + rewrite delete_middle. apply IH; [done | done | lia].
    + rewrite decide_False by done.
      replace (d ++ x :: pre ++ dotdot :: rest) with ((d ++ [x]) ++ pre ++ dotdot :: rest)
        by (by rewrite <- app_assoc).
      replace (S (length d)) with (length (d ++ [x])) by (rewrite length_app; simpl; lia).
      apply IH; [done | apply Forall_app; split; [done | by apply Forall_singleton] |].
      rewrite length_app. simpl. lia.
Qed.

(** The first [".."] of a list. *)
Lemma first_dotdot (l : list str) : dotdot ∈ l ->
  exists pre rest, l = pre ++ dotdot :: rest /\ Forall (fun x => x <> dotdot) pre.
Proof.
  induction l as [|x l IH]; intros Hin; [by apply not_elem_of_nil in Hin |].
  destruct (decide (x = dotdot)) as [->|Hx]; [exists [], l; by repeat constructor |].
  apply elem_of_cons in Hin as [?|Hin]; [congruence |].
  destruct (IH Hin) as (pre & rest & -> & Hp). exists (x :: pre), rest. split; [done | by constructor].
Qed.

(** [get_clean_path] drops the ["."] components of a path without [".."];
    with a [".."] component anywhere, and whatever precedes it, it decrements
    [begin()]: the component is never erased. *)
Theorem get_clean_path_spec path clean :
  short path ->
  (dotdot ∉ parts (lit "/") path ->
     Util.get_clean_path path clean
     = Ok (clean ++ Util.join (lit "/") (filter (fun x => x <> dot) (parts (lit "/") path)))) /\
  (dotdot ∈ parts (lit "/") path -> Util.get_clean_path path clean = Fault Undefined).
Proof.
  intros Hs. unfold Util.get_clean_path. rewrite util_split_parts by done. cbn [mbind res_bind app].
  set (l := parts _ path). split; intros Hd.
  - assert (Util.clean_loop (2 * S (length l)) l 0 = Ok (filter (fun x => x <> dot) l)) as ->; [| done].
    apply (clean_keep l []); [| lia]. apply Forall_forall. intros x Hx ->. done.
  - destruct (first_dotdot l Hd) as (pre & rest & -> & Hp).
    set (fuel := (2 * _)%nat).
    assert (Util.clean_loop fuel (pre ++ dotdot :: rest) 0 = Fault Undefined) as ->; [| done].
    apply (clean_dotdot pre []); [done | constructor |].
    unfold fuel. rewrite length_app. simpl. lia.
Qed.

Lemma get_clean_path_spec_witness :
  (dotdot ∉ parts (lit "/") (lit "/home/./x/../log") ->
     Util.get_clean_path (lit "/home/./x/../log") []
     = Ok ([] ++ Util.join (lit "/") (filter (fun x => x <> dot) (parts (lit "/") (lit "/home/./x/../log"))))) /\
  (dotdot ∈ parts (lit "/") (lit "/home/./x/../log") ->
     Util.get_clean_path (lit "/home/./x/../log") [] = Fault Undefined).
Proof. apply (get_clean_path_spec (lit "/home/./x/../log") []). vm_compute. reflexivity. Defined.

(** ** [replace] *)

(** No occurrence of [old] starts inside [u] when [r] follows. *)
Definition no_start (old u r : str) : Prop :=
  forall x y, u = x ++ y -> y <> [] -> is_prefix old (y ++ r) = false.

(** [t] is [s] with the leftmost occurrences of [old] replaced, from left to
    right. *)
Inductive replaced (old new_ : str) : str -> str -> Prop :=
  | replaced_none s : no_start old s [] -> replaced old new_ s s
  | replaced_some u r t :
      no_start old u (old ++ r) -> replaced old new_ r t ->
      replaced old new_ (u ++ old ++ r) (u ++ new_ ++ t).

Lemma is_prefix_spec p s : is_prefix p s = true <-> exists r, s = p ++ r.
Proof.
  unfold is_prefix. rewrite bool_decide_eq_true. split.
  - intros E. exists (drop (length p) s). by rewrite <- E at 1; rewrite take_drop.
  - intros [r ->]. apply take_app_length.
Qed.

Lemma occurrence old r : old <> [] ->
  no_start old r [] \/ exists u r', r = u ++ old ++ r' /\ no_start old u (old ++ r').
Proof.
  intros Ho. induction r as [|c r IH].
  - left. intros x y E Hy. symmetry in E. apply app_eq_nil in E as [_ ->]. done.
  - destruct (is_prefix old (c :: r)) eqn:E.
    + right. apply is_prefix_spec in E as [r' ->]. exists [], r'. split; [done |].
      intros x y E. symmetry in E. apply app_eq_nil in E as [_ ->]. done.
    + assert (forall u w, c :: r = (c :: u) ++ w -> no_start old u w -> no_start old (c :: u) w) as Hext.
      { intros u w Eu Hu x y Exy Hy. destruct x as [|d x]; simpl in Exy.
        - rewrite <- Exy, <- Eu. done.
        - injection Exy as -> ->. by apply (Hu x y). }
      destruct IH as [Hn|(u & r' & -> & Hu)].
      * left. apply Hext; [by rewrite app_nil_r | done].
      * right. exists (c :: u), r'. split; [done |]. by apply Hext.
Qed.

Lemma find_none a r old : old <> [] -> no_start old r [] -> find (a ++ r) old (size a) = npos.
Proof.
  intros Ho Hn. unfold find. pose proof (size_nonneg r).
  rewrite (proj2 (Z.ltb_ge _ _)) by (rewrite size_app; lia). rewrite drop_size.
  assert (find_index (is_prefix old) (size a) r = npos) as ->
    by (rewrite <- (app_nil_r r), find_index_app by done; done).
  simpl. by rewrite bool_decide_eq_false_2.
Qed.

Lemma find_some a u r old : old <> [] -> short (a ++ u ++ old ++ r) -> no_start old u (old ++ r) ->
  find (a ++ u ++ old ++ r) old (size a) = size a + size u.
Proof.
  intros Ho Hs Hn. unfold find, short in *. rewrite !size_app in *.
  pose proof (size_nonneg u). pose proof (size_nonneg a). pose proof (size_nonneg (old ++ r)).
  rewrite size_app in *. rewrite (proj2 (Z.ltb_ge _ _)) by lia. rewrite drop_size.
  rewrite find_index_app by done.
  assert (is_prefix old (old ++ r) = true) as Hp by (apply is_prefix_spec; eauto).
  destruct old as [|c old]; [done |]. simpl app in *. cbn [find_index]. rewrite Hp.
  rewrite (proj2 (Z.eqb_neq _ _)) by (unfold npos; lia). done.
Qed.

Lemma replaced_total old new_ s : old <> [] -> exists t, replaced old new_ s t.
Proof.
  intros Ho. assert (forall n s, (length s <= n)%nat -> exists t, replaced old new_ s t) as H; [| by eapply H].
  clear s. induction n as [|n IH]; intros s Hs; destruct (occurrence old s Ho) as [Hn|(u & r & -> & Hu)].
  1,3: by exists s; apply replaced_none.
  - rewrite !length_app in Hs. destruct old; [done | simpl in Hs; lia].
  - destruct (IH r) as [t Ht]; [rewrite !length_app in Hs; destruct old; [done | simpl in Hs; lia] |].
    exists (u ++ new_ ++ t). by apply replaced_some.
Qed.

Lemma replaced_size old new_ s t : old <> [] -> replaced old new_ s t -> size t <= size s * (1 + size new_).
Proof.
  intros Ho. induction 1 as [s|u r t _ _ IH].
  - pose proof (size_nonneg s). pose proof (size_nonneg new_). nia.
  - rewrite !size_app. pose proof (size_nonneg u). pose proof (size_nonneg r). pose proof (size_nonneg new_).
    assert (1 <= size old) by (destruct old; [done | rewrite size_cons; pose proof (size_nonneg old); lia]). nia.
Qed.

Lemma replace_at_mid a b c t : replace_at (a ++ b ++ c) (size a) (size b) t = Ok (a ++ t ++ c).
Proof.
  unfold replace_at. pose proof (size_nonneg b). pose proof (size_nonneg c).
  rewrite (proj2 (Z.ltb_ge _ _)) by (rewrite !size_app; lia).
  rewrite take_size, <- size_app, (app_assoc a b c), drop_size. done.
Qed.

(** The loop has rewritten [a]; [r] remains, and becomes [t]. *)
Lemma replace_loop_spec old new_ r t : old <> [] -> replaced old new_ r t ->
  forall a fuel, (length r < fuel)%nat -> short (a ++ r) -> size a + size r * (1 + size new_) < 2 ^ 62 ->
  Assist.replace_loop fuel (a ++ r) old new_ (size a) = Ok (a ++ t).
Proof.
  intros Ho. induction 1 as [r Hn|u r t Hu Hr IH]; intros a [|fuel] Hf Hs Hb; try lia;
    cbn [Assist.replace_loop]; pose proof (size_nonneg a) as Ha; pose proof (size_nonneg new_) as Hnw.
  - rewrite (proj2 (Z.eqb_neq _ _)) by (unfold npos, short in *; rewrite size_app in Hs; pose proof (size_nonneg r); lia).
    by rewrite find_none.
  - rewrite !size_app in Hb. unfold short in Hs. rewrite !size_app in Hs.
    pose proof (size_nonneg u). pose proof (size_nonneg r).
    assert (1 <= size old) by (destruct old; [done | rewrite size_cons; pose proof (size_nonneg old); lia]).
    rewrite (proj2 (Z.eqb_neq _ _)) by (unfold npos; lia).
    rewrite find_some by (done || (unfold short; rewrite !size_app; lia)).
    rewrite (proj2 (Z.eqb_neq _ _)) by (unfold npos; lia). simpl.
    rewrite <- size_app, (app_assoc a u (old ++ r)), replace_at_mid. cbn [mbind res_bind].
    rewrite u64_small by (rewrite size_app; nia). rewrite <- size_app.
    replace ((a ++ u) ++ new_ ++ r) with (((a ++ u) ++ new_) ++ r) by (by rewrite <- !app_assoc).
    replace (a ++ u ++ new_ ++ t) with (((a ++ u) ++ new_) ++ t) by (by rewrite <- !app_assoc).
    apply IH.
    + rewrite !length_app in Hf. destruct old; [done | simpl in Hf; lia].
    + unfold short. rewrite !size_app. nia.
    + rewrite !size_app. nia.
Qed.

(** [StringAssist::replace] replaces the leftmost occurrences of a
    non-empty pattern one after the other, without rescanning what it inserted,
    and returns; with an empty pattern and an empty replacement it never
    returns. *)
Theorem replace_spec s old new_ :
  (old <> [] -> size s * (1 + size new_) < 2 ^ 62 ->
   exists t, replaced old new_ s t /\
     forall fuel, (length s < fuel)%nat -> Assist.replace fuel s old new_ = Ok t) /\
  (short s -> forall fuel, Assist.replace fuel s [] [] = Fault OutOfFuel).
Proof.
  split.
  - intros Ho Hb. destruct (replaced_total old new_ s Ho) as [t Ht]. exists t. split; [done |].
    intros fuel Hf. apply (replace_loop_spec old new_ s t Ho Ht [] fuel Hf); [| done].
    unfold short. simpl. pose proof (size_nonneg s). pose proof (size_nonneg new_). nia.
  - intros Hs fuel. unfold Assist.replace. induction fuel as [|f IH]; [done |].
    pose proof (size_nonneg s).
    assert (find s [] 0 = 0) as Hfind.
    { unfold find. rewrite (proj2 (Z.ltb_ge _ _)) by lia. by destruct s as [|c s]. }
    cbn [Assist.replace_loop]. rewrite Hfind. change (0 =? npos) with false. cbn [negb].
    unfold replace_at. rewrite (proj2 (Z.ltb_ge _ _)) by lia. simpl. rewrite drop_0. apply IH.
Qed.

Lemma replace_spec_witness :
  exists t, replaced (lit "aa") (lit "b") (lit "aaaab") t /\
    forall fuel, (5 < fuel)%nat -> Assist.replace fuel (lit "aaaab") (lit "aa") (lit "b") = Ok t.
Proof. apply (replace_spec (lit "aaaab") (lit "aa") (lit "b")); [done | vm_compute; reflexivity]. Defined.

(** ** [ParseUrl] *)
Definition slash : ascii := "/"%char.
Definition colon : ascii := ":"%char.
Definition plain (s : str) : Prop := Forall (fun c => c <> slash /\ c <> colon) s.

Lemma plain_free c s : plain s -> c = slash \/ c = colon -> Forall (fun x => x ∉ [c]) s.
Proof.
  intros Hp Hc. eapply Forall_impl; [exact Hp |]. intros x [H1 H2] ->%list_elem_of_singleton.
  by destruct Hc.
Qed.

Definition ssl_mark : str := lit "ssl://".

Lemma find_absent s : Forall (fun c => c <> slash) s -> forall i, find_index (is_prefix ssl_mark) i s = npos.
Proof.
  induction 1 as [|c s Hc Hs IH]; intros i; [done |]. cbn [find_index].
  destruct (is_prefix ssl_mark (c :: s)) eqn:E; [exfalso | apply IH].
  apply is_prefix_spec in E as [r E]. assert (Forall (fun c => c <> slash) (ssl_mark ++ r)) as Hf
    by (rewrite <- E; by constructor).
  apply Forall_app in Hf as [Hf _]. unfold ssl_mark, slash in Hf. simpl in Hf.
  rewrite Forall_forall in Hf. apply (Hf "/"%char); [set_solver | done].
Qed.

Lemma ParseUrl_after scheme host port :
  short (scheme ++ host ++ colon :: port) -> plain host -> plain port ->
  (scheme = [] \/ exists p, scheme = p ++ [slash]) ->
  Util.ParseUrl (scheme ++ host ++ colon :: port) =
  Some (negb (find (scheme ++ host ++ colon :: port) ssl_mark 0 =? npos), host, port).
Proof.
  intros Hs Hh Hp Hsch. unfold Util.ParseUrl, short in *. rewrite !size_app, size_cons in Hs.
  pose proof (size_nonneg scheme). pose proof (size_nonneg host). pose proof (size_nonneg port).
  rewrite bool_decide_eq_false_2 by (intros E; apply (f_equal length) in E; rewrite !length_app in E; simpl in E; lia).
  fold ssl_mark. change (lit "/") with [slash]. change (lit ":") with [colon].
  assert (find_last_of (scheme ++ host ++ colon :: port) [colon] = size (scheme ++ host)) as ->.
  { rewrite app_assoc. apply find_last_of_hit; [set_solver | apply plain_free; auto]. }
  assert (u64 (find_last_of (scheme ++ host ++ colon :: port) [slash] + 1) = size scheme /\
    u64 (size (scheme ++ host) - find_last_of (scheme ++ host ++ colon :: port) [slash] - 1) = size host) as [-> Hlen].
  { assert (Forall (fun x => x ∉ [slash]) (host ++ colon :: port)) as Hfree.
    { apply Forall_app. split; [apply plain_free; auto |]. constructor; [by intros ?%list_elem_of_singleton |].
      apply plain_free; auto. }
    destruct Hsch as [->|[p ->]].
    - simpl. rewrite find_last_of_miss by done. rewrite size_nil. split; [reflexivity |].
      unfold u64, wrap, npos. replace (size host - (2 ^ 64 - 1) - 1) with (size host + -1 * 2 ^ 64) by lia.
      rewrite Z_mod_plus_full. apply Z.mod_small. lia.
    - rewrite <- app_assoc. simpl. rewrite find_last_of_hit by (set_solver || done).
      rewrite !size_app, ?size_cons, ?size_nil in *. pose proof (size_nonneg p). split; rewrite u64_small; lia. }
  rewrite Hlen, substr_mid.
  rewrite (app_assoc scheme host (colon :: port)).
  replace ((scheme ++ host) ++ colon :: port) with (((scheme ++ host) ++ [colon]) ++ port) by (by rewrite <- app_assoc).
  rewrite u64_small by (rewrite size_app; lia).
  replace (size (scheme ++ host) + 1) with (size ((scheme ++ host) ++ [colon])) by (rewrite (size_app _ [colon]); done).
  by rewrite substr_tail by (unfold npos; lia).
Qed.

(** [ParseUrl] splits [ssl://host:port], [tcp://host:port] and [host:port]
    into their parts, and only the first sets the ssl flag. *)
Theorem ParseUrl_parts scheme host port :
  short (scheme ++ host ++ lit ":" ++ port) -> plain host -> plain port ->
  scheme = lit "ssl://" \/ scheme = lit "tcp://" \/ scheme = [] ->
  Util.ParseUrl (scheme ++ host ++ lit ":" ++ port)
  = Some (bool_decide (scheme = lit "ssl://"), host, port).
Proof.
  intros Hs Hh Hp Hsch. change (lit ":" ++ port) with (colon :: port) in *.
  rewrite ParseUrl_after; [| done.. |].
  2: { destruct Hsch as [->|[->| ->]]; [right; by exists (lit "ssl:/") | right; by exists (lit "tcp:/") | by left]. }
  assert (Forall (fun c => c <> slash) (host ++ colon :: port)) as Hfree.
  { apply Forall_app. split; [| constructor; [done |]]; (eapply Forall_impl; [eassumption |]); naive_solver. }
  do 3 f_equal. unfold find. rewrite (proj2 (Z.ltb_ge _ _)) by apply size_nonneg.
  change (drop (Z.to_nat 0)) with (@drop ascii 0). rewrite drop_0.
  destruct Hsch as [->|[->| ->]]; [done | |]; cbn -[find_index lit bool_decide].
  - change (lit "tcp://" ++ host ++ colon :: port) with ("t"%char :: "c"%char :: "p"%char :: ":"%char :: "/"%char :: "/"%char :: host ++ colon :: port).
    do 6 (cbn [find_index]; change (is_prefix ssl_mark (_ :: _)) with false). by rewrite find_absent.
  - by rewrite find_absent.
Qed.

Lemma ParseUrl_parts_witness :
  Util.ParseUrl (lit "ssl://" ++ lit "172.24.13.81" ++ lit ":" ++ lit "9001")
  = Some (bool_decide (lit "ssl://" = lit "ssl://"), lit "172.24.13.81", lit "9001").
Proof.
  apply (ParseUrl_parts (lit "ssl://") (lit "172.24.13.81") (lit "9001")).
  - vm_compute. reflexivity.
  - repeat constructor; discriminate.
  - repeat constructor; discriminate.
  - by left.
Defined.

(** ** Blanks and case *)
Lemma skip_space_split s : exists l, s = l ++ skip_space s /\ Forall (fun c => is_space c = true) l.
Proof.
  induction s as [|c s (l & E & Hl)]; simpl; [by exists [] |].
  destruct (is_space c) eqn:Ec; [| by exists []]. exists (c :: l). split; [by rewrite E at 1 | by constructor].
Qed.

Lemma skip_space_head s : match skip_space s with c :: _ => is_space c = false | [] => True end.
Proof. induction s as [|c s IH]; simpl; [done |]. by destruct (is_space c) eqn:E. Qed.

(** [trim] removes the blanks at both ends and nothing else: what it leaves
    neither starts nor ends with one. *)
Theorem trim_spec s :
  exists l r, s = l ++ Assist.trim s ++ r /\
    Forall (fun c => is_space c = true) l /\ Forall (fun c => is_space c = true) r /\
    (forall c, head (Assist.trim s) = Some c \/ last (Assist.trim s) = Some c -> is_space c = false) /\
    Util.trim s = Assist.trim s.
Proof.
  unfold Assist.trim, Assist.ltrim, Assist.rtrim.
  destruct (skip_space_split (rev s)) as (r & Er & Hr). set (m := skip_space (rev s)) in *.
  destruct (skip_space_split (rev m)) as (l & El & Hl). set (t := skip_space (rev m)) in *.
  exists l, (rev r). split_and!; try done.
  - rewrite app_assoc, <- El, <- rev_app_distr, <- Er. by rewrite rev_involutive.
  - apply Forall_forall. intros c Hc. rewrite Forall_forall in Hr. apply Hr.
    apply list_elem_of_In in Hc. apply list_elem_of_In. by apply in_rev.
  - intros c Hc. pose proof (skip_space_head (rev m)) as Hh. fold t in Hh.
    pose proof (skip_space_head (rev s)) as Hm. fold m in Hm.
    destruct Hc as [Hc|Hc]; [by destruct t; [done |]; injection Hc as -> |].
    apply last_Some in Hc as [t' Et]. rewrite Et in El.
    assert (m = c :: rev (l ++ t')) as Em.
    { rewrite <- (rev_involutive m), El, app_assoc, rev_app_distr. done. }
    by rewrite Em in Hm.
Qed.

Lemma toUp_to_upper s : Forall (fun c => ord c <> 0) s -> Util.toUp s = Assist.to_upper s.
Proof.
  intros Hs. unfold Util.toUp, Assist.to_upper.
  assert (Util.c_str s = s) as ->.
  { induction Hs as [|c s Hc _ IH]; simpl; [done |]. by rewrite (proj2 (Z.eqb_neq _ _)), IH. }
  apply map_ext. intros c. unfold Assist.toupper. destruct (_ && _) eqn:E; [| done].
  f_equal. rewrite u8_small; lia.
Qed.

(** The two hexadecimal digits of a byte. *)
Definition hex_val (c : ascii) : Z := if is_digit c then ord c - 48 else ord c - 87.

Lemma to_hex_byte c :
  hex_val (Assist.hex_char (Z.shiftr (ord c) 4)) * 16 + hex_val (Assist.hex_char (Z.land (ord c) 15)) = ord c.
Proof. destruct c as [[] [] [] [] [] [] [] []]; reflexivity. Qed.

Lemma to_hex_length s : length (Assist.to_hex s) = (2 * length s)%nat.
Proof. induction s as [|c s IH]; simpl in *; [done | lia]. Qed.
