(* ===== verification/SysUtil.v ===== *)
(** * System helpers: the rest of [src/src/include/util.h]

    The operating system is an argument: the output of a shell command
    ([popen]), the file system's [access] and [mkdir], the entries [readdir]
    returns, the addresses of a socket. *)
From S2P Require Import Prelude CStr StdString StringAssist.
Open Scope Z_scope.

(** ** [system] and etcdctl *)

(** One [fgets(buf, 1024, fp)]: up to 1023 characters or a newline. *)
Fixpoint fgets (n : nat) (s : str) : str * str :=
  match n, s with
  | S n', c :: s' => if decide (ord c = 10) then ([c], s') else let '(l, r) := fgets n' s' in (c :: l, r)
  | _, _ => ([], s)
  end.

Definition BUF_SIZE : nat := 1024.

(** The lines read, each without its last character. *)
Fixpoint read_lines (fuel : nat) (out : str) : list str :=
  match fuel with
  | O => []
  | S f =>
      match out with
      | [] => []
      | _ => let '(data, r) := fgets (BUF_SIZE - 1) out in take (length data - 1) data :: read_lines f r
      end
  end.

(** [popen cmd] is the output of the command, or [None] when it fails. *)
Definition system (popen : str -> option str) (cmd : str) (result : list str) : Z * list str :=
  match popen (cmd ++ lit " 2>&1") with
  | None => (-1, result)
  | Some out => (0, result ++ read_lines (S (length out)) out)
  end.

(** The part of [get_master_host_from_etcd] that reads one value. *)
Definition host_of_value (v : str) : option (str * str) :=
  let pos := find_last_of v (lit "/") in
  let tmp := if pos =? npos then v else drop (Z.to_nat (pos + 1)) v in
  let pos := find tmp (lit ":") 0 in
  if pos =? npos then None
  else Some (take (Z.to_nat pos) tmp, drop (Z.to_nat (pos + 1)) tmp).

(** The values: every second line. *)
Fixpoint odd_lines (l : list str) : list str :=
  match l with
  | _ :: v :: l' => v :: odd_lines l'
  | _ => []
  end.

Definition get_master_host_from_etcd (popen : str -> option str) (endpoints key : str)
    (host : list (str * str)) : bool * list (str * str) :=
  let cmd := lit "etcdctl --endpoints=" ++ endpoints ++ lit " get --prefix " ++ key in
  let '(ret, result) := system popen cmd [] in
  if negb (ret =? 0) then (false, host)
  else if (length result <? 2)%nat then (false, host)
  else (true, host ++ omap host_of_value (odd_lines result)).

Definition set_key_to_etcd (popen : str -> option str) (endpoints key val : str) : bool :=
  let cmd := lit "etcdctl --endpoints=" ++ endpoints ++ lit " put " ++ key ++ lit " " ++ val in
  let '(ret, result) := system popen cmd [] in
  if negb (ret =? 0) then false
  else match result with l :: _ => bool_decide (l = lit "OK") | [] => false end.

(** The loop of [get_full_endpoints_etcd]; [inl] is the early [return false],
    with the endpoints collected so far. *)
Fixpoint collect_endpoints (lines : list str) (full : str) : res (str + str) :=
  match lines with
  | [] => Ok (inr full)
  | line :: rest =>
      tmp ← Util.split line (lit ",") [];
      if negb (length tmp =? 6)%nat then Ok (inl full)
      else
        let full := if size full =? 0 then full else full ++ lit "," in
        collect_endpoints rest (full ++ Util.trim (nth 4 tmp []))
  end.

Definition get_full_endpoints_etcd (popen : str -> option str) (endpoints full_endpoints : str) : res (bool * str) :=
  let cmd := lit "etcdctl --endpoints=" ++ endpoints ++ lit " member list" in
  let '(ret, result) := system popen cmd [] in
  if negb (ret =? 0) then Ok (false, full_endpoints)
  else
    r ← collect_endpoints result full_endpoints;
    match r with
    | inl full => Ok (false, full)
    | inr full => Ok (negb (size full =? 0), full)
    end.

(** ** Directories *)
Section Dirs.
(** The file system, with [access(path, 0)] and [mkdir(path, 0755)]. *)
Context {FS : Type} (access : FS -> str -> bool) (mkdir : FS -> str -> FS * bool).

Definition is_sep (c : option ascii) : bool :=
  match c with Some c => bool_decide (c = "/"%char) || bool_decide (c = "\"%char) | None => true end.

(** [mkdir_p]: [tmp] holds the prefix copied so far. *)
Fixpoint mkdir_p_loop (tmp rest : str) (fs : FS) : FS :=
  match rest with
  | [] => fs
  | c :: rest' =>
      let tmp := tmp ++ [c] in
      let fs := if is_sep (head rest') && negb (access fs tmp) then (mkdir fs tmp).1 else fs in
      mkdir_p_loop tmp rest' fs
  end.

Definition mkdir_p (path : str) (fs : FS) : FS := mkdir_p_loop [] path fs.

(** The loop of [CreateDir] over [dir_path], which ends in a separator. *)
Fixpoint create_loop (done rest : str) (fs : FS) : FS * Z :=
  match rest with
  | [] => (fs, 0)
  | c :: rest' =>
      if bool_decide (c = "/"%char) && negb (bool_decide (done = [])) then
        if negb (access fs done) then
          match mkdir fs done with
          | (fs, true) => create_loop (done ++ [c]) rest' fs
          | (fs, false) => (fs, -1)
          end
        else create_loop (done ++ [c]) rest' fs
      else create_loop (done ++ [c]) rest' fs
  end.

(** [CreateDir]: [dir_path] has 100 characters; [pszDir[iLen - 1]] of an empty
    string is before its first character. *)
Definition CreateDir (pszDir : str) (fs : FS) : res (FS * Z) :=
  let iLen := length pszDir in
  match last pszDir with
  | None => Fault Undefined
  | Some c =>
      if decide (c = "/"%char)
      then if (iLen <? 100)%nat then Ok (create_loop [] pszDir fs) else Fault Undefined
      else if (iLen + 1 <? 100)%nat then Ok (create_loop [] (pszDir ++ lit "/") fs) else Fault Undefined
  end.

(** [get_files]: the names of type [4] (directories) or [8] (files), sorted. *)
Definition is_dot_name (name : str) : bool :=
  bool_decide (name = lit ".") || bool_decide (name = lit "..").

Definition wanted (getDir : bool) (e : str * Z) : bool :=
  negb (is_dot_name e.1) && (((e.2 =? 8) && negb getDir) || ((e.2 =? 4) && getDir)).
End Dirs.

(** [std::string]'s order. *)
Fixpoint str_leb (a b : str) : bool :=
  match a, b with
  | [], _ => true
  | _, [] => false
  | c :: a', d :: b' => if ord c <? ord d then true else if ord d <? ord c then false else str_leb a' b'
  end.
Definition str_le (a b : str) : Prop := str_leb a b = true.

#[export] Instance str_le_dec : RelDecision str_le.
Proof. intros a b. unfold str_le. apply _. Defined.

Definition get_files (entries : option (list (str * Z))) (getDir : bool) : list str :=
  match entries with
  | None => []
  | Some es => merge_sort str_le (map fst (filter (fun e => wanted getDir e = true) es))
  end.

(** ** TCP connection identifiers *)

(** [get_tcp_id], from the peer's address and port and the local port, in
    network byte order; [sin_port << 16] is an [int]. *)
Definition get_tcp_id (peer_addr peer_port local_port : Z) : Z :=
  let tcp_id := u64 (Z.shiftl peer_addr 32) in
  let tcp_id := u64 (tcp_id + i32 (Z.shiftl peer_port 16)) in
  u64 (tcp_id + local_port).

(** [inet_ntop]: the bytes of [s_addr] in memory order. *)
Definition inet_ntop (s_addr : Z) : str :=
  Util.join (lit ".") (map (fun i => show_nat (Z.land (Z.shiftr s_addr (8 * i)) 255)) [0; 1; 2; 3]).

Definition get_tcp_name (tcp_id : Z) : str :=
  let s_addr := u32 (Z.shiftr tcp_id 32) in
  let peer_port := i32 (Z.shiftr (u64 (Z.shiftl tcp_id 32)) 48) in
  let sock_port := i32 (Z.shiftr (u64 (Z.shiftl tcp_id 48)) 48) in
  inet_ntop s_addr ++ lit ":" ++ show_int peer_port ++ lit "-" ++ show_int sock_port.

(** ** Scheduling

    The calls made into the kernel; [priority_max] is [sched_get_priority_max]. *)
Definition SCHED_FIFO : Z := 1.
Definition SCHED_RR : Z := 2.
Inductive sched_call : Type :=
  | sched_setscheduler (pid policy priority : Z)
  | pthread_setschedparam (policy priority : Z).

Definition set_rt_process (priority_max : Z -> Z) (pid : Z) : list sched_call :=
  [sched_setscheduler pid SCHED_RR (priority_max SCHED_FIFO)].
Definition set_rt_thread (priority_max : Z -> Z) (pid : Z) : list sched_call :=
  set_rt_process priority_max pid ++ [pthread_setschedparam SCHED_RR (priority_max SCHED_FIFO)].

(** [CPU_SET] of a number without a bit in the mask does nothing. *)
Definition cpu_mask (cpud_id : Z) : gset Z := if (0 <=? cpud_id) && (cpud_id <? 1024) then {[ cpud_id ]} else ∅.

(** [setaffinity]: [pthread_setaffinity_np] on the thread itself. *)
Definition bind_current_thread (setaffinity : gset Z -> Z) (cpud_id : Z) : bool :=
  if setaffinity (cpu_mask cpud_id) <? 0 then false else true.

(** ** Facts *)
Lemma str_leb_total a b : str_leb a b = true \/ str_leb b a = true.
Proof.
  revert b. induction a as [|c a IH]; intros [|d b]; simpl; auto.
  destruct (Z.ltb_spec (ord c) (ord d)), (Z.ltb_spec (ord d) (ord c)); auto.
Qed.

Lemma str_leb_trans a b c : str_leb a b = true -> str_leb b c = true -> str_leb a c = true.
Proof.
  revert b c. induction a as [|x a IH]; intros [|y b] [|z c]; simpl; try done.
  destruct (Z.ltb_spec (ord x) (ord y)), (Z.ltb_spec (ord y) (ord x)), (Z.ltb_spec (ord y) (ord z)),
    (Z.ltb_spec (ord z) (ord y)), (Z.ltb_spec (ord x) (ord z)), (Z.ltb_spec (ord z) (ord x));
    try done; try lia. eauto.
Qed.

#[export] Instance str_le_total : Total str_le.
Proof. intros a b. apply str_leb_total. Qed.
#[export] Instance str_le_trans : Transitive str_le.
Proof. intros a b c. apply str_leb_trans. Qed.

Lemma get_files_sorted es getDir :
  StronglySorted str_le (get_files (Some es) getDir) /\
  get_files (Some es) getDir ≡ₚ map fst (filter (fun e => wanted getDir e = true) es).
Proof. split; [apply StronglySorted_merge_sort; apply _ | apply merge_sort_Permutation]. Qed.

(** What a connection is printed as. *)
Definition tcp_name (addr peer_port local_port : Z) : str :=
  inet_ntop addr ++ lit ":" ++ show_int peer_port ++ lit "-" ++ show_int local_port.

Lemma get_tcp_name_fields a p l :
  in_u 32 a -> in_u 16 p -> in_u 16 l ->
  get_tcp_name (a * 2 ^ 32 + p * 2 ^ 16 + l) = tcp_name a p l.
Proof.
  unfold in_u. intros Ha Hp Hl. unfold get_tcp_name, tcp_name.
  rewrite !Z.shiftl_mul_pow2, !Z.shiftr_div_pow2 by lia. unfold u32, u64, wrap.
  replace (((a * 2 ^ 32 + p * 2 ^ 16 + l) / 2 ^ 32) mod 2 ^ 32) with a by zdiv.
  replace (((a * 2 ^ 32 + p * 2 ^ 16 + l) * 2 ^ 32) mod 2 ^ 64 / 2 ^ 48) with p by zdiv.
  replace (((a * 2 ^ 32 + p * 2 ^ 16 + l) * 2 ^ 48) mod 2 ^ 64 / 2 ^ 48) with l by zdiv.
  by rewrite !i32_small by lia.
Qed.

Lemma get_tcp_id_value a p l :
  in_u 32 a -> in_u 16 p -> in_u 16 l ->
  get_tcp_id a p l = if p <? 2 ^ 15 then a * 2 ^ 32 + p * 2 ^ 16 + l
                     else ((a - 1) mod 2 ^ 32) * 2 ^ 32 + p * 2 ^ 16 + l.
Proof.
  unfold in_u. intros Ha Hp Hl. unfold get_tcp_id. rewrite !Z.shiftl_mul_pow2 by lia.
  unfold i32, swrap, u64, wrap. case_bool; zdiv.
Qed.

(** The name [get_tcp_name] derives from the identifier of [get_tcp_id] has
    the peer's address, its port and the local port, as long as the peer's port
    (in network byte order) is below 0x8000; from 0x8000 on, the sign of
    [sin_port << 16] is carried into the address, and the name shows the address
    minus one. *)
Theorem tcp_name_of_id a p l :
  in_u 32 a -> in_u 16 p -> in_u 16 l ->
  get_tcp_name (get_tcp_id a p l)
  = tcp_name (if p <? 2 ^ 15 then a else (a - 1) mod 2 ^ 32) p l.
Proof.
  intros Ha Hp Hl. rewrite get_tcp_id_value by done.
  case_match; apply get_tcp_name_fields; try done. unfold in_u. zdiv.
Qed.

Lemma tcp_name_of_id_witness :
  get_tcp_name (get_tcp_id 16777343 36895 8080) = tcp_name (if 36895 <? 2 ^ 15 then 16777343 else 16777342 mod 2 ^ 32) 36895 8080.
Proof. apply (tcp_name_of_id 16777343 36895 8080); unfold in_u; lia. Defined.

Example tcp_name_wrong_address :
  get_tcp_name (get_tcp_id 16777343 36895 8080) = lit "126.0.0.1:36895-8080".
Proof. vm_compute. reflexivity. Qed.

(** Every directory [mkdir_p] creates is a prefix of the path that ends before
    a separator. *)
Lemma mkdir_p_prefixes {FS} (access : FS -> str -> bool) (mkdir : FS -> str -> FS * bool) (P : FS -> Prop) path fs :
  P fs ->
  (forall f p q, path = p ++ q -> p <> [] -> is_sep (head q) = true -> access f p = false ->
     P f -> P (mkdir f p).1) ->
  P (mkdir_p access mkdir path fs).
Proof.
  intros Hfs Hm. unfold mkdir_p.
  assert (forall rest tmp f, path = tmp ++ rest -> P f -> P (mkdir_p_loop access mkdir tmp rest f)) as H;
    [| by apply H].
  induction rest as [|c rest IH]; intros tmp f E Hf; simpl; [done |].
  apply IH; [by rewrite <- app_assoc |].
  destruct (is_sep (head rest)) eqn:Es; simpl; [| done].
  destruct (access f (tmp ++ [c])) eqn:Ea; simpl; [done |].
  apply (Hm f (tmp ++ [c]) rest); try done; [by rewrite <- app_assoc | by destruct tmp].
Qed.

(** A directory that [CreateDir] reports as made exists with all its parents,
    when [mkdir] makes the directory it is asked for and removes none. *)
Section CreateDir_spec.
Context {FS : Type} (access : FS -> str -> bool) (mkdir : FS -> str -> FS * bool).
Context (mkdir_makes : forall fs p fs', mkdir fs p = (fs', true) -> access fs' p = true).
Context (mkdir_keeps : forall fs p q, access fs q = true -> access (mkdir fs p).1 q = true).

Lemma create_loop_exists rest : forall done fs fs',
  create_loop access mkdir done rest fs = (fs', 0) ->
  (forall q, access fs q = true -> access fs' q = true) /\
  (forall p q, done ++ rest = p ++ "/"%char :: q -> p <> [] -> (length done <= length p)%nat -> access fs' p = true).
Proof.
  induction rest as [|c rest IH]; intros done fs fs' E; cbn [create_loop] in E.
  - injection E as <-. split; [done |]. intros p q H _ Hl. apply (f_equal length) in H.
    rewrite !length_app in H. cbn [length] in H. lia.
  - assert (forall fs1, (forall q, access fs q = true -> access fs1 q = true) ->
      (c = "/"%char -> done <> [] -> access fs1 done = true) ->
      create_loop access mkdir (done ++ [c]) rest fs1 = (fs', 0) ->
      (forall q, access fs q = true -> access fs' q = true) /\
      (forall p q, done ++ c :: rest = p ++ "/"%char :: q -> p <> [] -> (length done <= length p)%nat -> access fs' p = true)) as H.
    { intros fs1 Hk Hd E1. apply IH in E1 as [IH1 IH2]. split; [by auto |]. intros p q H Hp Hl.
      destruct (decide (length p = length done)) as [El|Hne].
      - apply app_inj_1 in H as [-> [= -> _]]; [| done]. by apply IH1, Hd.
      - apply (IH2 p q); [by rewrite <- app_assoc | done | rewrite length_app; cbn [length]; lia]. }
    case_bool_decide as Ec; cbn [andb] in E; [| by apply (H fs)].
    case_bool_decide as Ed; cbn [negb] in E; [by apply (H fs) |].
    destruct (access fs done) eqn:Ea; cbn [negb] in E; [by apply (H fs) |].
    pose proof (mkdir_keeps fs done) as Hk.
    destruct (mkdir fs done) as [fs1 []] eqn:Em; [| discriminate E]. apply (H fs1); [done | | done].
    intros _ _. by apply (mkdir_makes fs).
Qed.

Lemma CreateDir_exists dir fs fs' :
  CreateDir access mkdir dir fs = Ok (fs', 0) ->
  forall p q, dir = p ++ q -> p <> [] -> last p <> Some "/"%char -> q = [] \/ head q = Some "/"%char ->
  access fs' p = true.
Proof.
  unfold CreateDir. intros E p q -> Hp Hl Hq.
  assert (exists q', create_loop access mkdir [] (p ++ "/"%char :: q') fs = (fs', 0)) as (q' & E').
  { destruct (last (p ++ q)) as [c|] eqn:El; [| discriminate E].
    destruct q as [|d q]; [| destruct Hq as [Hq|[= ->]]; [done |]].
    - rewrite app_nil_r in *. rewrite decide_False in E by congruence. case_match; [| done]. injection E as E. by exists [].
    - case_decide; case_match; try done; injection E as E; [by exists q | exists (q ++ lit "/")].
      by rewrite app_comm_cons, app_assoc. }
  apply create_loop_exists in E' as [_ E']. apply (E' p q'); [done | done | cbn; lia].
Qed.

Lemma create_loop_keeps rest : forall dn fs q,
  access fs q = true -> access (create_loop access mkdir dn rest fs).1 q = true.
Proof.
  induction rest as [|c rest IH]; intros dn fs q Hq; cbn [create_loop]; [done |].
  destruct (_ && _); [| by apply IH]. destruct (negb (access fs dn)); [| by apply IH].
  pose proof (mkdir_keeps fs dn q Hq) as Hk. destruct (mkdir fs dn) as [fs1 []]; [by apply IH | done].
Qed.

Lemma CreateDir_keeps dir fs fs' r q :
  CreateDir access mkdir dir fs = Ok (fs', r) -> access fs q = true -> access fs' q = true.
Proof.
  unfold CreateDir. intros E Hq. destruct (last dir); [| done].
  assert (forall l, create_loop access mkdir [] l fs = (fs', r) -> access fs' q = true) as Hloop
    by (intros l El; pose proof (create_loop_keeps l [] fs q Hq) as Hk; by rewrite El in Hk).
  destruct (decide _), (_ <? _)%nat; try done; injection E as E; by eapply Hloop.
Qed.
End CreateDir_spec.

(** The names [CreateDir] has room for. *)
Definition dir_fits (dir : str) : bool :=
  match last dir with
  | None => false
  | Some c => (length dir + (if decide (c = "/"%char) then 0 else 1) <? 100)%nat
  end.

Lemma create_loop_result {FS} (access : FS -> str -> bool) mkdir rest : forall done fs,
  (create_loop access mkdir done rest fs).2 = 0 \/ (create_loop access mkdir done rest fs).2 = -1.
Proof.
  induction rest as [|c rest IH]; intros done fs; cbn [create_loop]; [by left |].
  repeat case_match; auto.
Qed.

Lemma CreateDir_returns {FS} (access : FS -> str -> bool) mkdir dir fs :
  if dir_fits dir then exists fs' r, CreateDir access mkdir dir fs = Ok (fs', r) /\ (r = 0 \/ r = -1)
  else CreateDir access mkdir dir fs = Fault Undefined.
Proof.
  unfold dir_fits, CreateDir. destruct (last dir) as [c|]; [| done].
  destruct (decide (c = "/"%char)) as [->|]; rewrite ?Nat.add_0_r; case_match; try done;
    (do 2 eexists; split; [f_equal; apply surjective_pairing | apply create_loop_result]).
Qed.

(** [pthread_setaffinity_np] answers 0 or a positive error number: the failure it
    is tested for does not exist, and a thread that was not bound counts as
    bound. *)
Lemma bind_current_thread_true setaffinity cpud_id :
  (forall mask, 0 <= setaffinity mask) -> bind_current_thread setaffinity cpud_id = true.
Proof. intros Hs. unfold bind_current_thread. by rewrite (proj2 (Z.ltb_ge _ _)). Qed.
