(* ===== verification/Bytes.v ===== *)
(** * Bytes in memory: little-endian integers and slices

    Memory is a [str]; the machine is little-endian, as the x86 builds of the
    repository. *)
From S2P Require Import Prelude CStr StdString.
Open Scope Z_scope.

Fixpoint le (n : nat) (z : Z) : str :=
  match n with
  | O => []
  | S n' => chr (z mod 256) :: le n' (z / 256)
  end.

Fixpoint le_val (s : str) : Z :=
  match s with
  | [] => 0
  | c :: s' => ord c + 256 * le_val s'
  end.

Lemma le_length n z : length (le n z) = n.
Proof. revert z. induction n as [|n IH]; intros z; simpl; [done | by rewrite IH]. Qed.

Lemma le_val_range s : 0 <= le_val s < 256 ^ Z.of_nat (length s).
Proof.
  induction s as [|c s IH]; cbn [le_val length]; [simpl; lia |]. pose proof (ord_range c).
  rewrite Nat2Z.inj_succ, Z.pow_succ_r by lia. lia.
Qed.

Lemma le_val_le n z : 0 <= z < 256 ^ Z.of_nat n -> le_val (le n z) = z.
Proof.
  revert z. induction n as [|n IH]; intros z Hz; simpl.
  - rewrite Z.pow_0_r in Hz. lia.
  - rewrite Nat2Z.inj_succ, Z.pow_succ_r in Hz by lia.
    rewrite IH, ord_chr by zdiv. zdiv.
Qed.

Lemma le_le_val s : le (length s) (le_val s) = s.
Proof.
  induction s as [|c s IH]; simpl; [done |]. pose proof (ord_range c).
  replace ((ord c + 256 * le_val s) mod 256) with (ord c) by zdiv.
  replace ((ord c + 256 * le_val s) / 256) with (le_val s) by zdiv.
  by rewrite chr_ord, IH.
Qed.

(** The [n] bytes at [offset]. *)
Definition slice (offset n : nat) (s : str) : str := take n (drop offset s).

Definition u16_at (offset : nat) (s : str) : Z := le_val (slice offset 2 s).
Definition i64_at (s : str) : Z := i64 (le_val (slice 0 8 s)).

Lemma slice_app offset n a b c :
  length a = offset -> length b = n -> slice offset n (a ++ b ++ c) = b.
Proof. intros <- <-. unfold slice. by rewrite drop_app_length, take_app_length. Qed.

Lemma slice_range offset s : 0 <= u16_at offset s < 2 ^ 16.
Proof.
  unfold u16_at. pose proof (le_val_range (slice offset 2 s)) as H.
  assert (length (slice offset 2 s) <= 2)%nat as Hl by (unfold slice; rewrite length_take; lia).
  assert (256 ^ Z.of_nat (length (slice offset 2 s)) <= 256 ^ 2) by (apply Z.pow_le_mono_r; lia). lia.
Qed.

Lemma i64_le z rest : - 2 ^ 63 <= z < 2 ^ 63 -> i64_at (le 8 (u64 z) ++ rest) = z.
Proof.
  intros Hz. unfold i64_at.
  assert (slice 0 8 (le 8 (u64 z) ++ rest) = le 8 (u64 z)) as ->
    by exact (slice_app 0 8 [] (le 8 (u64 z)) rest eq_refl (le_length _ _)).
  rewrite le_val_le.
  - unfold i64, swrap, u64, wrap. zdiv.
  - change (256 ^ Z.of_nat 8) with (2 ^ 64). apply wrap_range. lia.
Qed.

Lemma slice_head n b c : length b = n -> slice 0 n (b ++ c) = b.
Proof. intros <-. unfold slice. by rewrite drop_0, take_app_length. Qed.
