(* ===== verification/QtpMsg.v ===== *)
(** * Messages: [src/src/include/qtp_msg.h]

    A buffer is the whole allocation a [char*] points to ([None] is null), with
    the used length beside it; copying past the end of an allocation is
    [Undefined].  [opts_] is an [unordered_map]: the order its iteration visits
    the options in is the argument [iter]. *)
From S2P Require Import Prelude CStr StdString Bytes.
Open Scope Z_scope.

(** ** Option identifiers *)
Definition kOptionId_Reserved : Z := 60000.
Definition kOptionId_SessionId : Z := 60001.
Definition kOptionId_PageInfo : Z := 60002.
Definition kOptionId_SubscribeKey : Z := 60003.
Definition kOptionId_ServerTime : Z := 60004.
Definition kOptionId_ReqId : Z := 60005.
Definition kOptionId_UserToken : Z := 600011.
Definition kOptionId_KLinePeriodType : Z := 600020.
Definition kOptionId_Extended : Z := 61000.

(** ** The header, packed *)
Record MSG_HEAD : Type := mkHead {
  version : Z; service : Z; msgtype : Z; topic : Z; optslen : Z; datalen : Z }.

Definition empty_head : MSG_HEAD := mkHead 0 0 0 0 0 0.
Definition MSG_HEAD_SIZE : nat := 12.

Definition head_bytes (h : MSG_HEAD) : str :=
  le 1 (version h) ++ le 1 (service h) ++ le 2 (msgtype h) ++ le 2 (topic h)
  ++ le 2 (optslen h) ++ le 4 (datalen h).

Definition head_of_bytes (s : str) : MSG_HEAD :=
  mkHead (le_val (slice 0 1 s)) (le_val (slice 1 1 s)) (le_val (slice 2 2 s))
         (le_val (slice 4 2 s)) (le_val (slice 6 2 s)) (le_val (slice 8 4 s)).

Definition head_ok (h : MSG_HEAD) : Prop :=
  in_u 8 (version h) /\ in_u 8 (service h) /\ in_u 16 (msgtype h) /\ in_u 16 (topic h) /\
  in_u 16 (optslen h) /\ in_u 32 (datalen h).

(** ** Options *)
Record OptionRequest : Type := mkOption { option_id : Z; option_size : Z; option_buf : str }.

(** The constructor copies [size] bytes of [data]. *)
Definition OptionRequest_new (id sz : Z) (data : str) : res OptionRequest :=
  if size data <? sz then Fault Undefined
  else Ok (mkOption id sz (take (Z.to_nat sz) data)).

Definition opt_bytes (r : OptionRequest) : str :=
  le 2 (option_id r) ++ le 2 (option_size r) ++ take (Z.to_nat (option_size r)) (option_buf r).

Record QtpMsg : Type := mkMsg {
  head_ : MSG_HEAD;
  opts_ : gmap Z OptionRequest;
  data_len_ : Z;
  data_buf_ : option str;
  opt_len_ : Z;
  opt_buf_ : option str }.

Definition QtpMsg_empty : QtpMsg := mkMsg empty_head ∅ 0 None 0 None.

Definition with_head (f : MSG_HEAD -> MSG_HEAD) (m : QtpMsg) : QtpMsg :=
  mkMsg (f (head_ m)) (opts_ m) (data_len_ m) (data_buf_ m) (opt_len_ m) (opt_buf_ m).
Definition with_opts (o : gmap Z OptionRequest) (m : QtpMsg) : QtpMsg :=
  mkMsg (head_ m) o (data_len_ m) (data_buf_ m) (opt_len_ m) (opt_buf_ m).
Definition with_opt_buf (l : Z) (b : option str) (m : QtpMsg) : QtpMsg :=
  mkMsg (head_ m) (opts_ m) (data_len_ m) (data_buf_ m) l b.
Definition with_data (l : Z) (b : option str) (m : QtpMsg) : QtpMsg :=
  mkMsg (head_ m) (opts_ m) l b (opt_len_ m) (opt_buf_ m).

(** ** [parse_options]: [rest] is the allocation from [offset] on, [left] is
    [opt_len_ - offset]. *)
Fixpoint parse_loop (fuel : nat) (rest : str) (left : Z) (opts : gmap Z OptionRequest)
    : res (gmap Z OptionRequest) :=
  match fuel with
  | O => Fault OutOfFuel
  | S f =>
      if 0 <? left then
        if (length rest <? 4)%nat then Fault Undefined
        else
          let id := u16_at 0 rest in
          let sz := u16_at 2 rest in
          r ← OptionRequest_new id sz (drop 4 rest);
          parse_loop f (drop (4 + Z.to_nat sz) rest) (left - (4 + sz)) (<[id := r]> opts)
      else Ok opts
  end.

Definition parse_options (m : QtpMsg) : res QtpMsg :=
  opts ← parse_loop (S (Z.to_nat (opt_len_ m))) (from_option id [] (opt_buf_ m)) (opt_len_ m) (opts_ m);
  Ok (with_opts opts m).

(** The constructor from a header and two owned buffers. *)
Definition QtpMsg_new (head : MSG_HEAD) (data opt : option str) : res QtpMsg :=
  parse_options (mkMsg head ∅ (datalen head) data (optslen head) opt).

(** [remove_option]: the first option with the identifier; the second argument
    of the C++ function is passed by value and receives nothing. *)
Definition remove_option (id : Z) (m : QtpMsg) : QtpMsg * bool :=
  match opts_ m !! id with
  | Some _ => (with_opts (delete id (opts_ m)) m, true)
  | None => (m, false)
  end.

Definition get_option (id : Z) (m : QtpMsg) : option OptionRequest := opts_ m !! id.

Definition set_head (h : MSG_HEAD) (m : QtpMsg) : QtpMsg := with_head (fun _ => h) m.
Definition set_msgtype_topic (t p : Z) (m : QtpMsg) : QtpMsg :=
  with_head (fun h => mkHead (version h) (service h) t p (optslen h) (datalen h)) m.
Definition set_msgtype (t : Z) (m : QtpMsg) : QtpMsg :=
  with_head (fun h => mkHead (version h) (service h) t (topic h) (optslen h) (datalen h)) m.
Definition set_topic (p : Z) (m : QtpMsg) : QtpMsg :=
  with_head (fun h => mkHead (version h) (service h) (msgtype h) p (optslen h) (datalen h)) m.
Definition set_version (v : Z) (m : QtpMsg) : QtpMsg :=
  with_head (fun h => mkHead v (service h) (msgtype h) (topic h) (optslen h) (datalen h)) m.
Definition set_lens (o d : Z) (h : MSG_HEAD) : MSG_HEAD :=
  mkHead (version h) (service h) (msgtype h) (topic h) o d.

Definition reset_body (m : QtpMsg) : QtpMsg := with_data 0 None m.
Definition reset_option (m : QtpMsg) : QtpMsg := with_opts ∅ (with_opt_buf 0 None m).
Definition reset (m : QtpMsg) : QtpMsg := with_head (fun _ => empty_head) (reset_option (reset_body m)).

(** [memcpy(buf, data, n)] after [new char[n]] when the used length was less. *)
Definition refill (used : Z) (buf : option str) (data : str) (n : Z) : res (option str) :=
  if size data <? n then Fault Undefined
  else
    let d := take (Z.to_nat n) data in
    if used <? n then Ok (Some d)
    else
      match buf with
      | Some b => if size b <? n then Fault Undefined else Ok (Some (d ++ drop (Z.to_nat n) b))
      | None => if n =? 0 then Ok None else Fault Undefined
      end.

Definition set_data (data : option str) (n : Z) (m : QtpMsg) : res (QtpMsg * bool) :=
  match data with
  | None => Ok (reset_body m, false)
  | Some d =>
      b ← refill (data_len_ m) (data_buf_ m) d n;
      Ok (with_data n b (with_head (fun h => set_lens (optslen h) (u32 n) h) m), true)
  end.

Definition set_options (data : option str) (n : Z) (m : QtpMsg) : res (QtpMsg * bool) :=
  match data with
  | None => Ok (m, false)
  | Some d =>
      b ← refill (opt_len_ m) (opt_buf_ m) d n;
      m ← parse_options (with_opt_buf n b m);
      Ok (m, true)
  end.

(** Copy constructor and copy assignment. *)
Definition copy_into (m : QtpMsg) (from : QtpMsg) : res QtpMsg :=
  let m := set_head (head_ from) m in
  '(m, _) ← set_options (opt_buf_ from) (opt_len_ from) m;
  '(m, _) ← set_data (data_buf_ from) (data_len_ from) m;
  parse_options m.
Definition QtpMsg_copy (from : QtpMsg) : res QtpMsg := copy_into QtpMsg_empty from.
Definition copy_assign (m from : QtpMsg) : res QtpMsg := copy_into m from.

(** Move constructor and move assignment: the new message and the old one. *)
Definition moved_from (m : QtpMsg) : QtpMsg :=
  with_head (set_lens 0 0) (with_data 0 None (with_opt_buf 0 None m)).
Definition QtpMsg_move (from : QtpMsg) : res (QtpMsg * QtpMsg) :=
  m ← parse_options (mkMsg (head_ from) ∅ (data_len_ from) (data_buf_ from) (opt_len_ from) (opt_buf_ from));
  Ok (m, moved_from from).
Definition move_assign (m from : QtpMsg) : res (QtpMsg * QtpMsg) :=
  m ← parse_options (mkMsg (head_ from) (opts_ from) (data_len_ from) (data_buf_ from) (opt_len_ from) (opt_buf_ from));
  Ok (m, moved_from from).

Section Encode.
(** The options in the order the map is iterated. *)
Context (iter : gmap Z OptionRequest -> list OptionRequest).

(** The length loop of [encode]. *)
Definition total_len (l : list OptionRequest) : Z :=
  fold_left (fun n r => u64 (n + (option_size r + 4))) l 0.

(** [encode_opts] *)
Definition encode_opts (m : QtpMsg) : res QtpMsg :=
  let bytes := concat (map opt_bytes (iter (opts_ m))) in
  match opt_buf_ m with
  | Some b =>
      if size b <? size bytes then Fault Undefined
      else Ok (with_opt_buf (opt_len_ m) (Some (bytes ++ drop (length bytes) b)) m)
  | None => if bool_decide (bytes = []) then Ok m else Fault Undefined
  end.

(** [new char[n]]: the bytes are indeterminate; here they are zero, and
    [encode_opts] overwrites them. *)
Definition new_chars (n : Z) : str := replicate (Z.to_nat n) (chr 0).

Definition encode (m : QtpMsg) : res QtpMsg :=
  let old_opt_len := opt_len_ m in
  let len := total_len (iter (opts_ m)) in
  let buf := if old_opt_len <? len then Some (new_chars len) else opt_buf_ m in
  m ← encode_opts (with_opt_buf len buf m);
  Ok (with_head (set_lens (u16 (opt_len_ m)) (u32 (data_len_ m))) m).

Definition add_option (r : OptionRequest) (m : QtpMsg) : res QtpMsg :=
  encode (with_opts (<[option_id r := r]> (opts_ m)) m).

(** The overloads that build the option: identifiers are [uint16_t]. *)
Definition add_option_data (id sz : Z) (data : str) (m : QtpMsg) : res QtpMsg :=
  r ← OptionRequest_new (u16 id) (u16 sz) data;
  add_option r m.
Definition add_option_int (id data : Z) (m : QtpMsg) : res QtpMsg :=
  add_option_data id 8 (le 8 (u64 data)) m.

(** [send_data]: the message after it, and the bytes written. *)
Definition used_bytes (n : Z) (b : option str) : str :=
  match b with Some b => take (Z.to_nat n) b | None => [] end.

Definition send_data (m : QtpMsg) : res (QtpMsg * str) :=
  m ← encode m;
  let m := with_head (set_lens (u16 (opt_len_ m)) (u32 (data_len_ m))) m in
  Ok (m, head_bytes (head_ m) ++ used_bytes (opt_len_ m) (opt_buf_ m)
           ++ used_bytes (data_len_ m) (data_buf_ m)).
End Encode.
