(* ===== verification/QtpMsgProps.v ===== *)
(** * Messages: what their operations keep, encode and copy *)
From S2P Require Import Prelude CStr StdString Bytes QtpMsg.
Open Scope Z_scope.

(** ** Well-formed options and messages *)
Definition opt_ok (r : OptionRequest) : Prop :=
  in_u 16 (option_id r) /\ in_u 16 (option_size r) /\ option_size r = size (option_buf r).

Definition opts_ok (o : gmap Z OptionRequest) : Prop :=
  forall k r, o !! k = Some r -> option_id r = k /\ opt_ok r.

(** A used length fits its allocation. *)
Definition buf_ok (n : Z) (b : option str) : Prop :=
  0 <= n < 2 ^ 64 /\ match b with Some b => n <= size b | None => n = 0 end.

Record msg_ok (m : QtpMsg) : Prop := {
  ok_opts : opts_ok (opts_ m);
  ok_opt_buf : buf_ok (opt_len_ m) (opt_buf_ m);
  ok_data_buf : buf_ok (data_len_ m) (data_buf_ m);
  ok_head : head_ok (head_ m) }.

Lemma opts_ok_insert r o : opt_ok r -> opts_ok o -> opts_ok (<[option_id r := r]> o).
Proof.
  intros Hr Ho k x [[<- <-]|[_ Hx]]%lookup_insert_Some; [done | by apply Ho].
Qed.

Lemma opts_ok_delete k o : opts_ok o -> opts_ok (delete k o).
Proof. intros Ho i x [_ Hx]%lookup_delete_Some. by apply Ho. Qed.

Lemma opts_ok_empty : opts_ok ∅.
Proof. intros k r. by rewrite lookup_empty. Qed.

Lemma QtpMsg_empty_ok : msg_ok QtpMsg_empty.
Proof. split; [apply opts_ok_empty | done | done |]. unfold head_ok, in_u. simpl. lia. Qed.

Lemma OptionRequest_new_ok id sz data r :
  in_u 16 id -> in_u 16 sz -> OptionRequest_new id sz data = Ok r -> opt_ok r /\ option_id r = id.
Proof.
  unfold OptionRequest_new. intros Hid Hsz H. destruct (Z.ltb_spec (size data) sz); [done |].
  inv_res. unfold opt_ok, size in *. simpl. rewrite length_take. unfold in_u in *. repeat split; lia.
Qed.

(** ** Parsing *)
Lemma parse_loop_ok fuel : forall rest left o o',
  opts_ok o -> parse_loop fuel rest left o = Ok o' -> opts_ok o'.
Proof.
  induction fuel as [|f IH]; intros rest left o o' Ho; simpl; [done |].
  destruct (0 <? left); [| by intros [= <-]].
  destruct (length rest <? 4)%nat; [done |].
  destruct (OptionRequest_new _ _ _) as [r|] eqn:E; [| done]. simpl. apply IH.
  pose proof (slice_range 0 rest). pose proof (slice_range 2 rest).
  apply OptionRequest_new_ok in E as [Hr Hid]; [| done | done]. rewrite <- Hid. by apply opts_ok_insert.
Qed.

Lemma opt_bytes_size r : opt_ok r -> size (opt_bytes r) = 4 + option_size r.
Proof.
  intros (_ & Hs & E). unfold opt_bytes, size. rewrite !length_app, !le_length, length_take.
  unfold size, in_u in *. lia.
Qed.

Lemma opt_bytes_length r : opt_ok r -> length (opt_bytes r) = (4 + Z.to_nat (option_size r))%nat.
Proof. intros H. pose proof (opt_bytes_size r H) as E. destruct H as (_ & H & _). unfold size, in_u in *. lia. Qed.

(** Reading an encoded option gives it back. *)
Lemma parse_loop_opt f r rest left o :
  opt_ok r -> 0 < left ->
  parse_loop (S f) (opt_bytes r ++ rest) left o
  = parse_loop f rest (left - (4 + option_size r)) (<[option_id r := r]> o).
Proof.
  intros Hok Hl. pose proof Hok as (Hid & Hsz & Hb). cbn [parse_loop].
  rewrite (proj2 (Z.ltb_lt 0 left)) by done.
  rewrite (proj2 (Nat.ltb_ge _ _)) by (rewrite length_app, opt_bytes_length by done; lia).
  assert (u16_at 0 (opt_bytes r ++ rest) = option_id r) as ->.
  { unfold u16_at, opt_bytes. rewrite <- !app_assoc.
    rewrite slice_head by apply le_length. by apply le_val_le. }
  assert (u16_at 2 (opt_bytes r ++ rest) = option_size r) as ->.
  { unfold u16_at, opt_bytes. rewrite <- !app_assoc.
    rewrite (slice_app 2 2 (le 2 (option_id r)) (le 2 (option_size r))) by apply le_length. by apply le_val_le. }
  assert (take (Z.to_nat (option_size r)) (option_buf r) = option_buf r) as Et
    by (apply take_ge; unfold size, in_u in *; lia).
  assert (drop 4 (opt_bytes r ++ rest) = option_buf r ++ rest) as ->.
  { unfold opt_bytes. rewrite Et, <- !app_assoc, (app_assoc (le 2 _)).
    apply (drop_app_length (le 2 (option_id r) ++ le 2 (option_size r))). }
  unfold OptionRequest_new. rewrite (proj2 (Z.ltb_ge _ _)) by (rewrite size_app; pose proof (size_nonneg rest); lia).
  cbn [mbind res_bind]. rewrite <- (opt_bytes_length r Hok), drop_app_length. do 2 f_equal.
  rewrite take_app_le by (unfold size, in_u in *; lia). rewrite Et. by destruct r.
Qed.

Definition sum_len (l : list OptionRequest) : Z := foldr (fun r n => option_size r + 4 + n) 0 l.

#[export] Instance sum_len_perm : Proper ((≡ₚ) ==> (=)) sum_len.
Proof. intros l l' H. induction H; simpl in *; lia. Qed.

(** The map after the options of a list, in order. *)
Definition opts_of (l : list OptionRequest) (o : gmap Z OptionRequest) : gmap Z OptionRequest :=
  fold_left (fun o r => <[option_id r := r]> o) l o.

Lemma sum_len_nonneg l : Forall opt_ok l -> 4 * Z.of_nat (length l) <= sum_len l.
Proof. induction 1 as [|r l (_ & H & _) _ IH]; simpl; unfold in_u in *; lia. Qed.

Lemma parse_loop_concat l : forall fuel rest o,
  Forall opt_ok l -> (length l < fuel)%nat ->
  parse_loop fuel (concat (map opt_bytes l) ++ rest) (sum_len l) o = Ok (opts_of l o).
Proof.
  induction l as [|r l IH]; intros [|fuel] rest o Hf Hl; simpl in Hl; try lia; [done |].
  apply Forall_cons in Hf as [Hr Hf]. pose proof (sum_len_nonneg l Hf). pose proof Hr as (_ & Hsz & _).
  cbn [map concat sum_len foldr]. rewrite <- app_assoc.
  rewrite parse_loop_opt by (done || (unfold in_u in *; unfold sum_len in *; lia)).
  replace (option_size r + 4 + foldr (λ r n, option_size r + 4 + n) 0 l - (4 + option_size r)) with (sum_len l)
    by (unfold sum_len; lia).
  rewrite IH by (done || lia). done.
Qed.

Lemma concat_size l : Forall opt_ok l -> size (concat (map opt_bytes l)) = sum_len l.
Proof.
  induction 1 as [|r l Hr _ IH]; [done |]. cbn [map concat]. rewrite size_app, IH, opt_bytes_size by done.
  unfold sum_len. simpl. lia.
Qed.

Lemma opts_of_lookup l : forall o k, NoDup (map option_id l) ->
  opts_of l o !! k = match filter (fun r => option_id r = k) l with r :: _ => Some r | [] => o !! k end.
Proof.
  induction l as [|r l IH]; intros o k Hnd; simpl; [done |]. apply NoDup_cons in Hnd as [Hr Hnd].
  rewrite IH by done. rewrite filter_cons. destruct (decide (option_id r = k)) as [<-|Hne].
  - assert (filter (fun x => option_id x = option_id r) l = []) as ->; [| by rewrite lookup_insert_eq].
    destruct (filter _ l) as [|x xs] eqn:E; [done |]. exfalso.
    assert (x ∈ filter (fun x => option_id x = option_id r) l) as [Ex Hx]%list_elem_of_filter
      by (rewrite E; by left).
    apply Hr. rewrite <- Ex. by apply list_elem_of_fmap_2.
  - by rewrite lookup_insert_ne.
Qed.

(** ** Iteration *)
Section Iter.
Context (iter : gmap Z OptionRequest -> list OptionRequest).
(** [unordered_map]: iteration visits every element once, in some order. *)
Hypothesis iter_perm : forall o, iter o ≡ₚ (map_to_list o).*2.

Lemma iter_elem o r : opts_ok o -> r ∈ iter o <-> o !! option_id r = Some r.
Proof.
  intros Ho. rewrite iter_perm, list_elem_of_fmap. split.
  - intros ([k x] & -> & Hin). apply elem_of_map_to_list in Hin as Hx. simpl.
    by destruct (Ho k x Hx) as [-> _].
  - intros Hr. exists (option_id r, r). split; [done |]. by apply elem_of_map_to_list.
Qed.

Lemma iter_ok o : opts_ok o -> Forall opt_ok (iter o).
Proof. intros Ho. apply Forall_forall. intros r Hr%iter_elem; [| done]. by destruct (Ho _ _ Hr). Qed.

Lemma iter_nodup o : opts_ok o -> NoDup (map option_id (iter o)).
Proof.
  intros Ho. assert (map option_id (iter o) ≡ₚ (map_to_list o).*1) as ->; [| apply NoDup_fst_map_to_list].
  rewrite iter_perm, <- list_fmap_compose. apply (eq_subrelation _).
  apply list_fmap_ext. intros i [k r] Hi. simpl. eapply Ho, elem_of_map_to_list, list_elem_of_lookup_2, Hi.
Qed.

(** Inserting all options of a map rebuilds it, whatever was there under the
    same keys. *)
Lemma opts_of_iter o b : opts_ok o -> (forall k, o !! k = None -> b !! k = None) ->
  opts_of (iter o) b = o.
Proof.
  intros Ho Hb. apply map_eq. intros k. rewrite opts_of_lookup by (by apply iter_nodup).
  destruct (filter (fun r => option_id r = k) (iter o)) as [|r l] eqn:E.
  - destruct (o !! k) as [r|] eqn:Er; [| by apply Hb]. exfalso.
    destruct (Ho k r Er) as [Hk _].
    assert (r ∈ filter (fun r => option_id r = k) (iter o)) as Hin; [| rewrite E in Hin; by apply not_elem_of_nil in Hin].
    apply list_elem_of_filter. split; [done |]. apply iter_elem; [done |]. by rewrite Hk.
  - assert (r ∈ filter (fun r => option_id r = k) (iter o)) as [<- Hr]%list_elem_of_filter by (rewrite E; by left).
    by apply iter_elem in Hr.
Qed.

(** ** [encode] *)
Definition opts_len (m : QtpMsg) : Z := sum_len (iter (opts_ m)).
Definition opts_bytes (m : QtpMsg) : str := concat (map opt_bytes (iter (opts_ m))).

Lemma total_len_sum l n : Forall opt_ok l -> 0 <= n -> n + sum_len l < 2 ^ 64 ->
  fold_left (fun n r => u64 (n + (option_size r + 4))) l n = n + sum_len l.
Proof.
  intros Hf. revert n. induction Hf as [|r l (_ & Hs & _) Hl IH]; intros n Hn Hb; simpl; [lia |].
  pose proof (sum_len_nonneg l Hl). unfold in_u, sum_len in *. simpl in Hb.
  rewrite u64_small by lia. rewrite IH by lia. lia.
Qed.

Lemma opts_bytes_size m : opts_ok (opts_ m) -> size (opts_bytes m) = opts_len m.
Proof. intros Ho. by apply concat_size, iter_ok. Qed.

Lemma encode_spec m :
  opts_ok (opts_ m) -> buf_ok (opt_len_ m) (opt_buf_ m) -> opts_len m < 2 ^ 64 ->
  exists buf, encode iter m =
      Ok (mkMsg (set_lens (u16 (opts_len m)) (u32 (data_len_ m)) (head_ m)) (opts_ m)
            (data_len_ m) (data_buf_ m) (opts_len m) buf) /\
    buf_ok (opts_len m) buf /\ used_bytes (opts_len m) buf = opts_bytes m /\
    parse_loop (S (Z.to_nat (opts_len m))) (from_option id [] buf) (opts_len m) ∅ = Ok (opts_ m).
Proof.
  intros Ho [Hl Hb] Hlen. pose proof (iter_ok _ Ho) as Hok. pose proof (sum_len_nonneg _ Hok) as Hn.
  fold (opts_len m) in Hn. pose proof (opts_bytes_size m Ho) as Hsz.
  assert (forall tail, parse_loop (S (Z.to_nat (opts_len m))) (opts_bytes m ++ tail) (opts_len m) ∅ = Ok (opts_ m)) as Hparse.
  { intros tail. unfold opts_bytes, opts_len in *. rewrite parse_loop_concat by (done || lia).
    by rewrite opts_of_iter by (done || intros; apply lookup_empty). }
  assert (forall tail, used_bytes (opts_len m) (Some (opts_bytes m ++ tail)) = opts_bytes m) as Hused.
  { intros tail. simpl. rewrite <- Hsz. by rewrite take_size. }
  unfold encode, total_len. rewrite total_len_sum by (done || lia). rewrite Z.add_0_l.
  fold (opts_len m). unfold encode_opts. cbn [opt_buf_ with_opt_buf opts_ opt_len_]. fold (opts_bytes m).
  set (buf := if opt_len_ m <? opts_len m then Some (new_chars (opts_len m)) else opt_buf_ m).
  assert (match buf with Some b => opts_len m <= size b | None => opts_len m = 0 end) as Hbuf.
  { unfold buf. destruct (Z.ltb_spec (opt_len_ m) (opts_len m)).
    - unfold new_chars, size. rewrite length_replicate. lia.
    - destruct (opt_buf_ m); lia. }
  destruct buf as [b|].
  - rewrite (proj2 (Z.ltb_ge _ _)) by lia. cbn [mbind res_bind].
    exists (Some (opts_bytes m ++ drop (length (opts_bytes m)) b)). split_and!; [done | | apply Hused | apply Hparse].
    split; [lia |]. rewrite size_app. pose proof (size_nonneg (drop (length (opts_bytes m)) b)). lia.
  - assert (opts_bytes m = []) as E by (destruct (opts_bytes m) as [|c bs]; [done | rewrite size_cons in Hsz; pose proof (size_nonneg bs); lia]).
    rewrite bool_decide_eq_true_2 by done. cbn [mbind res_bind]. exists None. split_and!.
    + done.
    + split; lia.
    + by rewrite E.
    + simpl. specialize (Hparse []). by rewrite E in Hparse.
Qed.

Lemma set_lens_ok h o d : head_ok h -> head_ok (set_lens (u16 o) (u32 d) h).
Proof.
  intros (H1 & H2 & H3 & H4 & _ & _). unfold head_ok, set_lens. simpl.
  split_and!; try done; apply wrap_range; lia.
Qed.

(** C10: [encode], and so every [add_option], leaves a well-formed message whose
    option buffer parses back to exactly the options of the map, whatever the
    buffer held before (it may be longer, or absent). *)
Theorem encode_parse m :
  msg_ok m -> opts_len m < 2 ^ 64 ->
  exists m', encode iter m = Ok m' /\ msg_ok m' /\ opts_ m' = opts_ m /\
    data_buf_ m' = data_buf_ m /\ data_len_ m' = data_len_ m /\
    parse_options (with_opts ∅ m') = Ok m' /\
    optslen (head_ m') = u16 (opts_len m) /\ datalen (head_ m') = u32 (data_len_ m).
Proof.
  intros [Ho Hb Hd Hh] Hlen. destruct (encode_spec m Ho Hb Hlen) as (buf & -> & Hbuf & _ & Hp).
  eexists. split; [done |]. split_and!; try done.
  - split; [done | done | done |]. by apply set_lens_ok.
  - unfold parse_options. cbn [with_opts opt_len_ opt_buf_ opts_]. by rewrite Hp.
Qed.

(** The bytes of the data. *)
Definition data_bytes (m : QtpMsg) : str := used_bytes (data_len_ m) (data_buf_ m).

Lemma data_bytes_size m : buf_ok (data_len_ m) (data_buf_ m) -> size (data_bytes m) = data_len_ m.
Proof.
  unfold data_bytes, buf_ok. intros [H1 H2]. destruct (data_buf_ m) as [b|]; simpl; unfold size in *.
  - rewrite length_take. lia.
  - simpl. lia.
Qed.

Lemma send_data_spec m :
  msg_ok m -> opts_len m < 2 ^ 64 ->
  exists m', send_data iter m =
      Ok (m', head_bytes (set_lens (u16 (opts_len m)) (u32 (data_len_ m)) (head_ m))
                ++ opts_bytes m ++ data_bytes m) /\
    msg_ok m' /\ opts_ m' = opts_ m /\ opt_len_ m' = opts_len m /\ data_bytes m' = data_bytes m.
Proof.
  intros [Ho Hb Hd Hh] Hlen. destruct (encode_spec m Ho Hb Hlen) as (buf & E & Hbuf & Hu & _).
  unfold send_data. rewrite E. cbn [mbind res_bind]. eexists. split.
  - do 2 f_equal. cbn [with_head head_ opt_len_ data_len_ data_buf_ opt_buf_]. rewrite Hu. done.
  - split_and!; try done. split; [done | done | done |]. simpl. by apply set_lens_ok, set_lens_ok.
Qed.

(** ** Copies *)
Lemma refill_spec used buf d n : buf_ok used buf -> 0 <= n <= size d -> n < 2 ^ 64 ->
  exists b, refill used buf d n = Ok b /\ buf_ok n b /\ used_bytes n b = take (Z.to_nat n) d /\
    (0 < n -> exists tail, b = Some (take (Z.to_nat n) d ++ tail)).
Proof.
  intros [Hu Hb] Hn Hn'. unfold refill. rewrite (proj2 (Z.ltb_ge _ _)) by lia.
  assert (length (take (Z.to_nat n) d) = Z.to_nat n) as Hl by (rewrite length_take; unfold size in *; lia).
  assert (forall t, take (Z.to_nat n) (take (Z.to_nat n) d ++ t) = take (Z.to_nat n) d) as Ht
    by (intros t; rewrite <- Hl at 1; apply take_app_length).
  destruct (Z.ltb_spec used n).
  - eexists. split; [done |]. split_and!.
    + split; [lia |]. unfold size. lia.
    + pose proof (Ht []) as H0. by rewrite app_nil_r in H0.
    + intros _. exists []. by rewrite app_nil_r.
  - destruct buf as [b|].
    + rewrite (proj2 (Z.ltb_ge _ _)) by lia. eexists. split; [done |]. split_and!.
      * split; [lia |]. rewrite size_app. unfold size in *. lia.
      * apply Ht.
      * eauto.
    + rewrite (proj2 (Z.eqb_eq n 0)) by lia. eexists. split; [done |]. split_and!.
      * split; lia.
      * assert (n = 0) as -> by lia. done.
      * lia.
Qed.

(** The option buffer holds the encoding of the map, as after [encode]. *)
Definition synced (m : QtpMsg) : Prop :=
  opt_len_ m = opts_len m /\ used_bytes (opt_len_ m) (opt_buf_ m) = opts_bytes m.

Lemma used_bytes_prefix n b : buf_ok n b -> 0 < n ->
  exists tail, b = Some (used_bytes n b ++ tail).
Proof.
  intros [_ Hb] Hn. destruct b as [b|]; [| lia]. exists (drop (Z.to_nat n) b). simpl. by rewrite take_drop.
Qed.

(** Parsing a synced buffer over a map [b] that has no other keys. *)
Lemma parse_synced o n buf b :
  opts_ok o -> buf_ok n buf -> n = sum_len (iter o) -> used_bytes n buf = concat (map opt_bytes (iter o)) ->
  (forall k, o !! k = None -> b !! k = None) ->
  parse_loop (S (Z.to_nat n)) (from_option id [] buf) n b = Ok o.
Proof.
  intros Ho Hbuf Hn Hu Hb. pose proof (iter_ok _ Ho) as Hok. pose proof (sum_len_nonneg _ Hok) as Hl.
  assert (exists tail, from_option id [] buf = concat (map opt_bytes (iter o)) ++ tail) as [tail ->].
  { destruct (Z.eq_dec n 0) as [E|E].
    - assert (concat (map opt_bytes (iter o)) = []) as ->; [| eauto].
      rewrite <- Hu, E. by destruct buf; simpl; rewrite ?take_0.
    - destruct (used_bytes_prefix n buf Hbuf ltac:(destruct Hbuf; lia)) as [tail E']. rewrite E'. simpl.
      exists tail. by rewrite Hu. }
  rewrite Hn. rewrite parse_loop_concat by (done || lia). by rewrite opts_of_iter.
Qed.

(** Copying from a message whose buffer encodes the options [o]. *)
Lemma copy_into_synced m from o :
  opts_ok o -> buf_ok (opt_len_ from) (opt_buf_ from) -> buf_ok (data_len_ from) (data_buf_ from) ->
  opt_len_ from = sum_len (iter o) ->
  used_bytes (opt_len_ from) (opt_buf_ from) = concat (map opt_bytes (iter o)) ->
  buf_ok (opt_len_ m) (opt_buf_ m) -> buf_ok (data_len_ m) (data_buf_ m) ->
  opt_buf_ from <> None -> (forall k, o !! k = None -> opts_ m !! k = None) ->
  exists c, copy_into m from = Ok c /\ opts_ c = o /\ data_bytes c = data_bytes from.
Proof.
  intros Ho Hob Hdb Hn Hu Hmo Hmd Hnn Hk. unfold copy_into, set_options.
  cbn [set_head with_head opts_ opt_len_ opt_buf_ data_len_ data_buf_ head_].
  destruct (opt_buf_ from) as [ob|] eqn:Eob; [| done]. destruct Hob as [Hob1 Hob2].
  destruct (refill_spec (opt_len_ m) (opt_buf_ m) ob (opt_len_ from) Hmo) as (b & -> & Hb & Hbu & _);
    [lia | lia |]. cbn [mbind res_bind].
  simpl in Hu.
  assert (forall m', opt_len_ m' = opt_len_ from -> opt_buf_ m' = b ->
    (forall k, o !! k = None -> opts_ m' !! k = None) -> parse_options m' = Ok (with_opts o m')) as Hp2.
  { intros m' E1 E2 E3. unfold parse_options. rewrite E1, E2.
    by rewrite (parse_synced o) by (done || congruence). }
  rewrite Hp2 by done. cbn [mbind res_bind].
  unfold set_data, data_bytes. destruct (data_buf_ from) as [db|] eqn:Edb; cbn [mbind res_bind].
  - destruct Hdb as [Hdb1 Hdb2].
    destruct (refill_spec (data_len_ m) (data_buf_ m) db (data_len_ from) Hmd) as (d & E & Hd & Hdu & _);
      [lia | lia |].
    cbn [with_opts with_opt_buf set_head with_head data_len_ data_buf_]. rewrite E. cbn [mbind res_bind].
    rewrite Hp2 by done. eexists. split; [done |]. split; [done |]. simpl. done.
  - rewrite Hp2 by done. eexists. split; [done |]. split; [done |]. done.
Qed.

Lemma synced_no_buffer m : opts_ok (opts_ m) -> synced m -> opt_buf_ m = None -> opts_ m = ∅.
Proof.
  intros Ho [Hl Hu] E. rewrite E in Hu. simpl in Hu. unfold opts_bytes in Hu.
  apply map_empty. intros k. destruct (opts_ m !! k) as [r|] eqn:Er; [exfalso | done].
  destruct (Ho k r Er) as [Hk Hr]. assert (r ∈ iter (opts_ m)) as Hin by (apply iter_elem; [done | by rewrite Hk]).
  apply list_elem_of_split in Hin as (l1 & l2 & El). rewrite El, map_app, concat_app in Hu.
  symmetry in Hu. apply app_eq_nil in Hu as [_ Hu]. cbn [map concat] in Hu. apply app_eq_nil in Hu as [Hu _].
  by unfold opt_bytes in Hu.
Qed.

(** The copy constructor gives the options and the data of an encoded
    message; but it copies the buffer, not the map: an option removed since the
    last [encode] is back in the copy; and assigning from a message without an
    option buffer keeps the options of the target. *)
Theorem copy_options m :
  msg_ok m -> synced m ->
  (exists c, QtpMsg_copy m = Ok c /\ opts_ c = opts_ m /\ data_bytes c = data_bytes m) /\
  (forall k r, opts_ m !! k = Some r ->
     exists c, QtpMsg_copy (remove_option k m).1 = Ok c /\ opts_ (remove_option k m).1 !! k = None /\
       opts_ c !! k = Some r) /\
  (forall from, msg_ok from -> opt_buf_ from = None ->
     exists c, copy_assign m from = Ok c /\ opts_ c = opts_ m).
Proof.
  intros [Ho Hob Hdb Hh] Hs. pose proof Hs as [Hl Hu]. split_and!.
  - destruct (opt_buf_ m) as [ob|] eqn:Eob.
    + unfold QtpMsg_copy. apply copy_into_synced; rewrite ?Eob; try done.
    + pose proof (synced_no_buffer m Ho Hs Eob) as Ee. unfold QtpMsg_copy, copy_into, set_options. rewrite Eob, Ee.
      cbn [mbind res_bind]. unfold set_data, data_bytes. destruct (data_buf_ m) as [db|] eqn:Edb.
      * destruct Hdb as [Hdb1 Hdb2].
        destruct (refill_spec 0 None db (data_len_ m)) as (d & E & Hd & Hdu & _); [done | lia | lia |].
        cbn [QtpMsg_empty set_head with_head data_len_ data_buf_]. rewrite E. cbn [mbind res_bind].
        eexists. split; [done |]. done.
      * eexists. split; [done |]. split; [done |]. done.
  - intros k r Hr. unfold remove_option. rewrite Hr. cbn [fst].
    assert (opt_buf_ m <> None) as Hnn.
    { intros E. rewrite (synced_no_buffer m Ho Hs E), lookup_empty in Hr. done. }
    destruct (copy_into_synced QtpMsg_empty (with_opts (delete k (opts_ m)) m) (opts_ m))
      as (c & Hc & Eo & _); try done.
    exists c. split_and!; [exact Hc | apply lookup_delete_eq | by rewrite Eo].
  - intros from [Hfo Hfob Hfdb Hfh] Ef. unfold copy_assign, copy_into, set_options. rewrite Ef. cbn [mbind res_bind].
    assert (forall m', opt_len_ m' = opt_len_ m -> opt_buf_ m' = opt_buf_ m -> opts_ m' = opts_ m ->
      parse_options m' = Ok (with_opts (opts_ m) m')) as Hp2.
    { intros m' E1 E2 E3. unfold parse_options. rewrite E1, E2, E3. by rewrite (parse_synced (opts_ m)). }
    unfold set_data. destruct (data_buf_ from) as [db|] eqn:Edb; cbn [mbind res_bind].
    + destruct Hfdb as [Hdb1 Hdb2].
      destruct (refill_spec (data_len_ m) (data_buf_ m) db (data_len_ from) Hdb) as (d & E & _); [lia | lia |].
      cbn [set_head with_head data_len_ data_buf_]. rewrite E. cbn [mbind res_bind]. rewrite Hp2 by done.
      eexists. by split.
    + rewrite Hp2 by done. eexists. by split.
Qed.

(** [add_option] encodes the map with the new option. *)
Lemma add_option_spec r m :
  msg_ok m -> opt_ok r -> sum_len (iter (<[option_id r := r]> (opts_ m))) < 2 ^ 64 ->
  exists m', add_option iter r m = Ok m' /\ opts_ m' = <[option_id r := r]> (opts_ m) /\
    msg_ok m' /\ synced m'.
Proof.
  intros [Ho Hb Hd Hh] Hr Hlen. unfold add_option.
  destruct (encode_spec (with_opts (<[option_id r := r]> (opts_ m)) m)) as (buf & E & Hbuf & Hu & _);
    [by apply opts_ok_insert | done | done |].
  eexists. split; [exact E |]. split_and!; [done | |].
  - split; [by apply opts_ok_insert | done | done | by apply set_lens_ok].
  - by split.
Qed.

(** Identifiers are 16 bits wide. *)
Lemma get_option_wide m id : msg_ok m -> 65536 <= id -> get_option id m = None.
Proof.
  intros [Ho _ _ _] Hid. unfold get_option. destruct (opts_ m !! id) as [r|] eqn:E; [| done].
  destruct (Ho id r E) as [<- ((_ & H) & _)]. lia.
Qed.

(** The identifiers [kOptionId_UserToken] and [kOptionId_KLinePeriodType]
    do not fit the 16 bits of an option: the option is stored under the
    identifier modulo 65536, and asking for the constant finds nothing. *)
Theorem wide_option_ids m id v :
  msg_ok m -> id = kOptionId_UserToken \/ id = kOptionId_KLinePeriodType -> - 2 ^ 63 <= v < 2 ^ 63 ->
  (forall r, option_size r = 8 -> sum_len (iter (<[option_id r := r]> (opts_ m))) < 2 ^ 64) ->
  exists m' r, add_option_int iter id v m = Ok m' /\ get_option id m' = None /\
    get_option (id mod 65536) m' = Some r /\ i64_at (option_buf r) = v.
Proof.
  intros Hm Hid Hv Hlen. unfold add_option_int, add_option_data, OptionRequest_new.
  set (data := le 8 (u64 v)). assert (size data = 8) as Hs by done.
  change (u16 8) with 8. rewrite Hs. cbn [Z.ltb Z.compare Pos.compare Pos.compare_cont mbind res_bind].
  set (r := mkOption (u16 id) 8 (take (Z.to_nat 8) data)).
  assert (opt_ok r) as Hr by (unfold opt_ok, r; split_and!; [by apply wrap_range | done | done]).
  destruct (add_option_spec r m Hm Hr (Hlen r eq_refl)) as (m' & E & Eo & Hm' & _).
  exists m', r. split_and!.
  - exact E.
  - apply get_option_wide; [done |]. unfold kOptionId_UserToken, kOptionId_KLinePeriodType in Hid. lia.
  - unfold get_option. rewrite Eo. change (option_id r) with (u16 id). unfold u16, wrap. apply lookup_insert_eq.
  - unfold r. cbn [option_buf]. rewrite take_ge by done. rewrite <- (app_nil_r data). by apply i64_le.
Qed.
End Iter.

(** ** Witnesses: iteration in the order of the keys *)
Definition key_order (o : gmap Z OptionRequest) : list OptionRequest := (map_to_list o).*2.

Lemma key_order_perm o : key_order o ≡ₚ (map_to_list o).*2.
Proof. done. Qed.

Definition demo_opt : OptionRequest := mkOption kOptionId_ReqId 2 (lit "ab").

Definition demo_msg : QtpMsg :=
  mkMsg (mkHead 1 2 1003 0 0 3) {[ kOptionId_ReqId := demo_opt ]} 3 (Some (lit "xyz!")) 6
    (Some (opt_bytes demo_opt)).

Lemma demo_msg_ok : msg_ok demo_msg.
Proof.
  split.
  - intros k r Hr. change (({[ kOptionId_ReqId := demo_opt ]} : gmap Z OptionRequest) !! k = Some r) in Hr.
    apply lookup_singleton_Some in Hr as [<- <-]. unfold opt_ok, in_u. vm_compute. intuition congruence.
  - unfold buf_ok. vm_compute. intuition congruence.
  - unfold buf_ok. vm_compute. intuition congruence.
  - unfold head_ok, in_u. simpl. lia.
Qed.

Lemma demo_msg_len : opts_len key_order demo_msg = 6.
Proof. vm_compute. reflexivity. Qed.

Lemma demo_msg_synced : synced key_order demo_msg.
Proof. split; vm_compute; reflexivity. Qed.

Lemma encode_parse_witness :
  exists m', encode key_order demo_msg = Ok m' /\ msg_ok m' /\ opts_ m' = opts_ demo_msg /\
    data_buf_ m' = data_buf_ demo_msg /\ data_len_ m' = data_len_ demo_msg /\
    parse_options (with_opts ∅ m') = Ok m' /\
    optslen (head_ m') = u16 (opts_len key_order demo_msg) /\ datalen (head_ m') = u32 (data_len_ demo_msg).
Proof.
  apply (encode_parse key_order key_order_perm demo_msg); [apply demo_msg_ok | rewrite demo_msg_len; lia].
Defined.

Lemma copy_options_witness :
  (exists c, QtpMsg_copy demo_msg = Ok c /\ opts_ c = opts_ demo_msg /\ data_bytes c = data_bytes demo_msg) /\
  (forall k r, opts_ demo_msg !! k = Some r ->
     exists c, QtpMsg_copy (remove_option k demo_msg).1 = Ok c /\
       opts_ (remove_option k demo_msg).1 !! k = None /\ opts_ c !! k = Some r) /\
  (forall from, msg_ok from -> opt_buf_ from = None ->
     exists c, copy_assign demo_msg from = Ok c /\ opts_ c = opts_ demo_msg).
Proof. apply (copy_options key_order key_order_perm demo_msg); [apply demo_msg_ok | apply demo_msg_synced]. Defined.

Lemma wide_option_ids_witness :
  exists m' r, add_option_int key_order kOptionId_UserToken 77 QtpMsg_empty = Ok m' /\
    get_option kOptionId_UserToken m' = None /\
    get_option (kOptionId_UserToken mod 65536) m' = Some r /\ i64_at (option_buf r) = 77.
Proof.
  apply (wide_option_ids key_order key_order_perm QtpMsg_empty kOptionId_UserToken 77);
    [apply QtpMsg_empty_ok | by left | lia |].
  intros r Hr. cbn [opts_ QtpMsg_empty]. unfold key_order.
  rewrite insert_empty, map_to_list_singleton. simpl. rewrite Hr. lia.
Defined.
