(* ===== verification/Decode.v ===== *)
(** * Framing: [decode_msg_with_head] of [src/src/tcp/src/event_wrapper.cpp]

    libevent's [evbuffer] is an interface ([EvBuffer]): the operations the code
    calls with what their documentation says of the bytes in the buffer.  The
    decoder is written against it, and shown to be a function of those bytes
    ([decode_bytes]). *)
From S2P Require Import Prelude CStr StdString Bytes QtpMsg QtpMsgProps.
Open Scope Z_scope.

Class EvBuffer (B : Type) : Type := {
  contents : B -> str;
  evbuffer_get_length : B -> Z;
  evbuffer_pullup : B -> nat -> option str * B;
  evbuffer_remove : B -> Z -> str * B;
  evbuffer_drain : B -> Z -> B;
  (** bytes from the socket were read into the buffer *)
  arrives : B -> str -> B -> Prop;
  get_length_spec : forall b, evbuffer_get_length b = size (contents b);
  (** makes the first [n] bytes contiguous; null when there are fewer *)
  pullup_spec : forall b n, (0 < n)%nat -> Z.of_nat n < 2 ^ 63 ->
    (evbuffer_pullup b n).1 =
      (if (length (contents b) <? n)%nat then None else Some (take n (contents b))) /\
    contents (evbuffer_pullup b n).2 = contents b;
  (** copies and removes the first [n] bytes, or all there are *)
  remove_spec : forall b n, 0 <= n < 2 ^ 64 ->
    (evbuffer_remove b n).1 = take (Z.to_nat n) (contents b) /\
    contents (evbuffer_remove b n).2 = drop (Z.to_nat n) (contents b);
  drain_spec : forall b n, 0 <= n < 2 ^ 64 -> contents (evbuffer_drain b n) = drop (Z.to_nat n) (contents b);
  arrives_spec : forall b s b', arrives b s b' -> contents b' = contents b ++ s }.

(** A buffer that is just its bytes. *)
#[export] Program Instance str_evbuffer : EvBuffer str := {|
  contents s := s;
  evbuffer_get_length s := size s;
  evbuffer_pullup s n := ((if (length s <? n)%nat then None else Some (take n s)), s);
  evbuffer_remove s n := (take (Z.to_nat n) s, drop (Z.to_nat n) s);
  evbuffer_drain s n := drop (Z.to_nat n) s;
  arrives s t s' := s' = s ++ t |}.
Solve Obligations with done.

(** An allocation of [n] bytes into which [d] was copied. *)
Definition filled (n : Z) (d : str) : str := d ++ drop (length d) (new_chars n).

Section Decode.
Context `{EvBuffer B}.

Definition decode_msg_with_head (input : B) : res (option QtpMsg * B) :=
  let len := evbuffer_get_length input in
  if len <? Z.of_nat MSG_HEAD_SIZE then Ok (None, input)
  else
    let '(headp, input) := evbuffer_pullup input MSG_HEAD_SIZE in
    match headp with
    | None => Fault Undefined
    | Some p =>
        let msg_total_len :=
          Z.of_nat MSG_HEAD_SIZE + optslen (head_of_bytes p) + datalen (head_of_bytes p) in
        if len <? msg_total_len then Ok (None, input)
        else
          let '(hb, input) := evbuffer_remove input (Z.of_nat MSG_HEAD_SIZE) in
          let head := head_of_bytes hb in
          let '(opt_buf, input) :=
            if negb (optslen head =? 0) then
              let '(d, input) := evbuffer_remove input (optslen head) in
              (Some (filled (optslen head) d), input)
            else (None, input) in
          let '(data, input) :=
            if negb (datalen head =? 0) then
              let '(d, input) := evbuffer_remove input (datalen head) in
              (Some (filled (datalen head) d), input)
            else (None, input) in
          msg ← QtpMsg_new head data opt_buf;
          Ok (Some msg, input)
    end.
End Decode.

(** ** The decoder on the bytes *)
Definition frame_len (h : MSG_HEAD) : Z := 12 + optslen h + datalen h.

(** A part of the frame: [n] bytes from [offset], or no buffer when [n] is 0. *)
Definition part (offset n : Z) (s : str) : option str :=
  if n =? 0 then None else Some (slice (Z.to_nat offset) (Z.to_nat n) s).

Definition decode_frame (h : MSG_HEAD) (s : str) : res QtpMsg :=
  QtpMsg_new h (part (12 + optslen h) (datalen h) s) (part 12 (optslen h) s).

Definition decode_bytes (s : str) : res (option QtpMsg * str) :=
  if size s <? 12 then Ok (None, s)
  else
    let h := head_of_bytes s in
    if size s <? frame_len h then Ok (None, s)
    else m ← decode_frame h s; Ok (Some m, drop (Z.to_nat (frame_len h)) s).

(** The header only depends on its twelve bytes. *)
Lemma slice_prefix o n k s : (o + n <= k)%nat -> slice o n (take k s) = slice o n s.
Proof.
  intros Hk. unfold slice.
  rewrite skipn_firstn_comm, firstn_firstn. f_equal. lia.
Qed.

Lemma head_of_prefix k s : (12 <= k)%nat -> head_of_bytes (take k s) = head_of_bytes s.
Proof. intros Hk. unfold head_of_bytes. by rewrite !slice_prefix by lia. Qed.

Lemma slice_app_l o n a b : (o + n <= length a)%nat -> slice o n (a ++ b) = slice o n a.
Proof.
  intros Hl. rewrite <- (slice_prefix o n (length a) (a ++ b)) by done. by rewrite take_app_length.
Qed.

Lemma head_of_app s t : 12 <= size s -> head_of_bytes (s ++ t) = head_of_bytes s.
Proof.
  intros Hs. unfold size in Hs. unfold head_of_bytes. by rewrite !slice_app_l by lia.
Qed.

Lemma le_val_slice_range o n s : 0 <= le_val (slice o n s) < 256 ^ Z.of_nat n.
Proof.
  pose proof (le_val_range (slice o n s)) as Hr.
  assert (length (slice o n s) <= n)%nat as Hl by (unfold slice; rewrite length_take; lia).
  assert (256 ^ Z.of_nat (length (slice o n s)) <= 256 ^ Z.of_nat n) by (apply Z.pow_le_mono_r; lia). lia.
Qed.

Lemma head_of_bytes_ok s : head_ok (head_of_bytes s).
Proof. unfold head_ok, head_of_bytes, in_u. simpl. split_and!; apply le_val_slice_range. Qed.

Lemma filled_exact n d : 0 <= n -> size d = n -> filled n d = d.
Proof.
  intros Hn Hd. unfold filled, new_chars. rewrite drop_ge; [apply app_nil_r |].
  rewrite length_replicate. unfold size in Hd. lia.
Qed.

Section Refine.
Context `{EvBuffer B}.

Lemma remove_filled b n d b' : 0 <= n < 2 ^ 64 -> n <= size (contents b) -> evbuffer_remove b n = (d, b') ->
  filled n d = take (Z.to_nat n) (contents b) /\ contents b' = drop (Z.to_nat n) (contents b).
Proof.
  intros Hn Hs E. pose proof (remove_spec b n Hn) as [H1 H2]. rewrite E in H1, H2. simpl in H1, H2.
  rewrite H1, H2. split; [| done]. apply filled_exact; [lia |].
  unfold size in *. rewrite length_take. lia.
Qed.

(** The decoder is [decode_bytes] on the contents of the buffer. *)
Lemma decode_refines b :
  match decode_bytes (contents b) with
  | Ok (m, s) => exists b', decode_msg_with_head b = Ok (m, b') /\ contents b' = s
  | Fault f => decode_msg_with_head b = Fault f
  end.
Proof.
  unfold decode_bytes, decode_msg_with_head. rewrite get_length_spec. change (Z.of_nat MSG_HEAD_SIZE) with 12.
  destruct (Z.ltb_spec (size (contents b)) 12); [eauto |].
  pose proof (pullup_spec b MSG_HEAD_SIZE ltac:(unfold MSG_HEAD_SIZE; lia) eq_refl) as [H1 H2]. destruct (evbuffer_pullup b MSG_HEAD_SIZE) as [hp b1].
  simpl in H1, H2. rewrite (proj2 (Nat.ltb_ge _ _)) in H1 by (unfold size in *; unfold MSG_HEAD_SIZE; lia).
  subst hp. rewrite head_of_prefix by (unfold MSG_HEAD_SIZE; lia).
  pose proof (head_of_bytes_ok (contents b)) as (_ & _ & _ & _ & Ho & Hd). set (h := head_of_bytes (contents b)) in *.
  unfold frame_len. destruct (Z.ltb_spec (size (contents b)) (12 + optslen h + datalen h)) as [Hlt|Hge]; [by exists b1 |].
  unfold in_u in Ho, Hd.
  destruct (evbuffer_remove b1 12) as [hb b2] eqn:E2. apply remove_filled in E2 as E2'; [| lia | rewrite H2; lia].
  pose proof (remove_spec b1 12 ltac:(lia)) as [Hhb _]. rewrite E2, H2 in Hhb. cbn [fst] in Hhb. destruct E2' as [_ Hb2]. rewrite H2 in Hb2.
  assert (head_of_bytes hb = h) as -> by (rewrite Hhb; apply head_of_prefix; lia). clear Hhb.
  unfold decode_frame.
  set (r3 := if negb (optslen h =? 0) then _ else (None, b2)).
  assert (exists b3, r3 = (part 12 (optslen h) (contents b), b3) /\
    contents b3 = drop (Z.to_nat (12 + optslen h)) (contents b)) as (b3 & -> & Hb3).
  { unfold r3, part. destruct (Z.eqb_spec (optslen h) 0) as [E|E].
    - exists b2. rewrite E. done.
    - cbn [negb]. destruct (evbuffer_remove b2 (optslen h)) as [d b3] eqn:E3.
      apply remove_filled in E3 as [-> Hb3]; [| lia | rewrite Hb2; unfold size in *; rewrite length_drop; lia].
      exists b3. split; [by rewrite Hb2 |]. rewrite Hb3, Hb2, drop_drop. f_equal. lia. }
  set (r4 := if negb (datalen h =? 0) then _ else (None, b3)).
  assert (exists b4, r4 = (part (12 + optslen h) (datalen h) (contents b), b4) /\
    contents b4 = drop (Z.to_nat (12 + optslen h + datalen h)) (contents b)) as (b4 & -> & Hb4).
  { unfold r4, part. destruct (Z.eqb_spec (datalen h) 0) as [E|E].
    - exists b3. rewrite E, Z.add_0_r. done.
    - cbn [negb]. destruct (evbuffer_remove b3 (datalen h)) as [d b4] eqn:E4.
      apply remove_filled in E4 as [-> Hb4]; [| lia | rewrite Hb3; unfold size in *; rewrite length_drop; lia].
      exists b4. split; [by rewrite Hb3 |]. rewrite Hb4, Hb3, drop_drop. f_equal. lia. }
  destruct (QtpMsg_new h _ _); cbn [mbind res_bind]; [eauto | done].
Qed.
End Refine.

(** ** More bytes behind a frame change nothing *)
Lemma decode_frame_app h s t : frame_len h <= size s -> head_ok h ->
  decode_frame h (s ++ t) = decode_frame h s.
Proof.
  intros Hl (_ & _ & _ & _ & Ho & Hd). unfold in_u, frame_len, size in *.
  unfold decode_frame, part. by rewrite !slice_app_l by lia.
Qed.

Lemma decode_bytes_app s t :
  match decode_bytes s with
  | Ok (Some m, r) => decode_bytes (s ++ t) = Ok (Some m, r ++ t) /\ (length r < length s)%nat
  | Ok (None, r) => r = s
  | Fault f => decode_bytes (s ++ t) = Fault f
  end.
Proof.
  unfold decode_bytes. destruct (Z.ltb_spec (size s) 12) as [|H12]; [done |].
  pose proof (head_of_bytes_ok s) as Hh. set (h := head_of_bytes s) in *.
  destruct (Z.ltb_spec (size s) (frame_len h)) as [|Hf]; [done |].
  pose proof (size_nonneg t). rewrite (proj2 (Z.ltb_ge _ _)) by (rewrite size_app; lia).
  rewrite head_of_app by done. fold h. rewrite (proj2 (Z.ltb_ge _ _)) by (rewrite size_app; lia).
  rewrite decode_frame_app by done. destruct (decode_frame h s); cbn [mbind res_bind]; [| done].
  destruct Hh as (_ & _ & _ & _ & Ho & Hd). unfold in_u, frame_len, size in *.
  rewrite drop_app_le by lia. split; [done |]. rewrite length_drop. lia.
Qed.

Lemma decode_bytes_progress s m r : decode_bytes s = Ok (Some m, r) -> (length r < length s)%nat.
Proof. intros E. pose proof (decode_bytes_app s []) as H. rewrite E in H. by destruct H. Qed.
