(* ===== verification/DecodeProps.v ===== *)
(** * What travels on the wire: sending, framing, malformed frames *)
From S2P Require Import Prelude CStr StdString Bytes QtpMsg QtpMsgProps Decode.
Open Scope Z_scope.

Lemma head_bytes_length h : length (head_bytes h) = 12%nat.
Proof. done. Qed.

Lemma head_bytes_slices h rest : head_ok h -> head_of_bytes (head_bytes h ++ rest) = h.
Proof.
  intros (H1 & H2 & H3 & H4 & H5 & H6). unfold in_u in *.
  rewrite <- (head_of_prefix 12) by done. rewrite take_app_length' by done.
  unfold head_of_bytes, head_bytes. set (a := le 1 (version h)). set (b := le 1 (service h)).
  set (c := le 2 (msgtype h)). set (d := le 2 (topic h)). set (e := le 2 (optslen h)). set (f := le 4 (datalen h)).
  assert (slice 0 1 (a ++ b ++ c ++ d ++ e ++ f) = a) as -> by (by apply slice_head).
  assert (slice 1 1 (a ++ b ++ c ++ d ++ e ++ f) = b) as -> by (by apply slice_app).
  assert (slice 2 2 (a ++ b ++ c ++ d ++ e ++ f) = c) as ->.
  { rewrite (app_assoc a b). by apply slice_app. }
  assert (slice 4 2 (a ++ b ++ c ++ d ++ e ++ f) = d) as ->.
  { rewrite (app_assoc a b), (app_assoc (a ++ b) c). by apply slice_app. }
  assert (slice 6 2 (a ++ b ++ c ++ d ++ e ++ f) = e) as ->.
  { rewrite (app_assoc a b), (app_assoc (a ++ b) c), (app_assoc ((a ++ b) ++ c) d). by apply slice_app. }
  assert (slice 8 4 (a ++ b ++ c ++ d ++ e ++ f) = f) as ->.
  { rewrite (app_assoc a b), (app_assoc (a ++ b) c), (app_assoc ((a ++ b) ++ c) d),
      (app_assoc (((a ++ b) ++ c) ++ d) e), <- (app_nil_r f). by apply slice_app. }
  unfold a, b, c, d, e, f. rewrite !le_val_le by (simpl; lia). by destruct h.
Qed.

Section Wire.
Context (iter : gmap Z OptionRequest -> list OptionRequest).
Hypothesis iter_perm : forall o, iter o ≡ₚ (map_to_list o).*2.
Context `{EvBuffer B}.

Lemma part_mid x (y z : str) o n : size x = o -> size y = n ->
  part o n (x ++ y ++ z) = (if n =? 0 then None else Some y).
Proof.
  intros Hx Hy. unfold part. case_match; [done |]. f_equal. apply slice_app; unfold size in *; lia.
Qed.

(** The frame [send_data] writes, decoded. *)
Lemma decode_sent m rest :
  msg_ok m -> opts_len iter m < 2 ^ 16 -> data_len_ m < 2 ^ 32 ->
  let h := set_lens (opts_len iter m) (data_len_ m) (head_ m) in
  exists c, decode_bytes (head_bytes h ++ opts_bytes iter m ++ data_bytes m ++ rest) = Ok (Some c, rest) /\
    head_ c = h /\ opts_ c = opts_ m /\ data_bytes c = data_bytes m.
Proof.
  intros Hm Ho Hd h. pose proof Hm as [Hok Hob Hdb Hh]. pose proof (iter_ok iter iter_perm _ Hok) as Hio.
  pose proof (sum_len_nonneg _ Hio) as Hn. fold (opts_len iter m) in Hn.
  pose proof (opts_bytes_size iter iter_perm m Hok) as Hos. pose proof (data_bytes_size m Hdb) as Hds.
  pose proof (proj1 Hdb) as Hd0. pose proof (size_nonneg rest).
  assert (head_ok h) as Hhok.
  { destruct Hh as (H1 & H2 & H3 & H4 & _). unfold h, head_ok, set_lens, in_u in *. simpl. lia. }
  unfold decode_bytes. rewrite (proj2 (Z.ltb_ge _ _)) by (rewrite size_app; unfold size at 1; rewrite head_bytes_length; pose proof (size_nonneg (opts_bytes iter m ++ data_bytes m ++ rest)); lia).
  rewrite head_bytes_slices by done.
  assert (frame_len h = size (head_bytes h ++ opts_bytes iter m ++ data_bytes m)) as Hfl.
  { rewrite !size_app, Hos, Hds. unfold frame_len, h, size at 1. rewrite head_bytes_length. simpl. lia. }
  replace (head_bytes h ++ opts_bytes iter m ++ data_bytes m ++ rest)
    with ((head_bytes h ++ opts_bytes iter m ++ data_bytes m) ++ rest) by (by rewrite <- !app_assoc).
  rewrite (proj2 (Z.ltb_ge _ _)) by (rewrite size_app; lia).
  rewrite Hfl, drop_size.
  assert (exists c, decode_frame h ((head_bytes h ++ opts_bytes iter m ++ data_bytes m) ++ rest) = Ok c /\
    head_ c = h /\ opts_ c = opts_ m /\ data_bytes c = data_bytes m) as (c & -> & Hc); [| by exists c].
  unfold decode_frame. change (optslen h) with (opts_len iter m). change (datalen h) with (data_len_ m).
  rewrite <- !app_assoc.
  assert (part 12 (opts_len iter m) (head_bytes h ++ opts_bytes iter m ++ data_bytes m ++ rest)
    = if opts_len iter m =? 0 then None else Some (opts_bytes iter m)) as -> by (by apply part_mid).
  assert (part (12 + opts_len iter m) (data_len_ m) (head_bytes h ++ opts_bytes iter m ++ data_bytes m ++ rest)
    = if data_len_ m =? 0 then None else Some (data_bytes m)) as ->.
  { rewrite app_assoc. apply part_mid; [| done]. rewrite size_app, Hos. done. }
  unfold QtpMsg_new, parse_options. cbn [opt_len_ opt_buf_ opts_ optslen set_lens].
  change (optslen h) with (opts_len iter m).
  rewrite (parse_synced iter iter_perm (opts_ m)); try done.
  - eexists. split; [done |]. split_and!; [done | done |]. unfold data_bytes at 1. cbn [data_buf_ data_len_ with_opts].
    change (datalen h) with (data_len_ m).
    destruct (Z.eqb_spec (data_len_ m) 0) as [E|E].
    + simpl. destruct (data_bytes m) as [|x xs]; [done |]. rewrite size_cons in Hds. pose proof (size_nonneg xs). lia.
    + simpl. rewrite take_ge; [done |]. unfold size in Hds. lia.
  - destruct (Z.eqb_spec (opts_len iter m) 0) as [E|E]; split; lia.
  - destruct (Z.eqb_spec (opts_len iter m) 0) as [E|E]; simpl.
    + fold (opts_bytes iter m). destruct (opts_bytes iter m) as [|x xs]; [done |]. rewrite size_cons in Hos. pose proof (size_nonneg xs). lia.
    + rewrite take_ge; [done |]. unfold size in Hos. lia.
Qed.

(** The bytes that [send_data] writes for a message whose lengths fit, and a
    buffer that starts with them. *)
Lemma send_bytes m : msg_ok m -> opts_len iter m < 2 ^ 16 -> data_len_ m < 2 ^ 32 ->
  exists m', send_data iter m =
    Ok (m', head_bytes (set_lens (opts_len iter m) (data_len_ m) (head_ m)) ++ opts_bytes iter m ++ data_bytes m).
Proof.
  intros Hm Ho Hd. destruct (send_data_spec iter iter_perm m Hm ltac:(lia)) as (m' & E & _).
  pose proof Hm as [Hok _ [Hdl _] _]. pose proof (sum_len_nonneg _ (iter_ok iter iter_perm _ Hok)) as Hn.
  fold (opts_len iter m) in Hn. rewrite u16_small, u32_small in E by lia. eexists. exact E.
Qed.

Lemma decode_front m rest (b : B) : msg_ok m -> opts_len iter m < 2 ^ 16 -> data_len_ m < 2 ^ 32 ->
  contents b = (head_bytes (set_lens (opts_len iter m) (data_len_ m) (head_ m)) ++ opts_bytes iter m ++ data_bytes m) ++ rest ->
  exists c b', decode_msg_with_head b = Ok (Some c, b') /\ contents b' = rest /\
    head_ c = set_lens (opts_len iter m) (data_len_ m) (head_ m) /\ opts_ c = opts_ m /\ data_bytes c = data_bytes m.
Proof.
  intros Hm Ho Hd Hb. rewrite <- !app_assoc in Hb. destruct (decode_sent m rest Hm Ho Hd) as (c & Hc & Hprop).
  pose proof (decode_refines b) as Hr. rewrite Hb, Hc in Hr. destruct Hr as (b' & Hr & Hb'). by exists c, b'.
Qed.

(** C11: a message sent with [send_data] is decoded by [decode_msg_with_head] at
    the other end, whatever follows it in the stream: the same header fields,
    options and data, and exactly its own bytes are consumed; provided its
    options take less than 64 KiB and its data less than 4 GiB. *)
Theorem send_decode m rest b :
  msg_ok m -> opts_len iter m < 2 ^ 16 -> data_len_ m < 2 ^ 32 ->
  exists m' bytes, send_data iter m = Ok (m', bytes) /\
    (contents b = bytes ++ rest ->
     exists c b', decode_msg_with_head b = Ok (Some c, b') /\ contents b' = rest /\
       head_ c = set_lens (opts_len iter m) (data_len_ m) (head_ m) /\
       opts_ c = opts_ m /\ data_bytes c = data_bytes m).
Proof.
  intros Hm Ho Hd. destruct (send_bytes m Hm Ho Hd) as (m' & E). eexists _, _. split; [exact E |].
  intros Hb. by apply decode_front.
Qed.

(** From 64 KiB of options on, the 16-bit [optslen] no longer says how many
    option bytes follow: the header announces the length modulo 65536, and the
    receiver takes the rest of the options for data and for further frames. *)
Theorem send_optslen_truncated m :
  msg_ok m -> 2 ^ 16 <= opts_len iter m < 2 ^ 64 ->
  exists m' tail, send_data iter m = Ok (m', head_bytes (head_ m') ++ opts_bytes iter m ++ tail) /\
    optslen (head_ m') = opts_len iter m mod 2 ^ 16 /\ size (opts_bytes iter m) = opts_len iter m /\
    optslen (head_ m') < opts_len iter m.
Proof.
  intros Hm Ho. pose proof Hm as [Hok Hob Hdb Hh].
  destruct (encode_spec iter iter_perm m Hok Hob ltac:(lia)) as (buf & E & Hbuf & Hu & _).
  unfold send_data. rewrite E. cbn [mbind res_bind]. eexists _, _. split.
  - do 2 f_equal. cbn [with_head opt_len_ opt_buf_ data_len_ data_buf_ head_]. rewrite Hu. done.
  - cbn. split_and!; [done | by apply opts_bytes_size |]. unfold u16, wrap.
    pose proof (Z.mod_pos_bound (opts_len iter m) (2 ^ 16)). lia.
Qed.
End Wire.

(** ** Malformed frames *)

(** An option block that is not a sequence of complete options. *)
Definition bad_options (opts : str) : Prop :=
  (0 < length opts < 4)%nat \/
  ((4 <= length opts)%nat /\ size opts < 4 + u16_at 2 opts).

Lemma parse_bad_options opts f o : bad_options opts ->
  parse_loop (S f) opts (size opts) o = Fault Undefined.
Proof.
  intros [Hl|[Hl Hs]]; cbn [parse_loop]; rewrite (proj2 (Z.ltb_lt 0 _)) by (unfold size; lia).
  - by rewrite (proj2 (Nat.ltb_lt _ _)) by lia.
  - rewrite (proj2 (Nat.ltb_ge _ _)) by lia. unfold OptionRequest_new.
    rewrite (proj2 (Z.ltb_lt _ _)); [done |]. unfold size in *. rewrite length_drop. lia.
Qed.

(** [parse_options] trusts the sizes in the frame: a frame whose first
    option is incomplete, or claims more bytes than [optslen], makes the decoder
    read past the end of its buffer.  Any peer can send it. *)
Theorem decode_malformed `{EvBuffer B} b (h : MSG_HEAD) (opts data rest : str) :
  head_ok h -> optslen h = size opts -> datalen h = size data -> bad_options opts ->
  contents b = head_bytes h ++ opts ++ data ++ rest ->
  decode_msg_with_head b = Fault Undefined.
Proof.
  intros Hh Ho Hd Hbad Hb. pose proof (decode_refines b) as Hr. rewrite Hb in Hr.
  assert (decode_bytes (head_bytes h ++ opts ++ data ++ rest) = Fault Undefined) as E; [| by rewrite E in Hr].
  clear Hr Hb. unfold decode_bytes. pose proof (size_nonneg opts). pose proof (size_nonneg data). pose proof (size_nonneg rest).
  assert (size (head_bytes h) = 12) as Hhs by done.
  rewrite (proj2 (Z.ltb_ge _ _)) by (rewrite !size_app; lia).
  rewrite head_bytes_slices by done. unfold frame_len.
  rewrite (proj2 (Z.ltb_ge _ _)) by (rewrite !size_app; lia).
  assert (0 < size opts) as Hpos by (unfold size; destruct Hbad as [?|[? _]]; lia).
  unfold decode_frame, QtpMsg_new, parse_options. rewrite Ho.
  rewrite (part_mid (head_bytes h) opts (data ++ rest) 12 (size opts)) by done.
  rewrite (proj2 (Z.eqb_neq (size opts) 0)) by lia. cbn [opt_len_ opt_buf_ opts_ from_option id].
  by rewrite parse_bad_options.
Qed.

(** ** Witnesses *)
Lemma send_decode_witness :
  exists m' bytes, send_data key_order demo_msg = Ok (m', bytes) /\
    (contents (bytes ++ lit "more") = bytes ++ lit "more" ->
     exists c b', decode_msg_with_head (bytes ++ lit "more") = Ok (Some c, b') /\ contents b' = lit "more" /\
       head_ c = set_lens (opts_len key_order demo_msg) (data_len_ demo_msg) (head_ demo_msg) /\
       opts_ c = opts_ demo_msg /\ data_bytes c = data_bytes demo_msg).
Proof.
  assert (opts_len key_order demo_msg < 2 ^ 16) as Hl by (rewrite demo_msg_len; lia).
  destruct (send_decode key_order key_order_perm demo_msg (lit "more")
    (from_ok [] (x ← send_data key_order demo_msg; Ok x.2) ++ lit "more") demo_msg_ok Hl)
    as (m' & bytes & E & Hd); [vm_compute; reflexivity |].
  exists m', bytes. split; [done |]. rewrite E in Hd. exact Hd.
Defined.

(** One option of 65532 bytes: 65536 bytes of options, announced as none. *)
Definition big_opt : OptionRequest := mkOption 7 65532 (replicate (Z.to_nat 65532) (chr 0)).
Definition big_msg : QtpMsg := mkMsg empty_head {[ 7 := big_opt ]} 0 None 0 None.

Lemma big_opt_ok : opt_ok big_opt.
Proof.
  unfold opt_ok, big_opt, in_u. cbn [option_id option_size option_buf]. unfold size.
  rewrite length_replicate. lia.
Qed.

Lemma big_msg_ok : msg_ok big_msg.
Proof.
  split; [| done | done | unfold head_ok, in_u; simpl; lia].
  intros k r Hr. change (({[ 7 := big_opt ]} : gmap Z OptionRequest) !! k = Some r) in Hr.
  apply lookup_singleton_Some in Hr as [<- <-]. split; [done | apply big_opt_ok].
Qed.

Lemma big_msg_len : opts_len key_order big_msg = 65536.
Proof.
  unfold opts_len, key_order. change (opts_ big_msg) with ({[ 7 := big_opt ]} : gmap Z OptionRequest).
  by rewrite map_to_list_singleton.
Qed.

Lemma send_optslen_truncated_witness :
  exists m' tail, send_data key_order big_msg = Ok (m', head_bytes (head_ m') ++ opts_bytes key_order big_msg ++ tail) /\
    optslen (head_ m') = opts_len key_order big_msg mod 2 ^ 16 /\
    size (opts_bytes key_order big_msg) = opts_len key_order big_msg /\
    optslen (head_ m') < opts_len key_order big_msg.
Proof.
  apply (send_optslen_truncated key_order key_order_perm big_msg); [apply big_msg_ok | rewrite big_msg_len; lia].
Defined.

Lemma decode_malformed_witness :
  decode_msg_with_head (head_bytes (mkHead 0 0 101 0 2 0) ++ lit "ab" ++ [] ++ []) = Fault Undefined.
Proof.
  apply (decode_malformed (B := str) _ (mkHead 0 0 101 0 2 0) (lit "ab") [] []); try done.
  - left. simpl. lia.
Defined.

(** ** Decoded messages are well formed *)
Lemma part_buf_ok o n s : 0 <= o -> 0 <= n < 2 ^ 64 -> o + n <= size s ->
  buf_ok n (part o n s) /\ used_bytes n (part o n s) = slice (Z.to_nat o) (Z.to_nat n) s.
Proof.
  intros Ho Hn Hs. unfold part, size in *. destruct (Z.eqb_spec n 0) as [->|Hne].
  - split; [by split | done].
  - assert (length (slice (Z.to_nat o) (Z.to_nat n) s) = Z.to_nat n) as Hl
      by (unfold slice; rewrite length_take, length_drop; lia).
    split; [split; [lia | unfold size; lia] |]. cbn [used_bytes]. by rewrite take_ge by lia.
Qed.

(** The messages made from a string of bytes. *)
Lemma decode_bytes_ok s m rest : decode_bytes s = Ok (Some m, rest) ->
  msg_ok m /\ head_ m = head_of_bytes s /\ opt_len_ m = optslen (head_ m) /\ data_len_ m = datalen (head_ m) /\
  exists opts, s = take 12 s ++ opts ++ data_bytes m ++ rest /\ size opts = optslen (head_ m).
Proof.
  intros Eb.
  unfold decode_bytes in Eb. destruct (Z.ltb_spec (size s) 12) as [|H12]; [by inv_res |].
  set (h := head_of_bytes s) in *. destruct (Z.ltb_spec (size s) (frame_len h)) as [|Hf]; [by inv_res |].
  pose proof (head_of_bytes_ok s) as Hh. fold h in Hh. pose proof Hh as (_ & _ & _ & _ & Ho & Hd). unfold in_u in Ho, Hd.
  unfold decode_frame, QtpMsg_new, parse_options in Eb. cbn [opt_len_ opt_buf_ opts_] in Eb.
  destruct (parse_loop _ _ _ _) as [opts|] eqn:Ep; cbn [mbind res_bind] in Eb; [| done].
  injection Eb as <- <-. unfold frame_len in *.
  destruct (part_buf_ok 12 (optslen h) s) as [Hob _]; [lia | lia | lia |].
  destruct (part_buf_ok (12 + optslen h) (datalen h) s) as [Hdb Hdu]; [lia | lia | lia |].
  cbn [with_opts head_ opts_ data_len_ data_buf_ opt_len_ opt_buf_]. split_and!; try done.
  - constructor; try done. eapply parse_loop_ok; [apply opts_ok_empty | exact Ep].
  - exists (slice 12 (Z.to_nat (optslen h)) s). split.
    + change (data_bytes _) with (used_bytes (datalen h) (part (12 + optslen h) (datalen h) s)). rewrite Hdu. unfold slice.
      rewrite <- (take_drop 12 s) at 1. f_equal.
      rewrite <- (take_drop (Z.to_nat (optslen h)) (drop 12 s)) at 1. f_equal.
      rewrite drop_drop. replace (12 + Z.to_nat (optslen h))%nat with (Z.to_nat (12 + optslen h)) by lia.
      rewrite <- (take_drop (Z.to_nat (datalen h)) (drop (Z.to_nat (12 + optslen h)) s)) at 1. f_equal.
      rewrite drop_drop. f_equal. lia.
    + unfold slice, size in *. rewrite length_take, length_drop. lia.
Qed.

(** C31: whatever bytes arrive, a message that [decode_msg_with_head] returns is
    well formed: its options are stored under their identifiers with their
    sizes, its buffers hold what the lengths say, its header is the first twelve
    bytes, and its data are the last [datalen] of the bytes consumed. *)
Theorem decode_well_formed `{EvBuffer B} (b b' : B) m :
  decode_msg_with_head b = Ok (Some m, b') ->
  msg_ok m /\ head_ m = head_of_bytes (contents b) /\
  opt_len_ m = optslen (head_ m) /\ data_len_ m = datalen (head_ m) /\
  exists opts, contents b = take 12 (contents b) ++ opts ++ data_bytes m ++ contents b' /\ size opts = optslen (head_ m).
Proof.
  intros E. pose proof (decode_refines b) as Hr. destruct (decode_bytes (contents b)) as [[o s]|] eqn:Eb; [| congruence].
  destruct Hr as (b1 & E1 & Hb1). rewrite E in E1. injection E1 as <- <-. rewrite Hb1. by apply decode_bytes_ok.
Qed.

Lemma decode_well_formed_witness : exists m,
  decode_msg_with_head (head_bytes (mkHead 2 0 101 0 0 2) ++ lit "abc") = Ok (Some m, lit "c") /\ msg_ok m.
Proof.
  eexists. split; [vm_compute; reflexivity |].
  refine (proj1 (decode_well_formed (B := str) (head_bytes (mkHead 2 0 101 0 0 2) ++ lit "abc") (lit "c") _ _)).
  vm_compute. reflexivity.
Defined.
