(* ===== verification/Evbuffer.v ===== *)
(** * The byte buffer of libevent: [src/deps/libevent/buffer.c]

    An [evbuffer] is a singly linked list of chains, blocks of memory with the
    bytes at [misalign .. misalign + off).  The heap is explicit: chains are
    addresses, a freed chain is gone and touching it is undefined, and
    [last_with_datap], the address of a [next] field, is a [field].  One buffer
    is modelled, with the operations that a connection of the program uses:
    [evbuffer_read], [evbuffer_write_atmost] (the socket is an argument),
    [evbuffer_add], [evbuffer_get_length], [evbuffer_pullup], [evbuffer_copyout],
    [evbuffer_remove], [evbuffer_drain], [evbuffer_freeze].  The lock is held
    throughout.  Callbacks are left out: the one a connection sets on its output only
    registers an event.  Chains that refer to memory, files or chains of others are
    not made by these operations, so what [evbuffer_chain_free] does for them is left
    out. *)
From S2P Require Import Prelude CStr StdString.
Open Scope Z_scope.

(** The address of a chain. *)
Abbreviation cid := positive.

Record evbuffer_chain : Type := mkChain {
  next : option cid;
  buffer_len : Z;
  misalign : Z;
  off : Z;
  flags : Z;
  refcnt : Z;
  buffer : str
}.

(** [&buf->first] or [&chain->next]. *)
Inductive field : Type := First | Next (c : cid).

#[export] Instance field_eq_dec : EqDecision field.
Proof. solve_decision. Defined.

(** [heap] holds the chains, [fresh] the address of the next one. *)
Record evbuffer : Type := mkBuffer {
  first : option cid;
  lastp : option cid;
  last_with_datap : field;
  total_len : Z;
  n_add_for_cb : Z;
  n_del_for_cb : Z;
  freeze_start : bool;
  freeze_end : bool;
  heap : gmap cid evbuffer_chain;
  fresh : cid
}.

Definition MIN_BUFFER_SIZE : Z := 1024.
Definition EVBUFFER_CHAIN_SIZE : Z := 48.
Definition EVBUFFER_CHAIN_MAX : Z := 2 ^ 63 - 1.
Definition EV_SIZE_MAX : Z := 2 ^ 64 - 1.
Definition EVBUFFER_SENDFILE : Z := 2.
Definition EVBUFFER_IMMUTABLE : Z := 8.
Definition EVBUFFER_MEM_PINNED_R : Z := 16.
Definition EVBUFFER_MEM_PINNED_ANY : Z := 48.
Definition EVBUFFER_DANGLING : Z := 64.
Definition EVBUFFER_CHAIN_MAX_AUTO_SIZE : Z := 4096.
Definition MAX_TO_REALIGN_IN_EXPAND : Z := 2048.
Definition EVBUFFER_MAX_READ : Z := 4096.
Definition NUM_READ_IOVEC : nat := 4.
Definition NUM_WRITE_IOVEC : nat := 128.

Definition has_flag (f : Z) (ch : evbuffer_chain) : bool := negb (Z.land (flags ch) f =? 0).
Definition CHAIN_PINNED (ch : evbuffer_chain) : bool := has_flag EVBUFFER_MEM_PINNED_ANY ch.
Definition CHAIN_PINNED_R (ch : evbuffer_chain) : bool := has_flag EVBUFFER_MEM_PINNED_R ch.
Definition CHAIN_SPACE_LEN (ch : evbuffer_chain) : Z :=
  if has_flag EVBUFFER_IMMUTABLE ch then 0 else u64 (buffer_len ch - (misalign ch + off ch)).

(** ** Memory *)
Definition deref (c : cid) (b : evbuffer) : res evbuffer_chain :=
  match heap b !! c with Some ch => Ok ch | None => Fault Undefined end.

(** A pointer that is followed. *)
Definition not_null (p : option cid) : res cid := match p with Some c => Ok c | None => Fault Undefined end.

Definition put_chain (c : cid) (ch : evbuffer_chain) (b : evbuffer) : evbuffer :=
  mkBuffer (first b) (lastp b) (last_with_datap b) (total_len b) (n_add_for_cb b) (n_del_for_cb b)
    (freeze_start b) (freeze_end b) (<[c := ch]> (heap b)) (fresh b).
Definition delete_chain (c : cid) (b : evbuffer) : evbuffer :=
  mkBuffer (first b) (lastp b) (last_with_datap b) (total_len b) (n_add_for_cb b) (n_del_for_cb b)
    (freeze_start b) (freeze_end b) (delete c (heap b)) (fresh b).
Definition set_first (p : option cid) (b : evbuffer) : evbuffer :=
  mkBuffer p (lastp b) (last_with_datap b) (total_len b) (n_add_for_cb b) (n_del_for_cb b)
    (freeze_start b) (freeze_end b) (heap b) (fresh b).
Definition set_last (p : option cid) (b : evbuffer) : evbuffer :=
  mkBuffer (first b) p (last_with_datap b) (total_len b) (n_add_for_cb b) (n_del_for_cb b)
    (freeze_start b) (freeze_end b) (heap b) (fresh b).
Definition set_datap (f : field) (b : evbuffer) : evbuffer :=
  mkBuffer (first b) (lastp b) f (total_len b) (n_add_for_cb b) (n_del_for_cb b)
    (freeze_start b) (freeze_end b) (heap b) (fresh b).
(** The three counters. *)
Definition set_counts (total adds dels : Z) (b : evbuffer) : evbuffer :=
  mkBuffer (first b) (lastp b) (last_with_datap b) total adds dels
    (freeze_start b) (freeze_end b) (heap b) (fresh b).

Definition with_next (p : option cid) (ch : evbuffer_chain) : evbuffer_chain :=
  mkChain p (buffer_len ch) (misalign ch) (off ch) (flags ch) (refcnt ch) (buffer ch).
Definition with_bytes (m o : Z) (d : str) (ch : evbuffer_chain) : evbuffer_chain :=
  mkChain (next ch) (buffer_len ch) m o (flags ch) (refcnt ch) d.
Definition with_refcnt (r : Z) (ch : evbuffer_chain) : evbuffer_chain :=
  mkChain (next ch) (buffer_len ch) (misalign ch) (off ch) (flags ch) r (buffer ch).
Definition with_flags (f : Z) (ch : evbuffer_chain) : evbuffer_chain :=
  mkChain (next ch) (buffer_len ch) (misalign ch) (off ch) f (refcnt ch) (buffer ch).

(** [*f] and [*f = p]. *)
Definition load (f : field) (b : evbuffer) : res (option cid) :=
  match f with First => Ok (first b) | Next c => ch ← deref c b; Ok (next ch) end.
Definition store (f : field) (p : option cid) (b : evbuffer) : res evbuffer :=
  match f with
  | First => Ok (set_first p b)
  | Next c => ch ← deref c b; Ok (put_chain c (with_next p ch) b)
  end.

(** [memcpy] from and to a block: [n] bytes at [pos]. *)
Definition copy_from (d : str) (pos n : Z) : res str :=
  if (0 <=? pos) && (0 <=? n) && (pos + n <=? StdString.size d)
  then Ok (take (Z.to_nat n) (drop (Z.to_nat pos) d)) else Fault Undefined.
Definition copy_to (d : str) (pos : Z) (x : str) : res str :=
  if (0 <=? pos) && (pos + StdString.size x <=? StdString.size d)
  then Ok (take (Z.to_nat pos) d ++ x ++ drop (Z.to_nat (pos + StdString.size x)) d) else Fault Undefined.

Definition fuel_of (b : evbuffer) : nat := S (base.size (heap b)).

(** ** Chains *)

(** The loop that doubles [to_alloc]; [size] is below [EVBUFFER_CHAIN_MAX / 2]. *)
Fixpoint double_to (fuel : nat) (to_alloc size : Z) : res Z :=
  match fuel with
  | O => Fault OutOfFuel
  | S f => if to_alloc <? size then double_to f (u64 (Z.shiftl to_alloc 1)) size else Ok to_alloc
  end.

Section Memory.
(** Whether the allocation of the [n]-th chain, of a size, succeeds; and what a
    new block of memory holds. *)
Context (mm_malloc : cid -> Z -> bool) (garbage : Z -> str).

(** The new chain, or null. *)
Definition evbuffer_chain_new (size : Z) (b : evbuffer) : res (option cid * evbuffer) :=
  if EVBUFFER_CHAIN_MAX - EVBUFFER_CHAIN_SIZE <? size then Ok (None, b)
  else
    let size := size + EVBUFFER_CHAIN_SIZE in
    to_alloc ← (if size <? EVBUFFER_CHAIN_MAX / 2 then double_to 64 MIN_BUFFER_SIZE size else Ok size);
    if negb (mm_malloc (fresh b) to_alloc) then Ok (None, b)
    else
      let c := fresh b in
      let len := to_alloc - EVBUFFER_CHAIN_SIZE in
      let ch := mkChain None len 0 0 0 1 (garbage len) in
      Ok (Some c, mkBuffer (first b) (lastp b) (last_with_datap b) (total_len b) (n_add_for_cb b) (n_del_for_cb b)
                    (freeze_start b) (freeze_end b) (<[c := ch]> (heap b)) (Pos.succ c)).

Definition evbuffer_chain_free (c : cid) (b : evbuffer) : res evbuffer :=
  ch ← deref c b;
  if negb (0 <? refcnt ch) then Fault AssertFailed
  else
    let ch := with_refcnt (refcnt ch - 1) ch in
    if 0 <? refcnt ch then Ok (put_chain c ch b)
    else if CHAIN_PINNED ch then
      Ok (put_chain c (with_flags (Z.lor (flags ch) EVBUFFER_DANGLING) (with_refcnt (refcnt ch + 1) ch)) b)
    else Ok (delete_chain c b).

Fixpoint free_all (fuel : nat) (chain : option cid) (b : evbuffer) : res evbuffer :=
  match fuel with
  | O => Fault OutOfFuel
  | S f =>
      match chain with
      | None => Ok b
      | Some c => ch ← deref c b; b ← evbuffer_chain_free c b; free_all f (next ch) b
      end
  end.
Definition evbuffer_free_all_chains (chain : option cid) (b : evbuffer) : res evbuffer := free_all (fuel_of b) chain b.

Fixpoint all_empty (fuel : nat) (chain : option cid) (b : evbuffer) : res bool :=
  match fuel with
  | O => Fault OutOfFuel
  | S f =>
      match chain with
      | None => Ok true
      | Some c => ch ← deref c b; if negb (off ch =? 0) then Ok false else all_empty f (next ch) b
      end
  end.
Definition evbuffer_chains_all_empty (chain : option cid) (b : evbuffer) : res bool := all_empty (fuel_of b) chain b.

(** The search for the first chain to free. *)
Fixpoint first_victim (fuel : nat) (f : field) (b : evbuffer) : res field :=
  match fuel with
  | O => Fault OutOfFuel
  | S n =>
      p ← load f b;
      match p with
      | None => Ok f
      | Some c => ch ← deref c b; if negb (off ch =? 0) || CHAIN_PINNED ch then first_victim n (Next c) b else Ok f
      end
  end.

Definition evbuffer_free_trailing_empty_chains (b : evbuffer) : res (field * evbuffer) :=
  f ← first_victim (fuel_of b) (last_with_datap b) b;
  p ← load f b;
  match p with
  | None => Ok (f, b)
  | Some _ =>
      empty ← evbuffer_chains_all_empty p b;
      if negb empty then Fault AssertFailed
      else b ← evbuffer_free_all_chains p b; b ← store f None b; Ok (f, b)
  end.

Definition evbuffer_chain_insert (c : cid) (b : evbuffer) : res evbuffer :=
  p ← load (last_with_datap b) b;
  b ← match p with
      | None =>
          if negb (bool_decide (last_with_datap b = First)) then Fault AssertFailed
          else if negb (bool_decide (first b = None)) then Fault AssertFailed
          else Ok (set_last (Some c) (set_first (Some c) b))
      | Some _ =>
          '(chp, b) ← evbuffer_free_trailing_empty_chains b;
          b ← store chp (Some c) b;
          ch ← deref c b;
          let b := if negb (off ch =? 0) then set_datap chp b else b in
          Ok (set_last (Some c) b)
      end;
  ch ← deref c b;
  Ok (set_counts (u64 (total_len b + off ch)) (n_add_for_cb b) (n_del_for_cb b) b).

(** [evbuffer_invoke_callbacks_] of a buffer without callbacks. *)
Definition evbuffer_invoke_callbacks_ (b : evbuffer) : evbuffer := set_counts (total_len b) 0 0 b.

Definition evbuffer_get_length (b : evbuffer) : Z := total_len b.

(** ** Adding bytes *)
Definition evbuffer_chain_align (ch : evbuffer_chain) : res evbuffer_chain :=
  if has_flag EVBUFFER_IMMUTABLE ch || CHAIN_PINNED ch then Fault AssertFailed
  else
    d ← copy_from (buffer ch) (misalign ch) (off ch);
    d ← copy_to (buffer ch) 0 d;
    Ok (with_bytes 0 (off ch) d ch).

Definition evbuffer_chain_should_realign (ch : evbuffer_chain) (datlen : Z) : bool :=
  (datlen <=? u64 (buffer_len ch - off ch)) && (off ch <? buffer_len ch / 2) && (off ch <=? MAX_TO_REALIGN_IN_EXPAND).

(** [memcpy] behind the bytes of a chain, and the counters that go with it. *)
Definition append_to (c : cid) (ch : evbuffer_chain) (d : str) (b : evbuffer) : res evbuffer :=
  m ← copy_to (buffer ch) (misalign ch + off ch) d;
  Ok (set_counts (u64 (total_len b + StdString.size d)) (u64 (n_add_for_cb b + StdString.size d)) (n_del_for_cb b)
        (put_chain c (with_bytes (misalign ch) (u64 (off ch + StdString.size d)) m ch) b)).

(** The part of [evbuffer_add] that needs another chain: [remain] bytes go to [chain]. *)
Definition add_chain (c : cid) (remain : Z) (data : str) (b : evbuffer) : res (Z * evbuffer) :=
  ch ← deref c b;
  let to_alloc := buffer_len ch in
  let to_alloc := if to_alloc <=? EVBUFFER_CHAIN_MAX_AUTO_SIZE / 2 then u64 (Z.shiftl to_alloc 1) else to_alloc in
  let to_alloc := if to_alloc <? StdString.size data then StdString.size data else to_alloc in
  '(tmp, b) ← evbuffer_chain_new to_alloc b;
  match tmp with
  | None => Ok (-1, b)
  | Some t =>
      b ← (if negb (remain =? 0) then append_to c ch (take (Z.to_nat remain) data) b else Ok b);
      let data := drop (Z.to_nat remain) data in
      tch ← deref t b;
      m ← copy_to (buffer tch) 0 data;
      b ← evbuffer_chain_insert t (put_chain t (with_bytes (misalign tch) (StdString.size data) m tch) b);
      let b := set_counts (total_len b) (u64 (n_add_for_cb b + StdString.size data)) (n_del_for_cb b) b in
      Ok (0, evbuffer_invoke_callbacks_ b)
  end.

(** The chain that gets the data, made if there is none. *)
Definition add_target (datlen : Z) (b : evbuffer) : res (option cid * evbuffer) :=
  p ← load (last_with_datap b) b;
  match (match p with None => lastp b | Some _ => p end) with
  | Some c => Ok (Some c, b)
  | None =>
      '(chain, b) ← evbuffer_chain_new datlen b;
      match chain with
      | None => Ok (None, b)
      | Some c => b ← evbuffer_chain_insert c b; Ok (Some c, b)
      end
  end.

Definition evbuffer_add (data : str) (b : evbuffer) : res (Z * evbuffer) :=
  let datlen := StdString.size data in
  if freeze_end b then Ok (-1, b)
  else if EV_SIZE_MAX - total_len b <? datlen then Ok (-1, b)
  else
    '(chain, b) ← add_target datlen b;
    match chain with
    | None => Ok (-1, b)
    | Some c =>
        ch ← deref c b;
        if negb (has_flag EVBUFFER_IMMUTABLE ch) then
          if negb ((0 <=? misalign ch) && (misalign ch <=? EVBUFFER_CHAIN_MAX)) then Fault AssertFailed
          else
            let remain := u64 (buffer_len ch - misalign ch - off ch) in
            if datlen <=? remain then
              b ← append_to c ch data b; Ok (0, evbuffer_invoke_callbacks_ b)
            else if negb (CHAIN_PINNED ch) && evbuffer_chain_should_realign ch datlen then
              ch ← evbuffer_chain_align ch;
              b ← append_to c ch data b; Ok (0, evbuffer_invoke_callbacks_ b)
            else add_chain c remain data b
        else add_chain c 0 data b
    end.

(** ** Taking bytes out *)
Definition HAS_PINNED_R (b : evbuffer) : res bool :=
  match lastp b with None => Ok false | Some c => ch ← deref c b; Ok (CHAIN_PINNED_R ch) end.

Definition ZERO_CHAIN (b : evbuffer) : evbuffer :=
  set_counts 0 (n_add_for_cb b) (n_del_for_cb b) (set_datap First (set_last None (set_first None b))).

(** The loop of [evbuffer_drain]: the chain it stops at, and what remains. *)
Fixpoint drain_loop (fuel : nat) (chain : option cid) (remaining : Z) (b : evbuffer)
  : res (option cid * Z * evbuffer) :=
  match fuel with
  | O => Fault OutOfFuel
  | S f =>
      c ← not_null chain;
      ch ← deref c b;
      if remaining <? off ch then Ok (chain, remaining, b)
      else
        let remaining := u64 (remaining - off ch) in
        p ← load (last_with_datap b) b;
        let b := if decide (p = Some c) then set_datap First b else b in
        let b := if decide (last_with_datap b = Next c) then set_datap First b else b in
        if CHAIN_PINNED_R ch then
          if negb (remaining =? 0) then Fault AssertFailed
          else Ok (chain, remaining, put_chain c (with_bytes (misalign ch + off ch) 0 (buffer ch) ch) b)
        else b ← evbuffer_chain_free c b; drain_loop f (next ch) remaining b
  end.

Definition evbuffer_drain (len : Z) (b : evbuffer) : res (Z * evbuffer) :=
  let old_len := total_len b in
  if old_len =? 0 then Ok (0, b)
  else if freeze_start b then Ok (-1, b)
  else
    pinned ← HAS_PINNED_R b;
    '(len, b) ←
      (if (old_len <=? len) && negb pinned then
         b ← evbuffer_free_all_chains (first b) b; Ok (old_len, ZERO_CHAIN b)
       else
         let len := if old_len <=? len then old_len else len in
         let b := set_counts (u64 (total_len b - len)) (n_add_for_cb b) (n_del_for_cb b) b in
         '(chain, remaining, b) ← drain_loop (fuel_of b) (first b) len b;
         let b := set_first chain b in
         c ← not_null chain;
         ch ← deref c b;
         if negb (remaining <=? off ch) then Fault AssertFailed
         else Ok (len, put_chain c (with_bytes (misalign ch + remaining) (u64 (off ch - remaining)) (buffer ch) ch) b));
    Ok (0, evbuffer_invoke_callbacks_ (set_counts (total_len b) (n_add_for_cb b) (u64 (n_del_for_cb b + len)) b)).

(** The loop of [evbuffer_copyout_from] and the copy behind it; [data] is what was copied. *)
Fixpoint copyout_loop (fuel : nat) (chain : option cid) (datlen : Z) (data : str) (b : evbuffer) : res str :=
  match fuel with
  | O => Fault OutOfFuel
  | S f =>
      if datlen =? 0 then Ok data
      else
        c ← not_null chain;
        ch ← deref c b;
        if off ch <=? datlen then
          d ← copy_from (buffer ch) (misalign ch) (off ch);
          let datlen := u64 (datlen - off ch) in
          if negb (bool_decide (next ch <> None) || (datlen =? 0)) then Fault AssertFailed
          else copyout_loop f (next ch) datlen (data ++ d) b
        else
          d ← copy_from (buffer ch) (misalign ch) datlen; Ok (data ++ d)
  end.

(** [evbuffer_copyout]: the result, and the bytes written to [data_out]. *)
Definition evbuffer_copyout (datlen : Z) (b : evbuffer) : res (Z * str) :=
  let datlen := if total_len b <? datlen then total_len b else datlen in
  if datlen =? 0 then Ok (0, [])
  else if freeze_start b then Ok (-1, [])
  else d ← copyout_loop (S (fuel_of b)) (first b) datlen [] b; Ok (i64 datlen, d).

Definition evbuffer_remove (datlen : Z) (b : evbuffer) : res (Z * str * evbuffer) :=
  '(n, d) ← evbuffer_copyout datlen b;
  if 0 <? n then
    '(r, b) ← evbuffer_drain n b;
    Ok (i32 (if r <? 0 then -1 else n), d, b)
  else Ok (i32 n, d, b).

(** ** [evbuffer_pullup] *)

(** None of the chains to copy from is pinned. *)
Fixpoint none_pinned (fuel : nat) (tmp : option cid) (remaining : Z) (b : evbuffer) : res bool :=
  match fuel with
  | O => Fault OutOfFuel
  | S f =>
      match tmp with
      | None => Ok true
      | Some c =>
          ch ← deref c b;
          if CHAIN_PINNED ch then Ok false
          else if remaining <=? off ch then Ok true
          else none_pinned f (next ch) (remaining - off ch) b
      end
  end.

(** The loop that copies and frees: [pos] is where [buffer] points to in [tmp]. *)
Record pulled : Type := mkPulled {
  pl_chain : option cid; pl_size : Z; pl_pos : Z; removed_last_with_data : bool; removed_last_with_datap : bool }.

Fixpoint pull_loop (fuel : nat) (tmp : cid) (last_with_data : option cid) (s : pulled) (b : evbuffer)
  : res (pulled * evbuffer) :=
  match fuel with
  | O => Fault OutOfFuel
  | S f =>
      match pl_chain s with
      | None => Ok (s, b)
      | Some c =>
          ch ← deref c b;
          if pl_size s <? off ch then Ok (s, b)
          else
            d ← copy_from (buffer ch) (misalign ch) (off ch);
            t ← deref tmp b;
            m ← copy_to (buffer t) (pl_pos s) d;
            let b := put_chain tmp (with_bytes (misalign t) (off t) m t) b in
            let s := mkPulled (next ch) (pl_size s - off ch) (pl_pos s + off ch)
              (removed_last_with_data s || bool_decide (Some c = last_with_data))
              (removed_last_with_datap s || bool_decide (last_with_datap b = Next c)) in
            b ← evbuffer_chain_free c b;
            pull_loop f tmp last_with_data s b
      end
  end.

(** From the copying on: [chain] is the first chain to copy, [size] bytes of it and those behind
    it go to [pos] in [tmp].  The result points into a chain. *)
Definition pull_into (tmp : cid) (chain : option cid) (size pos : Z) (b : evbuffer) : res (option (cid * Z) * evbuffer) :=
  last_with_data ← load (last_with_datap b) b;
  '(s, b) ← pull_loop (fuel_of b) tmp last_with_data (mkPulled chain size pos false false) b;
  b ← match pl_chain s with
      | Some c =>
          ch ← deref c b;
          d ← copy_from (buffer ch) (misalign ch) (pl_size s);
          t ← deref tmp b;
          m ← copy_to (buffer t) (pl_pos s) d;
          let b := put_chain tmp (with_bytes (misalign t) (off t) m t) b in
          Ok (put_chain c (with_bytes (misalign ch + pl_size s) (u64 (off ch - pl_size s)) (buffer ch) ch) b)
      | None => Ok (set_last (Some tmp) b)
      end;
  t ← deref tmp b;
  let b := put_chain tmp (with_next (pl_chain s) t) b in
  b ← (if removed_last_with_data s then Ok (set_datap First b)
       else if removed_last_with_datap s then
         f ← not_null (first b);
         fch ← deref f b;
         match next fch with
         | None => Ok (set_datap First b)
         | Some n =>
             nch ← deref n b;
             Ok (set_datap (if negb (off nch =? 0) then Next f else First) b)
         end
       else Ok b);
  t ← deref tmp b;
  Ok (Some (tmp, misalign t), b).

Definition evbuffer_pullup (size : Z) (b : evbuffer) : res (option (cid * Z) * evbuffer) :=
  let size := if size <? 0 then i64 (total_len b) else size in
  if (size =? 0) || (total_len b <? u64 size) then Ok (None, b)
  else
    c ← not_null (first b);
    ch ← deref c b;
    if size <=? off ch then Ok (Some (c, misalign ch), b)
    else
      let remaining := size - off ch in
      free ← none_pinned (fuel_of b) (next ch) remaining b;
      if negb free then Ok (None, b)
      else if CHAIN_PINNED ch then
        if CHAIN_SPACE_LEN ch <? remaining then Ok (None, b)
        else pull_into c (next ch) remaining (misalign ch + off ch) (put_chain c (with_bytes (misalign ch) size (buffer ch) ch) b)
      else if size <=? u64 (buffer_len ch - misalign ch) then
        pull_into c (next ch) remaining (misalign ch + off ch) (put_chain c (with_bytes (misalign ch) size (buffer ch) ch) b)
      else
        '(tmp, b) ← evbuffer_chain_new size b;
        match tmp with
        | None => Ok (None, b)
        | Some t =>
            tch ← deref t b;
            let b := put_chain t (with_bytes (misalign tch) size (buffer tch) tch) b in
            pull_into t (Some c) size 0 (set_first (Some t) b)
        end.

(** ** [evbuffer_read] *)

(** The loop over the chains with space: how much space, in how many of them, and
    whether it was enough. *)
Fixpoint avail_loop (fuel : nat) (chain : option cid) (datlen : Z) (n used : nat) (avail : Z) (b : evbuffer)
  : res (bool * option cid * nat * Z * evbuffer) :=
  match fuel with
  | O => Fault OutOfFuel
  | S f =>
      match chain with
      | None => Ok (false, None, used, avail, b)
      | Some c =>
          ch ← deref c b;
          p ← load (last_with_datap b) b;
          if negb (off ch =? 0) && negb (bool_decide (p = Some c)) then Fault AssertFailed
          else
            let space := CHAIN_SPACE_LEN ch in
            let '(avail, used, b) :=
              if negb (off ch =? 0) then
                (if negb (space =? 0) then (u64 (avail + space), S used, b) else (avail, used, b))
              else (u64 (avail + buffer_len ch), S used, put_chain c (with_bytes 0 (off ch) (buffer ch) ch) b) in
            if datlen <=? avail then Ok (true, chain, used, avail, b)
            else if bool_decide (used = n) then Ok (false, chain, used, avail, b)
            else avail_loop f (next ch) datlen n used avail b
      end
  end.

(** The loop that frees the empty chains. *)
Fixpoint nuke (fuel : nat) (chain : option cid) (b : evbuffer) : res evbuffer :=
  match fuel with
  | O => Fault OutOfFuel
  | S f =>
      match chain with
      | None => Ok b
      | Some c =>
          ch ← deref c b;
          if negb (off ch =? 0) then Fault AssertFailed
          else b ← evbuffer_chain_free c b; nuke f (next ch) b
      end
  end.

Definition evbuffer_expand_fast_ (datlen : Z) (n : nat) (b : evbuffer) : res (Z * evbuffer) :=
  _ ← (if (2 <=? n)%nat then Ok tt else Fault AssertFailed);
  immutable ← match lastp b with None => Ok true | Some c => ch ← deref c b; Ok (has_flag EVBUFFER_IMMUTABLE ch) end;
  if immutable : bool then
    '(chain, b) ← evbuffer_chain_new datlen b;
    match chain with
    | None => Ok (-1, b)
    | Some c => b ← evbuffer_chain_insert c b; Ok (0, b)
    end
  else
    p ← load (last_with_datap b) b;
    '(enough, chain, used, avail, b) ← avail_loop (fuel_of b) p datlen n 0 0 b;
    if enough : bool then Ok (0, b)
    else if (used <? n)%nat then
      if negb (bool_decide (chain = None)) then Fault AssertFailed
      else
        '(tmp, b) ← evbuffer_chain_new (u64 (datlen - avail)) b;
        match tmp with
        | None => Ok (-1, b)
        | Some t =>
            l ← not_null (lastp b);
            b ← store (Next l) (Some t) b;
            Ok (0, set_last (Some t) b)
        end
    else
      p ← load (last_with_datap b) b;
      c ← not_null p;
      ch ← deref c b;
      let rmv_all := off ch =? 0 in
      if rmv_all && negb (bool_decide (first b = Some c)) then Fault AssertFailed
      else
        let avail := if rmv_all then 0 else CHAIN_SPACE_LEN ch in
        b ← nuke (fuel_of b) (if rmv_all then Some c else next ch) b;
        if negb (avail <=? datlen) then Fault AssertFailed
        else
          '(tmp, b) ← evbuffer_chain_new (u64 (datlen - avail)) b;
          match tmp with
          | None =>
              if rmv_all then Ok (-1, ZERO_CHAIN b)
              else b ← store (Next c) None b; Ok (-1, set_last (Some c) b)
          | Some t =>
              if rmv_all then Ok (0, set_datap First (set_last (Some t) (set_first (Some t) b)))
              else b ← store (Next c) (Some t) b; Ok (0, set_last (Some t) b)
          end.

(** The vectors given to [readv]: a chain, a position in it, a length. *)
Fixpoint setup_loop (n_vecs_avail : nat) (chain : option cid) (howmuch so_far : Z) (exact : bool) (b : evbuffer)
  : res (list (cid * Z * Z)) :=
  match n_vecs_avail with
  | O => Ok []
  | S n =>
      if so_far <? howmuch then
        c ← not_null chain;
        ch ← deref c b;
        let avail := CHAIN_SPACE_LEN ch in
        let avail := if (u64 (howmuch - so_far) <? avail) && exact then howmuch - so_far else avail in
        vecs ← setup_loop n (next ch) howmuch (u64 (so_far + avail)) exact b;
        Ok ((c, misalign ch + off ch, avail) :: vecs)
      else Ok []
  end.

(** The first chain with space: where the pointer to it is. *)
Definition first_with_space (b : evbuffer) : res field :=
  p ← load (last_with_datap b) b;
  match p with
  | None => Fault AssertFailed
  | Some c => ch ← deref c b; Ok (if CHAIN_SPACE_LEN ch =? 0 then Next c else last_with_datap b)
  end.

Definition evbuffer_read_setup_vecs_ (howmuch : Z) (n_vecs_avail : nat) (exact : bool) (b : evbuffer)
  : res (Z * list (cid * Z * Z) * field) :=
  if howmuch <? 0 then Ok (-1, [], First)
  else
    firstchainp ← first_with_space b;
    chain ← load firstchainp b;
    if bool_decide (chain = None) then Fault AssertFailed
    else
      vecs ← setup_loop n_vecs_avail chain howmuch 0 exact b;
      Ok (Z.of_nat (length vecs), vecs, firstchainp).

(** What [readv] does to the memory. *)
Fixpoint scatter (vecs : list (cid * Z * Z)) (d : str) (b : evbuffer) : res evbuffer :=
  match vecs with
  | [] => Ok b
  | (c, pos, len) :: vecs =>
      ch ← deref c b;
      m ← copy_to (buffer ch) pos (take (Z.to_nat len) d);
      scatter vecs (drop (Z.to_nat len) d) (put_chain c (with_bytes (misalign ch) (off ch) m ch) b)
  end.

(** The loop that gives the bytes read to the chains. *)
Fixpoint commit_loop (nvecs : nat) (chainp : field) (remaining : Z) (b : evbuffer) : res evbuffer :=
  match nvecs with
  | O => Ok b
  | S n =>
      p ← load chainp b;
      c ← not_null p;
      ch ← deref c b;
      let space := CHAIN_SPACE_LEN ch in
      let space := if EVBUFFER_CHAIN_MAX <? space then EVBUFFER_CHAIN_MAX else space in
      if space <? remaining then
        commit_loop n (Next c) (remaining - space) (put_chain c (with_bytes (misalign ch) (u64 (off ch + space)) (buffer ch) ch) b)
      else
        Ok (set_datap chainp (put_chain c (with_bytes (misalign ch) (u64 (off ch + remaining)) (buffer ch) ch) b))
  end.

(** [readable] is the answer of [ioctl(FIONREAD)], -1 when it fails; [readv] answers the bytes
    read into vectors of a total length, or fails. *)
Definition evbuffer_read (readable : Z) (readv : Z -> option str) (howmuch : Z) (b : evbuffer) : res (Z * evbuffer) :=
  if freeze_end b then Ok (-1, b)
  else
    let n := if (readable <=? 0) || (EVBUFFER_MAX_READ <? readable) then EVBUFFER_MAX_READ else readable in
    let howmuch := if (howmuch <? 0) || (n <? howmuch) then n else howmuch in
    '(r, b) ← evbuffer_expand_fast_ howmuch NUM_READ_IOVEC b;
    if r =? -1 then Ok (-1, b)
    else
      '(_, vecs, chainp) ← evbuffer_read_setup_vecs_ howmuch NUM_READ_IOVEC true b;
      match readv (foldr (fun v n => v.2 + n) 0 vecs) with
      | None => Ok (-1, b)
      | Some [] => Ok (0, b)
      | Some d =>
          b ← scatter vecs d b;
          b ← commit_loop (length vecs) chainp (StdString.size d) b;
          let b := set_counts (u64 (total_len b + StdString.size d)) (u64 (n_add_for_cb b + StdString.size d)) (n_del_for_cb b) b in
          Ok (StdString.size d, evbuffer_invoke_callbacks_ b)
      end.
End Memory.

(** ** [evbuffer_write_atmost] *)

(** The loop of [evbuffer_write_iovec]: the vectors given to [writev]. *)
Fixpoint gather (n : nat) (chain : option cid) (howmuch : Z) (b : evbuffer) : res (list (cid * Z * Z)) :=
  match n, chain with
  | S n, Some c =>
      if howmuch =? 0 then Ok []
      else
        ch ← deref c b;
        if has_flag EVBUFFER_SENDFILE ch then Ok []
        else if off ch <=? howmuch then
          vecs ← gather n (next ch) (howmuch - off ch) b; Ok ((c, misalign ch, off ch) :: vecs)
        else Ok [(c, misalign ch, howmuch)]
  | _, _ => Ok []
  end.

(** The bytes that [writev] reads. *)
Fixpoint gathered (vecs : list (cid * Z * Z)) (b : evbuffer) : res str :=
  match vecs with
  | [] => Ok []
  | (c, pos, len) :: vecs =>
      ch ← deref c b; x ← copy_from (buffer ch) pos len; d ← gathered vecs b; Ok (x ++ d)
  end.

(** [writev] answers how many of the bytes it took, or -1; what it took is part of the result. *)
Definition evbuffer_write_iovec (writev : str -> Z) (howmuch : Z) (b : evbuffer) : res (Z * str) :=
  if howmuch <? 0 then Ok (-1, [])
  else
    vecs ← gather NUM_WRITE_IOVEC (first b) howmuch b;
    match vecs with
    | [] => Ok (0, [])
    | _ => d ← gathered vecs b; let n := writev d in Ok (i32 n, take (Z.to_nat n) d)
    end.

(** [sendfile] answers what the system call returned, and whether its error can be retried. *)
Definition evbuffer_write_sendfile (sendfile : Z -> Z * bool) (b : evbuffer) : res Z :=
  c ← not_null (first b);
  ch ← deref c b;
  let '(r, retriable) := sendfile (off ch) in
  Ok (if (r =? -1) && retriable then 0 else i32 r).

Definition evbuffer_write_atmost (writev : str -> Z) (sendfile : Z -> Z * bool) (howmuch : Z) (b : evbuffer) : res (Z * str * evbuffer) :=
  if freeze_start b then Ok (-1, [], b)
  else
    let howmuch := if (howmuch <? 0) || (total_len b <? howmuch) then i64 (total_len b) else howmuch in
    '(n, x) ← (if 0 <? howmuch then
           file ← match first b with None => Ok false | Some c => ch ← deref c b; Ok (has_flag EVBUFFER_SENDFILE ch) end;
           if file : bool then n ← evbuffer_write_sendfile sendfile b; Ok (n, []) else evbuffer_write_iovec writev howmuch b
         else Ok (-1, []));
    if 0 <? n then '(_, b) ← evbuffer_drain n b; Ok (n, x, b) else Ok (n, x, b).

(** ** Freezing an end *)
Definition set_frozen (front back : bool) (b : evbuffer) : evbuffer :=
  mkBuffer (first b) (lastp b) (last_with_datap b) (total_len b) (n_add_for_cb b) (n_del_for_cb b) front back (heap b) (fresh b).
Definition evbuffer_freeze (start : bool) (b : evbuffer) : evbuffer :=
  if start then set_frozen true (freeze_end b) b else set_frozen (freeze_start b) true b.
Definition evbuffer_unfreeze (start : bool) (b : evbuffer) : evbuffer :=
  if start then set_frozen false (freeze_end b) b else set_frozen (freeze_start b) false b.

(** [evbuffer_new], when there is memory for the buffer itself. *)
Definition evbuffer_new : evbuffer := mkBuffer None None First 0 0 0 false false ∅ 1%positive.

(** ** The buffers of a connection: [bufferevent_sock.c] and [bufferevent.c]

    What [bufferevent_readcb], [bufferevent_writecb] and [bufferevent_write] do to the two
    buffers.  The end that the program must not change is frozen in between. *)
Definition new_input : evbuffer := evbuffer_freeze false evbuffer_new.
Definition new_output : evbuffer := evbuffer_freeze true evbuffer_new.

Definition read_input (mm_malloc : cid -> Z -> bool) (garbage : Z -> str) (readable : Z) (readv : Z -> option str) (howmuch : Z)
    (input : evbuffer) : res (Z * evbuffer) :=
  let input := evbuffer_unfreeze false input in
  '(res, input) ← evbuffer_read mm_malloc garbage readable readv howmuch input;
  Ok (res, evbuffer_freeze false input).

Definition write_output (writev : str -> Z) (sendfile : Z -> Z * bool) (atmost : Z) (output : evbuffer) : res (Z * str * evbuffer) :=
  let output := evbuffer_unfreeze true output in
  '(res, taken, output) ← evbuffer_write_atmost writev sendfile atmost output;
  Ok (res, taken, evbuffer_freeze true output).

Definition bufferevent_write (mm_malloc : cid -> Z -> bool) (garbage : Z -> str) (data : str) (output : evbuffer) : res (Z * evbuffer) :=
  '(r, output) ← evbuffer_add mm_malloc garbage data output;
  Ok (if r =? -1 then -1 else 0, output).
