(* ===== verification/EvbufferProps.v ===== *)
(** * The byte buffer of libevent is a queue of bytes

    A buffer that is [good] links chains that hold the bytes [D], then empty ones; its
    [contents] are their bytes in order.  The operations of [Evbuffer] keep a buffer
    good and do to the contents what their documentation says, whatever the cuts
    between the chains: they take from the front, look at the front, add at the end. *)
From S2P Require Import Prelude CStr StdString Evbuffer.
Open Scope Z_scope.

(** A chain of the list: its address and what it is. *)
Abbreviation node := (cid * evbuffer_chain)%type.

Definition node_off (x : node) : Z := off x.2.
Definition node_bytes (x : node) : str :=
  take (Z.to_nat (off x.2)) (drop (Z.to_nat (misalign x.2)) (buffer x.2)).
Definition bytes_of (L : list node) : str := concat (map node_bytes L).
Definition ids (L : list node) : list cid := map fst L.

(** The longest block [evbuffer_chain_new] makes. *)
Definition max_block : Z := EVBUFFER_CHAIN_MAX - EVBUFFER_CHAIN_SIZE.

Record good_chain (ch : evbuffer_chain) : Prop := {
  gc_flags : flags ch = 0;
  gc_refcnt : refcnt ch = 1;
  gc_misalign : 0 <= misalign ch;
  gc_off : 0 <= off ch;
  gc_room : misalign ch + off ch <= buffer_len ch;
  gc_size : StdString.size (buffer ch) = buffer_len ch;
  gc_len : 0 < buffer_len ch <= max_block;
  gc_empty : off ch = 0 -> misalign ch = 0
}.

(** From [p] the chains [L] are linked, up to [q]. *)
Fixpoint lseg (h : gmap cid evbuffer_chain) (p : option cid) (L : list node) (q : option cid) : Prop :=
  match L with
  | [] => p = q
  | (c, ch) :: L => p = Some c /\ h !! c = Some ch /\ lseg h (next ch) L q
  end.

(** The field that points to the last chain of [D], which [prev] points to the first of. *)
Fixpoint datap_from (prev : field) (D : list node) : field :=
  match D with
  | [] => prev
  | [_] => prev
  | (c, _) :: D => datap_from (Next c) D
  end.

Definition last_id (L : list node) : option cid := fst <$> last L.

(** [D] are the chains with data, [E] the empty ones behind them. *)
Record rep (b : evbuffer) (D E : list node) : Prop := {
  rep_seg : lseg (heap b) (first b) (D ++ E) None;
  rep_nodup : NoDup (ids (D ++ E));
  rep_fresh : forall c, is_Some (heap b !! c) -> (c < fresh b)%positive;
  rep_last : lastp b = last_id (D ++ E);
  rep_datap : last_with_datap b = datap_from First D;
  rep_good : Forall (fun x => good_chain x.2) (D ++ E);
  rep_data : Forall (fun x => 0 < node_off x) D;
  rep_empty : Forall (fun x => node_off x = 0) E;
  rep_total : total_len b = StdString.size (bytes_of (D ++ E));
  rep_bound : total_len b <= EV_SIZE_MAX
}.

Definition good (b : evbuffer) : Prop := exists D E, rep b D E.

(** The bytes of the chains from [p] on. *)
Fixpoint walk (fuel : nat) (h : gmap cid evbuffer_chain) (p : option cid) : str :=
  match fuel, p with
  | S f, Some c => match h !! c with Some ch => node_bytes (c, ch) ++ walk f h (next ch) | None => [] end
  | _, _ => []
  end.
Definition contents (b : evbuffer) : str := walk (fuel_of b) (heap b) (first b).

(** ** Lists of chains *)
Lemma node_bytes_size x : good_chain x.2 -> StdString.size (node_bytes x) = node_off x.
Proof.
  intros []. unfold node_bytes, node_off, StdString.size in *. rewrite length_take, length_drop. lia.
Qed.

Lemma bytes_of_app L1 L2 : bytes_of (L1 ++ L2) = bytes_of L1 ++ bytes_of L2.
Proof. unfold bytes_of. by rewrite map_app, concat_app. Qed.
Lemma bytes_of_cons x L : bytes_of (x :: L) = node_bytes x ++ bytes_of L.
Proof. done. Qed.

Lemma bytes_of_empty E : Forall (fun x => node_off x = 0) E -> bytes_of E = [].
Proof.
  induction 1 as [|x E Hx _ IH]; [done |]. rewrite bytes_of_cons, IH. unfold node_bytes, node_off in *. by rewrite Hx.
Qed.

Lemma ids_app L1 L2 : ids (L1 ++ L2) = ids L1 ++ ids L2.
Proof. apply map_app. Qed.

Lemma lseg_app h p L1 L2 q : lseg h p (L1 ++ L2) q <-> exists m, lseg h p L1 m /\ lseg h m L2 q.
Proof.
  revert p. induction L1 as [|[c ch] L1 IH]; intros p; cbn [app lseg].
  - split; [by exists p | by intros (m & -> & ?)].
  - rewrite IH. naive_solver.
Qed.

(** Writing or freeing other chains. *)
Lemma lseg_frame h h' p L q : (forall c, c ∈ ids L -> h' !! c = h !! c) -> lseg h p L q -> lseg h' p L q.
Proof.
  revert p. induction L as [|[c ch] L IH]; intros p Hf; cbn [lseg]; [done |].
  intros (-> & Hc & Hs). split; [done |]. split; [by rewrite Hf by left |]. apply IH; [| done]. intros x Hx. apply Hf. by right.
Qed.
Lemma lseg_insert h p L q c x : c ∉ ids L -> lseg h p L q -> lseg (<[c := x]> h) p L q.
Proof. intros Hc. apply lseg_frame. intros y Hy. apply lookup_insert_ne. congruence. Qed.
Lemma lseg_delete h p L q c : c ∉ ids L -> lseg h p L q -> lseg (delete c h) p L q.
Proof. intros Hc. apply lseg_frame. intros y Hy. apply lookup_delete_ne. congruence. Qed.

Lemma lseg_lookup h p L q c ch : lseg h p L q -> (c, ch) ∈ L -> h !! c = Some ch.
Proof.
  revert p. induction L as [|[c' ch'] L IH]; intros p; cbn [lseg]; [by intros _ ?%elem_of_nil |].
  intros (_ & Hc & Hs) [[= -> ->]|Hin]%elem_of_cons; [done | by eapply IH].
Qed.

Lemma lseg_size h p L q : lseg h p L q -> NoDup (ids L) -> (length L <= base.size h)%nat.
Proof.
  intros Hs Hn. rewrite <- (length_map fst L). fold (ids L).
  rewrite <- (size_dom h), <- (size_list_to_set (C:=gset cid) (ids L)) by done.
  apply subseteq_size. intros c Hc%elem_of_list_to_set. apply elem_of_dom.
  apply list_elem_of_fmap in Hc as ([c' ch] & -> & Hin). exists ch. by eapply lseg_lookup.
Qed.

Lemma walk_lseg h L : forall fuel p, (length L < fuel)%nat -> lseg h p L None -> walk fuel h p = bytes_of L.
Proof.
  induction L as [|[c ch] L IH]; intros fuel p Hf; cbn [lseg].
  - intros ->. by destruct fuel.
  - intros (-> & Hc & Hs). destruct fuel as [|fuel]; [cbn in Hf; lia |]. cbn [walk]. rewrite Hc, bytes_of_cons.
    by rewrite IH by (cbn in Hf; done || lia).
Qed.

Lemma rep_fuel b D E : rep b D E -> (length (D ++ E) < fuel_of b)%nat.
Proof. intros []. unfold fuel_of. pose proof (lseg_size _ _ _ _ rep_seg0 rep_nodup0). lia. Qed.

Lemma rep_contents b D E : rep b D E -> contents b = bytes_of D.
Proof.
  intros Hr. pose proof (rep_fuel _ _ _ Hr) as Hf. destruct Hr. unfold contents.
  rewrite (walk_lseg _ (D ++ E)) by done. by rewrite bytes_of_app, (bytes_of_empty E), app_nil_r.
Qed.

(** [evbuffer_get_length] is the number of bytes. *)
Lemma get_length_contents b : good b -> evbuffer_get_length b = StdString.size (contents b).
Proof.
  intros (D & E & Hr). rewrite (rep_contents _ _ _ Hr). destruct Hr. unfold evbuffer_get_length.
  by rewrite rep_total0, bytes_of_app, (bytes_of_empty E), app_nil_r.
Qed.

(** ** Freeing *)
Definition with_heap (h : gmap cid evbuffer_chain) (b : evbuffer) : evbuffer :=
  mkBuffer (first b) (lastp b) (last_with_datap b) (total_len b) (n_add_for_cb b) (n_del_for_cb b)
    (freeze_start b) (freeze_end b) h (fresh b).

Lemma deref_ok c ch b : heap b !! c = Some ch -> deref c b = Ok ch.
Proof. unfold deref. by intros ->. Qed.

Lemma good_flags f ch : good_chain ch -> has_flag f ch = false.
Proof. intros []. unfold has_flag. by rewrite gc_flags0. Qed.
Lemma good_pinned ch : good_chain ch -> CHAIN_PINNED ch = false.
Proof. apply good_flags. Qed.
Lemma good_pinned_r ch : good_chain ch -> CHAIN_PINNED_R ch = false.
Proof. apply good_flags. Qed.

Lemma chain_free c ch b : heap b !! c = Some ch -> good_chain ch ->
  evbuffer_chain_free c b = Ok (with_heap (delete c (heap b)) b).
Proof.
  intros Hc Hg. unfold evbuffer_chain_free. rewrite (deref_ok _ _ _ Hc). cbn [mbind res_bind].
  pose proof (gc_refcnt _ Hg) as Hr. rewrite Hr. cbn. unfold CHAIN_PINNED, has_flag. cbn. by rewrite (gc_flags _ Hg).
Qed.

Lemma free_all_ok L : forall fuel p b, (length L < fuel)%nat -> lseg (heap b) p L None -> NoDup (ids L) ->
  Forall (fun x => good_chain x.2) L ->
  exists h, free_all fuel p b = Ok (with_heap h b) /\ h ⊆ heap b /\ forall c, c ∉ ids L -> h !! c = heap b !! c.
Proof.
  induction L as [|[c ch] L IH]; intros fuel p b Hf Hs Hn Hg; destruct fuel as [|fuel]; try (cbn in Hf; lia); cbn [lseg] in Hs.
  - subst p. exists (heap b). by destruct b.
  - destruct Hs as (-> & Hc & Hs). apply Forall_cons in Hg as [Hgc Hg]. cbn [ids map fst] in Hn. apply NoDup_cons in Hn as [Hcn Hn].
    cbn [free_all]. rewrite (deref_ok _ _ _ Hc). cbn [mbind res_bind]. rewrite (chain_free _ _ _ Hc Hgc). cbn [mbind res_bind].
    destruct (IH fuel (next ch) (with_heap (delete c (heap b)) b)) as (h & E & Hh & Hk);
      [cbn in Hf; lia | by apply lseg_delete | done | done |].
    exists h. split; [exact E |]. cbn [heap with_heap] in *. split; [by etrans; [| apply delete_subseteq] |].
    intros x Hx. apply not_elem_of_cons in Hx as [Hx Hx']. rewrite Hk by done. by apply lookup_delete_ne.
Qed.

Lemma fresh_subset (h h' : gmap cid evbuffer_chain) (n : cid) : h' ⊆ h ->
  (forall c, is_Some (h !! c) -> (c < n)%positive) -> forall c, is_Some (h' !! c) -> (c < n)%positive.
Proof. intros Hs Hf c [x Hx]. apply Hf. exists x. by eapply lookup_weaken. Qed.

(** ** Sizes *)
Lemma bytes_size L : Forall (fun x => good_chain x.2) L -> StdString.size (bytes_of L) = foldr (fun x n => node_off x + n) 0 L.
Proof.
  induction 1 as [|x L Hx _ IH]; [done |]. rewrite bytes_of_cons, StdString.size_app, IH, node_bytes_size by done. done.
Qed.

Lemma good_small ch : good_chain ch -> 0 <= misalign ch < 2 ^ 63 /\ 0 <= off ch < 2 ^ 63 /\ buffer_len ch < 2 ^ 63.
Proof. intros []. unfold max_block, EVBUFFER_CHAIN_MAX, EVBUFFER_CHAIN_SIZE in *. lia. Qed.

(** Dropping bytes from the front of a chain. *)
Definition advanced (n : Z) (ch : evbuffer_chain) : evbuffer_chain :=
  with_bytes (misalign ch + n) (off ch - n) (buffer ch) ch.

Lemma advanced_good n ch : good_chain ch -> 0 <= n < off ch -> good_chain (advanced n ch).
Proof. intros [] Hn. constructor; cbn; try done; lia. Qed.

Lemma advanced_bytes n c ch : good_chain ch -> 0 <= n <= off ch ->
  node_bytes (c, advanced n ch) = drop (Z.to_nat n) (node_bytes (c, ch)).
Proof.
  intros [] Hn. unfold node_bytes. cbn. rewrite skipn_firstn_comm, drop_drop. f_equal; [lia |]. f_equal. lia.
Qed.

Lemma copy_node ch c n : good_chain ch -> 0 <= n <= off ch ->
  copy_from (buffer ch) (misalign ch) n = Ok (take (Z.to_nat n) (node_bytes (c, ch))).
Proof.
  intros [] Hn. unfold copy_from. rewrite (proj2 (Z.leb_le 0 (misalign ch))), (proj2 (Z.leb_le 0 n)), (proj2 (Z.leb_le _ _)) by lia.
  cbn [andb]. unfold node_bytes. cbn [snd]. rewrite take_take. do 2 f_equal. lia.
Qed.

(** ** [evbuffer_drain] *)
Lemma datap_next_in D c : datap_from First D = Next c -> exists D1 x, D = D1 ++ [x] /\ c ∈ ids D1.
Proof.
  assert (forall D prev, datap_from prev D = Next c -> prev = Next c \/ exists D1 x, D = D1 ++ [x] /\ c ∈ ids D1) as H.
  { clear D. induction D as [|[a ch] D IH]; intros prev; cbn [datap_from]; [by left |].
    destruct D as [|y D]; [by left |]. intros [[= ->]|(D1 & x & E & Hc)]%IH; right.
    - destruct (exists_last (l := y :: D)) as (D1 & x & E); [done |]. exists ((c, ch) :: D1), x. rewrite E. split; [done | by left].
    - exists ((a, ch) :: D1), x. rewrite E. split; [done | by right]. }
  intros E. by destruct (H D First E) as [?|?].
Qed.

Lemma datap_tail c ch D : D <> [] -> NoDup (c :: ids D) ->
  (if decide (datap_from First ((c, ch) :: D) = Next c) then First else datap_from First ((c, ch) :: D)) = datap_from First D.
Proof.
  intros HD Hn. destruct D as [|[c2 ch2] D]; [done |]. change (datap_from First ((c, ch) :: (c2, ch2) :: D)) with (datap_from (Next c) ((c2, ch2) :: D)).
  destruct D as [|y D]; [cbn; by rewrite decide_True |].
  change (datap_from (Next c) ((c2, ch2) :: y :: D)) with (datap_from (Next c2) (y :: D)).
  change (datap_from First ((c2, ch2) :: y :: D)) with (datap_from (Next c2) (y :: D)). rewrite decide_False; [done |].
  intros E. apply NoDup_cons in Hn as [Hc Hn].
  assert (datap_from First ((c2, ch2) :: y :: D) = Next c) as E' by exact E.
  apply datap_next_in in E' as (D1 & x & ED & Hin). apply Hc. rewrite ED, ids_app. apply elem_of_app. by left.
Qed.

Lemma load_last_data h p b D x q : heap b = h -> lseg h p (D ++ [x]) q -> D <> [] ->
  last_with_datap b = datap_from First (D ++ [x]) -> load (last_with_datap b) b = Ok (Some x.1).
Proof.
  intros <- Hs HD ->. destruct x as [cx chx]. revert p Hs. generalize First as prev. induction D as [|[c ch] D IH]; [done |]. intros prev p Hs.
  cbn [app lseg] in Hs. destruct Hs as (-> & Hc & Hs). destruct D as [|y D].
  - change (load (Next c) b = Ok (Some cx)). unfold load. rewrite (deref_ok _ _ _ Hc). cbn [mbind res_bind].
    cbn [app lseg] in Hs. by destruct Hs as (-> & _).
  - destruct y as [cy chy].
    change (datap_from prev (((c, ch) :: (cy, chy) :: D) ++ [(cx, chx)])) with (datap_from (Next c) (((cy, chy) :: D) ++ [(cx, chx)])).
    by apply (IH ltac:(done) (Next c) _ Hs).
Qed.

Lemma load_not_first p b c ch D E : lseg (heap b) p (((c, ch) :: D) ++ E) None -> D <> [] -> NoDup (ids (((c, ch) :: D) ++ E)) ->
  last_with_datap b = datap_from First ((c, ch) :: D) ->
  exists q, load (last_with_datap b) b = Ok q /\ q <> Some c.
Proof.
  intros Hs HD Hn Ed. apply lseg_app in Hs as (m & Hs & _).
  destruct (exists_last HD) as (D' & [cx chx] & E'). rewrite E' in *. exists (Some cx).
  change ((c, ch) :: D' ++ [(cx, chx)]) with (((c, ch) :: D') ++ [(cx, chx)]) in *. split; [by apply (load_last_data _ _ b _ (cx, chx) _ eq_refl Hs) |].
  intros [= ->]. rewrite !ids_app in Hn. cbn in Hn. apply NoDup_cons in Hn as [Hn _]. apply Hn.
  rewrite !elem_of_app. left. right. by left.
Qed.

(** What a step of [drain_loop] leaves: the front chain is gone. *)
Definition drained (c : cid) (D : list node) (b : evbuffer) : evbuffer :=
  with_heap (delete c (heap b)) (set_datap (datap_from First D) b).

Lemma drain_step fuel c ch D E n b : lseg (heap b) (Some c) (((c, ch) :: D) ++ E) None ->
  NoDup (ids (((c, ch) :: D) ++ E)) -> good_chain ch -> D <> [] -> last_with_datap b = datap_from First ((c, ch) :: D) ->
  off ch <= n < 2 ^ 64 ->
  drain_loop (S fuel) (Some c) n b = drain_loop fuel (next ch) (n - off ch) (drained c D b).
Proof.
  intros Hs Hn Hg HD Ed Hr. pose proof Hs as (_ & Hc & _). pose proof (good_small _ Hg) as Hsm.
  destruct (load_not_first _ _ _ _ _ _ Hs HD Hn Ed) as (q & Eq & Hq).
  cbn [drain_loop not_null]. cbn [mbind res_bind]. rewrite (deref_ok _ _ _ Hc). cbn [mbind res_bind].
  rewrite (proj2 (Z.ltb_ge n (off ch))) by lia. rewrite u64_small by lia. rewrite Eq. cbn [mbind res_bind].
  destruct (decide (q = Some c)) as [?|_]; [done |]. rewrite (good_pinned_r _ Hg), Ed.
  assert (NoDup (c :: ids D)) as Hn'.
  { cbn [app ids map fst] in Hn. rewrite map_app in Hn. apply NoDup_cons in Hn as [H1 H2]. apply NoDup_app in H2 as (H2 & _).
    constructor; [| done]. intros Hin. apply H1, elem_of_app. by left. }
  pose proof (datap_tail c ch D HD Hn') as Ht. destruct (decide _) as [Hd|Hd].
  - rewrite (chain_free c ch) by done. cbn [mbind res_bind]. unfold drained. by rewrite <- Ht.
  - rewrite (chain_free c ch) by done. cbn [mbind res_bind]. unfold drained. rewrite <- Ht, <- Ed. by destruct b.
Qed.

Lemma drain_loop_ok D : forall E fuel p b n, (length D < fuel)%nat -> lseg (heap b) p (D ++ E) None -> NoDup (ids (D ++ E)) ->
  Forall (fun x => good_chain x.2) D -> last_with_datap b = datap_from First D ->
  0 <= n < StdString.size (bytes_of D) -> n < 2 ^ 64 ->
  exists D1 c ch D2 h m, D = D1 ++ (c, ch) :: D2 /\
    drain_loop fuel p n b = Ok (Some c, m, with_heap h (set_datap (datap_from First ((c, ch) :: D2)) b)) /\
    n = StdString.size (bytes_of D1) + m /\ 0 <= m < off ch /\ h ⊆ heap b /\
    lseg h (Some c) (((c, ch) :: D2) ++ E) None.
Proof.
  induction D as [|[c ch] D IH]; intros E fuel p b n Hf Hs Hn Hg Ed Hr Hr';
    [change (StdString.size (bytes_of [])) with 0 in Hr; lia |].
  destruct fuel as [|fuel]; [cbn in Hf; lia |]. pose proof Hs as Hs0. cbn [app lseg] in Hs. destruct Hs as (-> & Hc & Hs).
  apply Forall_cons in Hg as [Hgc Hg]. rewrite bytes_of_cons, StdString.size_app, (node_bytes_size (c, ch)) in Hr by done.
  change (node_off (c, ch)) with (off ch) in Hr. destruct (Z.ltb_spec n (off ch)) as [Hlt|Hge].
  - exists [], c, ch, D, (heap b), n. cbn [drain_loop not_null]. cbn [mbind res_bind]. rewrite (deref_ok _ _ _ Hc). cbn [mbind res_bind].
    rewrite (proj2 (Z.ltb_lt n (off ch)) Hlt), <- Ed. cbn.
    split; [done |]. split; [by destruct b |]. split; [done |]. split; [lia |]. split; [done |]. by split.
  - assert (D <> []) as HD by (intros ->; change (StdString.size (bytes_of [])) with 0 in Hr; lia).
    rewrite (drain_step fuel c ch D E) by (done || lia).
    assert (c ∉ ids (D ++ E)) as Hcn by by apply NoDup_cons in Hn as [? _].
    destruct (IH E fuel (next ch) (drained c D b) (n - off ch)) as (D1 & c' & ch' & D2 & h & m & -> & El & En & Hm & Hh & Hl).
    + cbn in Hf. lia.
    + by apply lseg_delete.
    + by apply NoDup_cons in Hn as [_ ?].
    + done.
    + done.
    + lia.
    + pose proof (gc_off _ Hgc) as Ho. cbn [snd] in Ho. lia.
    + exists ((c, ch) :: D1), c', ch', D2, h, m. split_and!; try done; try lia.
      * rewrite bytes_of_cons, StdString.size_app, (node_bytes_size (c, ch)) by done. change (node_off (c, ch)) with (off ch). lia.
      * etrans; [exact Hh | apply delete_subseteq].
Qed.

(** The order of the chains, and where [last_with_datap] points, only depend on the addresses. *)
Lemma last_id_ids L : last_id L = last (ids L).
Proof. unfold last_id, ids. induction L as [|x [|y L] IH]; done. Qed.

Lemma last_id_app L1 L2 : L2 <> [] -> last_id (L1 ++ L2) = last_id L2.
Proof.
  intros HL. rewrite !last_id_ids, ids_app. destruct (exists_last HL) as (L & x & ->).
  rewrite ids_app. change (ids [x]) with [x.1]. by rewrite app_assoc, !last_snoc.
Qed.

Lemma datap_from_ids D : forall D' prev, ids D = ids D' -> datap_from prev D = datap_from prev D'.
Proof.
  induction D as [|[c ch] D IH]; intros [|[c' ch'] D'] prev E; try done. cbn [ids map fst] in E. injection E as -> E.
  destruct D as [|[y chy] D], D' as [|[y' chy'] D']; try done. by apply (IH ((y', chy') :: D') (Next c')).
Qed.

Lemma size_nil_bytes : StdString.size (bytes_of []) = 0.
Proof. done. Qed.

Lemma bytes_of_nil_iff D : Forall (fun x => good_chain x.2) D -> Forall (fun x => 0 < node_off x) D ->
  StdString.size (bytes_of D) = 0 <-> D = [].
Proof.
  intros Hg Hd. split; [| by intros ->]. destruct D as [|x D]; [done |]. apply Forall_cons in Hg as [Hg _], Hd as [Hd _].
  rewrite bytes_of_cons, StdString.size_app, node_bytes_size by done. pose proof (StdString.size_nonneg (bytes_of D)). lia.
Qed.

Lemma rep_size b D E : rep b D E -> total_len b = StdString.size (bytes_of D).
Proof. intros []. by rewrite rep_total0, bytes_of_app, (bytes_of_empty E), app_nil_r. Qed.

(** The counters for callbacks are not part of what makes a buffer good. *)
Lemma rep_counts b D E a d : rep b D E -> rep (set_counts (total_len b) a d b) D E.
Proof. intros []. by constructor. Qed.

Lemma rep_zero b a d f h : (forall c, is_Some (h !! c) -> (c < fresh b)%positive) ->
  rep (mkBuffer None None First 0 a d (freeze_start b) f h (fresh b)) [] [].
Proof. intros Hf. constructor; cbn; try done. constructor. Qed.

Lemma bytes_prefix n D1 c ch D2 m : Forall (fun x => good_chain x.2) (D1 ++ (c, ch) :: D2) ->
  n = StdString.size (bytes_of D1) + m -> 0 <= m < off ch -> 0 <= n < StdString.size (bytes_of (D1 ++ (c, ch) :: D2)).
Proof.
  intros Hg -> Hm. apply Forall_app in Hg as [_ [Hg _]%Forall_cons]. rewrite bytes_of_app, StdString.size_app, bytes_of_cons, StdString.size_app.
  rewrite node_bytes_size by done. unfold node_off. cbn [snd].
  pose proof (StdString.size_nonneg (bytes_of D1)). pose proof (StdString.size_nonneg (bytes_of D2)). lia.
Qed.

Lemma drop_bytes n D1 c ch D2 m : Forall (fun x => good_chain x.2) (D1 ++ (c, ch) :: D2) ->
  n = StdString.size (bytes_of D1) + m -> 0 <= m < off ch ->
  bytes_of ((c, advanced m ch) :: D2) = drop (Z.to_nat n) (bytes_of (D1 ++ (c, ch) :: D2)).
Proof.
  intros Hg -> Hm. apply Forall_app in Hg as [Hg1 [Hg _]%Forall_cons]. pose proof (StdString.size_nonneg (bytes_of D1)).
  rewrite bytes_of_app, !bytes_of_cons, (advanced_bytes _ c) by (done || lia).
  rewrite drop_app_ge by (unfold StdString.size in *; lia). rewrite drop_app_le.
  - f_equal. f_equal. unfold StdString.size in *. lia.
  - pose proof (node_bytes_size (c, ch) Hg) as Hs. unfold node_off, StdString.size in *. cbn [snd] in Hs. lia.
Qed.

(** The buffer after a partial [evbuffer_drain], up to the counters. *)
Lemma rep_drained b D1 c ch D2 E m h : rep b (D1 ++ (c, ch) :: D2) E -> 0 <= m < off ch -> h ⊆ heap b ->
  lseg h (Some c) (((c, ch) :: D2) ++ E) None ->
  forall n a d, n = StdString.size (bytes_of D1) + m ->
  rep (mkBuffer (Some c) (lastp b) (datap_from First ((c, ch) :: D2)) (total_len b - n) a d
        (freeze_start b) (freeze_end b) (<[c := advanced m ch]> h) (fresh b)) ((c, advanced m ch) :: D2) E.
Proof.
  intros Hr Hm Hh Hl n a d En. pose proof (rep_size _ _ _ Hr) as Ht. destruct Hr.
  rewrite <- (app_assoc D1) in *. change (((c, ch) :: D2) ++ E) with ((c, ch) :: D2 ++ E) in *.
  rewrite ids_app in rep_nodup0. apply NoDup_app in rep_nodup0 as (_ & _ & Hn). pose proof Hn as Hn'.
  cbn [ids map fst] in Hn'. apply NoDup_cons in Hn' as [Hc Hn']. apply Forall_app in rep_good0 as [Hg1 Hg].
  pose proof Hg as [Hgc Hg2]%Forall_cons. apply Forall_app in rep_data0 as [Hd1 [_ Hd2]%Forall_cons].
  assert (Forall (fun x => good_chain x.2) (D1 ++ (c, ch) :: D2)) as HgD.
  { apply Forall_app. split; [done |]. constructor; [done |]. by apply Forall_app in Hg2 as [? _]. }
  assert (Forall (fun x => good_chain x.2) ((c, advanced m ch) :: D2 ++ E)) as Hg'
    by (constructor; [by apply advanced_good | done]).
  constructor; cbn [heap first lastp last_with_datap total_len]; try done.
  - cbn [app lseg] in *. destruct Hl as (_ & Hch & Hl). split; [done |]. split; [apply lookup_insert_eq |].
    apply lseg_insert; done.
  - intros x [y [[<- _]|[_ Hy]]%lookup_insert_Some]; apply rep_fresh0.
    + exists ch. eapply (lseg_lookup _ _ _ _ c ch) in rep_seg0; [done |]. apply elem_of_app. right. left.
    + exists y. by eapply lookup_weaken.
  - rewrite rep_last0, last_id_app by done. by rewrite !last_id_ids.
  - constructor; [unfold node_off; cbn; lia | done].
  - pose proof (drop_bytes n D1 c ch D2 m HgD En Hm) as Hb. change (((c, advanced m ch) :: D2) ++ E) with ((c, advanced m ch) :: D2 ++ E).
    rewrite app_comm_cons, bytes_of_app, (bytes_of_empty E), app_nil_r, Hb, Ht by done.
    pose proof (bytes_prefix n D1 c ch D2 m HgD En Hm). unfold StdString.size in *. rewrite length_drop. lia.
  - pose proof (StdString.size_nonneg (bytes_of D1)). lia.
Qed.

Lemma not_pinned b D E : rep b D E -> HAS_PINNED_R b = Ok false.
Proof.
  intros []. unfold HAS_PINNED_R. rewrite rep_last0. unfold last_id. destruct (last (D ++ E)) as [[c ch]|] eqn:El; [| done].
  cbn [fmap option_fmap option_map fst]. assert ((c, ch) ∈ D ++ E) as Hin by by apply last_Some_elem_of.
  rewrite (deref_ok c ch) by by eapply lseg_lookup. cbn [mbind res_bind].
  by rewrite good_pinned_r by exact (proj1 (Forall_forall _ _) rep_good0 _ Hin).
Qed.

Lemma drain_rep b D E n : rep b D E -> 0 <= n -> freeze_start b = false ->
  exists b' D' E', evbuffer_drain n b = Ok (0, b') /\ rep b' D' E' /\ bytes_of D' = drop (Z.to_nat n) (bytes_of D) /\
    freeze_start b' = freeze_start b /\ freeze_end b' = freeze_end b.
Proof.
  intros Hr Hn Hfz. pose proof (rep_size _ _ _ Hr) as Ht. unfold evbuffer_drain. destruct (Z.eqb_spec (total_len b) 0) as [E0|E0].
  { exists b, D, E. split_and!; try done. rewrite drop_ge; [| unfold StdString.size in *; lia]. unfold StdString.size in *.
    destruct (bytes_of D); [done | cbn in *; lia]. }
  rewrite Hfz, (not_pinned _ _ _ Hr). cbn [mbind res_bind negb]. rewrite andb_true_r.
  destruct (Z.leb_spec (total_len b) n) as [Hle|Hlt].
  - unfold evbuffer_free_all_chains.
    destruct (free_all_ok (D ++ E) (fuel_of b) (first b) b) as (h & Ef & Hh & _); [by eapply rep_fuel | apply Hr.. |].
    rewrite Ef. cbn [mbind res_bind]. eexists _, [], []. split; [reflexivity |]. split; [| split; [| done]].
    + apply rep_counts, rep_zero. eapply fresh_subset; [exact Hh | apply Hr].
    + rewrite drop_ge; [done |]. unfold StdString.size in *. lia.
  - set (b0 := set_counts _ _ _ b). pose proof (rep_fuel _ _ _ Hr) as Hf. rewrite length_app in Hf.
    assert (Forall (fun x => good_chain x.2) D) as HgD by (pose proof (rep_good _ _ _ Hr) as H; by apply Forall_app in H as [? _]).
    destruct (drain_loop_ok D E (fuel_of b) (first b) b0 n) as (D1 & c & ch & D2 & h & m & ED & El & En & Hm & Hh & Hl).
    { lia. }
    { apply Hr. }
    { apply Hr. }
    { exact HgD. }
    { apply Hr. }
    { lia. }
    { pose proof (rep_bound _ _ _ Hr). unfold EV_SIZE_MAX in *. lia. }
    change (fuel_of b0) with (fuel_of b). change (first b0) with (first b). rewrite El. cbn [mbind res_bind not_null].
    pose proof Hl as (_ & Hc & _). rewrite (deref_ok c ch) by exact Hc. cbn [mbind res_bind].
    rewrite (proj2 (Z.leb_le m (off ch))) by lia. cbn [negb mbind res_bind]. subst D.
    assert (good_chain ch) as Hg by (apply Forall_app in HgD as [_ [? _]%Forall_cons]; done).
    pose proof (good_small _ Hg). rewrite (u64_small (off ch - m)) by lia.
    pose proof (StdString.size_nonneg (bytes_of D1)). pose proof (rep_bound _ _ _ Hr).
    assert (total_len b0 = total_len b - n) as Hb0 by (apply u64_small; unfold EV_SIZE_MAX in *; lia).
    eexists _, ((c, advanced m ch) :: D2), E. split; [reflexivity |]. split; [| split; [by eapply drop_bytes | done]].
    change (total_len b0) with (u64 (total_len b - n)) in Hb0. cbn. rewrite Hb0. by eapply (rep_drained b D1 c ch D2 E m h).
Qed.

(** ** Reading *)
Lemma copyout_ok L : forall fuel p n acc b, (length L < fuel)%nat -> lseg (heap b) p L None ->
  Forall (fun x => good_chain x.2) L -> 0 <= n <= StdString.size (bytes_of L) -> n < 2 ^ 64 ->
  copyout_loop fuel p n acc b = Ok (acc ++ take (Z.to_nat n) (bytes_of L)).
Proof.
  induction L as [|[c ch] L IH]; intros fuel p n acc b Hf Hs Hg Hn Hn'; (destruct fuel as [|fuel]; [cbn in Hf; lia |]).
  - rewrite size_nil_bytes in Hn. replace n with 0 by lia. cbn. by rewrite app_nil_r.
  - cbn [lseg] in Hs. destruct Hs as (-> & Hc & Hs). apply Forall_cons in Hg as [Hgc Hg]. cbn [snd] in Hgc.
    rewrite bytes_of_cons, StdString.size_app, (node_bytes_size (c, ch)) in Hn by done. change (node_off (c, ch)) with (off ch) in Hn.
    pose proof (node_bytes_size (c, ch) Hgc) as Hsz. change (node_off (c, ch)) with (off ch) in Hsz.
    pose proof (good_small _ Hgc) as Hsm. rewrite bytes_of_cons. cbn [copyout_loop not_null].
    destruct (Z.eqb_spec n 0) as [->|Hn0]; [cbn; by rewrite app_nil_r |]. cbn [mbind res_bind].
    rewrite (deref_ok c ch) by done. cbn [mbind res_bind]. destruct (Z.leb_spec (off ch) n) as [Hle|Hlt].
    + rewrite (copy_node _ c) by (done || lia). cbn [mbind res_bind]. rewrite u64_small by lia.
      rewrite (take_ge (node_bytes (c, ch))) by (unfold StdString.size in *; lia).
      assert (bool_decide (next ch <> None) || (n - off ch =? 0) = true) as ->.
      { apply orb_true_iff. destruct L as [|[c2 ch2] L].
        - right. apply Z.eqb_eq. rewrite size_nil_bytes in Hn. lia.
        - left. apply bool_decide_eq_true_2. destruct Hs as (-> & _). done. }
      cbn [negb]. rewrite (IH fuel) by (done || cbn in Hf; lia). f_equal. rewrite <- app_assoc. f_equal.
      rewrite firstn_app, (take_ge (node_bytes _)) by (unfold StdString.size in *; lia). f_equal. f_equal.
      unfold StdString.size in *. lia.
    + rewrite (copy_node _ c) by (done || lia). cbn [mbind res_bind]. f_equal. f_equal.
      rewrite take_app_le; [done |]. unfold StdString.size in *. lia.
Qed.

Lemma copyout_rep b D E n : rep b D E -> 0 <= n -> freeze_start b = false ->
  exists r, evbuffer_copyout n b = Ok (r, take (Z.to_nat n) (bytes_of D)) /\
    r = i64 (Z.min n (StdString.size (bytes_of D))).
Proof.
  intros Hr Hn Hfz. pose proof (rep_size _ _ _ Hr) as Ht. pose proof (StdString.size_nonneg (bytes_of D)).
  unfold evbuffer_copyout. set (m := if total_len b <? n then total_len b else n).
  assert (m = Z.min n (StdString.size (bytes_of D))) as Em by (unfold m; case_bool; lia).
  assert (take (Z.to_nat n) (bytes_of D) = take (Z.to_nat m) (bytes_of D)) as ->.
  { rewrite Em. destruct (Z.le_ge_cases n (StdString.size (bytes_of D))); [by rewrite Z.min_l |].
    rewrite Z.min_r by done. rewrite !take_ge; [done |..]; unfold StdString.size in *; lia. }
  destruct (Z.eqb_spec m 0) as [E0|E0]; [exists 0; rewrite <- Em, E0; by split |]. rewrite Hfz.
  rewrite (copyout_ok (D ++ E)).
  - rewrite bytes_of_app, (bytes_of_empty E), app_nil_r by apply Hr. cbn [mbind res_bind app]. exists (i64 m). by rewrite <- Em.
  - pose proof (rep_fuel _ _ _ Hr). lia.
  - apply Hr.
  - apply Hr.
  - rewrite bytes_of_app, (bytes_of_empty E), app_nil_r by apply Hr. lia.
  - pose proof (rep_bound _ _ _ Hr). unfold EV_SIZE_MAX in *. lia.
Qed.

Lemma remove_rep b D E n : rep b D E -> 0 <= n -> freeze_start b = false -> total_len b < 2 ^ 63 ->
  exists r b' D' E', evbuffer_remove n b = Ok (r, take (Z.to_nat n) (bytes_of D), b') /\ rep b' D' E' /\
    bytes_of D' = drop (Z.to_nat n) (bytes_of D) /\ r = i32 (Z.min n (StdString.size (bytes_of D))) /\
    freeze_start b' = freeze_start b /\ freeze_end b' = freeze_end b.
Proof.
  intros Hr Hn Hfz Hb. pose proof (rep_size _ _ _ Hr) as Ht. pose proof (StdString.size_nonneg (bytes_of D)).
  destruct (copyout_rep b D E n Hr Hn Hfz) as (r & E1 & ->). unfold evbuffer_remove. rewrite E1. cbn [mbind res_bind].
  rewrite i64_small by lia. destruct (Z.ltb_spec 0 (Z.min n (StdString.size (bytes_of D)))) as [Hpos|H0].
  - destruct (drain_rep b D E (Z.min n (StdString.size (bytes_of D))) Hr) as (b' & D' & E' & E2 & Hr' & Hd & Hf1 & Hf2); [lia | done |].
    rewrite E2. cbn [mbind res_bind]. eexists _, b', D', E'. split; [reflexivity |]. split; [done |]. split; [| done].
    rewrite Hd. destruct (Z.le_ge_cases n (StdString.size (bytes_of D))); [by rewrite Z.min_l |].
    rewrite Z.min_r by done. rewrite !drop_ge; [done |..]; unfold StdString.size in *; lia.
  - eexists _, b, D, E. split; [reflexivity |]. split; [done |]. split; [| done].
    destruct (decide (n = 0)) as [->|]; [done |]. rewrite drop_ge by (unfold StdString.size in *; lia).
    unfold StdString.size in *. destruct (bytes_of D); [done | cbn in *; lia].
Qed.

(** ** Writing into a block *)
Definition patch (pos : Z) (x d : str) : str :=
  take (Z.to_nat pos) d ++ x ++ drop (Z.to_nat (pos + StdString.size x)) d.

Lemma copy_to_ok d pos x : 0 <= pos -> pos + StdString.size x <= StdString.size d -> copy_to d pos x = Ok (patch pos x d).
Proof. intros H1 H2. unfold copy_to. by rewrite (proj2 (Z.leb_le _ _) H1), (proj2 (Z.leb_le _ _) H2). Qed.

Lemma patch_size pos x d : 0 <= pos -> pos + StdString.size x <= StdString.size d -> StdString.size (patch pos x d) = StdString.size d.
Proof. intros H1 H2. unfold patch, StdString.size in *. rewrite !length_app, length_take, length_drop. lia. Qed.

Lemma patch_nil pos d : 0 <= pos -> patch pos [] d = d.
Proof. intros H. unfold patch. change (StdString.size []) with 0. rewrite Z.add_0_r. apply take_drop. Qed.

Lemma patch_patch pos x y d : 0 <= pos -> pos + StdString.size x + StdString.size y <= StdString.size d ->
  patch (pos + StdString.size x) y (patch pos x d) = patch pos (x ++ y) d.
Proof.
  intros H1 H2. unfold patch. rewrite StdString.size_app. unfold StdString.size in *.
  rewrite (app_assoc (take _ _) x), take_app_length' by (rewrite length_app, length_take; lia).
  rewrite <- !app_assoc. do 3 f_equal. rewrite (app_assoc (take _ _) x), drop_app_ge by (rewrite length_app, length_take; lia).
  rewrite length_app, length_take, drop_drop. f_equal. lia.
Qed.

(** Reading back: what is before the write, and the write. *)
Lemma patch_read m o x d : 0 <= m -> 0 <= o -> m + o + StdString.size x <= StdString.size d ->
  take (Z.to_nat (o + StdString.size x)) (drop (Z.to_nat m) (patch (m + o) x d)) =
  take (Z.to_nat o) (drop (Z.to_nat m) d) ++ x.
Proof.
  intros H1 H2 H3. unfold patch, StdString.size in *. rewrite drop_app_le by (rewrite length_take; lia).
  rewrite skipn_firstn_comm, app_assoc, take_app_length'; [f_equal; f_equal; lia |].
  rewrite length_app, length_take, length_drop. lia.
Qed.

(** ** [evbuffer_pullup] *)
Lemma none_pinned_ok L : forall fuel p n b, (length L < fuel)%nat -> lseg (heap b) p L None ->
  Forall (fun x => good_chain x.2) L -> none_pinned fuel p n b = Ok true.
Proof.
  induction L as [|[c ch] L IH]; intros fuel p n b Hf Hs Hg; (destruct fuel as [|fuel]; [cbn in Hf; lia |]); cbn [lseg] in Hs.
  - by subst p.
  - destruct Hs as (-> & Hc & Hs). apply Forall_cons in Hg as [Hgc Hg]. cbn [none_pinned]. rewrite (deref_ok c ch) by done.
    cbn [mbind res_bind]. rewrite good_pinned by done. case_bool; [done |]. apply IH; [cbn in Hf; lia | done | done].
Qed.

(** One chain is copied and freed. *)
Definition gone_flags (lwd : option cid) (f : field) (L : list node) (s : pulled) : bool * bool :=
  (removed_last_with_data s || existsb (fun x => bool_decide (Some x.1 = lwd)) L,
   removed_last_with_datap s || existsb (fun x => bool_decide (f = Next x.1)) L).

Definition after_pull (lwd : option cid) (f : field) (L : list node) (p : option cid) (s : pulled) : pulled :=
  mkPulled p (pl_size s - StdString.size (bytes_of L)) (pl_pos s + StdString.size (bytes_of L))
    (gone_flags lwd f L s).1 (gone_flags lwd f L s).2.

Lemma after_pull_nil lwd f s : after_pull lwd f [] (pl_chain s) s = s.
Proof.
  destruct s. unfold after_pull, gone_flags. cbn. change (StdString.size (bytes_of [])) with 0.
  by rewrite Z.sub_0_r, Z.add_0_r, !orb_false_r.
Qed.

Lemma after_pull_cons lwd f x L p s : StdString.size (node_bytes x) = node_off x ->
  after_pull lwd f L p
    (mkPulled p (pl_size s - node_off x) (pl_pos s + node_off x)
       (removed_last_with_data s || bool_decide (Some x.1 = lwd))
       (removed_last_with_datap s || bool_decide (f = Next x.1))) = after_pull lwd f (x :: L) p s.
Proof.
  intros Hx. unfold after_pull, gone_flags. cbn [pl_size pl_pos removed_last_with_data removed_last_with_datap existsb fst snd].
  rewrite bytes_of_cons, StdString.size_app, Hx, !orb_assoc. f_equal; lia.
Qed.

Definition tmp_patched (t : cid) (tch : evbuffer_chain) (pos : Z) (x : str) : evbuffer_chain :=
  with_bytes (misalign tch) (off tch) (patch pos x (buffer tch)) tch.

Lemma pull_step fuel t lwd s b c ch tch : heap b !! c = Some ch -> good_chain ch -> pl_chain s = Some c -> c <> t ->
  heap b !! t = Some tch -> off ch <= pl_size s -> 0 <= pl_pos s -> pl_pos s + off ch <= StdString.size (buffer tch) ->
  pull_loop (S fuel) t lwd s b =
  pull_loop fuel t lwd
    (mkPulled (next ch) (pl_size s - off ch) (pl_pos s + off ch)
       (removed_last_with_data s || bool_decide (Some c = lwd)) (removed_last_with_datap s || bool_decide (last_with_datap b = Next c)))
    (with_heap (delete c (<[t := tmp_patched t tch (pl_pos s) (node_bytes (c, ch))]> (heap b))) b).
Proof.
  intros Hc Hg Ep Hct Ht Ho Hp Hb. cbn [pull_loop]. rewrite Ep, (deref_ok c ch) by done. cbn [mbind res_bind].
  rewrite (proj2 (Z.ltb_ge _ _)) by lia. pose proof (gc_off _ Hg). pose proof (node_bytes_size (c, ch) Hg) as Hsz.
  change (node_off (c, ch)) with (off ch) in Hsz. rewrite (copy_node _ c) by (done || lia).
  rewrite take_ge by (unfold StdString.size in *; lia). cbn [mbind res_bind]. rewrite (deref_ok t tch) by done. cbn [mbind res_bind].
  rewrite copy_to_ok by (done || lia). cbn [mbind res_bind]. rewrite (chain_free c ch); [done | | done].
  cbn. by rewrite lookup_insert_ne.
Qed.

Lemma tmp_patched_nil t tch pos : 0 <= pos -> tmp_patched t tch pos [] = tch.
Proof. intros Hp. unfold tmp_patched. rewrite patch_nil by done. by destruct tch. Qed.

Lemma pull_prefix G : forall fuel t tch lwd s b q, lseg (heap b) (pl_chain s) G q -> NoDup (ids G) -> t ∉ ids G ->
  heap b !! t = Some tch -> Forall (fun x => good_chain x.2) G -> StdString.size (bytes_of G) <= pl_size s ->
  0 <= pl_pos s -> pl_pos s + StdString.size (bytes_of G) <= StdString.size (buffer tch) ->
  exists h, pull_loop (length G + fuel) t lwd s b =
      pull_loop fuel t lwd (after_pull lwd (last_with_datap b) G q s) (with_heap h b) /\
    h !! t = Some (tmp_patched t tch (pl_pos s) (bytes_of G)) /\
    (forall c, c ∉ ids G -> c <> t -> h !! c = heap b !! c) /\
    (forall c, is_Some (h !! c) -> is_Some (heap b !! c)).
Proof.
  induction G as [|[c ch] G IH]; intros fuel t tch lwd s b q Hs Hn Ht Htc Hg Hsz Hp Hb.
  { cbn [lseg] in Hs. subst q. exists (heap b). rewrite after_pull_nil, tmp_patched_nil by done. split_and!; try done. by destruct b. }
  cbn [lseg] in Hs. destruct Hs as (Ec & Hc & Hs). apply Forall_cons in Hg as [Hgc Hg]. cbn [snd] in Hgc.
  cbn [ids map fst] in Hn, Ht. apply NoDup_cons in Hn as [Hcn Hn]. apply not_elem_of_cons in Ht as [Htc' Ht].
  pose proof (node_bytes_size (c, ch) Hgc) as Hx. change (node_off (c, ch)) with (off ch) in Hx.
  rewrite bytes_of_cons, StdString.size_app, Hx in Hsz, Hb. pose proof (gc_off _ Hgc). pose proof (StdString.size_nonneg (bytes_of G)).
  cbn [length Nat.add]. rewrite (pull_step _ t lwd s b c ch tch) by (done || lia).
  set (h1 := delete c (<[t := tmp_patched t tch (pl_pos s) (node_bytes (c, ch))]> (heap b))).
  set (s1 := mkPulled _ _ _ _ _).
  assert (h1 !! t = Some (tmp_patched t tch (pl_pos s) (node_bytes (c, ch)))) as Ht1
    by (unfold h1; rewrite lookup_delete_ne, lookup_insert_eq by done; done).
  destruct (IH fuel t (tmp_patched t tch (pl_pos s) (node_bytes (c, ch))) lwd s1 (with_heap h1 b) q) as (h & E & H1 & H2 & H3); try done.
  - apply lseg_delete, lseg_insert; done.
  - cbn [s1 pl_size]. lia.
  - cbn [s1 pl_pos]. lia.
  - cbn [s1 pl_pos tmp_patched with_bytes buffer]. rewrite patch_size by lia. lia.
  - exists h. split_and!.
    + rewrite E. cbn [with_heap last_with_datap]. unfold s1.
      pose proof (after_pull_cons lwd (last_with_datap b) (c, ch) G q s Hx) as Ea. change (node_off (c, ch)) with (off ch) in Ea.
      rewrite <- Ea. unfold after_pull at 1. cbn [pl_chain]. done.
    + rewrite H1. unfold tmp_patched. cbn [with_bytes misalign off buffer s1 pl_pos]. rewrite bytes_of_cons, <- patch_patch by lia. by rewrite Hx.
    + intros x Hxn Hxt. apply not_elem_of_cons in Hxn as [Hxc Hxn]. rewrite H2 by done. cbn [with_heap heap]. unfold h1.
      by rewrite lookup_delete_ne, lookup_insert_ne by done.
    + intros x Hxs%H3. cbn [with_heap heap] in Hxs. unfold h1 in Hxs. destruct (decide (x = c)) as [->|]; [by rewrite Hc |].
      rewrite lookup_delete_ne in Hxs by done. destruct (decide (x = t)) as [->|]; [by rewrite Htc |]. by rewrite lookup_insert_ne in Hxs.
Qed.

(** How far a number of bytes reaches into the chains. *)
Lemma split_at_bytes D n : Forall (fun x => good_chain x.2) D -> 0 <= n <= StdString.size (bytes_of D) ->
  exists D3 D4 m, D = D3 ++ D4 /\ n = StdString.size (bytes_of D3) + m /\ 0 <= m /\
    match D4 with [] => m = 0 | (c, ch) :: _ => m < off ch end.
Proof.
  revert n. induction D as [|[c ch] D IH]; intros n Hg Hn.
  - rewrite size_nil_bytes in Hn. exists [], [], 0. split_and!; try done. rewrite size_nil_bytes. lia.
  - apply Forall_cons in Hg as [Hgc Hg]. cbn [snd] in Hgc. pose proof (node_bytes_size (c, ch) Hgc) as Hx.
    change (node_off (c, ch)) with (off ch) in Hx. rewrite bytes_of_cons, StdString.size_app, Hx in Hn.
    destruct (Z.lt_ge_cases n (off ch)) as [Hlt|Hge].
    + exists [], ((c, ch) :: D), n. rewrite size_nil_bytes. split_and!; try done; lia.
    + destruct (IH (n - off ch) Hg) as (D3 & D4 & m & -> & En & Hm & H4); [lia |].
      exists ((c, ch) :: D3), D4, m. rewrite bytes_of_cons, StdString.size_app, Hx. split_and!; try done. lia.
Qed.

Lemma datap_app A B prev : (2 <= length B)%nat -> datap_from prev (A ++ B) = datap_from First B.
Proof.
  intros HB. revert prev. induction A as [|[a ach] A IH]; intros prev; cbn [app].
  - destruct B as [|[b1 c1] [|y B]]; cbn in HB; try lia. done.
  - assert (A ++ B <> []) as Hne by (destruct A, B; cbn in *; [lia | done..]). rewrite <- (IH (Next a)).
    by destruct (A ++ B).
Qed.

Lemma last_id_in L c : last_id L = Some c -> c ∈ ids L.
Proof. rewrite last_id_ids. apply last_Some_elem_of. Qed.

Lemma last_id_some L : L <> [] -> exists c, last_id L = Some c /\ c ∈ ids L.
Proof.
  intros HL. destruct (last_id L) as [c|] eqn:E; [exists c; split; [done | by apply last_id_in] |].
  exfalso. apply HL. unfold last_id in E. destruct (last L) eqn:E2; [done |]. by apply last_None in E2.
Qed.

Lemma datap_snoc A x prev : datap_from prev (A ++ [x]) = match last_id A with Some a => Next a | None => prev end.
Proof.
  revert prev. induction A as [|[a ach] A IH]; intros prev; cbn [app]; [by destruct x |].
  assert (A ++ [x] <> []) as Hne by by destruct A.
  transitivity (datap_from (Next a) (A ++ [x])); [by destruct (A ++ [x]) |]. rewrite IH.
  destruct A as [|y A]; [done |]. change ((a, ach) :: y :: A) with ([(a, ach)] ++ (y :: A)).
  rewrite last_id_app by done. by destruct (last_id_some (y :: A)) as (c & -> & _).
Qed.

Lemma existsb_id (P : cid -> bool) L : (forall c, c ∈ ids L -> P c = false) -> existsb (fun x : node => P x.1) L = false.
Proof.
  intros H. induction L as [|[c ch] L IH]; [done |]. cbn. rewrite (H c) by left. apply IH. intros x Hx. apply H. by right.
Qed.

Lemma existsb_id_true (P : cid -> bool) L c : c ∈ ids L -> P c = true -> existsb (fun x : node => P x.1) L = true.
Proof.
  intros Hin Hc. apply existsb_exists. apply list_elem_of_fmap in Hin as (x & -> & Hx). exists x. split; [by apply list_elem_of_In | done].
Qed.

Lemma has_last D E : D <> [] -> existsb (fun x : node => bool_decide (Some x.1 = last_id D)) (D ++ E) = true.
Proof.
  intros HD. destruct (last_id_some D HD) as (c & El & Hc). apply list_elem_of_fmap in Hc as (x & -> & Hx).
  apply existsb_exists. exists x. split; [apply list_elem_of_In, elem_of_app; by left | by apply bool_decide_eq_true_2].
Qed.

Lemma existsb_none {A} (P : A -> bool) L : (forall y, y ∈ L -> P y = false) -> existsb P L = false.
Proof.
  intros H. induction L as [|y L IH]; [done |]. cbn. rewrite (H y) by left. apply IH. intros z Hz. apply H. by right.
Qed.

Lemma in_ids (y : node) L : y ∈ L -> y.1 ∈ ids L.
Proof. intros Hy. by apply list_elem_of_fmap_2. Qed.

(** The last chain with data is not among those copied whole. *)
Lemma last_kept D3 x D5 : NoDup (ids (D3 ++ x :: D5)) ->
  existsb (fun y : node => bool_decide (Some y.1 = last_id (D3 ++ x :: D5))) D3 = false.
Proof.
  intros Hn. apply existsb_none. intros y Hy%in_ids. apply bool_decide_eq_false_2. rewrite last_id_app by done.
  intros E. symmetry in E. apply last_id_in in E. rewrite ids_app in Hn. apply NoDup_app in Hn as (_ & Hn & _). by apply (Hn _ Hy).
Qed.

(** [last_with_datap], when the chain that it points into is gone: it was the last copied whole. *)
Lemma datap_removed A D3 x D5 : NoDup (ids (D3 ++ x :: D5)) -> (D3 = [] -> D5 = [] -> A <> []) ->
  let f := datap_from First (A ++ D3 ++ x :: D5) in
  let gone := existsb (fun y : node => bool_decide (f = Next y.1)) D3 in
  if gone then D5 = [] else
  (D5 <> [] /\ f = datap_from First (x :: D5)) \/ (D5 = [] /\ D3 = [] /\ exists a, last_id A = Some a /\ f = Next a).
Proof.
  intros Hn Hne f gone. destruct D5 as [|y D5].
  - destruct D3 as [|z D3]; [right | destruct gone eqn:Eg; [done | exfalso]].
    + split; [done |]. split; [done |]. destruct (last_id_some A) as (a & Ea & _); [by apply Hne |]. exists a. split; [done |].
      unfold f. cbn [app]. by rewrite datap_snoc, Ea.
    + destruct (last_id_some (z :: D3)) as (c & Ec & Hc); [done |]. assert (f = Next c) as Ef.
      { unfold f. rewrite app_assoc, datap_snoc, last_id_app by done. by rewrite Ec. }
      apply list_elem_of_fmap in Hc as (w & -> & Hw). enough (gone = true) by congruence. apply existsb_exists.
      exists w. split; [by apply list_elem_of_In | by apply bool_decide_eq_true_2].
  - assert (f = datap_from First (x :: y :: D5)) as Ef by (unfold f; rewrite app_assoc; apply datap_app; cbn; lia).
    assert (gone = false) as ->; [| by left]. apply existsb_none. intros w Hw%in_ids. apply bool_decide_eq_false_2. rewrite Ef. intros Ew.
    apply datap_next_in in Ew as (L & z & EL & Hin). rewrite ids_app in Hn. apply NoDup_app in Hn as (_ & Hn & _).
    apply (Hn _ Hw). rewrite EL, ids_app. apply elem_of_app. by left.
Qed.

Lemma take_split D3 x xch D5 m : good_chain xch -> 0 <= m < off xch ->
  take (Z.to_nat (StdString.size (bytes_of D3) + m)) (bytes_of (D3 ++ (x, xch) :: D5)) =
  bytes_of D3 ++ take (Z.to_nat m) (node_bytes (x, xch)).
Proof.
  intros Hx Hm. pose proof (node_bytes_size (x, xch) Hx) as Hs. change (node_off (x, xch)) with (off xch) in Hs.
  pose proof (StdString.size_nonneg (bytes_of D3)). rewrite bytes_of_app, bytes_of_cons. unfold StdString.size in *.
  rewrite take_app_ge, take_app_le by lia. do 2 f_equal. lia.
Qed.

(** The chain that the bytes were pulled into. *)
Definition pulled_chain (tch : evbuffer_chain) (pos : Z) (x : str) (p : option cid) : evbuffer_chain :=
  with_next p (with_bytes (misalign tch) (off tch) (patch pos x (buffer tch)) tch).

(** [k] bytes at a pointer into a chain. *)
Definition read_at (q : cid * Z) (k : Z) (b : evbuffer) : str :=
  match heap b !! q.1 with Some ch => take (Z.to_nat k) (drop (Z.to_nat q.2) (buffer ch)) | None => [] end.

Section PullInto.
Context (b : evbuffer) (t : cid) (tch : evbuffer_chain) (D0 D2 E : list node) (p : option cid) (o n : Z).
Context (Ht : heap b !! t = Some tch) (Hgt : good_chain tch) (Ho : 0 <= o) (Hon : off tch = o + n).
Context (Hs : lseg (heap b) p (D2 ++ E) None) (Hn : NoDup (ids (D2 ++ E))) (Htn : t ∉ ids (D2 ++ E)).
Context (Hg : Forall (fun x => good_chain x.2) (D2 ++ E)) (Hd : Forall (fun x => 0 < node_off x) D2)
  (He : Forall (fun x => node_off x = 0) E).
Context (Hfirst : first b = Some t) (Hlast : lastp b = last_id (D2 ++ E))
  (Hdatap : last_with_datap b = datap_from First (D0 ++ D2)) (HD0 : D0 = [] \/ ids D0 = [t])
  (Hload : load (last_with_datap b) b = Ok (last_id D2)).
Context (Hfresh : forall c, is_Some (heap b !! c) -> (c < fresh b)%positive)
  (Htotal : total_len b = o + StdString.size (bytes_of D2)) (Hbound : total_len b <= EV_SIZE_MAX).

Let pos : Z := misalign tch + o.
Let s0 : pulled := mkPulled p n pos false false.

Lemma pulled_good x q : StdString.size x = n -> 0 <= n -> good_chain (pulled_chain tch pos x q).
Proof.
  intros Hx Hn0. destruct Hgt. constructor; cbn; try done. rewrite patch_size; [done | unfold pos; lia | unfold pos; lia].
Qed.

Lemma pulled_bytes x q : StdString.size x = n -> 0 <= n ->
  node_bytes (t, pulled_chain tch pos x q) = take (Z.to_nat o) (drop (Z.to_nat (misalign tch)) (buffer tch)) ++ x.
Proof.
  intros Hx Hn0. destruct Hgt. unfold node_bytes. cbn. rewrite Hon, <- Hx. unfold pos. rewrite patch_read; [done | lia..].
Qed.

(** Everything is pulled up. *)
Lemma pull_into_all : 0 < n -> n = StdString.size (bytes_of D2) ->
  exists b', pull_into t p n pos b = Ok (Some (t, misalign tch), b') /\
    rep b' [(t, pulled_chain tch pos (bytes_of D2) None)] [] /\
    freeze_start b' = freeze_start b /\ freeze_end b' = freeze_end b.
Proof.
  intros Hn0 En. unfold pull_into. rewrite Hload. cbn [mbind res_bind]. fold s0.
  assert (StdString.size (bytes_of (D2 ++ E)) = n) as Hsz by by rewrite bytes_of_app, (bytes_of_empty E), app_nil_r.
  pose proof (lseg_size _ _ _ _ Hs Hn) as Hf. destruct Hgt.
  destruct (pull_prefix (D2 ++ E) (base.size (heap b) - length (D2 ++ E) + 1) t tch (last_id D2) s0 b None Hs Hn Htn Ht Hg)
    as (h & Ep & H1 & H2 & H3); [cbn; lia | cbn; unfold pos; lia | cbn; unfold pos; lia |].
  replace (fuel_of b) with (length (D2 ++ E) + (base.size (heap b) - length (D2 ++ E) + 1))%nat by (unfold fuel_of; lia).
  rewrite Ep. set (s1 := after_pull _ _ _ _ _). rewrite Nat.add_1_r.
  cbn [pull_loop]. change (pl_chain s1) with (@None cid). cbn [mbind res_bind]. change (pl_chain s1) with (@None cid). cbn [mbind res_bind].
  rewrite (deref_ok t _ (set_last (Some t) (with_heap h b)) H1). cbn [mbind res_bind].
  assert (removed_last_with_data s1 = true) as ->.
  { apply (has_last D2 E). intros ->. rewrite size_nil_bytes in En. lia. }
  cbn [mbind res_bind]. unfold deref at 1. cbn [heap set_datap put_chain]. rewrite lookup_insert_eq. cbn [mbind res_bind].
  eexists. split; [reflexivity |]. split; [| done].
  assert (tmp_patched t tch (pl_pos s0) (bytes_of (D2 ++ E)) = tmp_patched t tch pos (bytes_of D2)) as Etp
    by by rewrite bytes_of_app, (bytes_of_empty E), app_nil_r.
  rewrite Etp. pose proof (pulled_good (bytes_of D2) None (eq_sym En) ltac:(lia)) as Hgood.
  constructor; cbn [heap first lastp last_with_datap total_len app ids map fst set_datap put_chain set_last with_heap fresh]; try done.
  - split; [done |]. split; [apply lookup_insert_eq | done].
  - by repeat constructor; set_solver.
  - intros c [y [[<- _]|[_ Hy]]%lookup_insert_Some]; apply Hfresh; [by eexists | apply H3; by eexists].
  - by constructor.
  - constructor; [| done]. unfold node_off. cbn. lia.
  - rewrite Htotal, bytes_of_cons. change (bytes_of []) with (@nil ascii). rewrite app_nil_r, (node_bytes_size (t, _)) by exact Hgood.
    unfold node_off. cbn. lia.
Qed.

(** The bytes pulled up end within a chain. *)
Lemma pull_into_loop D3 x xch D5 m : D2 = D3 ++ (x, xch) :: D5 -> n = StdString.size (bytes_of D3) + m -> 0 <= m < off xch ->
  exists h, pull_loop (fuel_of b) t (last_id D2) s0 b =
      Ok (mkPulled (Some x) m (pos + StdString.size (bytes_of D3)) false
            (existsb (fun y => bool_decide (last_with_datap b = Next y.1)) D3), with_heap h b) /\
    h !! t = Some (tmp_patched t tch pos (bytes_of D3)) /\ lseg h (Some x) ((x, xch) :: D5 ++ E) None /\
    forall c, is_Some (h !! c) -> is_Some (heap b !! c).
Proof.
  intros ED En Hm. destruct Hgt. pose proof (lseg_size _ _ _ _ Hs Hn) as Hf. rewrite ED in Hs, Hn, Htn, Hg, Hf.
  rewrite <- app_assoc in Hs, Hn, Htn, Hg, Hf. rewrite length_app in Hf. cbn [app length] in Hs, Hn, Htn, Hg, Hf.
  apply lseg_app in Hs as (q & Hs3 & Hs5). pose proof Hs5 as (-> & Hx & _). pose proof Hn as Hn0.
  rewrite ids_app in Hn0, Htn. apply NoDup_app in Hn0 as (Hn3 & Hn35 & Hn5). apply not_elem_of_app in Htn as [Ht3 Ht5].
  apply Forall_app in Hg as [Hg3 Hg5]. pose proof (StdString.size_nonneg (bytes_of D3)).
  destruct (pull_prefix D3 (S (base.size (heap b) - length D3)) t tch (last_id D2) s0 b (Some x) Hs3 Hn3 Ht3 Ht Hg3)
    as (h & Ep & H1 & H2 & H3); [cbn; lia | cbn; unfold pos; lia | cbn; unfold pos; lia |].
  assert (lseg h (Some x) ((x, xch) :: D5 ++ E) None) as Hs'.
  { apply (lseg_frame (heap b)); [| exact Hs5]. intros c Hc. apply H2; [intros Hc3; by apply (Hn35 c) | by intros ->]. }
  exists h. split; [| done]. replace (fuel_of b) with (length D3 + S (base.size (heap b) - length D3))%nat by (unfold fuel_of; lia).
  rewrite Ep. set (s1 := after_pull _ _ _ _ _). cbn [pull_loop]. change (pl_chain s1) with (Some x). cbn [mbind res_bind].
  rewrite (deref_ok x xch) by exact (proj1 (proj2 Hs')). cbn [mbind res_bind].
  assert (pl_size s1 = m) as Em by (cbn; lia). rewrite Em, (proj2 (Z.ltb_lt _ _)) by lia. do 2 f_equal.
  unfold s1, after_pull, gone_flags. cbn [fst snd s0 pl_size pl_pos removed_last_with_data removed_last_with_datap orb].
  f_equal; [lia |]. rewrite ED. apply last_kept. rewrite app_comm_cons, app_assoc, ids_app in Hn. by apply NoDup_app in Hn as (? & _).
Qed.

(** Where [last_with_datap] ends up. *)
Lemma pull_into_datap D3 x xch D5 : D2 = D3 ++ (x, xch) :: D5 ->
  datap_from First ((t, tch) :: (x, xch) :: D5) =
  if existsb (fun y => bool_decide (last_with_datap b = Next y.1)) D3 then Next t else last_with_datap b.
Proof.
  intros ED. assert (NoDup (ids (D3 ++ (x, xch) :: D5))) as HnD.
  { rewrite <- ED. rewrite ids_app in Hn. by apply NoDup_app in Hn as (? & _). }
  assert (x <> t) as Hxt.
  { intros ->. apply Htn. rewrite ED, !ids_app, !elem_of_app. left. right. by left. }
  assert (D3 = [] -> D5 = [] -> D0 <> []) as Hne.
  { intros -> -> ->. rewrite Hdatap, ED in Hload. cbn in Hload. rewrite Hfirst in Hload. congruence. }
  pose proof (datap_removed D0 D3 (x, xch) D5 HnD Hne) as H. rewrite <- ED, <- Hdatap in H. cbv zeta in H.
  destruct (existsb _ _); [by subst D5 |]. destruct H as [[H5 ->]|(-> & -> & a & Ea & ->)].
  - change ((t, tch) :: (x, xch) :: D5) with ([(t, tch)] ++ (x, xch) :: D5). apply datap_app. destruct D5; [done | cbn; lia].
  - destruct HD0 as [->|E0]; [done |]. rewrite last_id_ids, E0 in Ea. by injection Ea as <-.
Qed.

(** What is left when the bytes pulled up end within the chain [x]. *)
Lemma pulled_rep D3 x xch D5 m h : D2 = D3 ++ (x, xch) :: D5 -> n = StdString.size (bytes_of D3) + m -> 0 <= m < off xch -> 0 < n ->
  lseg h (Some x) ((x, xch) :: D5 ++ E) None -> (forall c, is_Some (h !! c) -> is_Some (heap b !! c)) ->
  let T := pulled_chain tch pos (take (Z.to_nat n) (bytes_of D2)) (Some x) in
  rep (mkBuffer (Some t) (lastp b) (datap_from First ((t, tch) :: (x, xch) :: D5)) (total_len b) (n_add_for_cb b) (n_del_for_cb b)
         (freeze_start b) (freeze_end b) (<[t := T]> (<[x := advanced m xch]> h)) (fresh b))
    ((t, T) :: (x, advanced m xch) :: D5) E.
Proof.
  intros ED En Hm Hn0 Hl H3 T. assert (StdString.size (take (Z.to_nat n) (bytes_of D2)) = n) as Hsz.
  { pose proof (bytes_prefix n D3 x xch D5 m) as H. rewrite <- ED in H. apply Forall_app in Hg as [Hg' _].
    specialize (H Hg' En Hm). unfold StdString.size in *. rewrite length_take. lia. }
  assert (good_chain T) as HT by (apply pulled_good; lia).
  pose proof Hn as Hn'. pose proof Hg as Hg'. pose proof Hd as Hd'. pose proof Htn as Ht'. pose proof Hlast as Hl'. pose proof Htotal as Htot.
  rewrite ED in Hn', Hg', Hd', Ht', Hl', Htot. rewrite <- app_assoc in Hn', Hg', Ht', Hl'. cbn [app] in Hn', Hg', Ht', Hl'.
  rewrite ids_app in Hn', Ht'. apply NoDup_app in Hn' as (_ & _ & Hn'). apply Forall_app in Hg' as [Hg3 Hg'], Hd' as [_ Hd'].
  apply not_elem_of_app in Ht' as [_ Ht']. rewrite last_id_app in Hl' by done. pose proof Hg' as [Hgx Hg5]%Forall_cons. cbn [snd] in Hgx.
  pose proof Hn' as Hnx. cbn [ids map fst] in Hnx, Ht'. apply NoDup_cons in Hnx as [Hx5 _]. apply not_elem_of_cons in Ht' as [Htx Ht5].
  constructor; cbn [heap first lastp last_with_datap total_len fresh]; try done.
  - cbn [app lseg] in *. destruct Hl as (_ & Hx & Hl). split; [done |]. split; [apply lookup_insert_eq |]. split; [done |].
    rewrite lookup_insert_ne by done. split; [apply lookup_insert_eq |]. apply lseg_insert; [done |]. by apply lseg_insert.
  - cbn [app ids map fst]. constructor; [by apply not_elem_of_cons | done].
  - intros c [y [[<- _]|[_ [[<- _]|[_ Hy]]%lookup_insert_Some]]%lookup_insert_Some]; apply Hfresh; [by eexists | | apply H3; by eexists].
    apply H3. exists xch. exact (proj1 (proj2 Hl)).
  - rewrite Hl'. rewrite !last_id_ids. cbn [app ids map fst]. by rewrite last_cons_cons.
  - constructor; [done |]. constructor; [by apply advanced_good | done].
  - apply Forall_cons in Hd' as [_ Hd']. constructor; [unfold node_off; cbn; lia |]. constructor; [unfold node_off; cbn; lia | done].
  - change (((t, T) :: (x, advanced m xch) :: D5) ++ E) with ((t, T) :: ((x, advanced m xch) :: D5) ++ E).
    rewrite Htot, bytes_of_cons, (bytes_of_app (_ :: _)), (bytes_of_empty E), app_nil_r, StdString.size_app by done.
    rewrite (node_bytes_size (t, T)) by exact HT. change (node_off (t, T)) with (off tch). rewrite Hon.
    apply Forall_app in Hg as [HgD _]. rewrite ED in HgD. rewrite (drop_bytes n D3 x xch D5 m HgD En Hm).
    pose proof (bytes_prefix n D3 x xch D5 m HgD En Hm). unfold StdString.size in *. rewrite length_drop. lia.
Qed.

Lemma pull_into_part D3 x xch D5 m : D2 = D3 ++ (x, xch) :: D5 -> n = StdString.size (bytes_of D3) + m -> 0 <= m < off xch -> 0 < n ->
  let T := pulled_chain tch pos (take (Z.to_nat n) (bytes_of D2)) (Some x) in
  exists b', pull_into t p n pos b = Ok (Some (t, misalign tch), b') /\ rep b' ((t, T) :: (x, advanced m xch) :: D5) E /\
    freeze_start b' = freeze_start b /\ freeze_end b' = freeze_end b.
Proof.
  intros ED En Hm Hn0 T. destruct (pull_into_loop D3 x xch D5 m ED En Hm) as (h & Ep & Ht1 & Hl & H3).
  pose proof (pulled_rep D3 x xch D5 m h ED En Hm Hn0 Hl H3) as Hr. rewrite (pull_into_datap D3 x xch D5 ED) in Hr. cbv zeta in Hr. fold T in Hr.
  pose proof Hl as (_ & Hx & _). assert (good_chain xch) as Hgx.
  { apply Forall_app in Hg as [HgD _]. rewrite ED in HgD. by apply Forall_app in HgD as [_ [? _]%Forall_cons]. }
  assert (x <> t) as Hxt by (intros ->; apply Htn; rewrite ED, !ids_app, !elem_of_app; left; right; by left).
  pose proof (good_small _ Hgx) as Hsm. pose proof (StdString.size_nonneg (bytes_of D3)). pose proof Hgt as [].
  assert (n <= off tch) as Hno by lia.
  unfold pull_into. rewrite Hload. cbn [mbind res_bind]. fold s0. rewrite Ep. cbn [mbind res_bind pl_chain pl_size pl_pos].
  rewrite (deref_ok x xch) by exact Hx. cbn [mbind res_bind]. rewrite (copy_node _ x) by (done || lia). cbn [mbind res_bind].
  rewrite (deref_ok t _ (with_heap h b) Ht1). cbn [mbind res_bind].
  assert (StdString.size (take (Z.to_nat m) (node_bytes (x, xch))) = m) as Hsm'.
  { pose proof (node_bytes_size (x, xch) Hgx) as Hs'. change (node_off (x, xch)) with (off xch) in Hs'.
    unfold StdString.size in *. rewrite length_take. lia. }
  rewrite copy_to_ok; [| unfold pos; lia | cbn; rewrite patch_size by (unfold pos; lia); unfold pos; lia].
  cbn [mbind res_bind tmp_patched with_bytes buffer]. rewrite patch_patch by (unfold pos; lia).
  rewrite <- (take_split D3 x xch D5 m Hgx Hm), <- En, <- ED, (u64_small (off xch - m)) by lia.
  set (w := with_bytes (misalign tch) (off tch) (patch pos (take (Z.to_nat n) (bytes_of D2)) (buffer tch)) tch).
  set (b1 := put_chain x _ _). assert (heap b1 !! t = Some w) as Ht2.
  { cbn. rewrite lookup_insert_ne by done. apply lookup_insert_eq. }
  rewrite (deref_ok t w) by exact Ht2. cbn [mbind res_bind]. change (with_next (Some x) w) with T.
  assert (heap (put_chain t T b1) = <[t := T]> (<[x := advanced m xch]> h)) as Eh.
  { cbn. rewrite (insert_insert_ne h x t), insert_insert_eq by done. done. }
  match goal with |- context [existsb ?f D3] => destruct (existsb f D3) end;
    cbn [removed_last_with_data removed_last_with_datap].
  - change (first (put_chain t T b1)) with (first b). rewrite Hfirst. cbn [mbind res_bind not_null].
    rewrite (deref_ok t T) by (rewrite Eh; apply lookup_insert_eq). cbn [mbind res_bind]. change (next T) with (Some x). cbn [mbind res_bind].
    rewrite (deref_ok x (advanced m xch)) by (rewrite Eh, lookup_insert_ne by done; apply lookup_insert_eq). cbn [mbind res_bind].
    assert (negb (off (advanced m xch) =? 0) = true) as -> by (apply negb_true_iff, Z.eqb_neq; cbn; lia). cbn [mbind res_bind].
    rewrite (deref_ok t T (set_datap _ _)) by (cbn [heap set_datap]; rewrite Eh; apply lookup_insert_eq). cbn [mbind res_bind].
    eexists. split; [reflexivity |]. split; [| done]. rewrite <- Eh, <- Hfirst in Hr. exact Hr.
  - cbn [mbind res_bind]. rewrite (deref_ok t T) by (rewrite Eh; apply lookup_insert_eq). cbn [mbind res_bind].
    eexists. split; [reflexivity |]. split; [| done]. rewrite <- Eh, <- Hfirst in Hr. exact Hr.
Qed.

(** What was in [t] and the bytes behind it are now at the pointer; the contents are the same. *)
Lemma pull_into_rep : 0 < n <= StdString.size (bytes_of D2) ->
  let pre := take (Z.to_nat o) (drop (Z.to_nat (misalign tch)) (buffer tch)) in
  exists b' D' E', pull_into t p n pos b = Ok (Some (t, misalign tch), b') /\ rep b' D' E' /\
    bytes_of D' = pre ++ bytes_of D2 /\
    read_at (t, misalign tch) (o + n) b' = pre ++ take (Z.to_nat n) (bytes_of D2) /\
    freeze_start b' = freeze_start b /\ freeze_end b' = freeze_end b.
Proof.
  intros Hn0 pre. pose proof Hg as [HgD _]%Forall_app.
  assert (forall b' x q D', rep b' ((t, pulled_chain tch pos x q) :: D') [] \/ rep b' ((t, pulled_chain tch pos x q) :: D') E ->
    StdString.size x = n -> read_at (t, misalign tch) (o + n) b' = pre ++ x) as Hread.
  { intros b' x q D' Hr Hx. unfold read_at. cbn [fst snd].
    assert (heap b' !! t = Some (pulled_chain tch pos x q)) as ->.
    { destruct Hr as [[Hr ?]|[Hr ?]]; apply (lseg_lookup _ _ _ _ t (pulled_chain tch pos x q)) in Hr; done || left. }
    unfold pre. rewrite <- (pulled_bytes x q Hx) by lia. unfold node_bytes. cbn. by rewrite Hon. }
  destruct (split_at_bytes D2 n HgD) as (D3 & D4 & m & ED & En & Hm & H4); [lia |].
  destruct D4 as [|[x xch] D5].
  - rewrite app_nil_r in ED. subst D3 m. rewrite Z.add_0_r in En. destruct (pull_into_all (proj1 Hn0) En) as (b' & E1 & Hr & Hf).
    eexists b', _, []. split; [exact E1 |]. split; [exact Hr |]. rewrite bytes_of_cons, (pulled_bytes _ None (eq_sym En)) by lia.
    change (bytes_of []) with (@nil ascii). rewrite app_nil_r. split; [done |]. split; [| done].
    rewrite (Hread _ (bytes_of D2) None []) by (by left || done). f_equal. rewrite take_ge; [done |].
    unfold StdString.size in *. lia.
  - destruct (pull_into_part D3 x xch D5 m ED En (conj Hm H4) (proj1 Hn0)) as (b' & E1 & Hr & Hf).
    assert (StdString.size (take (Z.to_nat n) (bytes_of D2)) = n) as Hsz by (unfold StdString.size in *; rewrite length_take; lia).
    eexists b', _, E. split; [exact E1 |]. split; [exact Hr |]. split; [| split; [by eapply Hread; [right |] | done]].
    rewrite bytes_of_cons, (pulled_bytes _ _ Hsz) by lia. fold pre. rewrite ED in HgD.
    rewrite (drop_bytes n D3 x xch D5 m HgD En (conj Hm H4)), <- ED, <- app_assoc, take_drop. done.
Qed.
End PullInto.

(** ** Allocation *)
Lemma double_ok fuel : forall a size, 0 < a -> size < 2 ^ 62 -> a < 2 ^ 62 -> size <= a * 2 ^ (Z.of_nat fuel) ->
  exists r, double_to (S fuel) a size = Ok r /\ size <= r /\ a <= r /\ (r = a \/ r < 2 * size).
Proof.
  induction fuel as [|fuel IH]; intros a size Ha Hs Hb Hf.
  - exists a. cbn [double_to]. rewrite (proj2 (Z.ltb_ge _ _)) by (cbn in Hf; lia). cbn in Hf. split; [done | lia].
  - cbn [double_to]. destruct (Z.ltb_spec a size) as [Hlt|Hge]; [| exists a; split; [done | lia]].
    rewrite Z.shiftl_mul_pow2, u64_small by lia. change (2 ^ 1) with 2.
    destruct (Z.lt_ge_cases (a * 2) (2 ^ 62)) as [H2|H2].
    + destruct (IH (a * 2) size) as (r & Er & H3 & H4 & H5); try lia.
      { rewrite Nat2Z.inj_succ, Z.pow_succ_r in Hf by lia. nia. }
      exists r. split; [done | lia].
    + exists (a * 2). cbn [double_to]. rewrite (proj2 (Z.ltb_ge _ _)) by lia. split; [done | lia].
Qed.

(** The pointer to the last chain with data, when there are two or more. *)
Lemma load_datap b p x D q : lseg (heap b) p (x :: D) q -> D <> [] -> last_with_datap b = datap_from First (x :: D) ->
  load (last_with_datap b) b = Ok (last_id D).
Proof.
  intros Hs HD Hf. destruct (exists_last HD) as (L & y & ->). rewrite last_id_ids, ids_app. change (ids [y]) with [y.1]. rewrite last_snoc.
  change (x :: L ++ [y]) with ((x :: L) ++ [y]) in *. by apply (load_last_data _ _ b _ y q eq_refl Hs).
Qed.

Lemma below_insert (h : gmap cid evbuffer_chain) n c x : (c < n)%positive ->
  (forall y, is_Some (h !! y) -> (y < n)%positive) -> forall y, is_Some (<[c := x]> h !! y) -> (y < n)%positive.
Proof. intros Hc Hh y [z [[<- _]|[_ Hy]]%lookup_insert_Some]; [done | apply Hh; by exists z]. Qed.

(** [evbuffer_pullup] into the first chain, which has room. *)
Lemma pullup_in_place b c ch D E n : rep b ((c, ch) :: D) E -> off ch < n <= total_len b -> misalign ch + n <= buffer_len ch ->
  let b0 := put_chain c (with_bytes (misalign ch) n (buffer ch) ch) b in
  exists b' D' E', pull_into c (next ch) (n - off ch) (misalign ch + off ch) b0 = Ok (Some (c, misalign ch), b') /\ rep b' D' E' /\
    bytes_of D' = bytes_of ((c, ch) :: D) /\ read_at (c, misalign ch) n b' = take (Z.to_nat n) (bytes_of ((c, ch) :: D)) /\
    freeze_start b' = freeze_start b /\ freeze_end b' = freeze_end b.
Proof.
  intros Hr Hn Hroom b0. pose proof (rep_size _ _ _ Hr) as Ht. destruct Hr. cbn [app] in *.
  apply Forall_cons in rep_good0 as [Hgc Hg]. apply Forall_cons in rep_data0 as [Hdc Hd]. cbn [lseg] in rep_seg0. destruct rep_seg0 as (Hf & Hc & Hs).
  cbn [ids map fst snd] in *. apply NoDup_cons in rep_nodup0 as [Hcn Hn0]. pose proof (node_bytes_size (c, ch) Hgc) as Hx.
  change (node_off (c, ch)) with (off ch) in Hx. rewrite bytes_of_cons, StdString.size_app, Hx in Ht.
  assert (D <> []) as HD by (intros ->; rewrite size_nil_bytes in Ht; lia). pose proof Hgc as [].
  assert (lseg (heap b0) (next ch) (D ++ E) None) as Hs' by by apply lseg_insert.
  edestruct (pull_into_rep b0 c (with_bytes (misalign ch) n (buffer ch) ch) [(c, ch)] D E (next ch) (off ch) (n - off ch))
    as (b' & D' & E' & E1 & Hr & E2 & E3 & Hfz); try done; try (cbn; lia).
  - apply lookup_insert_eq.
  - constructor; cbn; try done; lia.
  - cbn. rewrite rep_last0. apply (last_id_app [(c, ch)]). by destruct D.
  - by right.
  - apply lseg_app in Hs' as (q & Hs' & _).
    apply (load_datap b0 (Some c) (c, with_bytes (misalign ch) n (buffer ch) ch) D q); [| done | ].
    + split; [done |]. split; [apply lookup_insert_eq | done].
    + change (last_with_datap b0) with (last_with_datap b). rewrite rep_datap0. by apply datap_from_ids.
  - apply (below_insert (heap b)); [apply rep_fresh0; by exists ch | done].
  - exists b', D', E'. split; [exact E1 |]. split; [exact Hr |]. cbn [with_bytes misalign buffer] in E2, E3.
    rewrite Zplus_minus in E3. split; [exact E2 |]. rewrite E3. split; [| exact Hfz].
    rewrite bytes_of_cons. change (take _ (drop _ (buffer ch))) with (node_bytes (c, ch)).
    rewrite take_app_ge by (unfold StdString.size in *; lia). f_equal. f_equal. unfold StdString.size in *. lia.
Qed.

Section Alloc.
Context (mm_malloc : cid -> Z -> bool) (garbage : Z -> str) (Hgarbage : forall n, 0 <= n -> StdString.size (garbage n) = n).

(** The buffer with a chain more, not linked yet. *)
Definition with_chain (ch : evbuffer_chain) (b : evbuffer) : evbuffer :=
  mkBuffer (first b) (lastp b) (last_with_datap b) (total_len b) (n_add_for_cb b) (n_del_for_cb b)
    (freeze_start b) (freeze_end b) (<[fresh b := ch]> (heap b)) (Pos.succ (fresh b)).

Record new_chain (size : Z) (ch : evbuffer_chain) : Prop := {
  nc_good : good_chain ch; nc_off : off ch = 0; nc_misalign : misalign ch = 0; nc_next : next ch = None;
  nc_len : size <= buffer_len ch
}.

Lemma chain_new_ok size b : 0 <= size <= max_block ->
  (evbuffer_chain_new mm_malloc garbage size b = Ok (None, b) /\ exists z, mm_malloc (fresh b) z = false) \/
  exists ch, evbuffer_chain_new mm_malloc garbage size b = Ok (Some (fresh b), with_chain ch b) /\ new_chain size ch.
Proof.
  unfold max_block. intros Hs. unfold evbuffer_chain_new. rewrite (proj2 (Z.ltb_ge _ _)) by lia.
  assert (exists r, (if size + EVBUFFER_CHAIN_SIZE <? EVBUFFER_CHAIN_MAX / 2
    then double_to 64 MIN_BUFFER_SIZE (size + EVBUFFER_CHAIN_SIZE) else Ok (size + EVBUFFER_CHAIN_SIZE)) = Ok r /\
    size + EVBUFFER_CHAIN_SIZE <= r <= EVBUFFER_CHAIN_MAX /\ MIN_BUFFER_SIZE <= r) as (r & -> & Hr).
  { unfold EVBUFFER_CHAIN_MAX, EVBUFFER_CHAIN_SIZE, MIN_BUFFER_SIZE in *. change ((2 ^ 63 - 1) / 2) with (2 ^ 62 - 1).
    destruct (Z.ltb_spec (size + 48) (2 ^ 62 - 1)) as [Hlt|Hge]; [| eexists; split; [done | lia]].
    destruct (double_ok 63 1024 (size + 48)) as (r & -> & H1 & H2 & H3); try lia. exists r. split; [done |].
    destruct H3 as [->|?]; lia. }
  cbn [mbind res_bind]. destruct (mm_malloc (fresh b) r) eqn:Em; cbn [negb]; [right | left; split; [done | by exists r]].
  eexists. split; [reflexivity |]. unfold EVBUFFER_CHAIN_MAX, EVBUFFER_CHAIN_SIZE in *.
  constructor; [constructor | ..]; cbn; try done; try lia; [rewrite Hgarbage; lia |].
  unfold max_block, EVBUFFER_CHAIN_MAX, EVBUFFER_CHAIN_SIZE, MIN_BUFFER_SIZE in *. lia.
Qed.

(** [evbuffer_pullup] into a new chain. *)
Lemma pullup_moved b D E n tch : rep b D E -> new_chain n tch -> (2 <= length D)%nat -> 0 < n <= total_len b ->
  let t := fresh b in
  let b0 := set_first (Some t) (put_chain t (with_bytes (misalign tch) n (buffer tch) tch) (with_chain tch b)) in
  exists b' D' E', pull_into t (first b) n 0 b0 = Ok (Some (t, 0), b') /\ rep b' D' E' /\
    bytes_of D' = bytes_of D /\ read_at (t, 0) n b' = take (Z.to_nat n) (bytes_of D) /\
    freeze_start b' = freeze_start b /\ freeze_end b' = freeze_end b.
Proof.
  intros Hr Hnew HD Hn. rewrite (nc_misalign _ _ Hnew). intros t b0. pose proof (rep_size _ _ _ Hr) as Ht. destruct Hr, Hnew.
  assert (t ∉ ids (D ++ E)) as Hfr.
  { intros Hin. apply list_elem_of_fmap in Hin as ([c ch] & Ec & Hin). cbn in Ec. pose proof (lseg_lookup _ _ _ _ _ _ rep_seg0 Hin) as Hc.
    specialize (rep_fresh0 c ltac:(by eexists)). unfold t in Ec. lia. }
  assert (lseg (heap b0) (first b) (D ++ E) None) as Hs' by by apply lseg_insert, lseg_insert.
  destruct nc_good0. edestruct (pull_into_rep b0 t (with_bytes 0 n (buffer tch) tch) [] D E (first b) 0 n)
    as (b' & D' & E' & E1 & Hr & E2 & E3 & Hfz); try done; try (cbn; lia).
  - apply lookup_insert_eq.
  - constructor; cbn; try done; lia.
  - by left.
  - destruct D as [|x D]; [cbn in HD; lia |]. apply lseg_app in Hs' as (q & Hs' & _). rewrite (load_datap b0 (first b) x D q); try done.
    + f_equal. symmetry. apply (last_id_app [x] D). destruct D; [cbn in HD; lia | done].
    + destruct D; [cbn in HD; lia | done].
  - change (fresh b0) with (Pos.succ t). apply (below_insert (<[t := tch]> (heap b))), below_insert; [lia..|].
    intros x Hx%rep_fresh0. unfold t. lia.
  - exists b', D', E'. split; [exact E1 |]. split; [exact Hr |]. split; [exact E2 |]. split; [exact E3 | exact Hfz].
Qed.

(** [n] bytes at the pointer of the result are the first [n] of the contents; null only if a block could not be had. *)
Lemma pullup_rep b D E n : rep b D E -> 0 < n <= total_len b -> total_len b <= max_block ->
  (evbuffer_pullup mm_malloc garbage n b = Ok (None, b) /\ exists z, mm_malloc (fresh b) z = false) \/
  exists q b' D' E', evbuffer_pullup mm_malloc garbage n b = Ok (Some q, b') /\ rep b' D' E' /\
    bytes_of D' = bytes_of D /\ read_at q n b' = take (Z.to_nat n) (bytes_of D) /\
    freeze_start b' = freeze_start b /\ freeze_end b' = freeze_end b.
Proof.
  intros Hr Hn Hmax. pose proof (rep_size _ _ _ Hr) as Ht. unfold max_block, EVBUFFER_CHAIN_MAX, EVBUFFER_CHAIN_SIZE in Hmax.
  unfold evbuffer_pullup. rewrite (proj2 (Z.ltb_ge n 0)), (proj2 (Z.eqb_neq n 0)), u64_small, (proj2 (Z.ltb_ge _ n)) by lia.
  cbn [orb]. destruct D as [|[c ch] D]; [rewrite size_nil_bytes in Ht; lia |]. pose proof Hr as Hr'. destruct Hr'. cbn [app lseg] in rep_seg0.
  destruct rep_seg0 as (Hf & Hc & Hs). apply Forall_cons in rep_good0 as [Hgc Hg]. cbn [snd] in Hgc.
  rewrite Hf. cbn [not_null mbind res_bind]. rewrite (deref_ok c ch) by done. cbn [mbind res_bind].
  pose proof (node_bytes_size (c, ch) Hgc) as Hx. change (node_off (c, ch)) with (off ch) in Hx. pose proof (good_small _ Hgc) as Hsm.
  destruct (Z.leb_spec n (off ch)) as [Hle|Hgt].
  { right. exists (c, misalign ch), b, ((c, ch) :: D), E. split; [done |]. split; [done |]. split; [done |]. split; [| done].
    unfold read_at. cbn [fst snd]. rewrite Hc, bytes_of_cons, take_app_le by (unfold StdString.size in *; lia).
    unfold node_bytes. cbn [snd]. rewrite take_take. f_equal. lia. }
  rewrite (none_pinned_ok (D ++ E)) by (done || pose proof (rep_fuel _ _ _ Hr) as H; cbn in H; lia). cbn [mbind res_bind negb].
  rewrite (good_pinned _ Hgc). pose proof (gc_room _ Hgc). rewrite u64_small by lia. destruct (Z.leb_spec n (buffer_len ch - misalign ch)) as [Hroom|Hroom].
  - right. destruct (pullup_in_place b c ch D E n Hr) as (b' & D' & E' & E1 & H1); [lia | lia |]. by exists (c, misalign ch), b', D', E'.
  - destruct (chain_new_ok n b) as [[-> Hm]|(tch & -> & Hnew)]; [unfold max_block, EVBUFFER_CHAIN_MAX, EVBUFFER_CHAIN_SIZE; lia | |].
    + left. by split.
    + right. cbn [mbind res_bind]. rewrite (deref_ok (fresh b) tch) by apply lookup_insert_eq. cbn [mbind res_bind].
      destruct (pullup_moved b ((c, ch) :: D) E n tch Hr Hnew) as (b' & D' & E' & E1 & H1); [| done |].
      * destruct D; [| cbn; lia]. rewrite bytes_of_cons, StdString.size_app, Hx in Ht. rewrite size_nil_bytes in Ht. lia.
      * rewrite (nc_misalign _ _ Hnew) in E1. rewrite Hf in E1. exists (fresh b, 0), b', D', E'. split; [| exact H1].
        rewrite (nc_misalign _ _ Hnew). exact E1.
Qed.

(** A size of nothing, or of more than there is. *)
Lemma pullup_none n b : 0 <= n < 2 ^ 64 -> n = 0 \/ total_len b < n -> evbuffer_pullup mm_malloc garbage n b = Ok (None, b).
Proof.
  intros Hr Hn. unfold evbuffer_pullup. rewrite (proj2 (Z.ltb_ge n 0)), u64_small by lia.
  destruct Hn as [->|Hn]; [done |]. by rewrite (proj2 (Z.ltb_lt _ n)), orb_true_r by done.
Qed.
End Alloc.
