(* ===== verification/EvbufferAdd.v ===== *)
(** * Adding bytes to a libevent buffer

    [evbuffer_add] and [evbuffer_read] put bytes behind the contents of a buffer, in
    the free space of its last chains and in new chains; when a block of memory cannot
    be had, or the socket gives nothing, the contents are as before. *)
From S2P Require Import Prelude CStr StdString Evbuffer EvbufferProps.
Open Scope Z_scope.

(** The chain [c] is the one that gets bytes: the last with data, or the first if all are empty. *)
Record target (b : evbuffer) (P : list node) (c : cid) (ch : evbuffer_chain) (E : list node) : Prop := {
  tg_seg : lseg (heap b) (first b) (P ++ (c, ch) :: E) None;
  tg_nodup : NoDup (ids (P ++ (c, ch) :: E));
  tg_fresh : forall x, is_Some (heap b !! x) -> (x < fresh b)%positive;
  tg_last : lastp b = last_id (P ++ (c, ch) :: E);
  tg_datap : last_with_datap b = datap_from First (P ++ [(c, ch)]);
  tg_good : Forall (fun x => good_chain x.2) (P ++ (c, ch) :: E);
  tg_data : Forall (fun x => 0 < node_off x) P;
  tg_empty : Forall (fun x => node_off x = 0) E;
  tg_first : off ch = 0 -> P = [];
  tg_total : total_len b = StdString.size (bytes_of P) + off ch;
  tg_bound : total_len b <= EV_SIZE_MAX
}.

Lemma rep_target b D E : rep b D E -> D ++ E <> [] ->
  exists P c ch E', target b P c ch E' /\ bytes_of D = bytes_of P ++ node_bytes (c, ch) /\ D ++ E = P ++ (c, ch) :: E'.
Proof.
  intros Hr Hne. pose proof (rep_size _ _ _ Hr) as Ht. destruct Hr. destruct D as [|x D].
  - destruct E as [|[c ch] E]; [done |]. apply Forall_cons in rep_empty as [Hx He]. unfold node_off in Hx. cbn [snd] in Hx.
    exists [], c, ch, E. split; [constructor; try done |].
    + rewrite Ht, size_nil_bytes. lia.
    + split; [| done]. unfold node_bytes. cbn [snd]. by rewrite Hx.
  - destruct (exists_last (l := x :: D)) as (P & [c ch] & E1); [done |]. rewrite E1 in *. rewrite <- !(app_assoc P) in *. cbn [app] in *.
    apply Forall_app in rep_data as [Hd [Hc _]%Forall_cons]. unfold node_off in Hc. cbn [snd] in Hc.
    assert (good_chain ch) as Hg by (apply Forall_app in rep_good as [_ [? _]%Forall_cons]; done).
    exists P, c, ch, E. split; [constructor; try done |].
    + lia.
    + rewrite Ht, bytes_of_app, StdString.size_app, bytes_of_cons. change (bytes_of []) with (@nil ascii). rewrite app_nil_r.
      by rewrite (node_bytes_size (c, ch)).
    + split; [| done]. rewrite bytes_of_app, bytes_of_cons. change (bytes_of []) with (@nil ascii). by rewrite app_nil_r.
Qed.

Lemma target_rep b P c ch E : target b P c ch E -> 0 < off ch -> rep b (P ++ [(c, ch)]) E.
Proof.
  intros [] Hc. assert (forall L : list node, (P ++ [(c, ch)]) ++ L = P ++ (c, ch) :: L) as EL by (intros L; by rewrite <- app_assoc).
  constructor; rewrite ?EL; try done.
  - apply Forall_app. split; [done |]. by constructor.
  - rewrite bytes_of_app, StdString.size_app, bytes_of_cons, (bytes_of_empty E), app_nil_r by done. rewrite (node_bytes_size (c, ch)); [done |].
    by apply Forall_app in tg_good0 as [_ [? _]%Forall_cons].
Qed.

Lemma target_lookup b P c ch E : target b P c ch E -> heap b !! c = Some ch.
Proof. intros []. apply (lseg_lookup _ _ _ _ c ch tg_seg0). apply elem_of_app. right. left. Qed.

Lemma target_good b P c ch E : target b P c ch E -> good_chain ch.
Proof. intros []. by apply Forall_app in tg_good0 as [_ [? _]%Forall_cons]. Qed.

(** [*buf->last_with_datap] is the target. *)
Lemma target_load b P c ch E : target b P c ch E -> load (last_with_datap b) b = Ok (Some c).
Proof.
  intros []. destruct P as [|x P].
  - rewrite tg_datap0. cbn. cbn [app lseg] in tg_seg0. by destruct tg_seg0 as (-> & _).
  - change ((x :: P) ++ (c, ch) :: E) with ((x :: P) ++ [(c, ch)] ++ E) in tg_seg0. rewrite app_assoc in tg_seg0.
    apply lseg_app in tg_seg0 as (q & Hs & _). rewrite (load_datap b (first b) x (P ++ [(c, ch)]) q); [| done | by destruct P | done].
    rewrite last_id_ids, ids_app. change (ids [(c, ch)]) with [c]. by rewrite last_snoc.
Qed.

(** ** Writing to the target *)
Lemma lseg_update h p P c ch ch' E q : lseg h p (P ++ (c, ch) :: E) q -> NoDup (ids (P ++ (c, ch) :: E)) -> next ch' = next ch ->
  lseg (<[c := ch']> h) p (P ++ (c, ch') :: E) q.
Proof.
  rewrite !lseg_app, ids_app. intros (m & Hp & (-> & Hc & Hs)) Hn En. apply NoDup_app in Hn as (_ & Hd & Hn).
  cbn [ids map fst] in Hn. apply NoDup_cons in Hn as [Hn _]. exists (Some c). split.
  - apply lseg_insert; [| done]. intros Hin. apply (Hd c Hin). by left.
  - split; [done |]. split; [apply lookup_insert_eq |]. rewrite En. by apply lseg_insert.
Qed.

(** The target with another [off] and other bytes. *)
Lemma target_update b P c ch E ch' total a d : target b P c ch E -> good_chain ch' -> 0 < off ch' -> next ch' = next ch ->
  total = total_len b + (off ch' - off ch) -> total <= EV_SIZE_MAX ->
  target (mkBuffer (first b) (lastp b) (last_with_datap b) total a d (freeze_start b) (freeze_end b) (<[c := ch']> (heap b)) (fresh b))
    P c ch' E.
Proof.
  intros Ht Hg Ho En Etot Hb. pose proof (target_lookup _ _ _ _ _ Ht) as Hc. destruct Ht.
  assert (ids (P ++ (c, ch') :: E) = ids (P ++ (c, ch) :: E)) as Ei by by rewrite !ids_app.
  constructor; cbn [heap first lastp last_with_datap total_len fresh]; try done.
  - by apply (lseg_update _ _ _ _ ch).
  - by rewrite Ei.
  - apply (below_insert (heap b)); [apply tg_fresh0; by exists ch | done].
  - by rewrite tg_last0, !last_id_ids, Ei.
  - rewrite tg_datap0. apply datap_from_ids. by rewrite !ids_app.
  - apply Forall_app in tg_good0 as [Hp [_ He]%Forall_cons]. apply Forall_app. split; [done |]. by constructor.
  - lia.
  - lia.
Qed.

(** The chain with bytes behind its own. *)
Definition appended (d : str) (ch : evbuffer_chain) : evbuffer_chain :=
  with_bytes (misalign ch) (off ch + StdString.size d) (patch (misalign ch + off ch) d (buffer ch)) ch.

Lemma appended_good d ch : good_chain ch -> d <> [] -> misalign ch + off ch + StdString.size d <= buffer_len ch ->
  good_chain (appended d ch) /\ 0 < off (appended d ch).
Proof.
  intros [] Hd Hs. assert (0 < StdString.size d) by (destruct d; [done | unfold StdString.size; cbn; lia]).
  split; [constructor | ]; cbn; try done; try lia. rewrite patch_size; lia.
Qed.

Lemma appended_bytes c d ch : good_chain ch -> misalign ch + off ch + StdString.size d <= buffer_len ch ->
  node_bytes (c, appended d ch) = node_bytes (c, ch) ++ d.
Proof. intros [] Hs. unfold node_bytes. cbn. rewrite patch_read; [done | lia..]. Qed.

Lemma append_ok b P c ch E d : target b P c ch E -> d <> [] -> misalign ch + off ch + StdString.size d <= buffer_len ch ->
  total_len b + StdString.size d <= EV_SIZE_MAX ->
  exists b', append_to c ch d b = Ok b' /\ target b' P c (appended d ch) E /\ heap b' = <[c := appended d ch]> (heap b) /\
    fresh b' = fresh b /\ total_len b' = total_len b + StdString.size d /\ freeze_start b' = freeze_start b /\ freeze_end b' = freeze_end b.
Proof.
  intros Ht Hd Hs Hb. pose proof (target_good _ _ _ _ _ Ht) as Hg. pose proof (good_small _ Hg) as Hsm.
  destruct (appended_good d ch Hg Hd Hs) as [Hg' Ho]. pose proof (gc_size _ Hg). pose proof (StdString.size_nonneg d).
  unfold append_to. rewrite copy_to_ok by lia. cbn [mbind res_bind]. unfold EV_SIZE_MAX in Hb.
  assert (0 <= total_len b) by (rewrite (tg_total _ _ _ _ _ Ht); pose proof (StdString.size_nonneg (bytes_of P)); lia).
  assert (buffer_len ch < 2 ^ 63) by (destruct Hsm as (_ & _ & ?); done).
  rewrite (u64_small (total_len b + _)), (u64_small (off ch + _)) by lia. eexists. split; [reflexivity |]. split; [| done].
  apply (target_update b P c ch E (appended d ch)); try done. cbn. lia.
Qed.

(** ** Linking a chain *)
Lemma all_empty_ok L : forall fuel p b, (length L < fuel)%nat -> lseg (heap b) p L None -> Forall (fun x => node_off x = 0) L ->
  all_empty fuel p b = Ok true.
Proof.
  induction L as [|[c ch] L IH]; intros fuel p b Hf Hs He; (destruct fuel as [|fuel]; [cbn in Hf; lia |]); cbn [lseg] in Hs.
  - by subst p.
  - destruct Hs as (-> & Hc & Hs). apply Forall_cons in He as [Hx He]. unfold node_off in Hx. cbn [snd] in Hx.
    cbn [all_empty]. rewrite (deref_ok c ch) by done. cbn [mbind res_bind]. rewrite Hx. cbn [negb Z.eqb].
    apply IH; [cbn in Hf; lia | done | done].
Qed.

Lemma target_tail b P c ch E : target b P c ch E -> lseg (heap b) (next ch) E None /\ NoDup (ids E) /\ c ∉ ids E /\
  Forall (fun x => good_chain x.2) E /\ (length E < fuel_of b)%nat.
Proof.
  intros Ht. destruct Ht. pose proof (lseg_size _ _ _ _ tg_seg0 tg_nodup0) as Hf. rewrite length_app in Hf. cbn [length] in Hf.
  apply lseg_app in tg_seg0 as (m & _ & (_ & _ & Hs)). rewrite ids_app in tg_nodup0. apply NoDup_app in tg_nodup0 as (_ & _ & Hn).
  cbn [ids map fst] in Hn. apply NoDup_cons in Hn as [Hc Hn]. apply Forall_app in tg_good0 as [_ [_ Hg]%Forall_cons].
  unfold fuel_of. split_and!; try done. lia.
Qed.

(** The empty chains are freed; the field behind the target is where the next chain goes. *)
Lemma free_trailing_ok b P c ch E : target b P c ch E -> 0 < off ch ->
  exists h, evbuffer_free_trailing_empty_chains b = Ok (Next c, with_heap h b) /\ h !! c = Some (with_next None ch) /\
    (forall x, x ∉ ids E -> x <> c -> h !! x = heap b !! x) /\ (forall x, is_Some (h !! x) -> is_Some (heap b !! x)).
Proof.
  intros Ht Ho. pose proof (target_tail _ _ _ _ _ Ht) as (Hs & Hn & Hcn & Hg & Hf). pose proof (target_lookup _ _ _ _ _ Ht) as Hc.
  pose proof (tg_empty _ _ _ _ _ Ht) as He. unfold evbuffer_free_trailing_empty_chains.
  assert (first_victim (fuel_of b) (last_with_datap b) b = Ok (Next c)) as ->.
  { unfold fuel_of. destruct (base.size (heap b)) as [|k] eqn:Ek; [apply map_size_empty_iff in Ek; by rewrite Ek in Hc |].
    cbn [first_victim]. rewrite (target_load _ _ _ _ _ Ht). cbn [mbind res_bind]. rewrite (deref_ok c ch) by done. cbn [mbind res_bind].
    rewrite (proj2 (Z.eqb_neq (off ch) 0)) by lia. cbn [negb orb load]. rewrite (deref_ok c ch) by done. cbn [mbind res_bind].
    destruct E as [|[e ech] E]; [by rewrite Hs |]. destruct Hs as (-> & Hec & _). apply Forall_cons in He as [Hx _], Hg as [Hge _].
    rewrite (deref_ok e ech) by done. cbn [mbind res_bind]. unfold node_off in Hx. cbn [snd] in Hx, Hge. rewrite Hx, (good_pinned _ Hge). done. }
  cbn [mbind res_bind load]. rewrite (deref_ok c ch) by done. cbn [mbind res_bind].
  destruct E as [|[e ech] E].
  - cbn [lseg] in Hs. rewrite Hs. exists (heap b). split; [by destruct b |]. split; [rewrite Hc; f_equal; by destruct ch; cbn in *; subst |]. done.
  - destruct (next ch) as [q|]; [| by destruct Hs]. unfold evbuffer_chains_all_empty, evbuffer_free_all_chains.
    rewrite (all_empty_ok ((e, ech) :: E)) by done. cbn [mbind res_bind negb].
    destruct (free_all_ok ((e, ech) :: E) (fuel_of b) (Some q) b) as (h & Ef & Hh & Hk); try done. rewrite Ef. cbn [mbind res_bind store].
    rewrite (deref_ok c ch) by (cbn [heap with_heap]; by rewrite Hk). cbn [mbind res_bind].
    exists (<[c := with_next None ch]> h). split; [done |]. split; [apply lookup_insert_eq |]. split.
    + intros x Hx Hxc. rewrite lookup_insert_ne by done. by apply Hk.
    + intros x [y [[<- _]|[_ Hy]]%lookup_insert_Some]; [by exists ch |]. exists y. by eapply lookup_weaken.
Qed.

(** A chain with bytes is put behind the target. *)
Lemma insert_behind b P c ch E t tch : target b P c ch E -> 0 < off ch -> heap b !! t = Some tch -> t ∉ ids (P ++ (c, ch) :: E) ->
  good_chain tch -> 0 < off tch -> next tch = None -> total_len b + off tch <= EV_SIZE_MAX ->
  exists b', evbuffer_chain_insert t b = Ok b' /\ rep b' ((P ++ [(c, with_next (Some t) ch)]) ++ [(t, tch)]) [] /\
    total_len b' = total_len b + off tch /\ freeze_start b' = freeze_start b /\ freeze_end b' = freeze_end b.
Proof.
  intros Ht Ho Htt Hti Hgt Hot Hnt Hb. destruct (free_trailing_ok b P c ch E Ht Ho) as (h & Ef & Hc & Hk & Hs).
  pose proof (target_lookup _ _ _ _ _ Ht) as Hc0. unfold evbuffer_chain_insert. rewrite (target_load _ _ _ _ _ Ht). cbn [mbind res_bind].
  rewrite Ef. cbn [mbind res_bind store]. rewrite (deref_ok c (with_next None ch)) by exact Hc. cbn [mbind res_bind].
  rewrite ids_app in Hti. apply not_elem_of_app in Hti as [HtP [Htc HtE]%not_elem_of_cons]. cbn [fst] in Htc.
  assert (h !! t = Some tch) as Hth by by rewrite Hk.
  change (with_next (Some t) (with_next None ch)) with (with_next (Some t) ch).
  rewrite !(deref_ok t tch) by (cbn [heap put_chain with_heap set_last set_datap]; by rewrite lookup_insert_ne).
  cbn [mbind res_bind]. rewrite (proj2 (Z.eqb_neq (off tch) 0)) by lia. cbn [negb].
  rewrite (deref_ok t tch) by (cbn [heap put_chain with_heap set_last set_datap]; by rewrite lookup_insert_ne). cbn [mbind res_bind].
  assert (0 <= total_len b) by (rewrite (tg_total _ _ _ _ _ Ht); pose proof (StdString.size_nonneg (bytes_of P)); lia).
  unfold EV_SIZE_MAX in Hb. eexists. split; [reflexivity |]. cbn [total_len put_chain with_heap set_last set_datap].
  rewrite u64_small by lia. split; [| done]. destruct Ht.
  assert (EL : forall x L, (P ++ [x]) ++ L = P ++ x :: L) by (intros x L; by rewrite <- app_assoc).
  rewrite ids_app in tg_nodup0. apply NoDup_app in tg_nodup0 as (HnP & HnPc & Hn). cbn [ids map fst] in Hn, HnPc. apply NoDup_cons in Hn as [HcE _].
  apply Forall_app in tg_good0 as [HgP [Hgc _]%Forall_cons]. cbn [snd] in Hgc.
  apply target_rep; [| done]. constructor; cbn [heap first lastp last_with_datap total_len fresh set_counts set_last set_datap put_chain with_heap]; try done.
  - apply lseg_app in tg_seg0 as (m & Hp & (-> & _ & _)). rewrite EL. apply lseg_app. exists (Some c). split.
    + apply (lseg_frame (heap b)); [| done]. intros x Hx. rewrite lookup_insert_ne by (intros ->; apply (HnPc _ Hx); by left).
      apply Hk; [intros HxE; apply (HnPc _ Hx); by right | intros ->; apply (HnPc _ Hx); by left].
    + split; [done |]. split; [apply lookup_insert_eq |]. split; [done |]. by rewrite lookup_insert_ne.
  - rewrite EL, ids_app. cbn [ids map fst]. apply NoDup_app. split; [done |]. split; [| constructor; [| by repeat constructor; set_solver]].
    + intros x Hx [->|[->|[]%elem_of_nil]%elem_of_cons]%elem_of_cons; [apply (HnPc _ Hx); by left | done].
    + intros [->|[]%elem_of_nil]%elem_of_cons. done.
  - apply (below_insert h); [apply tg_fresh0; by exists ch |]. intros x Hx%Hs. by apply tg_fresh0.
  - rewrite last_id_ids, ids_app. change (ids [(t, tch)]) with [t]. by rewrite last_snoc.
  - rewrite !datap_snoc, last_id_ids, ids_app. change (ids [(c, with_next (Some t) ch)]) with [c]. by rewrite last_snoc.
  - rewrite EL. apply Forall_app. split; [done |]. constructor; [by destruct Hgc | by constructor].
  - apply Forall_app. split; [done |]. by constructor.
  - lia.
  - rewrite tg_total0, bytes_of_app, StdString.size_app, bytes_of_cons. change (bytes_of []) with (@nil ascii). rewrite app_nil_r.
    rewrite node_bytes_size; [done |]. by destruct Hgc.
Qed.

(** The first chain of a buffer. *)
Lemma insert_first b t tch : rep b [] [] -> heap b !! t = Some tch -> good_chain tch -> off tch = 0 -> next tch = None ->
  exists b', evbuffer_chain_insert t b = Ok b' /\ target b' [] t tch [] /\ fresh b' = fresh b /\ total_len b' = 0 /\
    freeze_start b' = freeze_start b /\ freeze_end b' = freeze_end b.
Proof.
  intros Hr Ht Hg Ho En. pose proof (rep_size _ _ _ Hr) as Hsz. rewrite size_nil_bytes in Hsz. destruct Hr. cbn in rep_seg, rep_last, rep_datap.
  unfold evbuffer_chain_insert. rewrite rep_datap. cbn [load mbind res_bind]. rewrite rep_seg. cbn [negb bool_decide].
  rewrite !bool_decide_eq_true_2 by done. cbn [negb mbind res_bind].
  rewrite (deref_ok t tch) by done. cbn [mbind res_bind]. eexists. split; [reflexivity |].
  cbn [total_len set_last set_first set_counts fresh freeze_start freeze_end]. rewrite Hsz, Ho. split; [| done].
  constructor; cbn; try done; try (by repeat constructor; set_solver); try lia.
  by constructor.
Qed.

Lemma target_good_buffer b P c ch E : target b P c ch E -> exists D E', rep b D E' /\ bytes_of D = bytes_of P ++ node_bytes (c, ch).
Proof.
  intros Ht. pose proof (gc_off _ (target_good _ _ _ _ _ Ht)). destruct (decide (off ch = 0)) as [E0|E0].
  - pose proof (tg_first _ _ _ _ _ Ht E0) as ->. exists [], ((c, ch) :: E). split.
    + destruct Ht. constructor; try done; [by constructor |]. rewrite tg_total0, bytes_of_app, (bytes_of_empty (_ :: _)); [by rewrite E0 | by constructor].
    + unfold node_bytes. cbn [snd]. by rewrite E0.
  - exists (P ++ [(c, ch)]), E. split; [apply target_rep; [done | lia] |]. rewrite bytes_of_app, bytes_of_cons.
    change (bytes_of []) with (@nil ascii). by rewrite app_nil_r.
Qed.

Lemma target_counts b P c ch E a d : target b P c ch E -> target (set_counts (total_len b) a d b) P c ch E.
Proof. intros []. by constructor. Qed.

Section Add.
Context (mm_malloc : cid -> Z -> bool) (garbage : Z -> str) (Hgarbage : forall n, 0 <= n -> StdString.size (garbage n) = n).

(** The chain that gets the bytes: there is one, or one is made. *)
Lemma add_target_ok b D E n : rep b D E -> 0 <= n <= max_block ->
  (add_target mm_malloc garbage n b = Ok (None, b) /\ exists z, mm_malloc (fresh b) z = false) \/
  exists P c ch E' b', add_target mm_malloc garbage n b = Ok (Some c, b') /\ target b' P c ch E' /\
    bytes_of D = bytes_of P ++ node_bytes (c, ch) /\ (b' = b \/ n <= buffer_len ch - misalign ch - off ch) /\
    total_len b' = total_len b /\ freeze_start b' = freeze_start b /\ freeze_end b' = freeze_end b.
Proof.
  intros Hr Hn. unfold add_target. destruct (decide (D ++ E = [])) as [Hnil|Hne].
  - apply app_eq_nil in Hnil as [-> ->]. pose proof Hr as Hr'. destruct Hr'. cbn in rep_seg, rep_last, rep_datap.
    rewrite rep_datap. cbn [load mbind res_bind]. rewrite rep_seg, rep_last.
    destruct (chain_new_ok mm_malloc garbage Hgarbage n b Hn) as [[-> Hm]|(tch & -> & [])]; [left; by split |]. right. cbn [mbind res_bind].
    destruct (insert_first (with_chain tch b) (fresh b) tch) as (b' & Ei & Ht & Ef & Etot & Hf); try done.
    { constructor; try done. cbn [fresh with_chain]. apply below_insert; [lia |]. intros x Hx%rep_fresh. lia. }
    { apply lookup_insert_eq. }
    rewrite Ei. cbn [mbind res_bind]. exists [], (fresh b), tch, [], b'. split; [done |]. split; [done |]. split.
    { unfold node_bytes. cbn [snd]. by rewrite nc_off. }
    split; [right; lia |]. split; [by rewrite Etot, rep_total | done].
  - right. destruct (rep_target b D E Hr Hne) as (P & c & ch & E' & Ht & Eb & _). rewrite (target_load _ _ _ _ _ Ht). cbn [mbind res_bind].
    exists P, c, ch, E', b. split; [done |]. split; [done |]. split; [done |]. by split; [left |].
Qed.

(** Bytes of the chain are moved to its front. *)
Lemma align_ok ch : good_chain ch -> evbuffer_chain_align ch = Ok (with_bytes 0 (off ch) (patch 0 (node_bytes (1%positive, ch)) (buffer ch)) ch).
Proof.
  intros Hg. pose proof (node_bytes_size (1%positive, ch) Hg) as Hs. unfold node_off in Hs. cbn [snd] in Hs. pose proof Hg as [].
  unfold evbuffer_chain_align. rewrite (good_flags _ ch Hg), (good_pinned ch Hg). cbn [orb].
  rewrite (copy_node _ 1%positive) by (done || lia). cbn [mbind res_bind]. rewrite take_ge by (unfold StdString.size in *; lia).
  rewrite copy_to_ok by lia. done.
Qed.

Lemma aligned_good c ch : good_chain ch -> 0 < off ch ->
  let ch' := with_bytes 0 (off ch) (patch 0 (node_bytes (1%positive, ch)) (buffer ch)) ch in
  good_chain ch' /\ node_bytes (c, ch') = node_bytes (c, ch).
Proof.
  intros Hg Ho ch'. pose proof (node_bytes_size (1%positive, ch) Hg) as Hs. unfold node_off in Hs. cbn [snd] in Hs. destruct Hg. split.
  - constructor; cbn; try done; try lia. rewrite patch_size; lia.
  - unfold node_bytes at 1. cbn [ch' with_bytes misalign off buffer snd].
    pose proof (patch_read 0 0 (node_bytes (1%positive, ch)) (buffer ch)) as Hp. rewrite Hs, !Z.add_0_l in Hp. rewrite Hp by lia. done.
Qed.

Lemma target_put b P c ch E t x : target b P c ch E -> t ∉ ids (P ++ (c, ch) :: E) -> (t < fresh b)%positive ->
  target (put_chain t x b) P c ch E.
Proof. intros [] Hn Hf. constructor; try done; [by apply lseg_insert | by apply below_insert]. Qed.

Lemma target_alloc b P c ch E x : target b P c ch E -> target (with_chain x b) P c ch E /\ fresh b ∉ ids (P ++ (c, ch) :: E).
Proof.
  intros []. assert (fresh b ∉ ids (P ++ (c, ch) :: E)) as Hn.
  { intros Hin. apply list_elem_of_fmap in Hin as ([y ych] & Ey & Hin). pose proof (lseg_lookup _ _ _ _ _ _ tg_seg0 Hin) as Hy.
    specialize (tg_fresh0 y ltac:(by eexists)). cbn in Ey. lia. }
  split; [| done]. constructor; try done; [by apply lseg_insert |]. cbn [fresh with_chain heap]. apply below_insert; [lia |].
  intros y Hy%tg_fresh0. lia.
Qed.

(** The size of the chain that [evbuffer_add] makes. *)
Lemma add_size ch n : good_chain ch -> 0 <= n <= max_block ->
  let to_alloc := if buffer_len ch <=? EVBUFFER_CHAIN_MAX_AUTO_SIZE / 2 then u64 (Z.shiftl (buffer_len ch) 1) else buffer_len ch in
  let to_alloc := if to_alloc <? n then n else to_alloc in
  n <= to_alloc /\ 0 <= to_alloc <= max_block.
Proof.
  intros [] Hn. unfold EVBUFFER_CHAIN_MAX_AUTO_SIZE, max_block, EVBUFFER_CHAIN_MAX, EVBUFFER_CHAIN_SIZE in *. cbv zeta.
  rewrite Z.shiftl_mul_pow2 by lia. change (4096 / 2) with 2048. change (2 ^ 1) with 2.
  destruct (Z.leb_spec (buffer_len ch) 2048); [rewrite u64_small by lia |]; case_bool; lia.
Qed.

(** The target is full, or gets full: its last bytes. *)
Lemma fill_target b P c ch E data : target b P c ch E ->
  let remain := buffer_len ch - misalign ch - off ch in
  remain < StdString.size data -> total_len b + StdString.size data <= EV_SIZE_MAX ->
  exists b' ch', (if negb (remain =? 0) then append_to c ch (take (Z.to_nat remain) data) b else Ok b) = Ok b' /\
    target b' P c ch' E /\ 0 < off ch' /\ node_bytes (c, ch') = node_bytes (c, ch) ++ take (Z.to_nat remain) data /\
    (forall x, x <> c -> heap b' !! x = heap b !! x) /\ fresh b' = fresh b /\ total_len b' = total_len b + remain /\
    freeze_start b' = freeze_start b /\ freeze_end b' = freeze_end b.
Proof.
  intros Ht remain Hr Hb. pose proof (target_good _ _ _ _ _ Ht) as Hg. pose proof Hg as [].
  destruct (Z.eqb_spec remain 0) as [E0|E0]; cbn [negb].
  - exists b, ch. rewrite E0. cbn [Z.to_nat]. rewrite take_0, app_nil_r, Z.add_0_r. split_and!; try done. lia.
  - assert (StdString.size (take (Z.to_nat remain) data) = remain) as Es
      by (unfold StdString.size in *; rewrite length_take; unfold remain in *; lia).
    destruct (append_ok b P c ch E (take (Z.to_nat remain) data) Ht) as (b' & E1 & Ht' & Eh & Ef & Etot & Hf).
    { intros Hnil. rewrite Hnil in Es. unfold StdString.size in Es. cbn in Es. lia. }
    { unfold remain in *. lia. }
    { lia. }
    exists b', (appended (take (Z.to_nat remain) data) ch). split; [done |]. split; [done |]. split; [cbn; lia |].
    split; [apply appended_bytes; [done | unfold remain in *; lia] |]. split; [| by rewrite Etot, Es].
    intros x Hx. rewrite Eh. by apply lookup_insert_ne.
Qed.

Lemma add_chain_ok b P c ch E data : target b P c ch E ->
  let remain := buffer_len ch - misalign ch - off ch in
  remain < StdString.size data -> total_len b + StdString.size data <= max_block ->
  (add_chain mm_malloc garbage c remain data b = Ok (-1, b) /\ exists z, mm_malloc (fresh b) z = false) \/
  exists b' D' E', add_chain mm_malloc garbage c remain data b = Ok (0, b') /\ rep b' D' E' /\
    bytes_of D' = bytes_of P ++ node_bytes (c, ch) ++ data /\ freeze_start b' = freeze_start b /\ freeze_end b' = freeze_end b.
Proof.
  intros Ht remain Hr Hb. pose proof (target_good _ _ _ _ _ Ht) as Hg. pose proof (StdString.size_nonneg data).
  assert (0 <= total_len b) by (rewrite (tg_total _ _ _ _ _ Ht); pose proof (StdString.size_nonneg (bytes_of P)); pose proof (gc_off _ Hg); lia).
  assert (total_len b + StdString.size data <= EV_SIZE_MAX) as Hb' by (unfold max_block, EVBUFFER_CHAIN_MAX, EVBUFFER_CHAIN_SIZE, EV_SIZE_MAX in *; lia).
  assert (0 <= remain) by (pose proof (gc_room _ Hg); unfold remain; lia).
  unfold add_chain. rewrite (deref_ok c ch) by by eapply target_lookup. cbn [mbind res_bind].
  pose proof (add_size ch (StdString.size data) Hg ltac:(lia)) as Hsz. cbv zeta in Hsz. set (to_alloc := if _ <? _ then _ else _) in *.
  destruct (chain_new_ok mm_malloc garbage Hgarbage to_alloc b (proj2 Hsz)) as [[-> Hm]|(tch & -> & [])]; [left; by split | right].
  cbn [mbind res_bind]. destruct (target_alloc b P c ch E tch Ht) as [Ht1 Hfr].
  destruct (fill_target (with_chain tch b) P c ch E data Ht1 Hr Hb') as (b2 & ch2 & E2 & Ht2 & Ho2 & Eb2 & Hk2 & Ef2 & Etot2 & Hfz2).
  fold remain in E2, Eb2, Etot2. rewrite E2. cbn [mbind res_bind].
  assert (c <> fresh b) as Hcf by (intros ->; apply Hfr; rewrite ids_app; apply elem_of_app; right; by left).
  assert (heap b2 !! fresh b = Some tch) as Htc by (rewrite Hk2 by done; apply lookup_insert_eq).
  rewrite (deref_ok (fresh b) tch) by done. cbn [mbind res_bind]. set (rest := drop (Z.to_nat remain) data) in *.
  assert (StdString.size rest = StdString.size data - remain) as Er by (unfold rest, StdString.size in *; rewrite length_drop; lia).
  assert (rest <> []) as Hrest by (intros E0; rewrite E0 in Er; unfold StdString.size in Er at 1; cbn in Er; lia).
  assert (misalign tch + off tch + StdString.size rest <= buffer_len tch) as Hfit by lia.
  destruct (appended_good rest tch nc_good Hrest Hfit) as [Hgt Hot].
  pose proof (gc_size _ nc_good) as Hsize. rewrite copy_to_ok by lia. cbn [mbind res_bind].
  assert (with_bytes (misalign tch) (StdString.size rest) (patch 0 rest (buffer tch)) tch = appended rest tch) as Ea
    by (unfold appended; rewrite nc_off, nc_misalign; done).
  rewrite Ea. assert (fresh b ∉ ids (P ++ (c, ch2) :: E)) as Hfr2 by (rewrite ids_app in *; exact Hfr).
  destruct (insert_behind (put_chain (fresh b) (appended rest tch) b2) P c ch2 E (fresh b) (appended rest tch)) as (b3 & E3 & Hr3 & Etot3 & Hfz3); try done.
  { apply target_put; [done | done |]. rewrite Ef2. cbn. lia. }
  { apply lookup_insert_eq. }
  { cbn [total_len put_chain]. rewrite Etot2. cbn [total_len with_chain appended with_bytes off]. rewrite nc_off. lia. }
  rewrite E3. cbn [mbind res_bind]. eexists _, _, []. split; [reflexivity |]. split; [exact (rep_counts _ _ _ _ _ Hr3) |]. split.
  - rewrite !bytes_of_app, !bytes_of_cons. change (bytes_of []) with (@nil ascii). rewrite !app_nil_r.
    change (node_bytes (c, with_next _ ch2)) with (node_bytes (c, ch2)). rewrite Eb2, appended_bytes by done.
    assert (node_bytes (fresh b, tch) = []) as -> by (unfold node_bytes; cbn [snd]; by rewrite nc_off).
    cbn [app]. unfold rest. by rewrite <- !app_assoc, take_drop.
  - destruct Hfz3 as [H3 H4], Hfz2 as [H5 H6]. split; [etrans; [exact H3 | exact H5] | etrans; [exact H4 | exact H6]].
Qed.

(** Bytes that fit behind those of the target, or fit once these are moved to the front. *)
Lemma add_fits b P c ch E data : target b P c ch E -> data <> [] -> total_len b + StdString.size data <= EV_SIZE_MAX ->
  misalign ch + off ch + StdString.size data <= buffer_len ch ->
  exists b' D' E', append_to c ch data b = Ok b' /\ rep (evbuffer_invoke_callbacks_ b') D' E' /\
    bytes_of D' = bytes_of P ++ node_bytes (c, ch) ++ data /\ freeze_start b' = freeze_start b /\ freeze_end b' = freeze_end b.
Proof.
  intros Ht Hd Hb Hfit. pose proof (target_good _ _ _ _ _ Ht) as Hg.
  destruct (append_ok b P c ch E data Ht Hd Hfit Hb) as (b' & E1 & Ht' & _ & _ & _ & Hf).
  destruct (target_good_buffer _ _ _ _ _ (target_counts _ _ _ _ _ 0 0 Ht')) as (D' & E' & Hr & Ed).
  exists b', D', E'. split; [done |]. split; [exact Hr |]. split; [| done]. by rewrite Ed, appended_bytes.
Qed.

Lemma append_put c ch x data b : append_to c x data (put_chain c ch b) = append_to c x data b.
Proof. unfold append_to. destruct (copy_to _ _ _); [| done]. cbn. unfold put_chain. cbn. by rewrite insert_insert_eq. Qed.

Lemma add_aligned b P c ch E data : target b P c ch E -> total_len b + StdString.size data <= EV_SIZE_MAX ->
  buffer_len ch - misalign ch - off ch < StdString.size data -> evbuffer_chain_should_realign ch (StdString.size data) = true ->
  exists ch' b' D' E', evbuffer_chain_align ch = Ok ch' /\ append_to c ch' data b = Ok b' /\ rep (evbuffer_invoke_callbacks_ b') D' E' /\
    bytes_of D' = bytes_of P ++ node_bytes (c, ch) ++ data /\ freeze_start b' = freeze_start b /\ freeze_end b' = freeze_end b.
Proof.
  intros Ht Hb Hno Hre. pose proof (target_good _ _ _ _ _ Ht) as Hg. pose proof (good_small _ Hg) as Hsm. pose proof Hg as [].
  unfold evbuffer_chain_should_realign in Hre. rewrite u64_small in Hre by lia. rewrite !andb_true_iff in Hre. destruct Hre as [[Hre _] _].
  apply Z.leb_le in Hre. assert (0 < off ch) as Ho by (destruct (decide (off ch = 0)); [specialize (gc_empty ltac:(done)) |]; lia).
  destruct (aligned_good c ch Hg Ho) as [Hg' Eb]. rewrite align_ok by done. set (ch' := with_bytes _ _ _ ch) in *.
  assert (target (put_chain c ch' b) P c ch' E) as Ht'.
  { pose proof (target_update b P c ch E ch' (total_len b) (n_add_for_cb b) (n_del_for_cb b) Ht Hg' Ho eq_refl) as H.
    apply H; [cbn; lia | apply Ht]. }
  destruct (add_fits _ P c ch' E data Ht') as (b' & D' & E' & E1 & Hr & Ed & Hf); [intros ->; unfold StdString.size in *; cbn in *; lia | done | cbn; lia |].
  rewrite append_put in E1. exists ch', b', D', E'. split; [done |]. split; [done |]. split; [done |]. rewrite Ed, Eb. by split.
Qed.

(** Nothing is added. *)
Lemma append_nil b P c ch E : target b P c ch E -> append_to c ch [] b = Ok (set_counts (total_len b) (u64 (n_add_for_cb b)) (n_del_for_cb b) b).
Proof.
  intros Ht. pose proof (target_good _ _ _ _ _ Ht) as Hg. pose proof (target_lookup _ _ _ _ _ Ht) as Hc. pose proof (tg_total _ _ _ _ _ Ht).
  pose proof (StdString.size_nonneg (bytes_of P)). pose proof (good_small _ Hg). pose proof (tg_bound _ _ _ _ _ Ht). unfold EV_SIZE_MAX in *.
  destruct Hg. unfold append_to. change (StdString.size []) with 0. rewrite copy_to_ok by (change (StdString.size []) with 0; lia).
  cbn [mbind res_bind]. rewrite patch_nil, !Z.add_0_r, !(u64_small (off ch)), (u64_small (total_len b)) by lia.
  replace (with_bytes (misalign ch) (off ch) (buffer ch) ch) with ch by by destruct ch.
  unfold put_chain. rewrite insert_id by done. by destruct b.
Qed.

Lemma add_rep b D E data : rep b D E -> freeze_end b = false -> total_len b + StdString.size data <= max_block ->
  (evbuffer_add mm_malloc garbage data b = Ok (-1, b) /\ exists z, mm_malloc (fresh b) z = false) \/
  exists b' D' E', evbuffer_add mm_malloc garbage data b = Ok (0, b') /\ rep b' D' E' /\ bytes_of D' = bytes_of D ++ data /\
    freeze_start b' = freeze_start b /\ freeze_end b' = freeze_end b.
Proof.
  intros Hr Hfz Hb. pose proof (rep_size _ _ _ Hr) as Hsz. pose proof (StdString.size_nonneg (bytes_of D)). pose proof (StdString.size_nonneg data).
  assert (total_len b + StdString.size data <= EV_SIZE_MAX) as Hb' by (unfold max_block, EVBUFFER_CHAIN_MAX, EVBUFFER_CHAIN_SIZE, EV_SIZE_MAX in *; lia).
  unfold evbuffer_add. rewrite Hfz, (proj2 (Z.ltb_ge _ _)) by lia.
  destruct (add_target_ok b D E (StdString.size data) Hr ltac:(lia)) as [[-> Hm]|(P & c & ch & E1 & b1 & -> & Ht & Ed & Hfit & Etot & Hf1 & Hf2)]; [left; by split |].
  cbn [mbind res_bind]. pose proof (target_good _ _ _ _ _ Ht) as Hg. pose proof (good_small _ Hg) as Hsm. pose proof (gc_room _ Hg).
  rewrite (deref_ok c ch) by by eapply target_lookup. cbn [mbind res_bind]. rewrite (good_flags _ _ Hg), (good_pinned _ Hg).
  rewrite (proj2 (Z.leb_le 0 (misalign ch))), (proj2 (Z.leb_le (misalign ch) _)), u64_small by (unfold EVBUFFER_CHAIN_MAX; lia).
  cbn [andb negb]. rewrite Ed, <- app_assoc. rewrite <- Etot in Hb, Hb'. destruct (Z.leb_spec (StdString.size data) (buffer_len ch - misalign ch - off ch)) as [Hle|Hgt].
  { right. destruct (decide (data = [])) as [->|Hd].
    - rewrite (append_nil b1 P c ch E1 Ht). cbn [mbind res_bind].
      destruct (target_good_buffer _ _ _ _ _ (target_counts _ _ _ _ _ 0 0 Ht)) as (D' & E' & Hr' & Ed').
      eexists _, D', E'. split; [reflexivity |]. split; [exact Hr' |]. rewrite Ed', app_nil_r. split; [done |]. cbn. by rewrite Hf1, Hf2.
    - destruct (add_fits b1 P c ch E1 data Ht Hd) as (b' & D' & E' & -> & Hr' & Ed' & H3 & H4); [done | lia |].
      cbn [mbind res_bind]. eexists _, D', E'. split; [reflexivity |]. split; [exact Hr' |]. split; [done |]. cbn. by rewrite H3, H4, Hf1, Hf2. }
  destruct (evbuffer_chain_should_realign ch (StdString.size data)) eqn:Ere.
  { right. destruct (add_aligned b1 P c ch E1 data Ht) as (ch' & b' & D' & E' & -> & E2 & Hr' & Ed' & H3 & H4); [done | lia | done |].
    cbn [mbind res_bind]. rewrite E2. cbn [mbind res_bind]. eexists _, D', E'. split; [reflexivity |]. split; [exact Hr' |]. split; [done |]. cbn. by rewrite H3, H4, Hf1, Hf2. }
  destruct Hfit as [->|Hfit]; [| lia]. destruct (add_chain_ok b P c ch E1 data Ht Hgt Hb) as [?|(b' & D' & E' & E2 & Hr' & Ed' & Hf)]; [by left | right].
  exists b', D', E'. split; [exact E2 |]. split; [exact Hr' |]. split; [exact Ed' |]. by rewrite <- Hfz.
Qed.
End Add.
