(* ===== verification/EvbufferRead.v ===== *)
(** * Reading from a socket into a libevent buffer

    [evbuffer_read] makes room ([evbuffer_expand_fast_]), lets the socket write into
    the free space of up to four chains, and counts the bytes in.  Whatever the
    chains were, the contents grow by exactly the bytes that came. *)
From S2P Require Import Prelude CStr StdString Evbuffer EvbufferProps EvbufferAdd.
Open Scope Z_scope.

(** The free space of a chain, and of a list of chains. *)
Definition space (ch : evbuffer_chain) : Z := buffer_len ch - misalign ch - off ch.
Definition cap (Q : list node) : Z := foldr (fun x n => space x.2 + n) 0 Q.

Lemma space_len ch : good_chain ch -> CHAIN_SPACE_LEN ch = space ch /\ 0 <= space ch < 2 ^ 63.
Proof.
  intros Hg. pose proof (good_small _ Hg). pose proof (gc_room _ Hg). unfold CHAIN_SPACE_LEN, space.
  rewrite (good_flags _ _ Hg), u64_small by lia. lia.
Qed.

Lemma space_empty ch : good_chain ch -> off ch = 0 -> space ch = buffer_len ch /\ 0 < space ch.
Proof. intros [] Ho. unfold space. specialize (gc_empty Ho). lia. Qed.

Lemma cap_nonneg Q : Forall (fun x => good_chain x.2) Q -> 0 <= cap Q.
Proof. induction 1 as [|x Q Hx _ IH]; [done |]. cbn. pose proof (space_len _ Hx). unfold cap in IH. lia. Qed.

Lemma cap_app Q R : cap (Q ++ R) = cap Q + cap R.
Proof. induction Q as [|x Q IH]; [done |]. cbn [app cap foldr]. fold (cap (Q ++ R)) (cap Q). lia. Qed.

Lemma cap_take k Q : Forall (fun x => good_chain x.2) Q -> cap (take k Q) <= cap Q.
Proof.
  intros HQ. rewrite <- (take_drop k Q) at 2. rewrite cap_app. pose proof (cap_nonneg (drop k Q) (Forall_drop _ k _ HQ)). lia.
Qed.

(** ** Making room *)

(** The rest of [avail_loop], over empty chains. *)
Lemma avail_empty n E : forall fuel p used avail b P c ch E0, (length E < fuel)%nat -> lseg (heap b) p E None ->
  target b P c ch (E0 ++ E) -> (used < 4)%nat -> 0 <= avail < n -> n < 2 ^ 62 ->
  exists enough q used' avail', avail_loop fuel p n 4 used avail b = Ok (enough, q, used', avail', b) /\
    ((enough = true /\ n <= avail + cap (take (4 - used) E)) \/
     (enough = false /\ q = None /\ used' = (used + length E)%nat /\ (used' < 4)%nat /\ avail' = avail + cap E /\ avail' < n) \/
     (enough = false /\ used' = 4%nat)).
Proof.
  induction E as [|[e ech] E IH]; intros fuel p used avail b P c ch E0 Hf Hs Ht Hu Ha Hn; (destruct fuel as [|fuel]; [cbn in Hf; lia |]); cbn [lseg] in Hs.
  - subst p. exists false, None, used, avail. split; [done |]. right. left. cbn. split_and!; try done; lia.
  - destruct Hs as (-> & Hc & Hs). pose proof (tg_empty _ _ _ _ _ Ht) as He. pose proof (target_tail _ _ _ _ _ Ht) as (_ & _ & _ & Hg & _).
    apply Forall_app in He as [_ [He _]%Forall_cons], Hg as [_ [Hg _]%Forall_cons]. unfold node_off in He. cbn [snd] in He, Hg.
    destruct (space_empty _ Hg He) as [Es Hpos]. destruct (space_len _ Hg) as [_ Hsm]. cbn [avail_loop]. rewrite (deref_ok e ech) by done. cbn [mbind res_bind].
    rewrite (target_load _ _ _ _ _ Ht). cbn [mbind res_bind]. rewrite He. cbn [negb Z.eqb andb].
    assert (put_chain e (with_bytes 0 0 (buffer ech) ech) b = b) as ->.
    { replace (with_bytes 0 0 (buffer ech) ech) with ech by (pose proof (gc_empty _ Hg He); destruct ech; cbn in *; by subst).
      unfold put_chain. rewrite insert_id by done. by destruct b. }
    rewrite (u64_small (avail + buffer_len ech)) by lia. destruct (Z.leb_spec n (avail + buffer_len ech)) as [Hle|Hlt].
    + exists true, (Some e), (S used), (avail + buffer_len ech). split; [done |]. left. split; [done |].
      destruct (4 - used)%nat as [|k] eqn:Ek; [lia |]. cbn [take cap foldr]. fold (cap (take k E)). cbn [snd].
      assert (0 <= cap (take k E)); [| lia]. apply cap_nonneg, Forall_take. pose proof (target_tail _ _ _ _ _ Ht) as (_ & _ & _ & H & _).
      by apply Forall_app in H as [_ [_ ?]%Forall_cons].
    + destruct (decide (S used = 4%nat)) as [E4|E4].
      * exists false, (Some e), (S used), (avail + buffer_len ech). rewrite bool_decide_eq_true_2 by done. split; [done |]. right. by right.
      * rewrite bool_decide_eq_false_2 by done.
        destruct (IH fuel (next ech) (S used) (avail + buffer_len ech) b P c ch (E0 ++ [(e, ech)])) as (en & q & u & a & El & Hcase);
          [cbn in Hf; lia | done | by rewrite <- app_assoc | lia | lia | lia |].
        exists en, q, u, a. split; [exact El |]. cbn [length cap foldr]. fold (cap E). cbn [snd].
        destruct Hcase as [[? H]|[(? & ? & ? & ? & ? & ?)|?]]; [left; split; [done |] | right; left; split_and!; try done; lia | right; by right].
        replace (4 - used)%nat with (S (4 - S used)) by lia. cbn [take cap foldr]. fold (cap (take (4 - S used) E)). cbn [snd]. lia.
Qed.

(** The chains with space, from the target on. *)
Definition room (c : cid) (ch : evbuffer_chain) (E : list node) : list node :=
  if space ch =? 0 then E else (c, ch) :: E.

Lemma avail_ok n b P c ch E : target b P c ch E -> 0 < n < 2 ^ 62 ->
  exists enough q used avail, avail_loop (fuel_of b) (Some c) n 4 0 0 b = Ok (enough, q, used, avail, b) /\
    ((enough = true /\ n <= cap (take 4 (room c ch E))) \/
     (enough = false /\ q = None /\ used = length (room c ch E) /\ (used < 4)%nat /\ avail = cap (room c ch E) /\ 0 <= avail < n) \/
     (enough = false /\ used = 4%nat /\ space ch < n)).
Proof.
  intros Ht Hn. pose proof (target_good _ _ _ _ _ Ht) as Hg. pose proof (target_lookup _ _ _ _ _ Ht) as Hc.
  pose proof (target_tail _ _ _ _ _ Ht) as (Hs & _ & _ & HgE & Hf). destruct (space_len _ Hg) as [El Hsp].
  assert (exists k, fuel_of b = S k /\ (length E < k)%nat) as (k & -> & Hk).
  { pose proof (lseg_size _ _ _ _ (tg_seg _ _ _ _ _ Ht) (tg_nodup _ _ _ _ _ Ht)) as H. rewrite length_app in H. cbn [length] in H.
    exists (base.size (heap b)). unfold fuel_of. lia. }
  cbn [avail_loop]. rewrite (deref_ok c ch) by done. cbn [mbind res_bind]. rewrite (target_load _ _ _ _ _ Ht). cbn [mbind res_bind].
  rewrite bool_decide_eq_true_2, andb_false_r by done. rewrite El.
  set (st := if negb (off ch =? 0) then _ else _).
  assert (st = (space ch, if space ch =? 0 then 0%nat else 1%nat, b)) as ->.
  { unfold st. destruct (Z.eqb_spec (off ch) 0) as [E0|E0]; cbn [negb].
    - destruct (space_empty _ Hg E0) as [Es Hpos]. rewrite (proj2 (Z.eqb_neq _ _)) by lia. rewrite Z.add_0_l, <- Es, u64_small by lia. f_equal.
      replace (with_bytes 0 (off ch) (buffer ch) ch) with ch by (pose proof (gc_empty _ Hg E0); destruct ch; cbn in *; by subst).
      unfold put_chain. rewrite insert_id by done. by destruct b.
    - destruct (Z.eqb_spec (space ch) 0) as [->|]; cbn [negb]; [done |]. by rewrite Z.add_0_l, u64_small by lia. }
  unfold room. destruct (Z.leb_spec n (space ch)) as [Hle|Hlt].
  - eexists true, _, _, _. split; [reflexivity |]. left. split; [done |]. rewrite (proj2 (Z.eqb_neq _ _)) by lia.
    cbn [take cap foldr]. fold (cap (take 3 E)). cbn [snd]. pose proof (cap_nonneg (take 3 E) (Forall_take _ _ _ HgE)). lia.
  - rewrite bool_decide_eq_false_2 by (by destruct (space ch =? 0)).
    destruct (avail_empty n E k (next ch) (if space ch =? 0 then 0%nat else 1%nat) (space ch) b P c ch []) as (en & q & u & a & -> & Hcase);
      [done | done | done | destruct (space ch =? 0); lia | lia | lia |].
    exists en, q, u, a. split; [done |]. destruct (Z.eqb_spec (space ch) 0) as [E0|E0].
    + rewrite E0 in Hcase. cbn [Nat.sub Nat.add] in Hcase. destruct Hcase as [[? ?]|[(? & ? & ? & ? & ? & ?)|[? ?]]].
      * left. split; [done | lia].
      * right. left. pose proof (cap_nonneg E HgE). split_and!; try done; lia.
      * right. right. split_and!; try done.
    + cbn [take length cap foldr]. fold (cap E) (cap (take 3 E)). cbn [snd].
      change (4 - 1)%nat with 3%nat in Hcase. destruct Hcase as [[? ?]|[(? & ? & ? & ? & ? & ?)|[? ?]]].
      * left. split; [done | lia].
      * right. left. pose proof (cap_nonneg E HgE). split_and!; try done; lia.
      * right. right. split_and!; try done.
Qed.

Lemma nuke_ok L : forall fuel p b, (length L < fuel)%nat -> lseg (heap b) p L None -> NoDup (ids L) ->
  Forall (fun x => good_chain x.2) L -> Forall (fun x => node_off x = 0) L ->
  exists h, nuke fuel p b = Ok (with_heap h b) /\ h ⊆ heap b /\ forall c, c ∉ ids L -> h !! c = heap b !! c.
Proof.
  induction L as [|[c ch] L IH]; intros fuel p b Hf Hs Hn Hg He; (destruct fuel as [|fuel]; [cbn in Hf; lia |]); cbn [lseg] in Hs.
  - subst p. exists (heap b). split; [by destruct b | done].
  - destruct Hs as (-> & Hc & Hs). apply Forall_cons in Hg as [Hgc Hg], He as [Hec He]. unfold node_off in Hec. cbn [snd] in Hec, Hgc.
    cbn [ids map fst] in Hn. apply NoDup_cons in Hn as [Hcn Hn].
    cbn [nuke]. rewrite (deref_ok c ch) by done. cbn [mbind res_bind]. rewrite Hec. cbn [negb Z.eqb].
    rewrite (chain_free c ch) by done. cbn [mbind res_bind].
    destruct (IH fuel (next ch) (with_heap (delete c (heap b)) b)) as (h & E & Hh & Hk);
      [cbn in Hf; lia | by apply lseg_delete | done | done | done |].
    exists h. split; [exact E |]. cbn [heap with_heap] in *. split; [by etrans; [| apply delete_subseteq] |].
    intros x Hx. apply not_elem_of_cons in Hx as [Hx Hx']. rewrite Hk by done. by apply lookup_delete_ne.
Qed.

(** Other empty chains behind the target. *)
Lemma target_retail b P c ch E b' q E' : target b P c ch E ->
  first b' = first b -> last_with_datap b' = last_with_datap b -> total_len b' = total_len b ->
  (forall x, x ∈ ids P -> heap b' !! x = heap b !! x) -> heap b' !! c = Some (with_next q ch) -> lseg (heap b') q E' None ->
  NoDup (ids (P ++ (c, ch) :: E')) -> (forall x, is_Some (heap b' !! x) -> (x < fresh b')%positive) ->
  lastp b' = last_id ((c, ch) :: E') -> Forall (fun x => good_chain x.2) E' -> Forall (fun x => node_off x = 0) E' ->
  target b' P c (with_next q ch) E'.
Proof.
  intros Ht Ef Ed Et HP Hc Hs Hn Hfr Hl Hg He. destruct Ht. constructor; try done.
  - rewrite Ef. apply lseg_app in tg_seg as (m & Hp & (-> & _ & _)). apply lseg_app. exists (Some c). split; [| done].
    by apply (lseg_frame (heap b)).
  - rewrite ids_app in *. exact Hn.
  - rewrite Hl, last_id_app by done. by rewrite !last_id_ids.
  - rewrite Ed, tg_datap. apply datap_from_ids. by rewrite !ids_app.
  - apply Forall_app in tg_good as [HgP [Hgc _]%Forall_cons]. apply Forall_app. split; [done |]. constructor; [by destruct Hgc | done].
  - by rewrite Et.
  - by rewrite Et.
Qed.

Section Read.
Context (mm_malloc : cid -> Z -> bool) (garbage : Z -> str) (Hgarbage : forall n, 0 <= n -> StdString.size (garbage n) = n).

(** What making room gives: the same contents, and enough room in at most four chains. *)
Definition roomy (n : Z) (b b' : evbuffer) : Prop :=
  exists P c ch E, target b' P c ch E /\ contents b' = contents b /\ n <= cap (take 4 (room c ch E)) /\
    total_len b' = total_len b /\ freeze_start b' = freeze_start b /\ freeze_end b' = freeze_end b.

Lemma target_contents b P c ch E : target b P c ch E -> contents b = bytes_of P ++ node_bytes (c, ch).
Proof. intros Ht. destruct (target_good_buffer _ _ _ _ _ Ht) as (D & E' & Hr & <-). by apply (rep_contents _ _ E'). Qed.

Lemma room_new c ch t tch n : good_chain ch -> good_chain tch -> off tch = 0 -> misalign tch = 0 -> n - space ch <= buffer_len tch ->
  n <= cap (take 4 (room c ch [(t, tch)])).
Proof.
  intros Hg Hgt Ho Hm Hn. destruct (space_len _ Hg) as [_ Hs]. assert (space tch = buffer_len tch) as Et by (unfold space; lia).
  unfold room. destruct (Z.eqb_spec (space ch) 0); cbn [take cap foldr snd]; lia.
Qed.

(** The four chains were too small: the empty ones are freed, a large one takes their place. *)
Lemma expand_replace b P c ch E n t tch h : target b P c ch E -> new_chain n tch ->
  h !! c = Some ch -> (forall x, x ∈ ids P -> h !! x = heap b !! x) -> h ⊆ heap b -> t = fresh b ->
  target (mkBuffer (first b) (Some t) (last_with_datap b) (total_len b) (n_add_for_cb b) (n_del_for_cb b) (freeze_start b) (freeze_end b)
            (<[c := with_next (Some t) ch]> (<[t := tch]> h)) (Pos.succ t)) P c (with_next (Some t) ch) [(t, tch)].
Proof.
  intros Ht [] Hc HP Hh ->. destruct (target_alloc b P c ch E tch Ht) as [_ Hfr]. rewrite ids_app in Hfr. apply not_elem_of_app in Hfr as [HfP Hfc].
  apply not_elem_of_cons in Hfc as [Hfc _]. cbn [fst] in Hfc. pose proof (tg_nodup _ _ _ _ _ Ht) as Hn.
  rewrite ids_app in Hn. apply NoDup_app in Hn as (HnP & HPc & Hn). cbn [ids map fst] in Hn, HPc. apply NoDup_cons in Hn as [HcE _].
  apply (target_retail b P c ch E); cbn [heap first lastp last_with_datap total_len fresh]; try done.
  - intros x Hx. rewrite !lookup_insert_ne; [by apply HP | by intros <- | intros ->; apply (HPc x Hx); by left].
  - apply lookup_insert_eq.
  - split; [done |]. split; [by rewrite lookup_insert_ne, lookup_insert_eq | done].
  - rewrite ids_app. cbn [ids map fst]. apply NoDup_app. split; [done |]. split; [| by repeat constructor; set_solver].
    intros x Hx [->|[->|[]%elem_of_nil]%elem_of_cons]%elem_of_cons; [apply (HPc _ Hx); by left | done].
  - pose proof (tg_fresh _ _ _ _ _ Ht) as Hf. apply below_insert; [specialize (Hf c (ltac:(exists ch; by eapply lookup_weaken))); lia |].
    apply below_insert; [lia |]. intros x [y Hy]. specialize (Hf x ltac:(exists y; by eapply lookup_weaken)). lia.
  - by constructor.
  - by constructor.
Qed.

Lemma room_app c ch E R : room c ch (E ++ R) = room c ch E ++ R.
Proof. unfold room. by destruct (space ch =? 0). Qed.

(** A chain behind the last one. *)
Lemma lseg_snoc h p L l lch t tch : lseg h p (L ++ [(l, lch)]) None -> NoDup (ids (L ++ [(l, lch)])) -> t ∉ ids (L ++ [(l, lch)]) ->
  next tch = None ->
  lseg (<[l := with_next (Some t) lch]> (<[t := tch]> h)) p (L ++ [(l, with_next (Some t) lch); (t, tch)]) None.
Proof.
  rewrite !lseg_app, ids_app. intros (m & Hs & (-> & Hl & _)) Hn Ht En. apply NoDup_app in Hn as (_ & Hd & _).
  apply not_elem_of_app in Ht as [HtL [Htl _]%not_elem_of_cons]. cbn [fst] in Htl. exists (Some l). split.
  - apply lseg_insert, lseg_insert; [| done | done]. intros Hx. apply (Hd l Hx). by left.
  - split; [done |]. split; [apply lookup_insert_eq |]. split; [done |]. by rewrite lookup_insert_ne, lookup_insert_eq.
Qed.

(** The new chain goes behind empty ones. *)
Lemma expand_behind b P c ch E l lch n tch : target b P c ch (E ++ [(l, lch)]) -> new_chain n tch ->
  let t := fresh b in
  target (mkBuffer (first b) (Some t) (last_with_datap b) (total_len b) (n_add_for_cb b) (n_del_for_cb b) (freeze_start b) (freeze_end b)
            (<[l := with_next (Some t) lch]> (<[t := tch]> (heap b))) (Pos.succ t)) P c ch (E ++ [(l, with_next (Some t) lch); (t, tch)]).
Proof.
  intros Ht [] t. destruct (target_alloc b P c ch _ tch Ht) as [_ Hfr]. pose proof (target_tail _ _ _ _ _ Ht) as (Hs & HnE & HcE & Hg & _).
  pose proof (tg_empty _ _ _ _ _ Ht) as He. pose proof (target_lookup _ _ _ _ _ Ht) as Hc.
  rewrite ids_app in Hfr. apply not_elem_of_app in Hfr as [HfP Hf]. apply not_elem_of_cons in Hf as [Hfc HfE]. cbn [fst] in Hfc.
  pose proof (tg_nodup _ _ _ _ _ Ht) as Hn. rewrite ids_app in Hn. apply NoDup_app in Hn as (HnP & HPc & Hn). cbn [ids map fst] in HPc.
  assert (l ∈ ids (E ++ [(l, lch)])) as Hl by (rewrite ids_app; apply elem_of_app; right; by left).
  assert (heap b !! l = Some lch) as Hll by (apply (lseg_lookup _ _ _ _ l lch Hs), elem_of_app; right; by left).
  assert (c <> l) as Hcl by (by intros ->). assert (t <> c) as Htc by (intros Etc; by apply Hfc).
  assert (ids (E ++ [(l, with_next (Some t) lch); (t, tch)]) = ids (E ++ [(l, lch)]) ++ [t]) as Eids by (rewrite !ids_app, <- app_assoc; done).
  replace ch with (with_next (next ch) ch) at 1 by by destruct ch.
  apply (target_retail b P c ch (E ++ [(l, lch)])); cbn [heap first lastp last_with_datap total_len fresh]; try done.
  - intros x Hx. assert (x <> l) by (intros ->; apply (HPc l Hx); by right). assert (x <> t) by (intros Ext; apply HfP; by rewrite <- (Ext : x = fresh b)). by rewrite !lookup_insert_ne.
  - rewrite !lookup_insert_ne by congruence. rewrite Hc. f_equal. by destruct ch.
  - by apply lseg_snoc.
  - rewrite ids_app. change (ids ((c, ch) :: E ++ [(l, with_next (Some t) lch); (t, tch)])) with (c :: ids (E ++ [(l, with_next (Some t) lch); (t, tch)])).
    rewrite Eids. change (c :: ids (E ++ [(l, lch)]) ++ [t]) with ((c :: ids (E ++ [(l, lch)])) ++ [t]). rewrite app_assoc. apply NoDup_app.
    pose proof (tg_nodup _ _ _ _ _ Ht) as Hn'. rewrite ids_app in Hn'. split; [exact Hn' |]. split; [| repeat constructor; set_solver].
    intros x Hx [->|[]%elem_of_nil]%elem_of_cons. apply elem_of_app in Hx as [?|[?|?]%elem_of_cons]; [done | by subst c | done].
  - pose proof (tg_fresh _ _ _ _ _ Ht) as Hf. apply below_insert; [specialize (Hf l (ltac:(by exists lch))); lia |].
    apply below_insert; [lia |]. intros x Hx%Hf. lia.
  - rewrite last_id_ids. change (ids ((c, ch) :: E ++ [(l, with_next (Some t) lch); (t, tch)])) with (c :: ids (E ++ [(l, with_next (Some t) lch); (t, tch)])).
    rewrite Eids, app_comm_cons. by rewrite last_snoc.
  - apply Forall_app in Hg as [Hg [Hgl _]%Forall_cons]. apply Forall_app. split; [done |]. constructor; [by destruct Hgl | by constructor].
  - apply Forall_app in He as [He [Hel _]%Forall_cons]. apply Forall_app. split; [done |]. constructor; [done | by constructor].
Qed.

Lemma expand_append b P c ch E n m tch : target b P c ch E -> new_chain m tch -> m = n - cap (room c ch E) -> (length (room c ch E) < 4)%nat ->
  exists l b', lastp b = Some l /\ store (Next l) (Some (fresh b)) (with_chain tch b) = Ok b' /\ roomy n b (set_last (Some (fresh b)) b').
Proof.
  intros Ht Hnew Em Hlen. pose proof (target_good _ _ _ _ _ Ht) as Hg. pose proof (target_lookup _ _ _ _ _ Ht) as Hc.
  pose proof (target_contents _ _ _ _ _ Ht) as Hcont. destruct (target_alloc b P c ch E tch Ht) as [_ Hfr].
  destruct E as [|e E _] using rev_ind.
  - exists c. eexists. split; [rewrite (tg_last _ _ _ _ _ Ht), last_id_app; done |]. cbn [store].
    assert (c <> fresh b) as Hcf by (intros ->; apply Hfr; rewrite ids_app; apply elem_of_app; right; by left).
    rewrite (deref_ok c ch) by (cbn [heap with_chain]; by rewrite lookup_insert_ne). cbn [mbind res_bind]. split; [reflexivity |].
    pose proof (expand_replace b P c ch [] m (fresh b) tch (heap b) Ht Hnew Hc ltac:(done) ltac:(done) eq_refl) as Ht'.
    exists P, c, (with_next (Some (fresh b)) ch), [(fresh b, tch)]. split; [exact Ht' |]. split.
    { rewrite Hcont. exact (target_contents _ _ _ _ _ Ht'). }
    split; [| done]. destruct Hnew. apply room_new; [by destruct Hg | done.. |]. change (space (with_next _ ch)) with (space ch).
    unfold room in Em. destruct (Z.eqb_spec (space ch) 0); cbn [cap foldr snd] in Em; lia.
  - destruct e as [l lch]. exists l. eexists. split; [rewrite (tg_last _ _ _ _ _ Ht), app_comm_cons, app_assoc, last_id_app; done |]. cbn [store].
    pose proof (target_tail _ _ _ _ _ Ht) as (Hs & _).
    assert (l <> fresh b) as Hlf by (intros ->; apply Hfr; rewrite app_comm_cons, !ids_app, !elem_of_app; right; right; by left).
    assert (heap b !! l = Some lch) as Hll by (apply (lseg_lookup _ _ _ _ l lch Hs), elem_of_app; right; by left).
    rewrite (deref_ok l lch) by (cbn [heap with_chain]; by rewrite lookup_insert_ne). cbn [mbind res_bind]. split; [reflexivity |].
    pose proof (expand_behind b P c ch E l lch m tch Ht Hnew) as Ht'. exists P, c, ch, (E ++ [(l, with_next (Some (fresh b)) lch); (fresh b, tch)]).
    split; [exact Ht' |]. split; [rewrite Hcont; exact (target_contents _ _ _ _ _ Ht') |]. split; [| done]. destruct Hnew.
    assert (space tch = buffer_len tch) as Es by (unfold space; lia).
    rewrite room_app, cap_app in Em. rewrite room_app, length_app in Hlen. cbn [length] in Hlen. rewrite room_app.
    rewrite take_ge by (rewrite length_app; cbn; lia). rewrite cap_app.
    change (cap [(l, lch)]) with (space lch + 0) in Em. change (cap [_; _]) with (space lch + (space tch + 0)). lia.
Qed.

(** A block could not be had: the contents are the same. *)
Definition no_memory : Prop := exists c z, mm_malloc c z = false.
Definition unchanged (b b' : evbuffer) : Prop :=
  no_memory /\ good b' /\ contents b' = contents b /\ freeze_start b' = freeze_start b /\ freeze_end b' = freeze_end b.

Lemma expand_first b n : rep b [] [] -> 0 < n <= max_block ->
  (exists b', evbuffer_expand_fast_ mm_malloc garbage n 4 b = Ok (-1, b') /\ unchanged b b') \/
  exists b', evbuffer_expand_fast_ mm_malloc garbage n 4 b = Ok (0, b') /\ roomy n b b'.
Proof.
  intros Hr Hn. pose proof Hr as Hr'. destruct Hr'. cbn in rep_last. unfold evbuffer_expand_fast_. cbn [Nat.leb mbind res_bind].
  rewrite rep_last. cbn [mbind res_bind].
  destruct (chain_new_ok mm_malloc garbage Hgarbage n b ltac:(lia)) as [[-> (z & Hz)]|(tch & -> & [])].
  { left. exists b. split; [done |]. split; [by exists (fresh b), z |]. split; [by exists [], [] | done]. }
  right. cbn [mbind res_bind]. destruct (insert_first (with_chain tch b) (fresh b) tch) as (b' & Ei & Ht & Ef & Etot & Hf); try done.
  { constructor; try done. cbn [fresh with_chain]. apply below_insert; [lia |]. intros x Hx%rep_fresh. lia. }
  { apply lookup_insert_eq. }
  rewrite Ei. cbn [mbind res_bind]. exists b'. split; [done |]. exists [], (fresh b), tch, []. split; [done |]. split.
  - rewrite (target_contents _ _ _ _ _ Ht), (rep_contents _ _ _ Hr). unfold node_bytes. cbn [snd]. by rewrite nc_off.
  - destruct (space_empty tch nc_good nc_off) as [Es Hp]. split; [| by rewrite Etot, rep_total].
    unfold room. rewrite (proj2 (Z.eqb_neq _ _)) by lia. cbn [take cap foldr snd]. lia.
Qed.

Lemma target_not_immutable b P c ch E : target b P c ch E -> exists l lch, lastp b = Some l /\ heap b !! l = Some lch /\ good_chain lch.
Proof.
  intros Ht. pose proof (tg_last _ _ _ _ _ Ht) as El. unfold last_id in El. destruct (last (P ++ (c, ch) :: E)) as [[l lch]|] eqn:Ell.
  - exists l, lch. split; [done |]. apply last_Some_elem_of in Ell. split; [by apply (lseg_lookup _ _ _ _ _ _ (tg_seg _ _ _ _ _ Ht)) |].
    exact (proj1 (Forall_forall _ _) (tg_good _ _ _ _ _ Ht) _ Ell).
  - apply last_None in Ell. by destruct P.
Qed.

(** The four chains with room are too small: all chains are empty, or the target has bytes. *)
Lemma expand_all b c ch E n : target b [] c ch E -> off ch = 0 -> 0 < n <= max_block ->
  exists h, nuke (fuel_of b) (Some c) b = Ok (with_heap h b) /\
  match evbuffer_chain_new mm_malloc garbage n (with_heap h b) with
  | Ok (None, b1) => unchanged b (ZERO_CHAIN b1)
  | Ok (Some t, b1) => roomy n b (set_datap First (set_last (Some t) (set_first (Some t) b1)))
  | Fault _ => False
  end.
Proof.
  intros Ht Ho Hn. pose proof (target_tail _ _ _ _ _ Ht) as (Hs & HnE & HcE & HgE & Hf). pose proof (target_good _ _ _ _ _ Ht) as Hg.
  pose proof (target_lookup _ _ _ _ _ Ht) as Hc. pose proof (lseg_size _ _ _ _ (tg_seg _ _ _ _ _ Ht) (tg_nodup _ _ _ _ _ Ht)) as Hsz.
  cbn [app] in Hsz. destruct (nuke_ok ((c, ch) :: E) (fuel_of b) (Some c) b) as (h & En & Hh & _).
  { unfold fuel_of. lia. }
  { by split. }
  { by constructor. }
  { by constructor. }
  { constructor; [done | apply Ht]. }
  exists h. split; [done |]. assert (contents b = []) as Eb.
  { rewrite (target_contents _ _ _ _ _ Ht). unfold node_bytes. cbn [snd]. by rewrite Ho. }
  assert (forall x, is_Some (h !! x) -> (x < fresh b)%positive) as Hfr by (eapply fresh_subset; [exact Hh | apply Ht]).
  assert (total_len b = 0) as Etot by (rewrite (tg_total _ _ _ _ _ Ht), size_nil_bytes, Ho; done).
  destruct (chain_new_ok mm_malloc garbage Hgarbage n (with_heap h b) ltac:(lia)) as [[-> (z & Hz)]|(tch & -> & [])].
  - split; [by exists (fresh b), z |]. split; [exists [], []; by apply rep_zero |]. split; [by rewrite Eb | done].
  - assert (target (set_datap First (set_last (Some (fresh b)) (set_first (Some (fresh b)) (with_chain tch (with_heap h b))))) [] (fresh b) tch []) as Ht'.
    { constructor; cbn [heap first lastp last_with_datap total_len fresh set_datap set_last set_first with_chain with_heap app]; try done.
      - split; [done |]. split; [apply lookup_insert_eq | done].
      - repeat constructor. set_solver.
      - apply below_insert; [lia |]. intros x Hx%Hfr. lia.
      - by constructor.
      - rewrite Etot, nc_off. done.
      - rewrite Etot. done. }
    exists [], (fresh b), tch, []. split; [exact Ht' |]. split.
    + rewrite Eb. etrans; [exact (target_contents _ _ _ _ _ Ht') |]. unfold node_bytes. cbn [snd]. by rewrite nc_off.
    + destruct (space_empty tch nc_good nc_off) as [Es Hp]. split; [| done].
      unfold room. rewrite (proj2 (Z.eqb_neq _ _)) by lia. cbn [take cap foldr snd]. lia.
Qed.

Lemma expand_rest b P c ch E n : target b P c ch E -> 0 < off ch -> space ch < n <= max_block ->
  exists h, nuke (fuel_of b) (next ch) b = Ok (with_heap h b) /\
  match evbuffer_chain_new mm_malloc garbage (n - space ch) (with_heap h b) with
  | Ok (None, b1) => exists b2, store (Next c) None b1 = Ok b2 /\ unchanged b (set_last (Some c) b2)
  | Ok (Some t, b1) => exists b2, store (Next c) (Some t) b1 = Ok b2 /\ roomy n b (set_last (Some t) b2)
  | Fault _ => False
  end.
Proof.
  intros Ht Ho Hn. pose proof (target_tail _ _ _ _ _ Ht) as (Hs & HnE & HcE & HgE & Hf). pose proof (target_good _ _ _ _ _ Ht) as Hg.
  pose proof (target_lookup _ _ _ _ _ Ht) as Hc. destruct (space_len _ Hg) as [_ Hsp]. pose proof (target_contents _ _ _ _ _ Ht) as Hcont.
  destruct (nuke_ok E (fuel_of b) (next ch) b Hf Hs HnE HgE (tg_empty _ _ _ _ _ Ht)) as (h & En & Hh & Hk).
  exists h. split; [done |]. assert (h !! c = Some ch) as Hhc by by rewrite Hk.
  pose proof (tg_nodup _ _ _ _ _ Ht) as Hnd. rewrite ids_app in Hnd. apply NoDup_app in Hnd as (HnP & HPc & _). cbn [ids map fst] in HPc.
  assert (forall x, x ∈ ids P -> h !! x = heap b !! x) as HhP by (intros x Hx; apply Hk; intros HxE; apply (HPc x Hx); by right).
  destruct (chain_new_ok mm_malloc garbage Hgarbage (n - space ch) (with_heap h b) ltac:(lia)) as [[-> (z & Hz)]|(tch & -> & Hnew)].
  - cbn [store]. rewrite (deref_ok c ch) by done. cbn [mbind res_bind]. eexists. split; [reflexivity |].
    assert (target (set_last (Some c) (put_chain c (with_next None ch) (with_heap h b))) P c (with_next None ch) []) as Ht'.
    { apply (target_retail b P c ch E); try done.
      - intros x Hx. cbn. rewrite lookup_insert_ne; [by apply HhP |]. intros ->. apply (HPc x Hx). by left.
      - apply lookup_insert_eq.
      - rewrite ids_app. apply NoDup_app. split; [done |]. split; [| repeat constructor; set_solver].
        intros x Hx [->|[]%elem_of_nil]%elem_of_cons. apply (HPc _ Hx). by left.
      - apply (below_insert h); [apply (tg_fresh _ _ _ _ _ Ht); by exists ch | eapply fresh_subset; [exact Hh | apply Ht]]. }
    split; [by exists (fresh b), z |]. split; [| split; [rewrite Hcont; exact (target_contents _ _ _ _ _ Ht') | done]].
    destruct (target_good_buffer _ _ _ _ _ Ht') as (D & E' & Hr & _). by exists D, E'.
  - assert (c <> fresh b) as Hcf by (pose proof (tg_fresh _ _ _ _ _ Ht c ltac:(by exists ch)); intros E0; rewrite <- E0 in *; lia).
    cbn [store]. rewrite (deref_ok c ch) by (cbn; by rewrite lookup_insert_ne). cbn [mbind res_bind]. eexists. split; [reflexivity |].
    pose proof (expand_replace b P c ch E (n - space ch) (fresh b) tch h Ht Hnew Hhc HhP Hh eq_refl) as Ht'.
    exists P, c, (with_next (Some (fresh b)) ch), [(fresh b, tch)]. split; [exact Ht' |].
    split; [rewrite Hcont; exact (target_contents _ _ _ _ _ Ht') |]. split; [| done]. destruct Hnew.
    apply room_new; [by destruct Hg | done.. | exact nc_len].
Qed.

Lemma expand_ok b D E n : rep b D E -> 0 < n < 2 ^ 62 ->
  (exists b', evbuffer_expand_fast_ mm_malloc garbage n 4 b = Ok (-1, b') /\ unchanged b b') \/
  exists b', evbuffer_expand_fast_ mm_malloc garbage n 4 b = Ok (0, b') /\ roomy n b b'.
Proof.
  intros Hr Hn. assert (n <= max_block) as Hmax by (unfold max_block, EVBUFFER_CHAIN_MAX, EVBUFFER_CHAIN_SIZE; lia).
  destruct (decide (D ++ E = [])) as [Hnil|Hne]; [apply app_eq_nil in Hnil as [-> ->]; apply expand_first; [done | lia] |].
  destruct (rep_target b D E Hr Hne) as (P & c & ch & E' & Ht & _). clear D E Hr Hne. rename E' into E.
  destruct (target_not_immutable _ _ _ _ _ Ht) as (l & lch & El & Hl & Hgl). pose proof (target_lookup _ _ _ _ _ Ht) as Hc.
  destruct (space_len _ (target_good _ _ _ _ _ Ht)) as [Esp Hsp].
  unfold evbuffer_expand_fast_. cbn [Nat.leb mbind res_bind]. rewrite El. rewrite (deref_ok l lch) by done. cbn [mbind res_bind].
  rewrite (good_flags _ _ Hgl), (target_load _ _ _ _ _ Ht). cbn [mbind res_bind].
  destruct (avail_ok n b P c ch E Ht Hn) as (en & q & used & avail & -> & Hcase). cbn [mbind res_bind].
  destruct Hcase as [[-> Hcap]|[(-> & -> & Eu & Hu & Ea & Hav)|(-> & -> & Hlt)]].
  - right. exists b. split; [done |]. by exists P, c, ch, E.
  - rewrite (proj2 (Nat.ltb_lt _ _) Hu). cbn [negb bool_decide]. rewrite bool_decide_eq_true_2, u64_small by (done || lia). cbn [negb].
    destruct (chain_new_ok mm_malloc garbage Hgarbage (n - avail) b ltac:(lia)) as [[-> (z & Hz)]|(tch & -> & Hnew)]; cbn [mbind res_bind].
    + left. exists b. split; [done |]. destruct (target_good_buffer _ _ _ _ _ Ht) as (D & E' & Hr & _). split; [by exists (fresh b), z |]. split; [by exists D, E' | done].
    + right. destruct (expand_append b P c ch E n _ tch Ht Hnew) as (l' & b' & El' & Es & Hroom); [lia | lia |].
      change (lastp (with_chain tch b)) with (lastp b). rewrite El'. cbn [not_null mbind res_bind]. rewrite Es. cbn [mbind res_bind].
      by exists (set_last (Some (fresh b)) b').
  - cbn [Nat.ltb Nat.leb]. rewrite (target_load _ _ _ _ _ Ht). cbn [not_null mbind res_bind]. rewrite (deref_ok c ch) by done. cbn [mbind res_bind].
    destruct (Z.eqb_spec (off ch) 0) as [E0|E0]; cbn [andb negb].
    + pose proof (tg_first _ _ _ _ _ Ht E0) as ->. pose proof (tg_seg _ _ _ _ _ Ht) as (Ef & _).
      rewrite bool_decide_eq_true_2 by done. cbn [negb]. destruct (expand_all b c ch E n Ht E0 ltac:(lia)) as (h & -> & Hcase).
      cbn [mbind res_bind]. rewrite (proj2 (Z.leb_le 0 n)), Z.sub_0_r, u64_small by lia. cbn [negb].
      destruct (evbuffer_chain_new _ _ n _) as [[[t|] b1]|]; cbn [mbind res_bind]; [right | left | done]; eexists; (split; [reflexivity | exact Hcase]).
    + rewrite Esp. pose proof (gc_off _ (target_good _ _ _ _ _ Ht)).
      destruct (expand_rest b P c ch E n Ht ltac:(lia) ltac:(lia)) as (h & -> & Hcase). cbn [mbind res_bind].
      rewrite (proj2 (Z.leb_le _ n)), u64_small by lia. cbn [negb].
      destruct (evbuffer_chain_new _ _ _ _) as [[[t|] b1]|]; cbn [mbind res_bind]; [right | left | done];
        destruct Hcase as (b2 & -> & Hb2); cbn [mbind res_bind]; eexists; (split; [reflexivity | exact Hb2]).
Qed.
End Read.

(** ** The bytes that the socket gives *)

(** The vectors, and what is written through them. *)
Fixpoint vecs_of (k : nat) (n : Z) (Q : list node) : list (cid * Z * Z) :=
  match k, Q with
  | S k, (c, ch) :: Q =>
      if 0 <? n then (c, misalign ch + off ch, Z.min n (space ch)) :: vecs_of k (n - Z.min n (space ch)) Q else []
  | _, _ => []
  end.

Definition written (d : str) (ch : evbuffer_chain) : evbuffer_chain :=
  with_bytes (misalign ch) (off ch) (patch (misalign ch + off ch) d (buffer ch)) ch.
Fixpoint spread (Q : list node) (d : str) : list node :=
  match Q with
  | [] => []
  | (c, ch) :: Q => (c, written (take (Z.to_nat (space ch)) d) ch) :: spread Q (drop (Z.to_nat (space ch)) d)
  end.

(** The chains filled, the last one that got bytes, and the chains that got none. *)
Inductive fill : list node -> str -> list node -> node -> list node -> Prop :=
  | fill_last c ch Q d : StdString.size d <= space ch -> fill ((c, ch) :: Q) d [] (c, appended d ch) Q
  | fill_more c ch Q d A x R : space ch < StdString.size d -> fill Q (drop (Z.to_nat (space ch)) d) A x R ->
      fill ((c, ch) :: Q) d ((c, appended (take (Z.to_nat (space ch)) d) ch) :: A) x R.

Lemma setup_ok k : forall Q p n so b, lseg (heap b) p Q None -> Forall (fun x => good_chain x.2) Q ->
  0 <= so -> so + n <= 2 ^ 62 -> n <= cap (take k Q) -> setup_loop k p (so + n) so true b = Ok (vecs_of k n Q).
Proof.
  induction k as [|k IH]; intros Q p n so b Hs Hg Hso Hn Hc; [done |]. cbn [setup_loop].
  destruct (Z.ltb_spec so (so + n)) as [Hlt|Hge].
  - destruct Q as [|[c ch] Q]; [cbn in Hc; lia |]. cbn [lseg] in Hs. destruct Hs as (-> & Hch & Hs). apply Forall_cons in Hg as [Hgc Hg].
    destruct (space_len _ Hgc) as [El Hsp]. cbn [snd] in El, Hsp. cbn [not_null mbind res_bind]. rewrite (deref_ok c ch) by done. cbn [mbind res_bind].
    rewrite El, andb_true_r, u64_small by lia. replace (so + n - so) with n by lia. cbn [vecs_of]. rewrite (proj2 (Z.ltb_lt 0 n)) by lia.
    set (a := if n <? space ch then n else space ch). assert (a = Z.min n (space ch)) as Ea by (unfold a; case_bool; lia).
    rewrite u64_small by lia. cbn [take cap foldr] in Hc. fold (cap (take k Q)) in Hc. cbn [snd] in Hc.
    assert (0 <= cap (take k Q)) by (by apply cap_nonneg, Forall_take).
    replace (so + n) with ((so + a) + (n - a)) by lia. rewrite (IH Q) by (done || lia). cbn [mbind res_bind]. by rewrite Ea.
  - destruct Q as [|[c ch] Q]; cbn [vecs_of]; [done |]. by rewrite (proj2 (Z.ltb_ge 0 n)) by lia.
Qed.

Lemma vecs_total k : forall n Q, 0 <= n -> Forall (fun x => good_chain x.2) Q -> n <= cap (take k Q) ->
  foldr (fun v m => v.2 + m) 0 (vecs_of k n Q) = n.
Proof.
  induction k as [|k IH]; intros n Q Hn Hg Hc; [change (n <= 0) in Hc; cbn; lia |]. destruct Q as [|[c ch] Q]; [change (n <= 0) in Hc; cbn; lia |]. cbn [vecs_of].
  destruct (Z.ltb_spec 0 n); [| cbn; lia]. apply Forall_cons in Hg as [Hgc Hg]. destruct (space_len _ Hgc) as [_ Hsp]. cbn [snd] in Hsp.
  cbn [take cap foldr] in Hc. fold (cap (take k Q)) in Hc. cbn [snd] in Hc. assert (0 <= cap (take k Q)) by (by apply cap_nonneg, Forall_take).
  cbn [foldr snd]. specialize (IH (n - Z.min n (space ch)) Q ltac:(lia) Hg ltac:(lia)). lia.
Qed.

Lemma written_nil ch : good_chain ch -> written [] ch = ch.
Proof. intros []. unfold written. rewrite patch_nil by lia. by destruct ch. Qed.

Lemma spread_nil Q : Forall (fun x => good_chain x.2) Q -> spread Q [] = Q.
Proof.
  induction 1 as [|[c ch] Q Hx _ IH]; [done |]. cbn [spread]. rewrite take_nil, drop_nil, IH. by rewrite written_nil.
Qed.

Lemma spread_ids Q : forall d, ids (spread Q d) = ids Q.
Proof. induction Q as [|[c ch] Q IH]; intros d; [done |]. cbn [spread ids map fst]. f_equal. apply IH. Qed.

(** [readv] into the vectors. *)
Lemma scatter_ok k : forall Q n d b p, lseg (heap b) p Q None -> NoDup (ids Q) -> Forall (fun x => good_chain x.2) Q ->
  StdString.size d <= n -> n <= cap (take k Q) ->
  exists h, scatter (vecs_of k n Q) d b = Ok (with_heap h b) /\ lseg h p (spread Q d) None /\
    (forall x, x ∉ ids Q -> h !! x = heap b !! x) /\ (forall x, is_Some (h !! x) -> is_Some (heap b !! x)).
Proof.
  induction k as [|k IH]; intros Q n d b p Hs Hnd Hg Hd Hn.
  { change (n <= 0) in Hn. assert (d = []) as -> by (destruct d; [done | unfold StdString.size in *; cbn in *; lia]).
    exists (heap b). split; [by destruct b |]. by rewrite spread_nil. }
  destruct Q as [|[c ch] Q].
  { assert (d = []) as -> by (destruct d; [done | unfold StdString.size in *; cbn in *; lia]). exists (heap b). split; [by destruct b |]. done. }
  cbn [vecs_of]. destruct (Z.ltb_spec 0 n) as [Hpos|Hle].
  2: { assert (d = []) as -> by (destruct d; [done | unfold StdString.size in *; cbn in *; lia]).
       exists (heap b). split; [by destruct b |]. by rewrite spread_nil. }
  cbn [lseg] in Hs. destruct Hs as (-> & Hc & Hs). pose proof Hg as [Hgc Hg']%Forall_cons. cbn [snd] in Hgc.
  destruct (space_len _ Hgc) as [_ Hsp]. cbn [ids map fst] in Hnd. apply NoDup_cons in Hnd as [Hcn Hnd].
  cbn [take cap foldr] in Hn. fold (cap (take k Q)) in Hn. cbn [snd] in Hn. cbn [scatter]. rewrite (deref_ok c ch) by done. cbn [mbind res_bind].
  pose proof Hgc as []. assert (take (Z.to_nat (Z.min n (space ch))) d = take (Z.to_nat (space ch)) d /\
    drop (Z.to_nat (Z.min n (space ch))) d = drop (Z.to_nat (space ch)) d) as [-> ->].
  { destruct (Z.le_ge_cases (space ch) n); [by rewrite Z.min_r |]. unfold StdString.size in *. rewrite !take_ge, !drop_ge by lia. done. }
  set (x := take (Z.to_nat (space ch)) d). assert (StdString.size x <= space ch) by (unfold x, StdString.size; rewrite length_take; lia).
  rewrite copy_to_ok by (unfold space in *; lia). cbn [mbind res_bind]. change (with_bytes _ _ _ ch) with (written x ch).
  destruct (IH Q (n - Z.min n (space ch)) (drop (Z.to_nat (space ch)) d) (put_chain c (written x ch) b) (next ch)) as (h & E & Hl & Hk & Hsome).
  - by apply lseg_insert.
  - done.
  - done.
  - unfold StdString.size in *. rewrite length_drop. lia.
  - assert (0 <= cap (take k Q)) by (by apply cap_nonneg, Forall_take). lia.
  - exists h. split; [exact E |]. split; [| split].
    + cbn [spread lseg]. split; [done |]. split; [| exact Hl]. rewrite Hk by done. apply lookup_insert_eq.
    + intros y [Hyc Hy]%not_elem_of_cons. rewrite Hk by done. by apply lookup_insert_ne.
    + intros y Hy%Hsome. cbn in Hy. destruct (decide (y = c)) as [->|]; [by exists ch | by rewrite lookup_insert_ne in Hy].
Qed.

Lemma fill_exists Q d : Forall (fun x => good_chain x.2) Q -> 0 < StdString.size d <= cap Q -> exists A x R, fill Q d A x R.
Proof.
  intros Hg. revert d. induction Hg as [|[c ch] Q Hx _ IH]; intros d Hd; [change (cap []) with 0 in Hd; lia |].
  destruct (space_len _ Hx) as [_ Hsp]. cbn [cap foldr] in Hd. fold (cap Q) in Hd. cbn [snd] in Hd, Hsp.
  destruct (Z.le_gt_cases (StdString.size d) (space ch)) as [Hle|Hgt]; [exists [], (c, appended d ch), Q; by constructor |].
  destruct (IH (drop (Z.to_nat (space ch)) d)) as (A & x & R & Hf); [unfold StdString.size in *; rewrite length_drop; lia |].
  eexists _, x, R. apply fill_more; [lia | exact Hf].
Qed.

(** The bytes go to the chains in order. *)
Lemma fill_sound Q d A x R : fill Q d A x R -> Forall (fun y => good_chain y.2) Q -> Forall (fun y => 0 < space y.2) Q -> 0 < StdString.size d ->
  ids (A ++ x :: R) = ids Q /\ Forall (fun y => good_chain y.2) (A ++ x :: R) /\ Forall (fun y => 0 < node_off y) (A ++ [x]).
Proof.
  assert (forall c ch e, good_chain ch -> 0 < StdString.size e <= space ch ->
    good_chain (appended e ch) /\ 0 < node_off (c, appended e ch)) as Happ.
  { intros c ch e Hg He. apply appended_good; [done | intros ->; unfold StdString.size in He; cbn in He; lia | unfold space in He; lia]. }
  induction 1 as [c ch Q d Hd|c ch Q d A x R Hd _ IH]; intros Hg Hsp Hpos; apply Forall_cons in Hg as [Hgc Hg], Hsp as [Hc Hsp]; cbn [snd] in Hgc, Hc.
  - destruct (Happ c ch d Hgc ltac:(lia)) as [H1 H2]. split; [done |]. split; [by constructor | constructor; [exact H2 | by constructor]].
  - assert (StdString.size (take (Z.to_nat (space ch)) d) = space ch) as Es by (unfold StdString.size in *; rewrite length_take; lia).
    destruct (Happ c ch _ Hgc ltac:(rewrite Es; lia)) as [H1 H2].
    destruct (IH Hg Hsp) as (Ei & Hgs & Hds); [unfold StdString.size in *; rewrite length_drop; lia |].
    cbn [app ids map fst]. split; [by f_equal |]. split; by constructor.
Qed.

Lemma fill_rest Q d A x R : fill Q d A x R -> exists y E, Q = y :: E /\ forall P : node -> Prop, Forall P E -> Forall P R.
Proof.
  induction 1 as [c ch Q d Hd|c ch Q d A x R Hd _ (y & E & -> & IH)]; eexists _, _; (split; [done |]); [done |].
  intros P HP. by apply Forall_cons in HP as [_ ?%IH].
Qed.

Lemma fill_bytes Q d A x R : fill Q d A x R -> forall y E, Q = y :: E -> Forall (fun y => good_chain y.2) Q ->
  Forall (fun y => node_off y = 0) E -> bytes_of (A ++ [x]) = node_bytes y ++ d.
Proof.
  induction 1 as [c ch Q d Hd|c ch Q d A x R Hd Hf IH]; intros y E [= <- <-] Hg He; apply Forall_cons in Hg as [Hgc Hg]; cbn [snd] in Hgc.
  - cbn [app]. rewrite bytes_of_cons. change (bytes_of []) with (@nil ascii). rewrite app_nil_r.
    apply appended_bytes; [done | unfold space in Hd; lia].
  - destruct (fill_rest _ _ _ _ _ Hf) as (y & E & -> & _). pose proof He as [Hy He']%Forall_cons.
    cbn [app]. rewrite bytes_of_cons, (IH y E eq_refl Hg He').
    assert (node_bytes y = []) as -> by (unfold node_bytes, node_off in *; by rewrite Hy).
    destruct (space_len _ Hgc) as [_ Hsp]. rewrite appended_bytes; [| done |].
    + cbn [app]. by rewrite <- app_assoc, take_drop.
    + unfold space, StdString.size in *. rewrite length_take. lia.
Qed.

Lemma written_space d ch : good_chain ch -> CHAIN_SPACE_LEN (written d ch) = space ch.
Proof. intros Hg. destruct (space_len _ Hg) as [<- _]. done. Qed.

(** The bytes are counted in. *)
Lemma commit_ok Q d A x R : fill Q d A x R -> forall k n f p b, lseg (heap b) p (spread Q d) None -> load f b = Ok p ->
  NoDup (ids Q) -> Forall (fun y => good_chain y.2) Q -> 0 < StdString.size d <= n -> n <= cap (take k Q) ->
  exists h, commit_loop (length (vecs_of k n Q)) f (StdString.size d) b = Ok (set_datap (datap_from f (A ++ [x])) (with_heap h b)) /\
    lseg h p (A ++ x :: R) None /\ (forall y, y ∉ ids Q -> h !! y = heap b !! y) /\ (forall y, is_Some (h !! y) -> is_Some (heap b !! y)).
Proof.
  induction 1 as [c ch Q d Hle|c ch Q d A x R Hgt Hf IH]; intros k n f p b Hs Hload Hn Hg Hd Hk;
    (destruct k as [|k]; [change (n <= 0) in Hk; lia |]); cbn [vecs_of]; rewrite (proj2 (Z.ltb_lt 0 n)) by lia; cbn [length commit_loop];
    rewrite Hload; cbn [mbind res_bind spread lseg] in *; destruct Hs as (-> & Hc & Hs); cbn [not_null mbind res_bind];
    rewrite (deref_ok c _ b Hc); cbn [mbind res_bind]; apply Forall_cons in Hg as [Hgc Hg]; cbn [snd] in Hgc;
    rewrite written_space by done; destruct (space_len _ Hgc) as [_ Hsp]; rewrite (proj2 (Z.ltb_ge _ (space ch))) by (unfold EVBUFFER_CHAIN_MAX; lia);
    cbn [ids map fst] in Hn; apply NoDup_cons in Hn as [Hcn Hn]; pose proof (good_small _ Hgc) as Hsm.
  - rewrite (proj2 (Z.ltb_ge (space ch) _)) by lia.
    assert (take (Z.to_nat (space ch)) d = d) as Et by (apply take_ge; unfold StdString.size in *; lia).
    assert (drop (Z.to_nat (space ch)) d = []) as Ed by (apply drop_ge; unfold StdString.size in *; lia). rewrite Et, Ed, spread_nil in * by done.
    change (off (written d ch)) with (off ch). rewrite u64_small by lia. cbn [app datap_from].
    eexists. split; [reflexivity |]. split; [| split].
    + cbn [lseg app]. split; [done |]. split; [apply lookup_insert_eq | by apply lseg_insert].
    + intros y [Hy _]%not_elem_of_cons. by apply lookup_insert_ne.
    + intros y Hy. destruct (decide (y = c)) as [->|]; [by eexists | by rewrite lookup_insert_ne in Hy].
  - rewrite (proj2 (Z.ltb_lt (space ch) _)) by lia. change (off (written _ ch)) with (off ch). rewrite u64_small by lia.
    assert (StdString.size (take (Z.to_nat (space ch)) d) = space ch) as Es by (unfold StdString.size in *; rewrite length_take; lia).
    assert (StdString.size (drop (Z.to_nat (space ch)) d) = StdString.size d - space ch) as Er by (unfold StdString.size in *; rewrite length_drop; lia).
    set (ch2 := with_bytes _ (off ch + space ch) _ _). assert (ch2 = appended (take (Z.to_nat (space ch)) d) ch) as E2 by (unfold ch2, appended; by rewrite Es).
    cbn [take cap foldr] in Hk. fold (cap (take k Q)) in Hk. cbn [snd] in Hk.
    destruct (IH k (n - Z.min n (space ch)) (Next c) (next ch) (put_chain c ch2 b)) as (h & E & Hl & Hoth & Hsome); try done; try lia.
    + apply lseg_insert; [by rewrite spread_ids | exact Hs].
    + unfold load. rewrite (deref_ok c ch2) by apply lookup_insert_eq. done.
    + exists h. rewrite <- Er, E. split; [| split; [| split]].
      * do 2 f_equal. cbn [app]. by destruct A.
      * cbn [app lseg]. split; [done |]. split; [| exact Hl]. rewrite Hoth by done. rewrite <- E2. apply lookup_insert_eq.
      * intros y [Hyc Hy]%not_elem_of_cons. rewrite Hoth by done. by apply lookup_insert_ne.
      * intros y Hy%Hsome. cbn in Hy. destruct (decide (y = c)) as [->|]; [by eexists | by rewrite lookup_insert_ne in Hy].
Qed.

Lemma datap_prefix P L prev : L <> [] -> datap_from prev (P ++ L) = datap_from (match last_id P with Some a => Next a | None => prev end) L.
Proof.
  intros HL. destruct P as [|p P _] using rev_ind; [done |]. rewrite last_id_ids, ids_app. change (ids [p]) with [p.1]. rewrite last_snoc.
  revert prev. induction P as [|[a ach] P IH]; intros prev; cbn [app].
  - destruct p as [c ch]. by destruct L.
  - rewrite <- (IH (Next a)). by destruct ((P ++ [p]) ++ L) eqn:E; [destruct P |].
Qed.

(** The chains that get the bytes, and those before. *)
Record ready (b : evbuffer) (f : field) (P : list node) (y : node) (E : list node) : Prop := {
  rd_first : first_with_space b = Ok f;
  rd_load : load f b = Ok (Some y.1);
  rd_field : f = datap_from First (P ++ [y]);
  rd_seg : lseg (heap b) (first b) (P ++ y :: E) None;
  rd_nodup : NoDup (ids (P ++ y :: E));
  rd_good : Forall (fun x => good_chain x.2) (P ++ y :: E);
  rd_data : Forall (fun x => 0 < node_off x) P;
  rd_empty : Forall (fun x => node_off x = 0) E;
  rd_space : Forall (fun x => 0 < space x.2) (y :: E);
  rd_contents : contents b = bytes_of P ++ node_bytes y;
  rd_last : lastp b = last_id (P ++ y :: E)
}.

Lemma empty_space E : Forall (fun x => good_chain x.2) E -> Forall (fun x => node_off x = 0) E -> Forall (fun x => 0 < space x.2) E.
Proof. induction 1 as [|x E Hx _ IH]; intros He; [done |]. apply Forall_cons in He as [Ho He]. constructor; [by apply space_empty | by apply IH]. Qed.

Lemma room_ready b P c ch E : target b P c ch E -> room c ch E <> [] ->
  exists f P' y E', ready b f P' y E' /\ room c ch E = y :: E'.
Proof.
  intros Ht Hne. pose proof (target_good _ _ _ _ _ Ht) as Hg. destruct (space_len _ Hg) as [Esp Hsp]. pose proof (target_contents _ _ _ _ _ Ht) as Hc.
  pose proof (target_load _ _ _ _ _ Ht) as Hl. pose proof (target_lookup _ _ _ _ _ Ht) as Hch. pose proof (target_tail _ _ _ _ _ Ht) as (Hs & _ & _ & HgE & _).
  assert (first_with_space b = Ok (if space ch =? 0 then Next c else last_with_datap b)) as Ef.
  { unfold first_with_space. rewrite Hl. cbn [mbind res_bind]. rewrite (deref_ok c ch) by done. cbn [mbind res_bind]. by rewrite Esp. }
  unfold room in *. pose proof (empty_space E HgE (tg_empty _ _ _ _ _ Ht)) as HspE. destruct (Z.eqb_spec (space ch) 0) as [E0|E0].
  - destruct E as [|y E]; [done |]. exists (Next c), (P ++ [(c, ch)]), y, E. split; [| done].
    assert (0 < off ch) as Ho.
    { pose proof (gc_off _ Hg). destruct (decide (off ch = 0)) as [Eo|]; [destruct (space_empty _ Hg Eo); lia | lia]. }
    assert (EL : (P ++ [(c, ch)]) ++ y :: E = P ++ (c, ch) :: y :: E) by by rewrite <- app_assoc.
    destruct Ht. apply Forall_cons in tg_empty as [Hy HE]. constructor; rewrite ?EL; try done.
    + unfold load. rewrite (deref_ok c ch) by done. cbn [mbind res_bind]. destruct y as [cy chy]. by destruct Hs as (-> & _).
    + rewrite datap_snoc, last_id_ids, ids_app. change (ids [(c, ch)]) with [c]. by rewrite last_snoc.
    + apply Forall_app. split; [done |]. by constructor.
    + rewrite Hc, bytes_of_app, bytes_of_cons. change (bytes_of []) with (@nil ascii).
      assert (node_bytes y = []) as -> by (unfold node_bytes, node_off in *; by rewrite Hy). by rewrite !app_nil_r.
  - exists (last_with_datap b), P, (c, ch), E. split; [| done]. destruct Ht. constructor; try done. constructor; [cbn; lia | done].
Qed.

Lemma filled_rep b f P y E d A x R h a del k : ready b f P y E -> fill (y :: E) d A x R -> 0 < StdString.size d ->
  total_len b + StdString.size d <= EV_SIZE_MAX -> good b ->
  lseg h (Some y.1) (A ++ x :: R) None -> (forall z, z ∉ ids (y :: E) -> h !! z = heap b !! z) -> (forall z, is_Some (h !! z) -> is_Some (heap b !! z)) ->
  k = total_len b + StdString.size d ->
  rep (mkBuffer (first b) (lastp b) (datap_from f (A ++ [x])) k a del (freeze_start b) (freeze_end b) h (fresh b)) (P ++ A ++ [x]) R /\
  bytes_of (P ++ A ++ [x]) = contents b ++ d.
Proof.
  intros Hrd Hf Hd Hb (D0 & E0 & Hr) Hl Hoth Hsome ->. destruct Hrd.
  pose proof rd_good0 as [HgP HgQ]%Forall_app. destruct (fill_sound _ _ _ _ _ Hf HgQ rd_space0 Hd) as (Ei & Hgs & Hds).
  assert (bytes_of (P ++ A ++ [x]) = contents b ++ d) as Eb.
  { rewrite bytes_of_app, (fill_bytes _ _ _ _ _ Hf y E eq_refl HgQ rd_empty0), rd_contents0. by rewrite <- app_assoc. }
  assert ((P ++ A ++ [x]) ++ R = P ++ A ++ x :: R) as EL by by rewrite <- !app_assoc.
  assert (Forall (fun z => node_off z = 0) R) as HeR.
  { destruct (fill_rest _ _ _ _ _ Hf) as (y' & E' & [= <- <-] & HR). by apply HR. }
  split; [| done]. constructor; cbn [heap first lastp last_with_datap total_len fresh]; rewrite ?EL; try done.
  - apply lseg_app in rd_seg0 as (m & Hp & Hs). destruct y as [cy chy]. pose proof Hs as (-> & _). apply lseg_app. exists (Some cy). split; [| exact Hl].
    apply (lseg_frame (heap b)); [| done]. intros z Hz. apply Hoth. rewrite ids_app in rd_nodup0. apply NoDup_app in rd_nodup0 as (_ & Hn & _). by apply Hn.
  - rewrite ids_app, Ei, <- ids_app. done.
  - intros z Hz%Hsome. by apply (rep_fresh _ _ _ Hr).
  - rewrite rd_last0, !last_id_ids, !(ids_app P), Ei. done.
  - rewrite rd_field0. rewrite (datap_prefix P (A ++ [x])) by by destruct A. rewrite (datap_prefix P [y]) by done. by destruct y.
  - apply Forall_app. by split.
  - apply Forall_app. by split.
  - replace (P ++ A ++ x :: R) with ((P ++ A ++ [x]) ++ R) by exact EL.
    rewrite bytes_of_app, (bytes_of_empty R), app_nil_r, Eb, StdString.size_app by done. rewrite (rep_contents _ _ _ Hr), (rep_size _ _ _ Hr). done.
Qed.

Section Socket.
Context (mm_malloc : cid -> Z -> bool) (garbage : Z -> str) (Hgarbage : forall n, 0 <= n -> StdString.size (garbage n) = n).

(** What the socket answered is behind the contents. *)
Definition received (d : str) (b b' : evbuffer) : Prop :=
  good b' /\ contents b' = contents b ++ d /\ freeze_start b' = freeze_start b /\ freeze_end b' = freeze_end b.

Lemma received_nil b b' : unchanged mm_malloc b b' -> received [] b b'.
Proof. intros (_ & H1 & H2 & H3). split; [done |]. split; [by rewrite app_nil_r | done]. Qed.

(** From the room made to the bytes counted in. *)
Lemma read_room n b1 b2 : roomy n b1 b2 -> 0 < n <= 4096 ->
  exists f vecs, evbuffer_read_setup_vecs_ n 4 true b2 = Ok (Z.of_nat (length vecs), vecs, f) /\
    foldr (fun v m => v.2 + m) 0 vecs = n /\
    forall d, 0 < StdString.size d <= n -> total_len b1 + StdString.size d <= EV_SIZE_MAX ->
    exists b3 b4, scatter vecs d b2 = Ok b3 /\ commit_loop (length vecs) f (StdString.size d) b3 = Ok b4 /\
      total_len b4 = total_len b1 /\ forall a del, received d b1 (set_counts (total_len b1 + StdString.size d) a del b4).
Proof.
  intros (P0 & c & ch & E0 & Ht & Ec & Hcap & Et & Hfz) Hn. pose proof (target_good_buffer _ _ _ _ _ Ht) as (D2 & E2 & Hr2 & _).
  assert (Forall (fun x => good_chain x.2) (room c ch E0)) as HgR.
  { pose proof (tg_good _ _ _ _ _ Ht) as [_ H]%Forall_app. unfold room. destruct (space ch =? 0); [by apply Forall_cons in H as [_ ?] | done]. }
  destruct (room_ready b2 P0 c ch E0 Ht) as (f & P & y & E & Hrd & ER).
  { intros H. rewrite H in Hcap. cbn in Hcap. lia. }
  rewrite ER in *. pose proof (rd_first _ _ _ _ _ Hrd) as Ef. pose proof (rd_load _ _ _ _ _ Hrd) as Eload.
  assert (lseg (heap b2) (Some y.1) (y :: E) None) as Hs.
  { pose proof (rd_seg _ _ _ _ _ Hrd) as H. apply lseg_app in H as (m & _ & H). destruct y as [cy chy]. by destruct H as (-> & H). }
  assert (NoDup (ids (y :: E))) as Hnd by (pose proof (rd_nodup _ _ _ _ _ Hrd) as H; rewrite ids_app in H; by apply NoDup_app in H as (_ & _ & ?)).
  pose proof (setup_ok 4 (y :: E) (Some y.1) n 0 b2 Hs HgR ltac:(lia) ltac:(lia) Hcap) as Esetup. rewrite Z.add_0_l in Esetup.
  exists f, (vecs_of 4 n (y :: E)). split; [| split; [apply vecs_total; [lia | done | done] |]].
  { unfold evbuffer_read_setup_vecs_. rewrite (proj2 (Z.ltb_ge n 0)) by lia. rewrite Ef. cbn [mbind res_bind]. rewrite Eload. cbn [mbind res_bind].
    rewrite bool_decide_eq_false_2 by done. rewrite Esetup. done. }
  intros d Hd Hb. destruct (scatter_ok 4 (y :: E) n d b2 (Some y.1) Hs Hnd HgR) as (h & Esc & Hl & Hoth & Hsome); [lia | done |].
  destruct (fill_exists (y :: E) d HgR) as (A & x & R & Hfill); [pose proof (cap_take 4 _ HgR); lia |].
  destruct (commit_ok _ _ _ _ _ Hfill 4 n f (Some y.1) (with_heap h b2)) as (h' & Ecm & Hl' & Hoth' & Hsome'); try done.
  { destruct f as [|e]; [exact Eload |]. cbn [load] in *. unfold deref in *. cbn [heap with_heap].
    destruct (heap b2 !! e) as [ech|] eqn:Ee; cbn [mbind res_bind] in Eload; [| done]. rewrite Hoth; [by rewrite Ee |].
    intros He. pose proof (rd_field _ _ _ _ _ Hrd) as Hfd. symmetry in Hfd. apply datap_next_in in Hfd as (L & z & EL & HeL).
    apply app_inj_tail in EL as [<- _]. pose proof (rd_nodup _ _ _ _ _ Hrd) as H. rewrite ids_app in H. apply NoDup_app in H as (_ & H & _). by apply (H e). }
  eexists _, _. split; [exact Esc |]. split; [exact Ecm |]. split; [exact Et |].
  intros a del. destruct (filled_rep b2 f P y E d A x R h' a del (total_len b1 + StdString.size d) Hrd Hfill) as [Hr Eb]; try done; try lia.
  - by exists D2, E2.
  - intros z Hz. rewrite Hoth' by done. by apply Hoth.
  - intros z Hz. by apply Hsome, Hsome'.
  - split; [by eexists _, _ |]. split; [| exact Hfz].
    etrans; [exact (rep_contents _ _ _ Hr) |]. by rewrite Eb, Ec.
Qed.

(** The socket fails, or has nothing. *)
Definition no_bytes (readv : Z -> option str) : Prop := exists n, 0 < n /\ (readv n = None \/ readv n = Some []).

(** [evbuffer_read]: what the socket wrote is behind the contents; if it wrote nothing they are as before. *)
Lemma read_ok readable readv howmuch b : good b -> freeze_end b = false -> howmuch <> 0 -> total_len b + EVBUFFER_MAX_READ <= EV_SIZE_MAX ->
  (forall n d, 0 <= n -> readv n = Some d -> StdString.size d <= n) ->
  (exists r b', evbuffer_read mm_malloc garbage readable readv howmuch b = Ok (r, b') /\ r <= 0 /\
     (no_memory mm_malloc \/ no_bytes readv) /\ received [] b b') \/
  exists n d b', readv n = Some d /\ evbuffer_read mm_malloc garbage readable readv howmuch b = Ok (StdString.size d, b') /\
    0 < StdString.size d <= EVBUFFER_MAX_READ /\ received d b b' /\ total_len b' = total_len b + StdString.size d.
Proof.
  intros (D & E & Hr) Hfz Hh Hmax Hreadv. unfold EVBUFFER_MAX_READ, EV_SIZE_MAX in Hmax. unfold evbuffer_read. rewrite Hfz.
  set (n := if (readable <=? 0) || _ then _ else readable).
  assert (0 < n <= 4096) as Hn.
  { unfold n, EVBUFFER_MAX_READ. destruct (Z.leb_spec readable 0); cbn [orb]; [lia |]. destruct (Z.ltb_spec 4096 readable); lia. }
  set (m := if (howmuch <? 0) || _ then _ else howmuch). assert (0 < m <= 4096) as Hm.
  { unfold m. destruct (Z.ltb_spec howmuch 0); cbn [orb]; [lia |]. destruct (Z.ltb_spec n howmuch); lia. }
  change NUM_READ_IOVEC with 4%nat. destruct (expand_ok mm_malloc garbage Hgarbage b D E m Hr ltac:(lia)) as [(b' & -> & Hb')|(b1 & -> & Hroom)].
  { left. cbn [mbind res_bind]. exists (-1), b'. split; [done |]. split; [lia |]. split; [left; apply Hb' | by apply received_nil]. }
  cbn [mbind res_bind]. destruct (read_room m b b1 Hroom Hm) as (f & vecs & -> & Htot & Hread). cbn [mbind res_bind].
  assert (received [] b b1) as Hb1.
  { destruct Hroom as (P & c & ch & E0 & Ht & Ec & _ & _ & Hf). destruct (target_good_buffer _ _ _ _ _ Ht) as (D2 & E2 & Hr2 & _).
    split; [by exists D2, E2 |]. split; [by rewrite app_nil_r | done]. }
  rewrite Htot. destruct (readv m) as [[|x d]|] eqn:Erv; [left; exists 0, b1 | right | left; exists (-1), b1].
  1, 3: split; [done |]; split; [lia |]; split; [right; exists m; split; [lia | by (left + right)] | done].
  pose proof (Hreadv m _ ltac:(lia) Erv) as Hd. assert (0 < StdString.size (x :: d)) as Hpos by (unfold StdString.size; cbn; lia).
  destruct (Hread (x :: d) ltac:(lia)) as (b3 & b4 & -> & E4 & Et & Hrec); [unfold EV_SIZE_MAX; lia |]. cbn [mbind res_bind]. rewrite E4. cbn [mbind res_bind].
  pose proof (StdString.size_nonneg (bytes_of D)). pose proof (rep_size _ _ _ Hr).
  rewrite Et, !(u64_small (total_len b + _)) by lia. eexists _, (x :: d), _. split; [exact Erv |]. split; [reflexivity |].
  split; [unfold EVBUFFER_MAX_READ; lia |]. split; [| done]. exact (Hrec 0 0).
Qed.

(** To read nothing into a buffer whose last chain is full is an assertion failure. *)
Lemma read_zero readable readv b P c ch : target b P c ch [] -> space ch = 0 -> freeze_end b = false ->
  evbuffer_read mm_malloc garbage readable readv 0 b = Fault AssertFailed.
Proof.
  intros Ht Hsp Hfz. unfold evbuffer_read. rewrite Hfz. set (n := if (readable <=? 0) || _ then _ else readable).
  assert (0 < n) as Hn.
  { unfold n, EVBUFFER_MAX_READ. destruct (Z.leb_spec readable 0); cbn [orb]; [lia |]. destruct (4096 <? readable); lia. }
  change (0 <? 0) with false. rewrite (proj2 (Z.ltb_ge n 0)) by lia. cbn [orb].
  destruct (target_not_immutable _ _ _ _ _ Ht) as (l & lch & El & Hl & Hgl). pose proof (target_lookup _ _ _ _ _ Ht) as Hc.
  pose proof (target_good _ _ _ _ _ Ht) as Hg. destruct (space_len _ Hg) as [Esp _]. pose proof (target_tail _ _ _ _ _ Ht) as (Hs & _). cbn in Hs.
  assert (off ch <> 0) as Ho by (intros E0; destruct (space_empty _ Hg E0); lia).
  unfold evbuffer_expand_fast_. cbn [Nat.leb NUM_READ_IOVEC mbind res_bind]. rewrite El. rewrite (deref_ok l lch) by done. cbn [mbind res_bind].
  rewrite (good_flags _ _ Hgl), (target_load _ _ _ _ _ Ht). cbn [mbind res_bind]. unfold fuel_of. cbn [avail_loop].
  rewrite (deref_ok c ch) by done. cbn [mbind res_bind]. rewrite (target_load _ _ _ _ _ Ht). cbn [mbind res_bind].
  rewrite bool_decide_eq_true_2, Esp, Hsp, (proj2 (Z.eqb_neq _ _) Ho) by done. cbn [negb andb Z.eqb Z.leb Z.compare mbind res_bind].
  unfold evbuffer_read_setup_vecs_, first_with_space. change (0 <? 0) with false. cbv iota. rewrite (target_load _ _ _ _ _ Ht). cbn [mbind res_bind].
  rewrite (deref_ok c ch) by done. cbn [mbind res_bind]. rewrite Esp, Hsp. cbn [Z.eqb mbind res_bind load]. rewrite (deref_ok c ch) by done.
  cbn [mbind res_bind]. by rewrite Hs, bool_decide_eq_true_2.
Qed.
End Socket.
