(* ===== verification/EvbufferWrite.v ===== *)
(** * Writing a libevent buffer to a socket

    [evbuffer_write_atmost] offers the first bytes of the contents to the socket and
    drops exactly those that it took. *)
From S2P Require Import Prelude CStr StdString Evbuffer EvbufferProps.
Open Scope Z_scope.

Lemma gather_ok n : forall L p h b, lseg (heap b) p L None -> Forall (fun x => good_chain x.2) L -> 0 <= h ->
  exists vecs k, gather n p h b = Ok vecs /\ gathered vecs b = Ok (take k (bytes_of L)) /\ Z.of_nat k <= h /\
    (n <> O -> 0 < h -> match L with [] => False | (_, ch) :: _ => 0 < off ch end -> vecs <> [] /\ (0 < k)%nat).
Proof.
  induction n as [|n IH]; intros L p h b Hs Hg Hh.
  { exists [], 0%nat. split_and!; try done; lia. }
  destruct L as [|[c ch] L]; cbn [lseg] in Hs.
  { subst p. exists [], 0%nat. split_and!; try done; lia. }
  destruct Hs as (-> & Hc & Hs). apply Forall_cons in Hg as [Hgc Hg]. cbn [snd] in Hgc. pose proof (gc_off _ Hgc) as Ho.
  pose proof (node_bytes_size (c, ch) Hgc) as Hsz. change (node_off (c, ch)) with (off ch) in Hsz. cbn [gather].
  destruct (Z.eqb_spec h 0) as [->|Hh0]; [exists [], 0%nat; split_and!; try done; intros; lia |].
  rewrite (deref_ok c ch) by done. cbn [mbind res_bind]. rewrite (good_flags _ _ Hgc), bytes_of_cons. destruct (Z.leb_spec (off ch) h) as [Hle|Hlt].
  - destruct (IH L (next ch) (h - off ch) b Hs Hg ltac:(lia)) as (vecs & k & -> & E & Hk & _). cbn [mbind res_bind].
    exists ((c, misalign ch, off ch) :: vecs), (length (node_bytes (c, ch)) + k)%nat. split; [done |]. split; [| split; [| intros _ _ Hpos; split; [done |]]; unfold StdString.size in Hsz; lia].
    cbn [gathered]. rewrite (deref_ok c ch) by done. cbn [mbind res_bind]. rewrite (copy_node _ c) by (done || lia). cbn [mbind res_bind].
    rewrite E. cbn [mbind res_bind]. f_equal. rewrite (take_ge (node_bytes _)) by (unfold StdString.size in Hsz; lia).
    rewrite take_app_ge by lia. f_equal. f_equal. lia.
  - exists [(c, misalign ch, h)], (Z.to_nat h). split; [done |]. split; [| split; [| intros _ _ Hpos; split; [done |]]; lia].
    cbn [gathered]. rewrite (deref_ok c ch) by done. cbn [mbind res_bind]. rewrite (copy_node _ c) by (done || lia). cbn [mbind res_bind].
    rewrite app_nil_r, take_app_le; [done |]. unfold StdString.size in Hsz. lia.
Qed.

Section Socket.
Context (writev : str -> Z) (sendfile : Z -> Z * bool).
(** [writev] takes some of the bytes, or fails. *)
Hypothesis writev_ok : forall d, -1 <= writev d <= StdString.size d /\ writev d < 2 ^ 31.

(** [evbuffer_write_atmost] drops what the socket took, the first bytes of the contents. *)
Lemma write_ok h b : good b -> freeze_start b = false -> total_len b < 2 ^ 63 ->
  exists r x b', evbuffer_write_atmost writev sendfile h b = Ok (r, x, b') /\ good b' /\ freeze_start b' = false /\ freeze_end b' = freeze_end b /\
    contents b = x ++ contents b' /\ StdString.size x = Z.max r 0 /\ (contents b = [] \/ h = 0 \/ exists d, d <> [] /\ r = writev d).
Proof.
  intros Hgb Hfz Hmax. pose proof Hgb as (D & E & Hr). pose proof (rep_size _ _ _ Hr) as Ht. pose proof (StdString.size_nonneg (bytes_of D)).
  unfold evbuffer_write_atmost. rewrite Hfz. set (m := if (h <? 0) || _ then _ else h).
  assert (0 <= m <= total_len b) as Hm.
  { unfold m. rewrite i64_small by lia. destruct (Z.ltb_spec h 0); cbn [orb]; [lia |]. destruct (Z.ltb_spec (total_len b) h); lia. }
  destruct (Z.ltb_spec 0 m) as [Hpos|Hnone].
  2: { cbn [mbind res_bind]. exists (-1), [], b. split_and!; try done. assert (total_len b = 0 \/ h = 0) as [H0|H0]; [| left | by right; left].
       - unfold m in Hnone. rewrite i64_small in Hnone by lia. destruct (Z.ltb_spec h 0); cbn [orb] in Hnone; [lia |].
         destruct (Z.ltb_spec (total_len b) h); lia.
       - rewrite (rep_contents _ _ _ Hr). unfold StdString.size in *. destruct (bytes_of D); [done | cbn in *; lia]. }
  assert (match first b with None => Ok false | Some c => ch ← deref c b; Ok (has_flag EVBUFFER_SENDFILE ch) end = Ok false) as ->.
  { pose proof (rep_seg _ _ _ Hr) as Hs. pose proof (rep_good _ _ _ Hr) as Hg. destruct (D ++ E) as [|[c ch] L]; cbn [lseg] in Hs; [by rewrite Hs |].
    destruct Hs as (-> & Hc & _). apply Forall_cons in Hg as [Hg _]. rewrite (deref_ok c ch) by done. cbn [mbind res_bind].
    by rewrite (good_flags _ _ Hg). }
  cbn [mbind res_bind]. unfold evbuffer_write_iovec. rewrite (proj2 (Z.ltb_ge m 0)) by lia.
  destruct (gather_ok NUM_WRITE_IOVEC (D ++ E) (first b) m b) as (vecs & k & -> & Egath & Hk & Hne); [apply Hr | apply Hr | lia |].
  cbn [mbind res_bind]. assert (D <> []) as HD by (intros ->; rewrite size_nil_bytes in Ht; lia).
  destruct Hne as [Hvecs Hk0]; [done | lia | |].
  { destruct D as [|[c ch] D]; [done |]. pose proof (rep_data _ _ _ Hr) as Hd. by apply Forall_cons in Hd as [Hd _]. }
  destruct vecs as [|v vecs]; [done |]. rewrite Egath. cbn [mbind res_bind].
  rewrite bytes_of_app, (bytes_of_empty E), app_nil_r, <- (rep_contents _ _ _ Hr) by apply Hr.
  destruct (writev_ok (take k (contents b))) as [Hw Hw']. rewrite i32_small by lia. set (w := writev (take k (contents b))) in *.
  assert (contents b = [] \/ h = 0 \/ exists d, d <> [] /\ w = writev d) as Hwhy.
  { right. right. exists (take k (contents b)). split; [| done]. rewrite (rep_contents _ _ _ Hr). intros Hnil%(f_equal length).
    rewrite length_take in Hnil. unfold StdString.size in Ht. cbn in Hnil. lia. }
  unfold StdString.size in Hw. rewrite length_take in Hw. rewrite take_take, Nat.min_l by lia.
  assert (StdString.size (take (Z.to_nat w) (contents b)) = Z.max w 0) as Hx by (unfold StdString.size; rewrite length_take; lia).
  destruct (Z.ltb_spec 0 w) as [Hw0|Hw0].
  - destruct (drain_rep b D E w Hr ltac:(lia) Hfz) as (b' & D' & E' & -> & Hr' & Hd & Hf1 & Hf2). cbn [mbind res_bind].
    eexists w, _, b'. split; [done |]. split; [by exists D', E' |]. split; [congruence |]. split; [done |]. split; [| by split].
    by rewrite (rep_contents _ _ _ Hr'), Hd, (rep_contents _ _ _ Hr), take_drop.
  - eexists w, _, b. split; [done |]. split; [done |]. split; [done |]. split; [done |]. split; [| by split].
    replace (Z.to_nat w) with 0%nat by lia. by rewrite take_0.
Qed.
End Socket.

Lemma rep_frozen f e b D E : rep b D E -> rep (set_frozen f e b) D E.
Proof. intros []. by constructor. Qed.

Lemma good_frozen f e b : good b -> good (set_frozen f e b) /\ contents (set_frozen f e b) = contents b.
Proof. intros (D & E & Hr). split; [exists D, E; by apply rep_frozen | done]. Qed.
