(* ===== verification/EvbufferQueue.v ===== *)
(** * The byte buffer of libevent is a queue

    What the operations of [Evbuffer] promise, on the contents of a buffer alone. *)
From S2P Require Import Prelude CStr StdString Evbuffer EvbufferProps EvbufferAdd EvbufferRead EvbufferWrite.
Open Scope Z_scope.

(** A buffer whose bytes, with one more read, fit in a block. *)
Record in_use (b : evbuffer) : Prop := {
  iu_good : good b;
  iu_len : total_len b <= max_block
}.

Definition same_ends (b b' : evbuffer) : Prop := freeze_start b' = freeze_start b /\ freeze_end b' = freeze_end b.

Lemma in_use_size b : in_use b -> total_len b = StdString.size (contents b) /\ StdString.size (contents b) <= max_block < 2 ^ 63.
Proof.
  intros [Hg Hl]. pose proof (get_length_contents b Hg) as E. unfold evbuffer_get_length in E. split; [done |]. rewrite <- E. split; [done |].
  by unfold max_block, EVBUFFER_CHAIN_MAX, EVBUFFER_CHAIN_SIZE.
Qed.

Lemma in_use_good b : good b -> StdString.size (contents b) <= max_block -> in_use b.
Proof. intros Hg Hs. split; [done |]. pose proof (get_length_contents b Hg) as E. unfold evbuffer_get_length in E. lia. Qed.

Lemma size_drop n (s : str) : StdString.size (drop n s) <= StdString.size s.
Proof. unfold StdString.size. rewrite length_drop. lia. Qed.

Lemma in_use_new : in_use evbuffer_new.
Proof.
  constructor; try done. exists [], []. constructor; try done; [constructor |].
  intros c [ch Hc]. cbn in Hc. by rewrite lookup_empty in Hc.
Qed.

Lemma in_use_frozen f e b : in_use b -> in_use (set_frozen f e b) /\ contents (set_frozen f e b) = contents b.
Proof. intros [Hg Hl]. by destruct (good_frozen f e b Hg). Qed.

Section Queue.
Context (mm_malloc : cid -> Z -> bool) (garbage : Z -> str) (Hgarbage : forall n, 0 <= n -> StdString.size (garbage n) = n).

Lemma remove_in_use b n : in_use b -> freeze_start b = false -> 0 <= n < 2 ^ 64 ->
  exists b', evbuffer_remove n b = Ok (i32 (Z.min n (StdString.size (contents b))), take (Z.to_nat n) (contents b), b') /\
    in_use b' /\ same_ends b b' /\ contents b' = drop (Z.to_nat n) (contents b).
Proof.
  intros Hu Hs Hn. destruct (in_use_size b Hu) as [Ht Hl]. pose proof Hu as [(D & E & Hr) _]. pose proof (size_drop (Z.to_nat n) (contents b)) as Hd.
  destruct (remove_rep b D E n Hr (proj1 Hn) Hs ltac:(lia)) as (r & b' & D' & E' & -> & Hr' & Hc & -> & Hf).
  rewrite <- (rep_contents _ _ _ Hr), <- (rep_contents _ _ _ Hr') in *. rewrite <- Hc in *. exists b'. split; [done |]. split; [| by split].
  apply in_use_good; [by exists D', E' | lia].
Qed.

Lemma drain_in_use b n : in_use b -> freeze_start b = false -> 0 <= n < 2 ^ 64 ->
  exists b', evbuffer_drain n b = Ok (0, b') /\ in_use b' /\ same_ends b b' /\ contents b' = drop (Z.to_nat n) (contents b).
Proof.
  intros Hu Hs Hn. destruct (in_use_size b Hu) as [Ht Hl]. pose proof Hu as [(D & E & Hr) _]. pose proof (size_drop (Z.to_nat n) (contents b)) as Hd.
  destruct (drain_rep b D E n Hr (proj1 Hn) Hs) as (b' & D' & E' & -> & Hr' & Hc & Hf).
  rewrite <- (rep_contents _ _ _ Hr), <- (rep_contents _ _ _ Hr') in *. rewrite <- Hc in *. exists b'. split; [done |]. split; [| by split].
  apply in_use_good; [by exists D', E' | lia].
Qed.

Lemma pullup_in_use b n : in_use b -> 0 < n <= StdString.size (contents b) ->
  (evbuffer_pullup mm_malloc garbage n b = Ok (None, b) /\ exists z, mm_malloc (fresh b) z = false) \/
  exists q b', evbuffer_pullup mm_malloc garbage n b = Ok (Some q, b') /\ in_use b' /\ same_ends b b' /\ contents b' = contents b /\
    read_at q n b' = take (Z.to_nat n) (contents b).
Proof.
  intros Hu Hn. destruct (in_use_size b Hu) as [Ht Hl]. pose proof Hu as [(D & E & Hr) Hmax].
  destruct (pullup_rep mm_malloc garbage Hgarbage b D E n Hr ltac:(lia) Hmax) as [?|(q & b' & D' & E' & -> & Hr' & Hd & Hread & Hf)]; [by left | right].
  rewrite <- (rep_contents _ _ _ Hr), <- (rep_contents _ _ _ Hr') in *. exists q, b'. split; [done |]. split; [| by split].
  apply in_use_good; [by exists D', E' | rewrite Hd; lia].
Qed.

Lemma add_in_use b data : in_use b -> freeze_end b = false -> total_len b + StdString.size data <= max_block ->
  (evbuffer_add mm_malloc garbage data b = Ok (-1, b) /\ exists z, mm_malloc (fresh b) z = false) \/
  exists b', evbuffer_add mm_malloc garbage data b = Ok (0, b') /\ in_use b' /\ same_ends b b' /\ contents b' = contents b ++ data.
Proof.
  intros Hu He Hadd. destruct (in_use_size b Hu) as [Ht _]. pose proof Hu as [(D & E & Hr) _].
  destruct (add_rep mm_malloc garbage Hgarbage b D E data Hr He Hadd) as [?|(b' & D' & E' & -> & Hr' & Hd & Hf)]; [by left | right].
  rewrite <- (rep_contents _ _ _ Hr), <- (rep_contents _ _ _ Hr') in *. exists b'. split; [done |]. split; [| by split].
  apply in_use_good; [by exists D', E' | rewrite Hd, StdString.size_app; lia].
Qed.

Lemma read_in_use b readable readv howmuch : in_use b -> freeze_end b = false -> total_len b + EVBUFFER_MAX_READ <= max_block ->
  howmuch <> 0 -> (forall n d, 0 <= n -> readv n = Some d -> StdString.size d <= n) ->
  (exists r b', evbuffer_read mm_malloc garbage readable readv howmuch b = Ok (r, b') /\ r <= 0 /\
     (no_memory mm_malloc \/ no_bytes readv) /\ in_use b' /\ same_ends b b' /\ contents b' = contents b) \/
  exists n d b', readv n = Some d /\ evbuffer_read mm_malloc garbage readable readv howmuch b = Ok (StdString.size d, b') /\
    0 < StdString.size d <= EVBUFFER_MAX_READ /\ in_use b' /\ same_ends b b' /\ contents b' = contents b ++ d.
Proof.
  intros Hu He Hrd Hh Hreadv. destruct (in_use_size b Hu) as [Ht _]. pose proof Hu as [Hg _].
  assert (total_len b + EVBUFFER_MAX_READ <= EV_SIZE_MAX) as Hrd'
    by (unfold max_block, EVBUFFER_CHAIN_MAX, EVBUFFER_CHAIN_SIZE, EV_SIZE_MAX in *; lia).
  destruct (read_ok mm_malloc garbage Hgarbage readable readv howmuch b Hg He Hh Hrd' Hreadv)
    as [(r & b' & -> & Hr0 & Hwhy & Hg' & Hc & Hf)|(n & d & b' & Erv & -> & Hd & (Hg' & Hc & Hf) & _)]; [left | right].
  - exists r, b'. rewrite app_nil_r in Hc. split; [done |]. split; [done |]. split; [done |]. split; [| by split]. apply in_use_good; [done |]. rewrite Hc, <- Ht. apply Hu.
  - exists n, d, b'. split; [done |]. split; [done |]. split; [done |]. split; [| by split]. apply in_use_good; [done |]. rewrite Hc, StdString.size_app. lia.
Qed.

(** C14: A buffer is a queue of bytes when they are taken out: for a buffer in
    use, whatever chains they are in, [evbuffer_get_length] is their number,
    [evbuffer_copyout] gives the first [n] (all, if there are fewer),
    [evbuffer_remove] gives them and drops them, [evbuffer_drain] drops them, and
    [evbuffer_pullup] of at most as many as there are gives a pointer behind
    which they lie contiguously and leaves the contents alone, or null and the
    same buffer if a block of memory could not be had; no operation reads or
    writes outside a block, touches a freed chain or fails an assertion. *)
Theorem evbuffer_takes b n : in_use b -> freeze_start b = false -> 0 <= n < 2 ^ 64 ->
  evbuffer_get_length b = StdString.size (contents b) /\
  evbuffer_copyout n b = Ok (Z.min n (StdString.size (contents b)), take (Z.to_nat n) (contents b)) /\
  (exists b', evbuffer_remove n b = Ok (i32 (Z.min n (StdString.size (contents b))), take (Z.to_nat n) (contents b), b') /\
     in_use b' /\ same_ends b b' /\ contents b' = drop (Z.to_nat n) (contents b)) /\
  (exists b', evbuffer_drain n b = Ok (0, b') /\ in_use b' /\ same_ends b b' /\ contents b' = drop (Z.to_nat n) (contents b)) /\
  (0 < n <= StdString.size (contents b) ->
     (evbuffer_pullup mm_malloc garbage n b = Ok (None, b) /\ exists z, mm_malloc (fresh b) z = false) \/
     exists q b', evbuffer_pullup mm_malloc garbage n b = Ok (Some q, b') /\ in_use b' /\ same_ends b b' /\ contents b' = contents b /\
       read_at q n b' = take (Z.to_nat n) (contents b)).
Proof.
  intros Hu Hs Hn. destruct (in_use_size b Hu) as [Ht Hl]. pose proof Hu as [(D & E & Hr) _].
  split; [exact Ht |]. split; [| split; [by apply remove_in_use | split; [by apply drain_in_use | by apply pullup_in_use]]].
  destruct (copyout_rep b D E n Hr (proj1 Hn) Hs) as (r & -> & ->). rewrite <- (rep_contents _ _ _ Hr).
  pose proof (StdString.size_nonneg (contents b)). by rewrite i64_small by lia.
Qed.

(** C15: A buffer is a queue of bytes when they are put in: [evbuffer_add] puts its
    bytes behind the contents, or answers -1 and changes nothing if a block of
    memory could not be had; [evbuffer_read] puts behind the contents exactly
    what the socket wrote and answers their number, or, when no memory can be
    had, the socket fails or has nothing (and only then), answers at most 0 and
    leaves the contents as they were. *)
Theorem evbuffer_gets b data readable readv howmuch : in_use b -> freeze_end b = false ->
  total_len b + StdString.size data <= max_block -> total_len b + EVBUFFER_MAX_READ <= max_block ->
  howmuch <> 0 -> (forall n d, 0 <= n -> readv n = Some d -> StdString.size d <= n) ->
  ((evbuffer_add mm_malloc garbage data b = Ok (-1, b) /\ exists z, mm_malloc (fresh b) z = false) \/
   exists b', evbuffer_add mm_malloc garbage data b = Ok (0, b') /\ in_use b' /\ same_ends b b' /\ contents b' = contents b ++ data) /\
  ((exists r b', evbuffer_read mm_malloc garbage readable readv howmuch b = Ok (r, b') /\ r <= 0 /\
      (no_memory mm_malloc \/ no_bytes readv) /\ in_use b' /\ same_ends b b' /\ contents b' = contents b) \/
   exists n d b', readv n = Some d /\ evbuffer_read mm_malloc garbage readable readv howmuch b = Ok (StdString.size d, b') /\
     0 < StdString.size d <= EVBUFFER_MAX_READ /\ in_use b' /\ same_ends b b' /\ contents b' = contents b ++ d).
Proof. intros Hu He Hadd Hrd Hh Hreadv. split; [by apply add_in_use | by apply read_in_use]. Qed.
End Queue.

(** ** The theorems at work *)
Definition always (c : cid) (n : Z) : bool := true.
Definition zeros (n : Z) : str := replicate (Z.to_nat n) (chr 0).

Lemma zeros_size n : 0 <= n -> StdString.size (zeros n) = n.
Proof. intros Hn. unfold zeros, StdString.size. rewrite length_replicate. lia. Qed.

(** A socket with bytes pending. *)
Definition socket (stream : str) (n : Z) : option str := Some (take (Z.to_nat n) stream).

Lemma socket_ok stream n d : 0 <= n -> socket stream n = Some d -> StdString.size d <= n.
Proof. intros Hn [= <-]. unfold StdString.size. rewrite length_take. lia. Qed.

Lemma hello_buffer : exists b, in_use b /\ freeze_start b = false /\ contents b = lit "hello".
Proof.
  destruct (add_in_use always zeros zeros_size evbuffer_new (lit "hello") in_use_new) as [(_ & z & Hz)|(b & _ & Hu & [Hs _] & Hc)]; try done.
  by exists b.
Qed.

Lemma evbuffer_takes_witness : exists b b1 q b2, in_use b /\ contents b = lit "hello" /\
  evbuffer_remove 2 b = Ok (2, lit "he", b1) /\ contents b1 = lit "llo" /\
  evbuffer_pullup always zeros 4 b = Ok (Some q, b2) /\ read_at q 4 b2 = lit "hell".
Proof.
  destruct hello_buffer as (b & Hu & Hs & Hc).
  destruct (evbuffer_takes always zeros zeros_size b 2 Hu Hs) as (_ & _ & (b1 & E1 & _ & _ & H1) & _); [lia |].
  destruct (evbuffer_takes always zeros zeros_size b 4 Hu Hs) as (_ & _ & _ & _ & Hp); [lia |]. rewrite Hc in E1, H1, Hp.
  destruct Hp as [(_ & z & Hz)|(q & b2 & E2 & _ & _ & _ & H2)]; [split; [lia | by vm_compute] | done |].
  exists b, b1, q, b2. split; [exact Hu |]. split; [exact Hc |]. split; [exact E1 |]. split; [exact H1 |]. split; [exact E2 | exact H2].
Defined.

Lemma evbuffer_gets_witness : exists b' b'', evbuffer_add always zeros (lit "ab") evbuffer_new = Ok (0, b') /\ contents b' = lit "ab" /\
  evbuffer_read always zeros 3 (socket (lit "cde")) (-1) evbuffer_new = Ok (3, b'') /\ contents b'' = lit "cde".
Proof.
  destruct (evbuffer_gets always zeros zeros_size evbuffer_new (lit "ab") 3 (socket (lit "cde")) (-1) in_use_new eq_refl) as [H1 H2];
    [done | done | done | apply socket_ok |].
  destruct H1 as [(_ & z & Hz)|(b' & E1 & _ & _ & C1)]; [done |].
  assert (match evbuffer_read always zeros 3 (socket (lit "cde")) (-1) evbuffer_new with Ok (r, _) => r | Fault _ => 0 end = 3) as Er
    by (vm_compute; reflexivity).
  destruct H2 as [(r & b'' & E2 & Hr & _)|(n & d & b'' & Es & E2 & Hd & _ & _ & C2)]; rewrite E2 in Er; [lia |].
  exists b', b''. split; [exact E1 |]. split; [exact C1 |]. rewrite E2, Er. split; [done |]. rewrite C2.
  injection Es as <-. change (contents evbuffer_new ++ take (Z.to_nat n) (lit "cde")) with (take (Z.to_nat n) (lit "cde")).
  apply take_ge. unfold StdString.size in Er. rewrite length_take in Er.
  change (length (lit "cde")) with 3%nat in *. lia.
Defined.
