(* ===== verification/Connection.v ===== *)
(** * A connection: two libevent buffers and the bytes between them

    The sender's output buffer, the bytes that TCP carries, the receiver's input
    buffer.  Whatever the sizes of the writes and reads, and the chains they use, the
    connection is a queue of bytes; the input buffer is an instance of the interface
    [EvBuffer] that the decoder is written against; so a message that was sent is
    the message that is decoded. *)
From S2P Require Import Prelude CStr StdString Bytes QtpMsg QtpMsgProps Evbuffer EvbufferProps EvbufferAdd EvbufferRead EvbufferWrite EvbufferQueue.
From S2P Require Decode DecodeProps.
Open Scope Z_scope.

(** What a call that cannot fail returns. *)
Definition the {A} (r : res A) (P : A -> Prop) : (exists a, r = Ok a /\ P a) -> {a : A | r = Ok a /\ P a}.
Proof.
  destruct r as [a|f]; intros H.
  - exists a. destruct H as (a' & [= <-] & Ha). by split.
  - exfalso. by destruct H as (a & Ha & _).
Defined.

(** Between the reads only the end of an input buffer is frozen, between the writes only the start of an output buffer. *)
Definition input_ok (b : evbuffer) : Prop := in_use b /\ freeze_start b = false /\ freeze_end b = true.
Definition output_ok (b : evbuffer) : Prop := in_use b /\ freeze_start b = true /\ freeze_end b = false.

Definition input_buffer : Type := {b : evbuffer | input_ok b}.

Lemma input_ends b b' : input_ok b -> in_use b' -> same_ends b b' -> input_ok b'.
Proof. intros (_ & Hs & He) Hu [H1 H2]. split; [done |]. by rewrite H1, H2. Qed.

Lemma new_input_ok : input_ok new_input.
Proof. split; [apply (in_use_frozen false true evbuffer_new), in_use_new | done]. Qed.
Lemma new_output_ok : output_ok new_output.
Proof. split; [apply (in_use_frozen true false evbuffer_new), in_use_new | done]. Qed.

Section Connection.
Context (mm_malloc : cid -> Z -> bool) (garbage : Z -> str) (Hgarbage : forall n, 0 <= n -> StdString.size (garbage n) = n).
(** Memory is available. *)
Hypothesis Hmalloc : forall c z, mm_malloc c z = true.

(** ** The interface of the decoder *)
Lemma pullup_any (x : input_buffer) n : 0 <= n < 2 ^ 63 ->
  exists r, evbuffer_pullup mm_malloc garbage n (`x) = Ok r /\
    input_ok r.2 /\ contents r.2 = contents (`x) /\
    (0 < n -> (fun q => read_at q n r.2) <$> r.1 =
      if StdString.size (contents (`x)) <? n then None else Some (take (Z.to_nat n) (contents (`x)))).
Proof.
  intros Hn. destruct x as [b Hi]. cbn [proj1_sig]. pose proof Hi as (Hu & _). destruct (in_use_size b Hu) as [El _].
  destruct (decide (n = 0 \/ total_len b < n)) as [Hno|Hyes].
  - exists (None, b). rewrite pullup_none by (done || lia). split; [done |]. split; [done |]. split; [done |]. intros Hpos.
    by rewrite (proj2 (Z.ltb_lt _ n)) by lia.
  - destruct (pullup_in_use mm_malloc garbage Hgarbage b n Hu) as [(_ & z & Hz)|(q & b' & -> & Hu' & He & Hc & Hread)]; [lia | by rewrite Hmalloc in Hz |].
    exists (Some q, b'). split; [done |]. split; [by apply (input_ends b) |]. split; [done |]. intros _. rewrite (proj2 (Z.ltb_ge _ n)) by lia.
    cbn. by rewrite Hread.
Qed.

Lemma u64_range n : 0 <= u64 n < 2 ^ 64.
Proof. apply Z.mod_pos_bound. done. Qed.

(** The operations of the interface are those of [buffer.c], on arguments of their types. *)
Definition live_pullup (x : input_buffer) (n : nat) : option str * input_buffer :=
  match decide (0 <= Z.of_nat n < 2 ^ 63) with
  | left Hn =>
      let r := the _ _ (pullup_any x (Z.of_nat n) Hn) in
      ((fun q => read_at q (Z.of_nat n) (`r).2) <$> (`r).1, exist _ (`r).2 (proj1 (proj2 (proj2_sig r))))
  | right _ => (None, x)
  end.

Lemma remove_any (x : input_buffer) n : exists r, evbuffer_remove (u64 n) (`x) = Ok r /\
  input_ok r.2 /\ r.1.2 = take (Z.to_nat (u64 n)) (contents (`x)) /\ contents r.2 = drop (Z.to_nat (u64 n)) (contents (`x)).
Proof.
  destruct x as [b Hi]. pose proof Hi as (Hu & Hs & _). destruct (remove_in_use b (u64 n) Hu Hs (u64_range n)) as (b' & E & Hu' & He & Hc).
  cbn [proj1_sig]. eexists. split; [exact E |]. split; [by apply (input_ends b) | done].
Qed.
Definition live_remove (x : input_buffer) (n : Z) : str * input_buffer :=
  let r := the _ _ (remove_any x n) in ((`r).1.2, exist _ (`r).2 (proj1 (proj2 (proj2_sig r)))).

Lemma drain_any (x : input_buffer) n : exists r, evbuffer_drain (u64 n) (`x) = Ok r /\
  input_ok r.2 /\ contents r.2 = drop (Z.to_nat (u64 n)) (contents (`x)).
Proof.
  destruct x as [b Hi]. pose proof Hi as (Hu & Hs & _). destruct (drain_in_use b (u64 n) Hu Hs (u64_range n)) as (b' & E & Hu' & He & Hc).
  cbn [proj1_sig]. eexists. split; [exact E |]. split; [by apply (input_ends b) | done].
Qed.
Definition live_drain (x : input_buffer) (n : Z) : input_buffer :=
  let r := the _ _ (drain_any x n) in exist _ (`r).2 (proj1 (proj2 (proj2_sig r))).

(** A socket with the bytes [fl] under way: it fails, or gives the first of them, as many as have arrived and fit. *)
Definition serves (fl : str) (readv : Z -> option str) : Prop :=
  forall n d, readv n = Some d -> d = take (length d) fl /\ (0 <= n -> StdString.size d <= n).

Lemma socket_serves fl : serves fl (socket fl).
Proof. intros n d E. split; [| intros Hn; by eapply socket_ok]. injection E as <-. by rewrite length_take, <- take_take, (take_ge fl (length fl)) by done. Qed.

(** A read takes bytes of the stream [fl]: the answer [r] says how many. *)
Definition one_read (x : input_buffer) (fl : str) (r : Z) (x' : input_buffer) : Prop :=
  exists readable readv howmuch, serves fl readv /\ howmuch <> 0 /\ total_len (`x) + EVBUFFER_MAX_READ <= max_block /\
    read_input mm_malloc garbage readable readv howmuch (`x) = Ok (r, `x').

Lemma one_read_contents x fl r x' : one_read x fl r x' ->
  contents (`x') ++ drop (Z.to_nat r) fl = contents (`x) ++ fl /\ contents (`x') = contents (`x) ++ take (Z.to_nat r) fl /\
  total_len (`x') = total_len (`x) + Z.max r 0.
Proof.
  intros (readable & readv & howmuch & Hserves & Hh & Hmax & E). destruct x as [b Hi], x' as [b1 Hi1]. cbn [proj1_sig] in *. pose proof Hi as (Hu & Hs & He).
  destruct (in_use_size b Hu) as [T _]. pose proof Hi1 as (Hu1 & _). destruct (in_use_size b1 Hu1) as [T1 _].
  assert (contents b1 = contents b ++ take (Z.to_nat r) fl /\ StdString.size (take (Z.to_nat r) fl) = Z.max r 0) as [Hc Hsz].
  2: { split; [by rewrite Hc, <- app_assoc, take_drop | split; [done | rewrite T1, T, Hc, StdString.size_app, Hsz; done]]. }
  clear T1 Hu1. destruct (in_use_frozen (freeze_start b) false b Hu) as [Hu' Hc']. unfold read_input, evbuffer_unfreeze in E.
  destruct (read_in_use mm_malloc garbage Hgarbage (set_frozen (freeze_start b) false b) readable readv howmuch Hu' eq_refl Hmax Hh (fun n d Hn Hd => proj2 (Hserves n d Hd) Hn))
    as [(r' & b' & E' & Hr & _ & Hub & _ & Hc)|(n & d & b' & Esock & E' & _ & Hub & _ & Hc)]; rewrite E' in E; cbn [mbind res_bind] in E; injection E as <- <-;
    destruct (in_use_frozen (freeze_start b') true b' Hub) as [_ Ef]; change (evbuffer_freeze false b') with (set_frozen (freeze_start b') true b'); rewrite Ef, Hc, Hc'.
  - replace (Z.to_nat r') with 0%nat by lia. rewrite take_0, app_nil_r. split; [done | change (StdString.size []) with 0; lia].
  - unfold StdString.size in *. rewrite Nat2Z.id, <- (proj1 (Hserves n d Esock)). split; [done | lia].
Qed.

(** Bytes that arrive in any number of reads. *)
Inductive arrived : input_buffer -> str -> input_buffer -> Prop :=
  | arrived_none x : arrived x [] x
  | arrived_read x fl r x1 t x2 : one_read x fl r x1 -> arrived x1 t x2 -> arrived x (take (Z.to_nat r) fl ++ t) x2.

Lemma arrived_contents x s x' : arrived x s x' -> contents (`x') = contents (`x) ++ s.
Proof.
  induction 1 as [x|x fl r x1 t x2 Hread _ IH]; [by rewrite app_nil_r |]. destruct (one_read_contents _ _ _ _ Hread) as (_ & Hc & _).
  by rewrite IH, Hc, app_assoc.
Qed.

Program Instance live_evbuffer : Decode.EvBuffer input_buffer := {|
  Decode.contents x := contents (`x);
  Decode.evbuffer_get_length x := evbuffer_get_length (`x);
  Decode.evbuffer_pullup := live_pullup;
  Decode.evbuffer_remove := live_remove;
  Decode.evbuffer_drain := live_drain;
  Decode.arrives := arrived
|}.
Next Obligation. intros [b Hi]. apply get_length_contents, (iu_good _ (proj1 Hi)). Qed.
Next Obligation.
  intros x n Hn Hn'. unfold live_pullup. destruct (decide _) as [H|H]; [| lia].
  destruct (the _ _ _) as [r (E & Hu & Hc & Hr)]. cbn [fst snd proj1_sig]. split; [| done]. rewrite Hr, Nat2Z.id by lia.
  unfold StdString.size. destruct (Nat.ltb_spec (length (contents (`x))) n); case_bool; done || lia.
Qed.
Next Obligation.
  intros x n Hn. unfold live_remove. destruct (the _ _ _) as [r (E & Hu & Hd & Hc)]. cbn [fst snd proj1_sig].
  by rewrite Hd, Hc, u64_small.
Qed.
Next Obligation.
  intros x n Hn. unfold live_drain. destruct (the _ _ _) as [r (E & Hu & Hc)]. cbn [proj1_sig]. by rewrite Hc, u64_small.
Qed.
Next Obligation. apply arrived_contents. Qed.

(** ** The connection *)
Record wire : Type := mkWire { output : evbuffer; flight : str; input : input_buffer }.

Definition new_wire : wire := mkWire new_output [] (exist _ new_input new_input_ok).

(** [tcp_step w s w']: the program writes [s]; or the output is written to the socket, which
    takes some of the bytes; or the input is read from the socket. *)
Inductive tcp_step : wire -> str -> wire -> Prop :=
  | tcp_write w data r output' : total_len (output w) + StdString.size data <= max_block ->
      bufferevent_write mm_malloc garbage data (output w) = Ok (r, output') ->
      tcp_step w data (mkWire output' (flight w) (input w))
  | tcp_flush w writev sendfile atmost r taken output' : (forall d, -1 <= writev d <= StdString.size d /\ writev d < 2 ^ 31) ->
      write_output writev sendfile atmost (output w) = Ok (r, taken, output') ->
      tcp_step w [] (mkWire output' (flight w ++ taken) (input w))
  | tcp_read w r x' : one_read (input w) (flight w) r x' ->
      tcp_step w [] (mkWire (output w) (drop (Z.to_nat r) (flight w)) x').

Inductive tcp_run : wire -> str -> wire -> Prop :=
  | tcp_start w : tcp_run w [] w
  | tcp_next w0 s w t w' : tcp_run w0 s w -> tcp_step w t w' -> tcp_run w0 (s ++ t) w'.

Definition on_wire (w : wire) : str := contents (proj1_sig (input w)) ++ flight w ++ contents (output w).

Lemma tcp_step_fifo w t w' : output_ok (output w) -> tcp_step w t w' -> output_ok (output w') /\ on_wire w' = on_wire w ++ t.
Proof.
  intros Ho Hst. pose proof Ho as (Hu & Hs & He). unfold on_wire. destruct Hst as [w data r o' Hmax E|w writev sendfile atmost r taken o' Hw E|w r x' Hread]; cbn [output flight input].
  - unfold bufferevent_write in E. destruct (add_in_use mm_malloc garbage Hgarbage (output w) data Hu He Hmax) as [(_ & z & Hz)|(b' & E' & Hu' & [H1 H2] & Hc)];
      [by rewrite Hmalloc in Hz |]. rewrite E' in E. cbn [mbind res_bind] in E. injection E as _ <-.
    split; [split; [done | by rewrite H1, H2] |]. by rewrite Hc, !app_assoc.
  - unfold write_output, evbuffer_unfreeze in E. destruct (in_use_frozen false (freeze_end (output w)) (output w) Hu) as [Hu' Hc'].
    destruct (in_use_size _ Hu') as [T Hl].
    destruct (write_ok writev sendfile Hw atmost (set_frozen false (freeze_end (output w)) (output w))) as (r' & x & b' & E' & Hg' & _ & He' & Hc & Hx & _);
      [apply Hu' | done | lia |]. rewrite E' in E. cbn [mbind res_bind] in E. injection E as <- <- <-.
    assert (in_use b') as Hub by (apply in_use_good; [done |]; rewrite Hc, StdString.size_app in Hl; pose proof (StdString.size_nonneg x); lia).
    destruct (in_use_frozen true (freeze_end b') b' Hub) as [Huf Ef]. change (evbuffer_freeze true b') with (set_frozen true (freeze_end b') b').
    split; [split; [done | split; [done | cbn; by rewrite He']] |]. rewrite Ef, app_nil_r. rewrite Hc' in Hc. by rewrite Hc, !app_assoc.
  - destruct (one_read_contents _ _ _ _ Hread) as [Hc _]. split; [done |]. by rewrite app_nil_r, !app_assoc, Hc.
Qed.

Lemma tcp_run_fifo w0 s w : tcp_run w0 s w -> output_ok (output w0) -> output_ok (output w) /\ on_wire w = on_wire w0 ++ s.
Proof.
  induction 1 as [w|w0 s w t w' _ IH Hst]; intros H0; [by rewrite app_nil_r |]. destruct (IH H0) as [Ho Hw].
  destruct (tcp_step_fifo w t w' Ho Hst) as [Ho' Hw']. split; [done |]. by rewrite Hw', Hw, app_assoc.
Qed.

Lemma new_wire_empty : on_wire new_wire = [].
Proof. done. Qed.

(** C12: A message sent with [send_data] is received by the libevent buffer at the other
    end, whatever the sizes of the writes and reads its bytes travel in, and whatever chains
    they are put in: once the input buffer holds as many bytes,
    [decode_msg_with_head] on that buffer returns the header fields, options and
    data, and what is left in the buffer, in flight and in the output is exactly what
    was written behind the frame; provided the options take less than 64 KiB and the data
    less than 4 GiB. *)
Theorem frame_received (iter : gmap Z OptionRequest -> list OptionRequest) m w rest :
  (forall o, iter o ≡ₚ (map_to_list o).*2) -> msg_ok m -> opts_len iter m < 2 ^ 16 -> data_len_ m < 2 ^ 32 ->
  exists m' bytes, send_data iter m = Ok (m', bytes) /\
    (tcp_run new_wire (bytes ++ rest) w -> StdString.size bytes <= evbuffer_get_length (proj1_sig (input w)) ->
     exists c x', Decode.decode_msg_with_head (input w) = Ok (Some c, x') /\
       contents (proj1_sig x') ++ flight w ++ contents (output w) = rest /\
       head_ c = set_lens (opts_len iter m) (data_len_ m) (head_ m) /\ opts_ c = opts_ m /\ data_bytes c = data_bytes m).
Proof.
  intros Hiter Hm Ho Hd. destruct (DecodeProps.send_bytes iter Hiter m Hm Ho Hd) as (m' & E). eexists _, _. split; [exact E |].
  set (bytes := _ ++ _ ++ _). intros Hrun Hlen. destruct (tcp_run_fifo _ _ _ Hrun new_output_ok) as [_ Hw].
  rewrite new_wire_empty in Hw. cbn [app] in Hw. unfold on_wire in Hw. destruct (input w) as [b Hi] eqn:Ew. cbn [proj1_sig] in *.
  unfold evbuffer_get_length in Hlen. rewrite (proj1 (in_use_size b (proj1 Hi))) in Hlen. unfold StdString.size in Hlen.
  assert (contents b = bytes ++ drop (length bytes) (contents b)) as Hb.
  { rewrite <- (take_drop (length bytes) (contents b)) at 1. f_equal. apply (f_equal (take (length bytes))) in Hw.
    rewrite take_app_le, take_app_length in Hw by lia. done. }
  change (Decode.contents (B := input_buffer) (exist _ b Hi) = bytes ++ drop (length bytes) (contents b)) in Hb.
  destruct (DecodeProps.decode_front iter Hiter m _ _ Hm Ho Hd Hb) as (c & x' & Ed & Hc & Hprops). exists c, x'. split; [exact Ed |]. split; [| exact Hprops].
  change (contents (proj1_sig x') = drop (length bytes) (contents b)) in Hc. rewrite Hc.
  change (contents b = bytes ++ drop (length bytes) (contents b)) in Hb. rewrite Hb in Hw. rewrite <- app_assoc in Hw.
  by apply app_inv_head in Hw.
Qed.

(** ** Delivery *)
Lemma flush_progress w : output_ok (output w) -> contents (output w) <> [] ->
  exists taken output', taken <> [] /\ tcp_step w [] (mkWire output' (flight w ++ taken) (input w)) /\
    contents (output w) = taken ++ contents output'.
Proof.
  intros Ho Hne. pose proof Ho as (Hu & Hs & He). set (writev := fun d : str => Z.min (StdString.size d) (2 ^ 31 - 1)).
  assert (forall d, -1 <= writev d <= StdString.size d /\ writev d < 2 ^ 31) as Hw by (intros d; unfold writev; pose proof (StdString.size_nonneg d); lia).
  destruct (in_use_frozen false (freeze_end (output w)) (output w) Hu) as [Hu' Hc']. destruct (in_use_size _ Hu') as [T Hl].
  destruct (write_ok writev (fun _ => (0, true)) Hw (-1) (set_frozen false (freeze_end (output w)) (output w)))
    as (r & x & b' & E & Hg' & _ & He' & Hc & Hx & [H0|[H0|(d & Hd & Er)]]); [apply Hu' | done | lia | by rewrite Hc' in H0 | done |].
  assert (0 < r) as Hr.
  { rewrite Er. unfold writev. destruct d; [done |]. unfold StdString.size. cbn [length]. lia. }
  exists x, (evbuffer_freeze true b'). split; [intros ->; change (StdString.size []) with 0 in Hx; lia |].
  assert (in_use b') as Hub by (apply in_use_good; [done |]; rewrite Hc, StdString.size_app in Hl; pose proof (StdString.size_nonneg x); lia).
  destruct (in_use_frozen true (freeze_end b') b' Hub) as [_ Ef]. split.
  - eapply (tcp_flush w writev (fun _ => (0, true)) (-1) r x); [exact Hw |]. unfold write_output, evbuffer_unfreeze. by rewrite E.
  - change (evbuffer_freeze true b') with (set_frozen true (freeze_end b') b'). by rewrite Ef, <- Hc.
Qed.

Lemma read_progress w : flight w <> [] -> total_len (proj1_sig (input w)) + EVBUFFER_MAX_READ <= max_block ->
  exists r x', 0 < r /\ one_read (input w) (flight w) r x'.
Proof.
  intros Hne Hmax. destruct (input w) as [b Hi]. cbn [proj1_sig] in *. pose proof Hi as (Hu & Hs & He).
  destruct (in_use_frozen (freeze_start b) false b Hu) as [Hu' Hc'].
  destruct (read_in_use mm_malloc garbage Hgarbage (set_frozen (freeze_start b) false b) (-1) (socket (flight w)) (-1) Hu' eq_refl Hmax ltac:(done) (socket_ok (flight w)))
    as [(r & b' & E & Hr & [(c & z & Hz)|(n & Hn & [Hno|Hno])] & _)|(n & d & b' & Esock & E & Hd & Hub & [H1 _] & Hc)].
  - by rewrite Hmalloc in Hz.
  - done.
  - injection Hno as Hno. exfalso. destruct (flight w) as [|a fl]; [done |]. destruct (Z.to_nat n) eqn:En; [lia | done].
  - destruct (in_use_frozen (freeze_start b') true b' Hub) as [Huf _].
    assert (input_ok (evbuffer_freeze false b')) as Hi' by (split; [exact Huf | split; [cbn; by rewrite H1 | done]]).
    exists (StdString.size d), (exist _ _ Hi'). split; [lia |]. exists (-1), (socket (flight w)), (-1). split; [apply socket_serves |]. split; [done |]. split; [done |].
    unfold read_input, evbuffer_unfreeze. cbn [proj1_sig]. by rewrite E.
Qed.

Lemma tcp_run_trans w0 s w t w' : tcp_run w0 s w -> tcp_run w t w' -> tcp_run w0 (s ++ t) w'.
Proof.
  intros H1 H2. revert H1. induction H2 as [w|w t w1 t1 w2 _ IH Hst]; intros H1; [by rewrite app_nil_r |].
  rewrite app_assoc. apply tcp_next with w1; [by apply IH | done].
Qed.

Lemma tcp_run_one w t w' : tcp_step w t w' -> tcp_run w t w'.
Proof. intros H. apply (tcp_next w [] w t w'); [apply tcp_start | done]. Qed.

Lemma flush_all n : forall w, (length (contents (output w)) <= n)%nat -> output_ok (output w) ->
  exists w', tcp_run w [] w' /\ contents (output w') = [] /\ input w' = input w.
Proof.
  induction n as [|n IH]; intros w Hn Ho.
  - exists w. split; [apply tcp_start |]. split; [| done]. apply nil_length_inv. lia.
  - destruct (decide (contents (output w) = [])) as [E|Hne]; [exists w; split; [apply tcp_start | done] |].
    destruct (flush_progress w Ho Hne) as (taken & output' & Ht & Hst & Hc). destruct (tcp_step_fifo _ _ _ Ho Hst) as [Ho' _].
    destruct (IH (mkWire output' (flight w ++ taken) (input w))) as (w' & Hr & H1 & H2); [| exact Ho' |].
    + cbn [output]. rewrite Hc, length_app in Hn. assert (0 < length taken)%nat by (destruct taken; [done | apply Nat.lt_0_succ]). lia.
    + exists w'. split; [| done]. exact (tcp_run_trans w [] _ [] w' (tcp_run_one _ _ _ Hst) Hr).
Qed.

Lemma read_all n : forall w, (length (flight w) <= n)%nat ->
  total_len (proj1_sig (input w)) + Z.of_nat (length (flight w)) + EVBUFFER_MAX_READ <= max_block ->
  exists w', tcp_run w [] w' /\ flight w' = [] /\ output w' = output w.
Proof.
  induction n as [|n IH]; intros w Hn Hmax.
  - exists w. split; [apply tcp_start |]. split; [| done]. apply nil_length_inv. lia.
  - destruct (decide (flight w = [])) as [E|Hne]; [exists w; split; [apply tcp_start | done] |].
    destruct (read_progress w Hne) as (r & x' & Hr & Hread); [lia |].
    destruct (one_read_contents _ _ _ _ Hread) as (_ & Hc & T). pose proof (in_use_size _ (proj1 (proj2_sig x'))) as [T' _].
    pose proof (in_use_size _ (proj1 (proj2_sig (input w)))) as [T0 _].
    rewrite T', Hc, StdString.size_app, <- T0 in T. assert (Z.of_nat (length (take (Z.to_nat r) (flight w))) = r) as Hlen by (unfold StdString.size in T; lia).
    rewrite length_take in Hlen. destruct (IH (mkWire (output w) (drop (Z.to_nat r) (flight w)) x')) as (w' & Hrun & H1 & H2).
    + cbn [flight]. rewrite length_drop. lia.
    + cbn [flight input]. rewrite T', Hc, StdString.size_app, <- T0. unfold StdString.size. rewrite length_take, length_drop. lia.
    + exists w'. split; [| done]. exact (tcp_run_trans w [] _ [] w' (tcp_run_one _ _ _ (tcp_read w r x' Hread)) Hrun).
Qed.

Lemma deliver_all w : output_ok (output w) -> StdString.size (on_wire w) + EVBUFFER_MAX_READ <= max_block ->
  exists w', tcp_run w [] w' /\ contents (proj1_sig (input w')) = on_wire w /\ flight w' = [] /\ contents (output w') = [].
Proof.
  intros Ho Hmax. destruct (flush_all _ w (le_n _) Ho) as (w1 & R1 & Ho1 & Hi1). destruct (tcp_run_fifo _ _ _ R1 Ho) as [Ho1' Hw1].
  rewrite app_nil_r in Hw1. assert (contents (proj1_sig (input w1)) ++ flight w1 = on_wire w) as Hs1 by (unfold on_wire in *; by rewrite Ho1, app_nil_r in Hw1).
  destruct (read_all _ w1 (le_n _)) as (w2 & R2 & Hf2 & Ho2).
  { rewrite (proj1 (in_use_size _ (proj1 (proj2_sig (input w1))))). rewrite <- Hs1, StdString.size_app in Hmax. unfold StdString.size in *. lia. }
  destruct (tcp_run_fifo _ _ _ R2 Ho1') as [_ Hw2]. rewrite app_nil_r, Hw1 in Hw2. exists w2.
  split; [exact (tcp_run_trans w [] w1 [] w2 R1 R2) |]. split; [| split; [done | by rewrite Ho2]].
  unfold on_wire in Hw2 at 1. by rewrite Hf2, Ho2, Ho1, !app_nil_r in Hw2.
Qed.

(** What is written on a new connection. *)
Lemma write_run s : StdString.size s <= max_block -> exists w, tcp_run new_wire s w /\ output_ok (output w) /\ on_wire w = s.
Proof.
  intros Hmax. destruct (add_in_use mm_malloc garbage Hgarbage new_output s (proj1 new_output_ok) eq_refl) as [(_ & z & Hz)|(b & E & Hu & [H1 H2] & Hc)];
    [exact Hmax | by rewrite Hmalloc in Hz |].
  exists (mkWire b [] (input new_wire)). split; [| split; [split; [done | cbn [output]; by rewrite H1, H2] | exact Hc]].
  apply tcp_run_one, (tcp_write new_wire s 0 b); [exact Hmax |]. unfold bufferevent_write. cbn [new_wire output]. by rewrite E.
Qed.

(** C13: A connection is a queue, and it does not get stuck: at any time, the bytes
    that the program wrote are those in the input buffer of the other end, those
    in flight and those in the output buffer, in this order, none lost, added or
    moved, whatever the sockets took and gave at each call; and the writes and
    reads that the event loop makes can always bring all of them to the input
    buffer, as long as they fit in a block. *)
Theorem connection_delivers w s : tcp_run new_wire s w ->
  on_wire w = s /\
  (StdString.size s + EVBUFFER_MAX_READ <= max_block ->
   exists w', tcp_run w [] w' /\ contents (proj1_sig (input w')) = s /\ flight w' = [] /\ contents (output w') = []).
Proof.
  intros Hrun. destruct (tcp_run_fifo _ _ _ Hrun new_output_ok) as [Ho Hw]. rewrite new_wire_empty in Hw. cbn [app] in Hw.
  split; [done |]. rewrite <- Hw. by apply deliver_all.
Qed.
End Connection.

(** ** The theorems at work *)
Lemma mem_always c z : always c z = true.
Proof. done. Qed.

Lemma connection_delivers_witness : exists w w', tcp_run always zeros new_wire (lit "hello") w /\ on_wire w = lit "hello" /\
  tcp_run always zeros w [] w' /\ contents (proj1_sig (input w')) = lit "hello".
Proof.
  destruct (write_run always zeros zeros_size mem_always (lit "hello")) as (w & Hrun & _); [by vm_compute |].
  destruct (connection_delivers always zeros zeros_size mem_always w _ Hrun) as [Hw Hd].
  destruct Hd as (w' & Hrun' & Hc & _); [by vm_compute |]. by exists w, w'.
Defined.

Lemma frame_received_witness : exists m' bytes w c x', send_data key_order demo_msg = Ok (m', bytes) /\
  tcp_run always zeros new_wire (bytes ++ lit "") w /\
  @Decode.decode_msg_with_head _ (live_evbuffer always zeros zeros_size mem_always) (input w) = Ok (Some c, x') /\
  opts_ c = opts_ demo_msg /\ data_bytes c = data_bytes demo_msg.
Proof.
  set (sent := from_ok [] (x ← send_data key_order demo_msg; Ok x.2)).
  destruct (write_run always zeros zeros_size mem_always (sent ++ lit "")) as (w & Hrun & Ho & Hw); [by vm_compute |].
  destruct (deliver_all always zeros zeros_size mem_always w Ho) as (w' & Hrun' & Hc & _); [rewrite Hw; by vm_compute |].
  pose proof (tcp_run_trans always zeros _ _ _ _ _ Hrun Hrun') as H. rewrite app_nil_r in H.
  destruct (frame_received always zeros zeros_size mem_always key_order demo_msg w' (lit "") key_order_perm demo_msg_ok)
    as (m' & bytes & E & Hf); [rewrite demo_msg_len; lia | done |].
  assert (bytes = sent) as Eb by (unfold sent; by rewrite E). rewrite Eb in Hf, E.
  destruct Hf as (c & x' & Ed & _ & _ & Hopts & Hdata); [exact H | |].
  - unfold evbuffer_get_length. rewrite (proj1 (in_use_size _ (proj1 (proj2_sig (input w'))))), Hc, Hw, app_nil_r. lia.
  - exists m', sent, w', c, x'. by split_and!.
Defined.
