(* ===== verification/Trace.v ===== *)
(** * Programs over third-party calls

    A [call] is a call into a library with the type of its answer; [handle]
    answers it and keeps a state of its own.  A program runs over an object, that
    state and the log of the calls made so far. *)
From S2P Require Import Prelude.

Inductive event (call : Type -> Type) : Type :=
  | Event (T : Type) (c : call T) (answer : T).
Arguments Event {call} _ _ _.

Record World (call : Type -> Type) (S D : Type) : Type := mkWorld { self : S; drv : D; log : list (event call) }.
Arguments mkWorld {call S D} _ _ _.
Arguments self {call S D} _.
Arguments drv {call S D} _.
Arguments log {call S D} _.

Definition C (call : Type -> Type) (S D A : Type) : Type := World call S D -> res A * World call S D.
#[export] Instance C_ret call S D : MRet (C call S D) := fun A a w => (Ok a, w).
#[export] Instance C_bind call S D : MBind (C call S D) := fun A B k m w =>
  match m w with (Ok a, w) => k a w | (Fault f, w) => (Fault f, w) end.

Section Trace.
Context {call : Type -> Type} {S D : Type} (handle : forall T, call T -> D -> T * D).
Implicit Types P : World call S D -> Prop.

Definition do {T} (c : call T) : C call S D T := fun w =>
  let '(a, d) := handle T c (drv w) in (Ok a, mkWorld (self w) d (log w ++ [Event T c a])).
Definition get : C call S D S := fun w => (Ok (self w), w).
Definition upd (f : S -> S) : C call S D unit := fun w => (Ok tt, mkWorld (f (self w)) (drv w) (log w)).
Definition lift {A} (r : res A) : C call S D A := fun w => (r, w).

(** ** Triples: a program that stops satisfies any of them *)
Definition hoare {A} P (m : C call S D A) (Q : A -> World call S D -> Prop) : Prop :=
  forall w, P w -> match m w with (Ok a, w') => Q a w' | (Fault _, _) => True end.

Lemma hoare_bind {A B} P (m : C call S D A) (k : A -> C call S D B) R Q :
  hoare P m R -> (forall a, hoare (R a) (k a) Q) -> hoare P (m ≫= k) Q.
Proof.
  intros Hm Hk w Hw. specialize (Hm w Hw). unfold mbind, C_bind. destruct (m w) as [[a|f] w1]; [| done].
  by apply Hk.
Qed.

Lemma hoare_ret {A} P (a : A) (Q : A -> World call S D -> Prop) :
  (forall w, P w -> Q a w) -> hoare P (mret a) Q.
Proof. intros H w Hw. by apply H. Qed.

Lemma hoare_get {B} P (k : S -> C call S D B) Q :
  (forall c, hoare (fun w => P w /\ self w = c) (k c) Q) -> hoare P (c ← get; k c) Q.
Proof. intros H w Hw. by apply (H (self w) w). Qed.

Lemma hoare_upd f P (Q : unit -> World call S D -> Prop) :
  (forall w, P w -> Q tt (mkWorld (f (self w)) (drv w) (log w))) -> hoare P (upd f) Q.
Proof. intros H w Hw. by apply H. Qed.

Lemma hoare_do {T} (c : call T) P (Q : T -> World call S D -> Prop) :
  (forall w a d, P w -> handle T c (drv w) = (a, d) -> Q a (mkWorld (self w) d (log w ++ [Event T c a]))) ->
  hoare P (do c) Q.
Proof. intros H w Hw. unfold do. destruct (handle T c (drv w)) as [a d] eqn:E. by apply H. Qed.

Lemma hoare_lift {A} (r : res A) P (Q : A -> World call S D -> Prop) :
  (forall a w, r = Ok a -> P w -> Q a w) -> hoare P (lift r) Q.
Proof. intros H w Hw. unfold lift. destruct r; [by apply H | done]. Qed.

Lemma hoare_conseq {A} P P' (m : C call S D A) (Q Q' : A -> World call S D -> Prop) :
  hoare P m Q -> (forall w, P' w -> P w) -> (forall a w, Q a w -> Q' a w) -> hoare P' m Q'.
Proof. intros Hm HP HQ w Hw. specialize (Hm w (HP w Hw)). destruct (m w) as [[a|f] w1]; [by apply HQ | done]. Qed.

Lemma hoare_drop {A} P c (m : C call S D A) (Q : A -> World call S D -> Prop) :
  hoare P m Q -> hoare (fun w => P w /\ self w = c) m Q.
Proof. intros Hm w [Hw _]. by apply Hm. Qed.

(** ** Total triples with one invariant: the program returns and keeps it *)
Definition keeps {A} P (m : C call S D A) : Prop := forall w, P w -> exists a w', m w = (Ok a, w') /\ P w'.

Lemma keeps_bind {A B} P (m : C call S D A) (k : A -> C call S D B) :
  keeps P m -> (forall a, keeps P (k a)) -> keeps P (m ≫= k).
Proof.
  intros Hm Hk w Hw. destruct (Hm w Hw) as (a & w' & E & Hw'). unfold mbind, C_bind. rewrite E. by apply Hk.
Qed.

Lemma keeps_ret {A} P (a : A) : keeps P (mret a).
Proof. intros w Hw. by exists a, w. Qed.

Lemma keeps_get P : keeps P get.
Proof. intros w Hw. by exists (self w), w. Qed.

(** The object is read where the invariant holds. *)
Lemma keeps_get_bind {B} P (k : S -> C call S D B) :
  (forall w, P w -> exists a w', k (self w) w = (Ok a, w') /\ P w') -> keeps P (get ≫= k).
Proof. intros Hk w Hw. by apply Hk. Qed.

Lemma keeps_upd P f : (forall w, P w -> P (mkWorld (f (self w)) (drv w) (log w))) -> keeps P (upd f).
Proof. intros H w Hw. exists tt, (mkWorld (f (self w)) (drv w) (log w)). split; [done | by apply H]. Qed.

Lemma keeps_do {T} (c : call T) P :
  (forall w a d, P w -> P (mkWorld (self w) d (log w ++ [Event T c a]))) -> keeps P (do c).
Proof.
  intros H w Hw. unfold do. destruct (handle T c (drv w)) as [a d]. do 2 eexists. split; [done | by apply H].
Qed.

(** ** Triples with an invariant that holds where a program stops early, too *)
Section Triple.
Context (I : World call S D -> Prop).

Definition triple {A} P (m : C call S D A) (Q : A -> World call S D -> Prop) : Prop :=
  forall w, P w -> match m w with (Ok a, w') => Q a w' | (Fault _, w') => I w' end.

Lemma triple_bind {A B} P (m : C call S D A) (k : A -> C call S D B) R Q :
  triple P m R -> (forall a, triple (R a) (k a) Q) -> triple P (m ≫= k) Q.
Proof.
  intros Hm Hk w Hw. specialize (Hm w Hw). unfold mbind, C_bind. destruct (m w) as [[a|f] w1]; [by apply Hk | done].
Qed.

Lemma triple_ret {A} P (a : A) (Q : A -> World call S D -> Prop) : (forall w, P w -> Q a w) -> triple P (mret a) Q.
Proof. intros H w Hw. by apply H. Qed.

Lemma triple_get {B} P (k : S -> C call S D B) Q :
  (forall h, triple (fun w => P w /\ self w = h) (k h) Q) -> triple P (get ≫= k) Q.
Proof. intros H w Hw. by apply (H (self w) w). Qed.

Lemma triple_weaken {A} P P' (m : C call S D A) (Q Q' : A -> World call S D -> Prop) :
  triple P m Q -> (forall w, P' w -> P w) -> (forall a w, Q a w -> Q' a w) -> triple P' m Q'.
Proof. intros Hm HP HQ w Hw. specialize (Hm w (HP w Hw)). destruct (m w) as [[a|f] w1]; [by apply HQ | done]. Qed.

Lemma triple_run {A} P (m : C call S D A) Q w :
  triple P m Q -> P w -> (forall a w, Q a w -> I w) -> I (m w).2.
Proof. intros Hm Hw HQ. specialize (Hm w Hw). destruct (m w) as [[a|f] w']; [by apply (HQ a) | done]. Qed.
End Triple.
End Trace.

(** ** Resources in a log *)

(** What a call does to the objects of one kind. *)
Variant effect (R : Type) : Type := Quiet | Makes (r : option R) | Uses (r : R) | Frees (r : R).
Arguments Quiet {R}.
Arguments Makes {R} _.
Arguments Uses {R} _.
Arguments Frees {R} _.

Section Resources.
Context {call : Type -> Type} {R : Type} `{EqDecision R} (eff : event call -> effect R).

Fixpoint remove1 (r : R) (l : list R) : option (list R) :=
  match l with
  | [] => None
  | x :: l => if decide (r = x) then Some l else cons x <$> remove1 r l
  end.

Definition apply_effect (l : list R) (e : effect R) : option (list R) :=
  match e with
  | Quiet => Some l
  | Makes r => Some (option_list r ++ l)
  | Uses r => if bool_decide (r ∈ l) then Some l else None
  | Frees r => remove1 r l
  end.

(** The objects made and not freed; [None] when one was freed or used that was
    not there. *)
Definition resources (es : list (event call)) : option (list R) :=
  fold_left (fun l e => l ≫= fun l => apply_effect l (eff e)) es (Some []).

Lemma resources_snoc es e : resources (es ++ [e]) = resources es ≫= fun l => apply_effect l (eff e).
Proof. unfold resources. by rewrite fold_left_app. Qed.

Lemma apply_uses r l : r ∈ l -> apply_effect l (Uses r) = Some l.
Proof. intros Hr. cbn. by rewrite bool_decide_eq_true_2. Qed.

Lemma apply_frees r l : r ∈ l -> exists l', apply_effect l (Frees r) = Some l' /\ l ≡ₚ r :: l'.
Proof.
  cbn. induction l as [|x l IH]; [by intros ?%elem_of_nil |]. intros Hr. cbn [remove1].
  destruct (decide (r = x)) as [->|Hne]; [by exists l |].
  apply elem_of_cons in Hr as [E|Hr]; [done |]. destruct (IH Hr) as (l' & -> & Hp).
  exists (x :: l'). split; [done |]. rewrite Hp. apply Permutation_swap.
Qed.

Lemma apply_frees_only r : apply_effect [r] (Frees r) = Some [].
Proof. cbn. by rewrite decide_True. Qed.
End Resources.

