(* ===== verification/ConnParams.v ===== *)
(** * Connection parameters: [src/src/include/qtp_msg.h], shared by the TCP
    client and server *)
From S2P Require Import Prelude CStr StdString.

Record ConnectionParams : Type := mkParams {
  address : str; port : str; name : str; hostkey : str; etcd_address : str; etcd_port : str;
  etcd_endpoints : str; is_ssl : bool; cert_verify : bool; cert_path : str }.

(** The default member initialisers. *)
Definition no_params : ConnectionParams := mkParams [] [] [] [] [] [] [] false false (lit "server/").

(** [params().etcd_endpoints = e] *)
Definition set_endpoints (e : str) (p : ConnectionParams) : ConnectionParams :=
  mkParams (address p) (port p) (name p) (hostkey p) (etcd_address p) (etcd_port p) e (is_ssl p) (cert_verify p) (cert_path p).
