(* ===== verification/Server.v ===== *)
(** * The session server: [ServerEnd] and [SignalServer] of [src/src/linker/l2]

    [ServerEnd] keeps the connected [bufferevent]s, the session identifiers that
    have logged in, the counter they come from, and a queue of messages for
    clients.  Bytes written to a connection are kept in order in [written].
    [time(0)], the JSON parser and the order of the [unordered_set] of
    connections are arguments. *)
From S2P Require Import Prelude CStr StdString Bytes QtpMsg QtpMsgProps Decode.
Open Scope Z_scope.

(** Message types of [common.h] the servers use. *)
Definition kMtHeartBeat : Z := 101.
Definition kMtHeartBeatAns : Z := 102.
Definition kMtCmnLogin : Z := 1001.
Definition kMtCmnLoginAns : Z := 1002.
Definition kMtCmnSubscribe : Z := 1003.
Definition kMtCmnSubscribeAns : Z := 1004.

(** The address of a [bufferevent]. *)
Abbreviation bufferevent := positive.

Record ServerEnd : Type := mkServer {
  msg_to_clients_ : list QtpMsg;
  bev_set_ : gset bufferevent;
  session_logined_ : gset Z;
  cur_session_id_ : Z;
  written : list (bufferevent * str) }.

Definition ServerEnd_init : ServerEnd := mkServer [] ∅ ∅ 0 [].

Definition write (bev : bufferevent) (s : str) (st : ServerEnd) : ServerEnd :=
  mkServer (msg_to_clients_ st) (bev_set_ st) (session_logined_ st) (cur_session_id_ st)
    (written st ++ [(bev, s)]).

(** An option read through a pointer to [int64_t]: eight bytes. *)
Definition option_int64 (r : OptionRequest) : res Z :=
  if (length (option_buf r) <? 8)%nat then Fault Undefined else Ok (i64_at (option_buf r)).

Definition get_req_id (m : QtpMsg) : res Z :=
  match get_option kOptionId_ReqId m with None => Ok 0 | Some r => option_int64 r end.

Section Server.
Context (iter : gmap Z OptionRequest -> list OptionRequest).
(** [time(0)] *)
Context (time : Z).

Definition send_to (bev : bufferevent) (m : QtpMsg) (st : ServerEnd) : res ServerEnd :=
  '(_, bytes) ← send_data iter m;
  Ok (write bev bytes st).

Definition IsLogin (m : QtpMsg) (st : ServerEnd) : res bool :=
  match get_option kOptionId_SessionId m with
  | None => Ok false
  | Some r => id ← option_int64 r; Ok (bool_decide (id ∈ session_logined_ st))
  end.

Definition OnAccept (bev : bufferevent) (st : ServerEnd) : ServerEnd :=
  mkServer (msg_to_clients_ st) ({[bev]} ∪ bev_set_ st) (session_logined_ st) (cur_session_id_ st) (written st).

(** The [BEV_EVENT] flags. *)
Definition BEV_EVENT_READING : Z := 1.
Definition BEV_EVENT_WRITING : Z := 2.
Definition BEV_EVENT_EOF : Z := 16.
Definition BEV_EVENT_ERROR : Z := 32.
Definition BEV_EVENT_CONNECTED : Z := 128.
Definition has (events flag : Z) : bool := negb (Z.land events flag =? 0).
Definition broken (events : Z) : bool :=
  has events BEV_EVENT_EOF || has events BEV_EVENT_ERROR || has events BEV_EVENT_READING
  || has events BEV_EVENT_WRITING.

Definition OnEvent (bev : bufferevent) (events : Z) (st : ServerEnd) : ServerEnd :=
  if events =? BEV_EVENT_CONNECTED then st
  else if broken events then
    mkServer (msg_to_clients_ st) (bev_set_ st ∖ {[bev]}) (session_logined_ st) (cur_session_id_ st) (written st)
  else st.

Definition HandleBeat (bev : bufferevent) (m : QtpMsg) (st : ServerEnd) : res ServerEnd :=
  m ← add_option_int iter kOptionId_ServerTime time (set_msgtype kMtHeartBeatAns m);
  send_to bev m st.

Definition HandleLogin (bev : bufferevent) (m : QtpMsg) (st : ServerEnd) : res ServerEnd :=
  logged ← IsLogin m st;
  if (logged : bool) then send_to bev (set_msgtype kMtCmnLoginAns m) st
  else
    let m := set_msgtype kMtCmnLoginAns m in
    let session_id := i64 (cur_session_id_ st + 1) in
    let st := mkServer (msg_to_clients_ st) (bev_set_ st) ({[session_id]} ∪ session_logined_ st)
                session_id (written st) in
    m ← add_option_int iter kOptionId_SessionId session_id m;
    send_to bev m st.

(** [HandleMsgToClient]: [first] is the first connection of the set. *)
Definition HandleMsgToClient (first : gset bufferevent -> option bufferevent) (m : QtpMsg) (st : ServerEnd) : res ServerEnd :=
  match first (bev_set_ st) with
  | None => Ok st
  | Some bev => send_to bev m st
  end.

Definition PushMsgToClient (m : QtpMsg) (st : ServerEnd) : ServerEnd :=
  mkServer (msg_to_clients_ st ++ [m]) (bev_set_ st) (session_logined_ st) (cur_session_id_ st) (written st).

Definition OnLoop (first : gset bufferevent -> option bufferevent) (st : ServerEnd) : res ServerEnd :=
  match msg_to_clients_ st with
  | [] => Ok st
  | m :: q =>
      HandleMsgToClient first m
        (mkServer q (bev_set_ st) (session_logined_ st) (cur_session_id_ st) (written st))
  end.

(** One message of [OnRead]; [onMessage] is the virtual handler. *)
Definition dispatch (onMessage : bufferevent -> QtpMsg -> ServerEnd -> res ServerEnd)
    (bev : bufferevent) (m : QtpMsg) (st : ServerEnd) : res ServerEnd :=
  if msgtype (head_ m) =? 101 then HandleBeat bev m st
  else if msgtype (head_ m) =? 1001 then HandleLogin bev m st
  else
    logged ← IsLogin m st;
    if negb logged then Ok st else onMessage bev m st.

(** [OnRead]; [fuel] bounds the messages in the buffer. *)
Fixpoint OnRead_loop `{EvBuffer B} (handle : QtpMsg -> ServerEnd -> res ServerEnd)
    (fuel : nat) (input : B) (st : ServerEnd) : res (B * ServerEnd) :=
  match fuel with
  | O => Fault OutOfFuel
  | S f =>
      '(msg, input) ← decode_msg_with_head input;
      match msg with
      | None => Ok (input, st)
      | Some m => st ← handle m st; OnRead_loop handle f input st
      end
  end.

Definition OnRead `{EvBuffer B} (onMessage : bufferevent -> QtpMsg -> ServerEnd -> res ServerEnd)
    (fuel : nat) (bev : bufferevent) (input : B) (st : ServerEnd) : res (B * ServerEnd) :=
  OnRead_loop (dispatch onMessage bev) fuel input st.

(** ** [SignalServer] *)

(** [ResponseMsg]: the text with a NUL behind it. *)
Definition ResponseMsg (m : QtpMsg) (msg_type : Z) (content : str) (st : ServerEnd) : res ServerEnd :=
  let content := content ++ [chr 0] in
  '(m, _) ← set_data (Some content) (size content) (set_msgtype (u16 msg_type) m);
  Ok (PushMsgToClient m st).

(** [json_parse] tells whether [json::parse] accepts the text; reading a null
    [data()] is undefined. *)
Definition HandleSubscribe (json_parse : str -> bool) (m : QtpMsg) (st : ServerEnd) : res ServerEnd :=
  match get_option kOptionId_SessionId m with
  | None => Fault Undefined
  | Some r =>
      _ ← option_int64 r;
      match data_buf_ m with
      | None => if data_len_ m =? 0 then (if json_parse [] then ResponseMsg m kMtCmnSubscribeAns (lit "failed.") st else Ok st)
                else Fault Undefined
      | Some d =>
          if json_parse (take (Z.to_nat (data_len_ m)) d)
          then ResponseMsg m kMtCmnSubscribeAns (lit "failed.") st
          else Ok st
      end
  end.

Definition onMessage (json_parse : str -> bool) (bev : bufferevent) (m : QtpMsg) (st : ServerEnd) : res ServerEnd :=
  if msgtype (head_ m) =? kMtCmnSubscribe then HandleSubscribe json_parse m st
  else _ ← get_req_id m; Ok st.
End Server.
