(* ===== verification/ServerProps.v ===== *)
(** * The session server: streams, sessions, replies *)
From S2P Require Import Prelude CStr StdString Bytes QtpMsg QtpMsgProps Decode DecodeProps Server.
Open Scope Z_scope.

(** ** [OnRead] on the bytes of the buffer *)
Section Stream.
Context (handle : QtpMsg -> ServerEnd -> res ServerEnd).

Fixpoint read_bytes (fuel : nat) (s : str) (st : ServerEnd) : res (str * ServerEnd) :=
  match fuel with
  | O => Fault OutOfFuel
  | S f =>
      '(msg, s) ← decode_bytes s;
      match msg with
      | None => Ok (s, st)
      | Some m => st ← handle m st; read_bytes f s st
      end
  end.

Lemma read_bytes_fuel n : forall s st f1 f2, (length s <= n)%nat -> (n < f1)%nat -> (n < f2)%nat ->
  read_bytes f1 s st = read_bytes f2 s st.
Proof.
  induction n as [|n IH]; intros s st [|f1] [|f2] Hs H1 H2; try lia; cbn [read_bytes];
    destruct (decode_bytes s) as [[[m|] r]|] eqn:E; cbn [mbind res_bind]; try done;
    apply decode_bytes_progress in E; [lia |].
  destruct (handle m st) as [st'|]; cbn [mbind res_bind]; [| done]. apply IH; lia.
Qed.

Lemma read_bytes_app n : forall s t st f, (length s <= n)%nat -> (length s + length t < f)%nat ->
  read_bytes f (s ++ t) st = ('(r, st1) ← read_bytes f s st; read_bytes f (r ++ t) st1).
Proof.
  induction n as [|n IH]; intros s t st [|f] Hs Hf; try lia; cbn [read_bytes];
    pose proof (decode_bytes_app s t) as Hd; destruct (decode_bytes s) as [[[m|] r]|] eqn:E;
    cbn [mbind res_bind].
  - destruct Hd as [_ Hd]. lia.
  - by subst r.
  - by rewrite Hd.
  - destruct Hd as [-> Hl]. cbn [mbind res_bind]. destruct (handle m st) as [st'|]; cbn [mbind res_bind]; [| done].
    rewrite (IH r t st' f) by lia. destruct (read_bytes f r st') as [[r' st1]|] eqn:Er; cbn [mbind res_bind]; [| done].
    assert (length r' <= length r)%nat as Hr'.
    { clear -Er. revert r st' Er. induction f as [|f IH]; intros r st' Er; [done |]. cbn [read_bytes] in Er.
      destruct (decode_bytes r) as [[[m|] q]|] eqn:E; cbn [mbind res_bind] in Er; [| | done].
      - destruct (handle m st') as [st2|]; cbn [mbind res_bind] in Er; [| done].
        apply IH in Er. apply decode_bytes_progress in E. lia.
      - inv_res. pose proof (decode_bytes_app r []) as H. rewrite E in H. by rewrite H. }
    change (read_bytes f (r' ++ t) st1 = read_bytes (S f) (r' ++ t) st1).
    apply (read_bytes_fuel (length (r' ++ t))); rewrite ?length_app; lia.
  - by subst r.
  - by rewrite Hd.
Qed.

Context `{EvBuffer B}.

Lemma OnRead_refines fuel : forall (b : B) st,
  match read_bytes fuel (contents b) st with
  | Ok (s, st') => exists b', OnRead_loop handle fuel b st = Ok (b', st') /\ contents b' = s
  | Fault f => OnRead_loop handle fuel b st = Fault f
  end.
Proof.
  induction fuel as [|f IH]; intros b st; cbn [read_bytes OnRead_loop]; [done |].
  pose proof (decode_refines b) as Hd. destruct (decode_bytes (contents b)) as [[msg s]|] eqn:E.
  - destruct Hd as (b1 & -> & Hb1). cbn [mbind res_bind]. destruct msg as [m|]; [| eauto].
    destruct (handle m st) as [st1|]; cbn [mbind res_bind]; [| done]. rewrite <- Hb1. apply IH.
  - by rewrite Hd.
Qed.

(** C16: [OnRead] does not depend on how TCP cuts the stream: handling the bytes
    [x ++ y] when all have arrived ends in the same state, with the same replies
    and the same bytes left, as handling [x] first and [y] when it arrives; and
    it fails exactly when one of the two does. *)
Theorem OnRead_chunks (b bx bxy : B) x y st fuel :
  arrives b x bx -> arrives b (x ++ y) bxy -> (length (contents b) + length x + length y < fuel)%nat ->
  match OnRead_loop handle fuel bxy st with
  | Ok (b', st') =>
      exists b1 st1, OnRead_loop handle fuel bx st = Ok (b1, st1) /\
        forall b1y, arrives b1 y b1y ->
        exists b2, OnRead_loop handle fuel b1y st1 = Ok (b2, st') /\ contents b2 = contents b'
  | Fault f =>
      OnRead_loop handle fuel bx st = Fault f \/
      exists b1 st1, OnRead_loop handle fuel bx st = Ok (b1, st1) /\
        forall b1y, arrives b1 y b1y -> OnRead_loop handle fuel b1y st1 = Fault f
  end.
Proof.
  intros Ax Axy Hf. pose proof (OnRead_refines fuel bxy st) as Hxy. pose proof (OnRead_refines fuel bx st) as Hx.
  rewrite (arrives_spec _ _ _ Axy), app_assoc in Hxy. rewrite (arrives_spec _ _ _ Ax) in Hx.
  rewrite (read_bytes_app (length (contents b ++ x))) in Hxy by (rewrite ?length_app; lia).
  destruct (read_bytes fuel (contents b ++ x) st) as [[r st1]|f] eqn:E; cbn [mbind res_bind] in Hxy; [| rewrite Hxy; by left].
  destruct Hx as (b1 & Hx & Hb1).
  assert (forall b1y, arrives b1 y b1y -> match read_bytes fuel (r ++ y) st1 with
    | Ok (s, st') => exists b2, OnRead_loop handle fuel b1y st1 = Ok (b2, st') /\ contents b2 = s
    | Fault f => OnRead_loop handle fuel b1y st1 = Fault f end) as Hy.
  { intros b1y Ay. pose proof (OnRead_refines fuel b1y st1) as Hy. by rewrite (arrives_spec _ _ _ Ay), Hb1 in Hy. }
  destruct (read_bytes fuel (r ++ y) st1) as [[s st']|f].
  - destruct Hxy as (b' & -> & Hb'). exists b1, st1. split; [done |]. intros b1y (b2 & Hy' & Hb2)%Hy. exists b2. by rewrite Hb2.
  - rewrite Hxy. right. exists b1, st1. by split.
Qed.

(** Enough fuel is never exhausted by the loop itself. *)
Lemma OnRead_terminates (b : B) st fuel :
  (forall m st, handle m st <> Fault OutOfFuel) -> (forall s, decode_bytes s <> Fault OutOfFuel) ->
  (length (contents b) < fuel)%nat -> OnRead_loop handle fuel b st <> Fault OutOfFuel.
Proof.
  intros Hh Hd Hf. assert (forall n s st f, (length s <= n)%nat -> (n < f)%nat -> read_bytes f s st <> Fault OutOfFuel) as Hr.
  { induction n as [|n IH]; intros s st' [|f] Hs Hl; try lia; cbn [read_bytes];
      specialize (Hd s); destruct (decode_bytes s) as [[[m|] r]|] eqn:E; cbn [mbind res_bind]; try congruence;
      apply decode_bytes_progress in E; [lia |].
    specialize (Hh m st'). destruct (handle m st'); cbn [mbind res_bind]; [apply IH; lia | congruence]. }
  pose proof (OnRead_refines fuel b st) as H0. specialize (Hr (length (contents b)) (contents b) st fuel ltac:(lia) Hf).
  destruct (read_bytes fuel (contents b) st) as [[s st']|f]; [destruct H0 as (b' & -> & _); done | congruence].
Qed.
End Stream.

(** ** Sessions *)
Section Sessions.
Context (iter : gmap Z OptionRequest -> list OptionRequest) (time : Z).
Context (onMessage : bufferevent -> QtpMsg -> ServerEnd -> res ServerEnd).
Context (first : gset bufferevent -> option bufferevent).
(** The message handler leaves the sessions alone, as [SignalServer]'s does. *)
Hypothesis onMessage_sessions : forall bev m st st', onMessage bev m st = Ok st' ->
  session_logined_ st' = session_logined_ st /\ cur_session_id_ st' = cur_session_id_ st.

(** What can happen to a server: the callbacks libevent makes, a message read,
    a message queued by another thread. *)
Inductive server_event : Type :=
  | Accepted (bev : bufferevent) | Event (bev : bufferevent) (ev : Z) | Message (bev : bufferevent) (m : QtpMsg)
  | Pushed (m : QtpMsg) | Turn.

Definition server_do (e : server_event) (st : ServerEnd) : res ServerEnd :=
  match e with
  | Accepted bev => Ok (OnAccept bev st)
  | Event bev ev => Ok (OnEvent bev ev st)
  | Message bev m => dispatch iter time onMessage bev m st
  | Pushed m => Ok (PushMsgToClient m st)
  | Turn => OnLoop iter first st
  end.

Definition server_step (st st' : ServerEnd) : Prop := exists e, server_do e st = Ok st'.

(** A login by a client that has not logged in. *)
Definition logs_in (e : server_event) (st : ServerEnd) : bool :=
  match e with
  | Message _ m => (msgtype (head_ m) =? 1001) && match IsLogin m st with Ok logged => negb logged | Fault _ => false end
  | _ => false
  end.

Definition same_sessions (st st' : ServerEnd) : Prop :=
  session_logined_ st' = session_logined_ st /\ cur_session_id_ st' = cur_session_id_ st.

Lemma send_to_sessions bev m st st' : send_to iter bev m st = Ok st' -> same_sessions st st'.
Proof. unfold send_to. intros H. inv_res. destruct x. inv_res. done. Qed.

Lemma OnEvent_sessions bev ev st : same_sessions st (OnEvent bev ev st).
Proof. unfold OnEvent. repeat case_match; done. Qed.

Lemma OnLoop_sessions st st' : OnLoop iter first st = Ok st' -> same_sessions st st'.
Proof.
  unfold OnLoop, HandleMsgToClient. intros H. destruct (msg_to_clients_ st) as [|m q]; [by inv_res |].
  simpl in H. destruct (first (bev_set_ st)); [| by inv_res]. by apply send_to_sessions in H.
Qed.

(** A login adds the next identifier; everything else keeps the sessions. *)
Definition sessions_after (e : server_event) (st st' : ServerEnd) : Prop :=
  if logs_in e st
  then session_logined_ st' = {[ i64 (cur_session_id_ st + 1) ]} ∪ session_logined_ st /\
       cur_session_id_ st' = i64 (cur_session_id_ st + 1)
  else same_sessions st st'.

Lemma server_do_sessions e st st' : server_do e st = Ok st' -> sessions_after e st st'.
Proof.
  unfold sessions_after. destruct e as [bev|bev ev|bev m|m|]; cbn [server_do logs_in]; intros H.
  - by injection H as <-.
  - injection H as <-. apply OnEvent_sessions.
  - unfold dispatch in H. destruct (Z.eqb_spec (msgtype (head_ m)) 101) as [->|].
    { unfold HandleBeat in H. destruct (add_option_int _ _ _ _) as [m1|]; cbn [mbind res_bind] in H; [| done].
      by apply send_to_sessions in H. }
    destruct (_ =? 1001); cbn [andb].
    + unfold HandleLogin in H. destruct (IsLogin m st) as [[]|]; cbn [mbind res_bind negb] in *; [| | done].
      * by apply send_to_sessions in H.
      * destruct (add_option_int _ _ _ _) as [m1|]; cbn [mbind res_bind] in H; [| done].
        apply send_to_sessions in H as [H1 H2]. by rewrite H1, H2.
    + destruct (IsLogin m st) as [[]|]; cbn [mbind res_bind negb] in H; [| | done].
      * by apply onMessage_sessions in H.
      * by inv_res.
  - by injection H as <-.
  - by apply OnLoop_sessions.
Qed.

Definition sessions_ok (st : ServerEnd) : Prop :=
  0 <= cur_session_id_ st /\ forall id, id ∈ session_logined_ st -> 1 <= id <= cur_session_id_ st.

Lemma same_sessions_ok st st' : same_sessions st st' -> sessions_ok st -> sessions_ok st'.
Proof. unfold sessions_ok. intros [-> ->]. done. Qed.

Lemma server_step_ok st st' : server_step st st' -> cur_session_id_ st < 2 ^ 63 - 1 -> sessions_ok st ->
  sessions_ok st' /\ session_logined_ st ⊆ session_logined_ st' /\
  cur_session_id_ st <= cur_session_id_ st' <= cur_session_id_ st + 1.
Proof.
  intros [e He] Hb Hok. apply server_do_sessions in He. unfold sessions_after in He. destruct (logs_in e st).
  - destruct He as [Hl Hc], Hok as [H0 Hids]. rewrite i64_small in Hl, Hc by lia. unfold sessions_ok. rewrite Hl, Hc.
    split_and!; [lia | | set_solver | lia | lia].
    intros id [->%elem_of_singleton|Hid]%elem_of_union; [lia |]. specialize (Hids id Hid). lia.
  - split; [by eapply same_sessions_ok |]. destruct He as [-> ->]. split_and!; [done | lia | lia].
Qed.

(** Sessions are never taken away. *)
Lemma server_step_keeps st st' : server_step st st' -> session_logined_ st ⊆ session_logined_ st'.
Proof.
  intros [e He]. apply server_do_sessions in He. unfold sessions_after in He.
  destruct (logs_in e st); destruct He as [-> _]; set_solver.
Qed.

(** After [n] steps the counter has not passed [n]. *)
Lemma steps_sessions_ok n st : nsteps server_step n ServerEnd_init st -> Z.of_nat n < 2 ^ 63 ->
  sessions_ok st /\ cur_session_id_ st <= Z.of_nat n.
Proof.
  revert st. induction n as [|n IH]; intros st Hr Hn.
  - inversion Hr; subst. split; [| done]. split; [done |]. intros id Hid. simpl in Hid. set_solver.
  - apply nsteps_inv_r in Hr as (s & Hr & Hs). destruct (IH s Hr) as [Hok Hc]; [lia |].
    destruct (server_step_ok _ _ Hs) as (H1 & _ & H2); [lia | done |]. split; [done | lia].
Qed.

(** C17: in every state reached in fewer than 2^63 - 1 steps the logged-in
    sessions are identifiers the counter has already issued.  The next step adds
    the next identifier, which is not in use, when it is the login of a client that
    has not logged in; every other message, accepted or lost connection and turn
    leaves the sessions and the counter as they are. *)
Theorem sessions_invariant n st e st' :
  Z.of_nat n < 2 ^ 63 - 1 -> nsteps server_step n ServerEnd_init st -> server_do e st = Ok st' ->
  sessions_ok st' /\
  if logs_in e st
  then session_logined_ st' = {[ cur_session_id_ st + 1 ]} ∪ session_logined_ st /\
       cur_session_id_ st' = cur_session_id_ st + 1 /\ cur_session_id_ st + 1 ∉ session_logined_ st
  else session_logined_ st' = session_logined_ st /\ cur_session_id_ st' = cur_session_id_ st.
Proof.
  intros Hb Hr He. destruct (steps_sessions_ok n st Hr) as [Hok Hc]; [lia |].
  destruct (server_step_ok st st' (ex_intro _ e He)) as (H1 & _ & _); [lia | done |]. split; [done |].
  apply server_do_sessions in He. unfold sessions_after in He. destruct (logs_in e st); [| done].
  destruct Hok as [H0 Hids]. rewrite i64_small in He by lia. destruct He as [-> ->]. split_and!; [done | done |].
  intros Hid%Hids. lia.
Qed.

(** The message handler only runs for messages that carry the identifier
    of a logged-in session: otherwise [OnRead] does the same whatever the
    handler is. *)
Theorem dispatch_needs_login (h1 h2 : bufferevent -> QtpMsg -> ServerEnd -> res ServerEnd) bev m st :
  (forall r, get_option kOptionId_SessionId m = Some r -> i64_at (option_buf r) ∉ session_logined_ st) ->
  dispatch iter time h1 bev m st = dispatch iter time h2 bev m st.
Proof.
  intros Hn. unfold dispatch. destruct (_ =? 101); [done |]. destruct (_ =? 1001); [done |].
  unfold IsLogin. destruct (get_option kOptionId_SessionId m) as [r|] eqn:E; [| done].
  unfold option_int64. destruct (length (option_buf r) <? 8)%nat; [done |]. cbn [mbind res_bind].
  by rewrite bool_decide_eq_false_2 by (by apply Hn).
Qed.

End Sessions.

(** ** The states of a server from then on *)
Section Later.
Context (iter : gmap Z OptionRequest -> list OptionRequest).
Context (onMessage : bufferevent -> QtpMsg -> ServerEnd -> res ServerEnd).

(** Any steps, at any times. *)
Definition later : ServerEnd -> ServerEnd -> Prop :=
  rtc (fun st st' => exists time first, server_step iter time onMessage first st st').

Lemma later_keeps st st' :
  (forall bev m s s', onMessage bev m s = Ok s' -> same_sessions s s') ->
  later st st' -> session_logined_ st ⊆ session_logined_ st'.
Proof.
  intros Hm. induction 1 as [|st st1 st2 (time & first & Hs) _ IH]; [done |].
  apply (server_step_keeps iter time onMessage first Hm) in Hs. set_solver.
Qed.
End Later.

(** ** The login reply *)
Section Login.
Context (iter : gmap Z OptionRequest -> list OptionRequest).
Hypothesis iter_perm : forall o, iter o ≡ₚ (map_to_list o).*2.

Lemma sum_len_insert r o : opts_ok o -> opt_ok r ->
  sum_len (iter (<[option_id r := r]> o)) <= sum_len (iter o) + (4 + option_size r).
Proof.
  intros Ho Hr. rewrite (iter_perm (<[_ := _]> o)), (iter_perm o).
  rewrite <- insert_delete_eq. rewrite map_to_list_insert by apply lookup_delete_eq.
  rewrite fmap_cons. simpl. destruct (o !! option_id r) as [x|] eqn:E.
  - rewrite <- (insert_delete_id o (option_id r) x E) at 2. rewrite map_to_list_insert by apply lookup_delete_eq.
    rewrite fmap_cons. simpl. destruct (Ho _ _ E) as [_ (_ & Hs & _)]. unfold in_u in Hs. unfold sum_len in *. lia.
  - rewrite delete_id by done. unfold sum_len. lia.
Qed.

Lemma set_msgtype_ok t m : in_u 16 t -> msg_ok m -> msg_ok (set_msgtype t m).
Proof.
  intros Ht [H1 H2 H3 (A & B & _ & D & E & F)]. split; [done | done | done |]. unfold head_ok. simpl. done.
Qed.

(** [add_option(id, int64)] on a well-formed message. *)
Lemma add_option_int_spec id v m :
  msg_ok m -> in_u 16 id -> - 2 ^ 63 <= v < 2 ^ 63 -> opts_len iter m + 12 < 2 ^ 64 ->
  exists m' r, add_option_int iter id v m = Ok m' /\ opts_ m' = <[id := r]> (opts_ m) /\
    msg_ok m' /\ i64_at (option_buf r) = v /\ (8 <= length (option_buf r))%nat /\
    opts_len iter m' <= opts_len iter m + 12 /\ head_ m' = set_lens (u16 (opts_len iter m')) (u32 (data_len_ m)) (head_ m) /\
    data_len_ m' = data_len_ m /\ data_bytes m' = data_bytes m.
Proof.
  intros Hm Hid Hv Hl. pose proof Hm as [Hok Hob Hdb Hh].
  unfold add_option_int, add_option_data, OptionRequest_new.
  set (data := le 8 (u64 v)). change (u16 8) with 8. change (size data) with 8.
  cbn [Z.ltb Z.compare Pos.compare Pos.compare_cont mbind res_bind].
  rewrite (u16_small id) by done. set (r := mkOption id 8 (take (Z.to_nat 8) data)).
  assert (opt_ok r) as Hr by (unfold opt_ok, r; split_and!; done).
  pose proof (sum_len_insert r (opts_ m) Hok Hr) as Hsum. change (option_size r) with 8 in Hsum.
  unfold opts_len in *. unfold add_option.
  destruct (encode_spec iter iter_perm (with_opts (<[option_id r := r]> (opts_ m)) m)) as (buf & E & Hbuf & Hu & _);
    [by apply opts_ok_insert | done | unfold opts_len; simpl in *; lia |].
  exists (mkMsg (set_lens (u16 (opts_len iter (with_opts (<[option_id r := r]> (opts_ m)) m))) (u32 (data_len_ m)) (head_ m))
    (<[option_id r := r]> (opts_ m)) (data_len_ m) (data_buf_ m)
    (opts_len iter (with_opts (<[option_id r := r]> (opts_ m)) m)) buf), r.
  split_and!; try done.
  - split; [by apply opts_ok_insert | done | done | by apply set_lens_ok].
  - unfold r. cbn [option_buf]. rewrite take_ge by done. rewrite <- (app_nil_r data). by apply i64_le.
Qed.

(** A login of a client without a session is answered, on its connection,
    with a message of type [1002] that the client decodes to the session
    identifier it is to use: the next identifier, which is logged in from then
    on. *)
Theorem login_reply `{EvBuffer B} bev m st :
  msg_ok m -> opts_len iter m + 12 < 2 ^ 16 -> data_len_ m < 2 ^ 32 ->
  0 <= cur_session_id_ st < 2 ^ 63 - 1 -> IsLogin m st = Ok false ->
  exists st' bytes, HandleLogin iter bev m st = Ok st' /\
    written st' = written st ++ [(bev, bytes)] /\
    session_logined_ st' = {[ cur_session_id_ st + 1 ]} ∪ session_logined_ st /\
    forall b : B, contents b = bytes -> exists c b',
      decode_msg_with_head b = Ok (Some c, b') /\ contents b' = [] /\
      msgtype (head_ c) = 1002 /\ IsLogin c st' = Ok true /\
      exists r, get_option kOptionId_SessionId c = Some r /\ option_int64 r = Ok (cur_session_id_ st + 1).
Proof.
  intros Hm Hl Hd Hc Hlog. unfold HandleLogin. rewrite Hlog. cbn [mbind res_bind].
  rewrite i64_small by lia.
  assert (msg_ok (set_msgtype kMtCmnLoginAns m)) as Hm1 by (apply set_msgtype_ok; [done | done]).
  destruct (add_option_int_spec kOptionId_SessionId (cur_session_id_ st + 1) (set_msgtype kMtCmnLoginAns m))
    as (m2 & r & E & Ho & Hm2 & Hr & Hr8 & Hl2 & Hh & Hdl & _); [done | done | lia | unfold opts_len in *; simpl; lia |].
  rewrite E. cbn [mbind res_bind]. unfold send_to.
  assert (opts_len iter m2 < 2 ^ 16) as Hl2'
    by (change (opts_len iter (set_msgtype kMtCmnLoginAns m)) with (opts_len iter m) in Hl2; lia).
  destruct (send_data_spec iter iter_perm m2 Hm2 ltac:(lia)) as (m3 & Es & _).
  rewrite Es. cbn [mbind res_bind]. eexists _, _. split; [done |]. split; [done |]. split; [done |].
  intros b Hb. pose proof (ok_data_buf _ Hm2) as [Hdl2 _].
  pose proof (sum_len_nonneg _ (iter_ok iter iter_perm _ (ok_opts _ Hm2))) as Hn. fold (opts_len iter m2) in Hn.
  rewrite u16_small, u32_small in Hb by (rewrite ?Hdl in *; simpl in *; lia).
  destruct (decode_sent iter iter_perm m2 [] Hm2 Hl2') as (c & Ec & Hch & Hco & _); [rewrite Hdl; exact Hd |].
  rewrite app_nil_r in Ec. pose proof (decode_refines b) as Hdec. rewrite Hb, Ec in Hdec.
  destruct Hdec as (b' & Hdec & Hb'). exists c, b'. split_and!; [done | done | by rewrite Hch, Hh | |].
  - unfold IsLogin, get_option. rewrite Hco, Ho, lookup_insert_eq. unfold option_int64.
    rewrite (proj2 (Nat.ltb_ge _ _)) by lia. cbn [mbind res_bind]. rewrite Hr.
    rewrite bool_decide_eq_true_2; [done |]. simpl. set_solver.
  - exists r. unfold get_option. rewrite Hco, Ho, lookup_insert_eq. split; [done |].
    unfold option_int64. rewrite (proj2 (Nat.ltb_ge _ _)) by lia. by rewrite Hr.
Qed.
End Login.

(** ** [SignalServer] *)
Lemma set_data_spec d n m : msg_ok m -> 0 <= n <= size d -> n < 2 ^ 64 ->
  exists m', set_data (Some d) n m = Ok (m', true) /\ msg_ok m' /\ opts_ m' = opts_ m /\ data_len_ m' = n /\
    data_bytes m' = take (Z.to_nat n) d /\ head_ m' = set_lens (optslen (head_ m)) (u32 n) (head_ m).
Proof.
  intros [Hok Hob Hdb Hh] Hn Hn'. unfold set_data.
  destruct (refill_spec (data_len_ m) (data_buf_ m) d n Hdb) as (b & -> & Hb & Hu & _); [done | done |].
  cbn [mbind res_bind]. eexists. split; [done |]. split_and!; try done.
  split; [done | done | done |]. destruct Hh as (? & ? & ? & ? & ? & ?). simpl.
  unfold head_ok. simpl. split_and!; try done. apply wrap_range. lia.
Qed.

(** [SignalServer]'s handlers do not touch the sessions. *)
Lemma signal_sessions json_parse bev m st st' : Server.onMessage json_parse bev m st = Ok st' ->
  session_logined_ st' = session_logined_ st /\ cur_session_id_ st' = cur_session_id_ st.
Proof.
  unfold Server.onMessage. destruct (_ =? _); [| intros H; by inv_res].
  unfold HandleSubscribe, ResponseMsg. destruct (get_option _ m); [| done].
  destruct (option_int64 _); cbn [mbind res_bind]; [| done].
  intros H. destruct (data_buf_ m); repeat case_match; try done; inv_res; try done;
    destruct (set_data _ _ _) as [[m1 ?]|]; cbn [mbind res_bind] in *; by inv_res.
Qed.

(** A subscription of a logged-in client whose body is JSON is answered
    with type [1004] and the text "failed.", never at once: the answer is queued,
    and the next [OnLoop] sends it to the first connection of the set, whatever
    connection asked. *)
Theorem subscribe_reply `{EvBuffer B} iter json_parse first bev b0 r d m st :
  (forall o, iter o ≡ₚ (map_to_list o).*2) ->
  msg_ok m -> opts_len iter m < 2 ^ 16 -> msgtype (head_ m) = kMtCmnSubscribe ->
  get_option kOptionId_SessionId m = Some r -> (8 <= length (option_buf r))%nat ->
  data_buf_ m = Some d -> json_parse (take (Z.to_nat (data_len_ m)) d) = true ->
  msg_to_clients_ st = [] -> first (bev_set_ st) = Some b0 ->
  exists st1 st2 bytes, Server.onMessage json_parse bev m st = Ok st1 /\ written st1 = written st /\
    OnLoop iter first st1 = Ok st2 /\ written st2 = written st ++ [(b0, bytes)] /\ msg_to_clients_ st2 = [] /\
    forall b : B, contents b = bytes -> exists c b',
      decode_msg_with_head b = Ok (Some c, b') /\ contents b' = [] /\
      msgtype (head_ c) = 1004 /\ data_bytes c = lit "failed." ++ [chr 0] /\ opts_ c = opts_ m.
Proof.
  intros Hit Hm Hol Ht Hs Hr Hd Hj Hq Hf. unfold Server.onMessage. rewrite Ht, Z.eqb_refl.
  unfold HandleSubscribe. rewrite Hs. unfold option_int64. rewrite (proj2 (Nat.ltb_ge _ _)) by lia.
  cbn [mbind res_bind]. rewrite Hd, Hj. unfold ResponseMsg.
  destruct (set_data_spec (lit "failed." ++ [chr 0]) 8 (set_msgtype (u16 kMtCmnSubscribeAns) m))
    as (m1 & E1 & Hm1 & Ho1 & Hl1 & Hd1 & Hh1); [by apply set_msgtype_ok | done | done |].
  change (size (lit "failed." ++ [chr 0])) with 8. rewrite E1. cbn [mbind res_bind].
  destruct (send_data_spec iter Hit m1 Hm1) as (m2 & E2 & _); [unfold opts_len in *; rewrite Ho1; simpl; lia |].
  assert (opts_len iter m1 < 2 ^ 16) as Hol1 by (unfold opts_len in *; rewrite Ho1; done).
  pose proof (sum_len_nonneg _ (iter_ok iter Hit _ (ok_opts _ Hm1))) as Hn. fold (opts_len iter m1) in Hn.
  rewrite u16_small, u32_small in E2 by (rewrite ?Hl1; lia).
  eexists _, _, _. split; [done |]. split; [done |].
  unfold OnLoop, PushMsgToClient, HandleMsgToClient, send_to. cbn [msg_to_clients_ bev_set_].
  rewrite Hq. cbn [app]. rewrite Hf, E2. cbn [mbind res_bind]. split; [done |]. split; [done |]. split; [done |].
  intros b Hb. destruct (decode_sent iter Hit m1 [] Hm1 Hol1) as (c & Ec & Hch & Hco & Hcd); [rewrite Hl1; lia |].
  rewrite app_nil_r in Ec. pose proof (decode_refines b) as Hdec. rewrite Hb, Ec in Hdec.
  destruct Hdec as (b' & Hdec & Hb'). exists c, b'. split_and!; [done | done | | by rewrite Hcd, Hd1 | by rewrite Hco].
  rewrite Hch, Hh1. done.
Qed.

(** ** Witnesses *)
Definition first_of (s : gset bufferevent) : option bufferevent := head (elements s).

(** A message with the session identifier 1 and the body "{}". *)
Definition session_opt : OptionRequest := mkOption kOptionId_SessionId 8 (le 8 1).
Definition sub_msg : QtpMsg :=
  mkMsg (mkHead 2 0 1003 0 12 2) {[ kOptionId_SessionId := session_opt ]} 2 (Some (lit "{}"))
    12 (Some (opt_bytes session_opt)).

Lemma sub_msg_ok : msg_ok sub_msg.
Proof.
  split; [| unfold buf_ok; vm_compute; intuition congruence | unfold buf_ok; vm_compute; intuition congruence
    | unfold head_ok, in_u; simpl; lia].
  intros k r Hr. change (({[ kOptionId_SessionId := session_opt ]} : gmap Z OptionRequest) !! k = Some r) in Hr.
  apply lookup_singleton_Some in Hr as [<- <-]. split; [done |]. unfold opt_ok, in_u. vm_compute. intuition congruence.
Qed.

Lemma sub_msg_len : opts_len key_order sub_msg = 12.
Proof.
  unfold opts_len, key_order. change (opts_ sub_msg) with ({[ kOptionId_SessionId := session_opt ]} : gmap Z OptionRequest).
  by rewrite map_to_list_singleton.
Qed.

Definition any_json (s : str) : bool := true.
Definition demo_server : ServerEnd := mkServer [] {[ 5%positive; 9%positive ]} {[ 1 ]} 1 [].
Definition beat : str := head_bytes (mkHead 2 0 101 0 0 0).

Lemma OnRead_chunks_witness :
  match OnRead_loop (dispatch key_order 7 (Server.onMessage any_json) 9%positive) 60 (take 7 beat ++ drop 7 beat ++ beat) demo_server with
  | Ok (b', st') =>
      exists b1 st1,
        OnRead_loop (dispatch key_order 7 (Server.onMessage any_json) 9%positive) 60 (take 7 beat) demo_server = Ok (b1, st1) /\
        forall b1y, arrives b1 (drop 7 beat ++ beat) b1y ->
        exists b2, OnRead_loop (dispatch key_order 7 (Server.onMessage any_json) 9%positive) 60 b1y st1 = Ok (b2, st') /\
          contents b2 = contents b'
  | Fault f =>
      OnRead_loop (dispatch key_order 7 (Server.onMessage any_json) 9%positive) 60 (take 7 beat) demo_server = Fault f \/
      exists b1 st1,
        OnRead_loop (dispatch key_order 7 (Server.onMessage any_json) 9%positive) 60 (take 7 beat) demo_server = Ok (b1, st1) /\
        forall b1y, arrives b1 (drop 7 beat ++ beat) b1y ->
        OnRead_loop (dispatch key_order 7 (Server.onMessage any_json) 9%positive) 60 b1y st1 = Fault f
  end.
Proof.
  apply (OnRead_chunks (dispatch key_order 7 (Server.onMessage any_json) 9%positive)
    ([] : str) (take 7 beat) (take 7 beat ++ drop 7 beat ++ beat) (take 7 beat) (drop 7 beat ++ beat) demo_server 60); [done | done |].
  apply Nat.ltb_lt. vm_compute. reflexivity.
Defined.

(** A client connects and logs in, another connects. *)
Definition login_msg : QtpMsg := set_msgtype 1001 demo_msg.
Definition in_server : ServerEnd := OnAccept 3%positive ServerEnd_init.
Definition logged_server : ServerEnd := 
  match HandleLogin key_order 3%positive login_msg in_server with Ok st => st | Fault _ => in_server end.

Lemma sessions_invariant_witness :
  (sessions_ok logged_server /\ session_logined_ logged_server = {[ 0 + 1 ]} ∪ ∅ /\ cur_session_id_ logged_server = 0 + 1) /\
  sessions_ok (OnAccept 4%positive logged_server) /\
  session_logined_ (OnAccept 4%positive logged_server) = session_logined_ logged_server.
Proof.
  pose proof (sessions_invariant key_order 7 (Server.onMessage any_json) first_of (signal_sessions any_json)) as Hinv.
  assert (nsteps (server_step key_order 7 (Server.onMessage any_json) first_of) 1 ServerEnd_init in_server) as H1.
  { eapply nsteps_l; [by exists (Accepted 3%positive) | apply nsteps_O]. }
  assert (dispatch key_order 7 (Server.onMessage any_json) 3%positive login_msg in_server = Ok logged_server) as H2
    by (vm_compute; reflexivity).
  split.
  - destruct (Hinv 1%nat in_server (Message 3%positive login_msg) logged_server) as (Hok & Hl & Hc & _);
      [lia | exact H1 | exact H2 |]. exact (conj Hok (conj Hl Hc)).
  - destruct (Hinv 2%nat logged_server (Accepted 4%positive) (OnAccept 4%positive logged_server)) as (Hok & Hl & _);
      [lia | | exact eq_refl |]; [| exact (conj Hok Hl)].
    eapply nsteps_r; [exact H1 |]. exists (Message 3%positive login_msg). exact H2.
Defined.

Lemma dispatch_needs_login_witness :
  dispatch key_order 7 (Server.onMessage any_json) 5%positive sub_msg ServerEnd_init =
  dispatch key_order 7 (fun _ _ _ => Fault Undefined) 5%positive sub_msg ServerEnd_init.
Proof.
  apply (dispatch_needs_login key_order 7 (Server.onMessage any_json) (fun _ _ _ => Fault Undefined) 5%positive sub_msg ServerEnd_init).
  intros r _. simpl. apply not_elem_of_empty.
Defined.

Lemma login_reply_witness :
  exists st' bytes, HandleLogin key_order 5%positive demo_msg demo_server = Ok st' /\
    written st' = [] ++ [(5%positive, bytes)] /\
    session_logined_ st' = {[ 1 + 1 ]} ∪ {[ 1 ]} /\
    forall b : str, contents b = bytes -> exists c b',
      decode_msg_with_head b = Ok (Some c, b') /\ contents b' = [] /\
      msgtype (head_ c) = 1002 /\ IsLogin c st' = Ok true /\
      exists r, get_option kOptionId_SessionId c = Some r /\ option_int64 r = Ok (1 + 1).
Proof.
  apply (login_reply key_order key_order_perm 5%positive demo_msg demo_server).
  - apply demo_msg_ok.
  - rewrite demo_msg_len. lia.
  - vm_compute. reflexivity.
  - simpl. lia.
  - reflexivity.
Defined.

Lemma subscribe_reply_witness :
  exists st1 st2 bytes, Server.onMessage any_json 5%positive sub_msg demo_server = Ok st1 /\ written st1 = [] /\
    OnLoop key_order first_of st1 = Ok st2 /\ written st2 = [] ++ [(9%positive, bytes)] /\ msg_to_clients_ st2 = [] /\
    forall b : str, contents b = bytes -> exists c b',
      decode_msg_with_head b = Ok (Some c, b') /\ contents b' = [] /\
      msgtype (head_ c) = 1004 /\ data_bytes c = lit "failed." ++ [chr 0] /\ opts_ c = opts_ sub_msg.
Proof.
  apply (subscribe_reply key_order any_json first_of 5%positive 9%positive session_opt (lit "{}") sub_msg demo_server key_order_perm sub_msg_ok);
    [rewrite sub_msg_len; lia | reflexivity | reflexivity | simpl; lia | reflexivity | reflexivity | reflexivity
    | vm_compute; reflexivity].
Defined.
