(* ===== verification/Mysql.v ===== *)
(** * A database connection: [MysqlDB] of [src/src/database/src/mysqldb.cpp]

    The MySQL connector is third-party: every call into it is a value of [call]
    (an event with a typed answer), and the connector itself is the argument
    [handle], a function from a call and its own state to an answer or an
    exception.  The methods run in a monad that carries the object, the
    connector's state and the calls made so far ([trace]); [Undef] is the
    undefined behaviour of reading an object that was never assigned. *)
From S2P Require Import Prelude CStr StdString StringAssist.
Open Scope Z_scope.

(** ** What the methods return *)
Inductive SQLError : Type :=
  | SUCCESS | NOT_CONNECTED | EMPTY_SQL | SQL_ERROR | EMPTY_CONNECTION | TIMEOUT
  | STATMENT_NULL | MYSQL_SERVER_GONE_AWAY | SQL_EXCEPTION.

#[export] Instance SQLError_eq_dec : EqDecision SQLError.
Proof. solve_decision. Defined.

(** [sql::SQLException] with its code, another [std::exception], anything else. *)
Inductive exn : Type :=
  | SQLException (errcode : Z)
  | StdException
  | OtherException.

Inductive outcome (A : Type) : Type :=
  | Done (a : A)
  | Raised (e : exn)
  | Undef.
Arguments Done {A} _.
Arguments Raised {A} _.
Arguments Undef {A}.

(** ** The connector *)
Abbreviation conn := positive.
Abbreviation stmt := positive.
Abbreviation rset := positive.
Abbreviation savepoint := positive.

Inductive call : Type -> Type :=
  | get_mysql_driver_instance : call bool
  | connect (conn_str user passwd : str) : call (option conn)
  | close (c : conn) : call unit
  | delete_connection (c : conn) : call unit
  | isValid (c : conn) : call bool
  | createStatement (c : conn) : call (option stmt)
  | execute (s : stmt) (sql : str) : call unit
  | getUpdateCount (s : stmt) : call Z
  | prepareStatement (c : conn) (sql : str) : call (option stmt)
  | executeQuery (s : stmt) : call (option rset)
  | setAutoCommit (c : conn) (flag : bool) : call unit
  | setSavepoint (c : conn) (name : str) : call (option savepoint)
  | commit (c : conn) : call unit
  | rollback_to (c : conn) (p : option savepoint) : call unit
  | releaseSavepoint (c : conn) (p : option savepoint) : call unit
  | rollback (c : conn) : call unit.

(** A call that was made, with its answer. *)
Inductive event : Type :=
  | Event (T : Type) (c : call T) (answer : exn + T).

(** ** The object *)
Record MysqlDB : Type := mkDB {
  addr_ : str; user_ : str; passwd_ : str; db_ : str;
  db_sn_ : option Z;  (** [None]: never assigned *)
  open_ : bool;
  connection_ : option conn;
  point_ : option savepoint;
  is_begin_trans_ : bool;
  idx_ : Z }.

Definition MysqlDB_init : MysqlDB := mkDB [] [] [] [] None false None None false 0.

Definition set_target (a u p d : str) (sn : Z) (o : MysqlDB) : MysqlDB :=
  mkDB a u p d (Some sn) (open_ o) (connection_ o) (point_ o) (is_begin_trans_ o) (idx_ o).
Definition set_connection (op : bool) (c : option conn) (o : MysqlDB) : MysqlDB :=
  mkDB (addr_ o) (user_ o) (passwd_ o) (db_ o) (db_sn_ o) op c (point_ o) (is_begin_trans_ o) (idx_ o).
Definition set_point (p : option savepoint) (i : Z) (o : MysqlDB) : MysqlDB :=
  mkDB (addr_ o) (user_ o) (passwd_ o) (db_ o) (db_sn_ o) (open_ o) (connection_ o) p (is_begin_trans_ o) i.
Definition set_trans (b : bool) (o : MysqlDB) : MysqlDB :=
  mkDB (addr_ o) (user_ o) (passwd_ o) (db_ o) (db_sn_ o) (open_ o) (connection_ o) (point_ o) b (idx_ o).

(** ** The monad *)
Record World (D : Type) : Type := mkWorld { obj : MysqlDB; drv : D; trace : list event }.
Arguments mkWorld {D} _ _ _.
Arguments obj {D} _.
Arguments drv {D} _.
Arguments trace {D} _.

Definition M (D A : Type) : Type := World D -> outcome A * World D.

#[export] Instance M_ret D : MRet (M D) := fun A a w => (Done a, w).
#[export] Instance M_bind D : MBind (M D) := fun A B k m w =>
  match m w with
  | (Done a, w) => k a w
  | (Raised e, w) => (Raised e, w)
  | (Undef, w) => (Undef, w)
  end.

Section Methods.
Context {D : Type} (handle : forall T, call T -> D -> (exn + T) * D).
(** [std::hash<std::string>] *)
Context (hash : str -> Z).

Definition do {T} (c : call T) : M D T := fun w =>
  let '(a, d) := handle T c (drv w) in
  let w := mkWorld (obj w) d (trace w ++ [Event T c a]) in
  match a with inr x => (Done x, w) | inl e => (Raised e, w) end.

(** [try { m } catch ...] *)
Definition catch {A} (m : M D A) (h : exn -> M D A) : M D A := fun w =>
  match m w with
  | (Raised e, w) => h e w
  | r => r
  end.

Definition get_obj : M D MysqlDB := fun w => (Done (obj w), w).
Definition upd (f : MysqlDB -> MysqlDB) : M D unit := fun w => (Done tt, mkWorld (f (obj w)) (drv w) (trace w)).
Definition undefined {A} : M D A := fun w => (Undef, w).

(** [connection_.reset(...)]: the connection that was held is deleted; a
    destructor does not throw. *)
Definition reset_connection (op : bool) (c : option conn) : M D unit :=
  o ← get_obj;
  _ ← upd (set_connection op c);
  match connection_ o with
  | Some old => catch (do (delete_connection old)) (fun _ => mret tt)
  | None => mret tt
  end.

Definition Open (addr user passwd db : str) : M D bool :=
  if bool_decide (addr = []) || bool_decide (user = []) || bool_decide (passwd = []) then mret false
  else
    _ ← upd (set_target addr user passwd db (Z.lxor (hash addr) (u64 (Z.shiftl (hash db) 1))));
    driver ← do get_mysql_driver_instance;
    if negb driver then mret false
    else
      catch
        (c ← do (connect (Util.c_str ((addr ++ lit "/") ++ db)) user passwd);
         match c with
         | None => mret false
         | Some c => _ ← reset_connection true (Some c); mret true
         end)
        (fun _ => mret false).

Definition Close : M D unit :=
  o ← get_obj;
  match open_ o, connection_ o with
  | true, Some c =>
      _ ← do (close c);
      reset_connection false None
  | _, _ => upd (set_connection false (connection_ o))
  end.

Definition GetDbSn : M D Z :=
  o ← get_obj; match db_sn_ o with Some n => mret n | None => undefined end.

Definition is_open (o : MysqlDB) : bool := open_ o && bool_decide (is_Some (connection_ o)).
Definition IsOpen : M D bool := o ← get_obj; mret (is_open o).

Definition Reconnect : M D bool :=
  o ← get_obj;
  _ ← match connection_ o with
      | Some c => v ← do (isValid c); if (v : bool) then do (close c) else mret tt
      | None => mret tt
      end;
  Open (addr_ o) (user_ o) (passwd_ o) (db_ o).

Definition IsValid : M D bool :=
  o ← get_obj;
  match open_ o, connection_ o with
  | true, Some c => catch (do (isValid c)) (fun _ => mret false)
  | _, _ => mret false
  end.

(** The handlers of the three [catch] clauses: what [ret_code] becomes. *)
Definition error_code (e : exn) : SQLError :=
  match e with
  | SQLException c => if negb (c =? 2006) && negb (c =? 2013) then SQL_EXCEPTION else MYSQL_SERVER_GONE_AWAY
  | _ => SQL_EXCEPTION
  end.

Definition MysqlExec (sql : str) : M D (Z * SQLError) :=
  o ← get_obj;
  match open_ o, connection_ o with
  | true, Some c =>
      if bool_decide (sql = []) then mret (-1, EMPTY_SQL)
      else
        catch
          (s ← do (createStatement c);
           match s with
           | None => mret (-1, STATMENT_NULL)
           | Some s => _ ← do (execute s sql); n ← do (getUpdateCount s); mret (i32 n, SUCCESS)
           end)
          (fun e => mret (-1, error_code e))
  | _, _ => mret (-1, EMPTY_CONNECTION)
  end.

Definition MysqlPrepared (sql : str) : M D (option stmt * SQLError) :=
  o ← get_obj;
  match open_ o, connection_ o with
  | true, Some c =>
      if bool_decide (sql = []) then mret (None, EMPTY_SQL)
      else
        catch (s ← do (prepareStatement c (Util.c_str sql)); mret (s, SUCCESS))
              (fun e => mret (None, error_code e))
  | _, _ => mret (None, NOT_CONNECTED)
  end.

Definition MysqlQuery (sql : str) : M D (option rset * SQLError) :=
  o ← get_obj;
  match open_ o, connection_ o with
  | true, Some _ =>
      if bool_decide (sql = []) then mret (None, EMPTY_SQL)
      else
        '(s, code) ← MysqlPrepared sql;
        match s with
        | None => mret (None, if decide (code = SUCCESS) then STATMENT_NULL else code)
        | Some s =>
            catch (r ← do (executeQuery s); mret (r, SUCCESS))
                  (fun e => mret (None, error_code e))
        end
  | _, _ => mret (None, NOT_CONNECTED)
  end.

(** The loop of [Exec], [Prepared] and [Query]: up to [count] reconnections,
    then the statement once more unless a transaction was open. *)
Fixpoint retry {A} (count : nat) (again : M D A) (failed : A) : M D A :=
  match count with
  | O => mret failed
  | S count =>
      ok ← Reconnect;
      if (ok : bool) then
        o ← get_obj;
        if is_begin_trans_ o then mret failed else again
      else retry count again failed
  end.

Definition with_retry {A} (none : A) (m : M D (A * SQLError)) : M D (A * SQLError) :=
  '(ret, code) ← m;
  if decide (code = MYSQL_SERVER_GONE_AWAY) then retry 3 m (none, code) else mret (ret, code).

Definition Exec (sql : str) : M D (Z * SQLError) := with_retry (-1) (MysqlExec sql).
Definition Prepared (sql : str) : M D (option stmt * SQLError) := with_retry None (MysqlPrepared sql).
Definition Query (sql : str) : M D (option rset * SQLError) := with_retry None (MysqlQuery sql).

(** The transaction calls: [ret_code] is only assigned on the error paths;
    [None] is a [ret_code] that was never assigned. *)
Definition MysqlAutoCommit (bflag : bool) : M D (Z * option SQLError) :=
  o ← get_obj;
  match open_ o, connection_ o with
  | true, Some c => catch (_ ← do (setAutoCommit c bflag); mret (0, None)) (fun e => mret (-1, Some (error_code e)))
  | _, _ => mret (-1, Some EMPTY_CONNECTION)
  end.

Definition MysqlCommit : M D (Z * option SQLError) :=
  o ← get_obj;
  match open_ o, connection_ o with
  | true, Some c => catch (_ ← do (commit c); mret (0, None)) (fun e => mret (-1, Some (error_code e)))
  | _, _ => mret (-1, Some EMPTY_CONNECTION)
  end.

Definition MysqlRollback (flag : bool) : M D (Z * option SQLError) :=
  o ← get_obj;
  match open_ o, connection_ o with
  | true, Some c =>
      catch
        (_ ← (if flag then _ ← do (rollback_to c (point_ o)); do (releaseSavepoint c (point_ o))
              else do (rollback c));
         mret (0, None))
        (fun e => mret (-1, Some (error_code e)))
  | _, _ => mret (-2, Some EMPTY_CONNECTION)
  end.

Definition MysqlSetSavePoint : M D Z :=
  o ← get_obj;
  match open_ o, connection_ o with
  | true, Some c =>
      if idx_ o =? 2 ^ 31 - 1 then undefined
      else
        _ ← upd (set_point (point_ o) (idx_ o + 1));
        catch (p ← do (setSavepoint c (lit "POINT_" ++ show_int (idx_ o)));
               _ ← upd (fun o => set_point p (idx_ o) o); mret 0)
              (fun e => mret (match e with SQLException code => code | _ => -1 end))
  | _, _ => mret (-1)
  end.

(** Reading [ret_code]. *)
Definition read_code (code : option SQLError) : M D SQLError :=
  match code with Some c => mret c | None => undefined end.

(** The loop of [AutoCommit], [Commit] and [Rollback]. *)
Fixpoint reconnect_loop (count : nat) : M D Z :=
  match count with
  | O => mret (-1)
  | S count => ok ← Reconnect; if (ok : bool) then mret (-1) else reconnect_loop count
  end.

Definition AutoCommit (bflag : bool) : M D Z :=
  _ ← upd (set_trans (negb bflag));
  '(ret, ret_code) ← MysqlAutoCommit bflag;
  code ← read_code ret_code;
  if decide (code = MYSQL_SERVER_GONE_AWAY) then
    _ ← upd (set_trans false);
    reconnect_loop 3
  else
    _ ← (if negb (ret =? 0) then upd (set_trans false) else mret tt);
    mret ret.

Definition BeginTrans : M D Z :=
  _ ← upd (fun o => set_point (point_ o) 0 o); mret 0.

Definition SetSavePoint : M D Z := MysqlSetSavePoint.

Definition Commit : M D Z :=
  '(ret, ret_code) ← MysqlCommit;
  code ← read_code ret_code;
  if decide (code = MYSQL_SERVER_GONE_AWAY) then reconnect_loop 3 else mret ret.

Definition Rollback (flag : bool) : M D Z :=
  '(ret, ret_code) ← MysqlRollback flag;
  code ← read_code ret_code;
  if decide (code = MYSQL_SERVER_GONE_AWAY) then reconnect_loop 3 else mret ret.
End Methods.
