(* ===== verification/MysqlProps.v ===== *)
(** * Database connections: retries, results and return codes *)
From S2P Require Import Prelude CStr StdString StringAssist Mysql.
Open Scope Z_scope.

(** ** Counting calls *)
Definition is_connect (e : event) : bool :=
  match e with Event _ (connect _ _ _) _ => true | _ => false end.
(** A statement sent to the server. *)
Definition is_statement (e : event) : bool :=
  match e with Event _ (execute _ _) _ => true | Event _ (executeQuery _) _ => true | _ => false end.
(** A call that Reconnect makes outside of a [try]. *)
Definition is_probe (e : event) : bool :=
  match e with
  | Event _ (isValid _) _ | Event _ (close _) _ | Event _ get_mysql_driver_instance _ => true
  | _ => false
  end.
Definition raised (e : event) (x : exn) : Prop :=
  match e with Event _ _ (inl y) => x = y | _ => False end.
(** The last call is one of them and threw [x]. *)
Definition probe_failed (l : list event) (x : exn) : Prop :=
  exists e, last l = Some e /\ is_probe e = true /\ raised e x.
Definition connected (e : event) : bool :=
  match e with Event _ (connect _ _ _) (inr (Some _)) => true | _ => false end.

Fixpoint count (f : event -> bool) (l : list event) : nat :=
  match l with [] => 0 | e :: l => (if f e then 1 else 0) + count f l end.

Lemma count_app f l k : count f (l ++ k) = (count f l + count f k)%nat.
Proof. induction l as [|e l IH]; simpl; [done | by rewrite IH, Nat.add_assoc]. Qed.

(** Run a method call by call: [handle] answers. *)
Ltac calls_of handle :=
  repeat (match goal with
  | |- context [handle ?T ?c ?d] =>
      lazymatch c with context [handle] => fail | _ => destruct (handle T c d) as [[?|?] ?]; cbn end
  | |- context [match ?x with _ => _ end] =>
      lazymatch x with context [handle] => fail | _ => destruct x eqn:?; cbn end
  end).

(** ** One attempt *)

(** A kind of statement: what it returns when it fails, the code when there is no
    connection, and what [sql] does on a connection, call by call: the calls with
    their answers, and the result. *)
Record kind (A : Type) : Type := Kind {
  none : A; closed : SQLError; runs : str -> conn -> list event -> A * SQLError -> Prop }.
Arguments none {A} _.
Arguments closed {A} _.
Arguments runs {A} _ _ _ _ _.

Inductive exec_runs (sql : str) (c : conn) : list event -> Z * SQLError -> Prop :=
  | exec_create_raised e : exec_runs sql c [Event _ (createStatement c) (inl e)] (-1, error_code e)
  | exec_no_statement : exec_runs sql c [Event _ (createStatement c) (inr None)] (-1, STATMENT_NULL)
  | exec_raised s e : exec_runs sql c [Event _ (createStatement c) (inr (Some s)); Event _ (execute s sql) (inl e)] (-1, error_code e)
  | exec_count_raised s e : exec_runs sql c
      [Event _ (createStatement c) (inr (Some s)); Event _ (execute s sql) (inr tt); Event _ (getUpdateCount s) (inl e)] (-1, error_code e)
  | exec_done s n : exec_runs sql c
      [Event _ (createStatement c) (inr (Some s)); Event _ (execute s sql) (inr tt); Event _ (getUpdateCount s) (inr n)] (i32 n, SUCCESS).

Inductive prepared_runs (sql : str) (c : conn) : list event -> option stmt * SQLError -> Prop :=
  | prepared_raised e : prepared_runs sql c [Event _ (prepareStatement c (Util.c_str sql)) (inl e)] (None, error_code e)
  | prepared_done s : prepared_runs sql c [Event _ (prepareStatement c (Util.c_str sql)) (inr s)] (s, SUCCESS).

Inductive query_runs (sql : str) (c : conn) : list event -> option rset * SQLError -> Prop :=
  | query_prepare_raised e : query_runs sql c [Event _ (prepareStatement c (Util.c_str sql)) (inl e)] (None, error_code e)
  | query_no_statement : query_runs sql c [Event _ (prepareStatement c (Util.c_str sql)) (inr None)] (None, STATMENT_NULL)
  | query_raised s e : query_runs sql c
      [Event _ (prepareStatement c (Util.c_str sql)) (inr (Some s)); Event _ (executeQuery s) (inl e)] (None, error_code e)
  | query_done s r : query_runs sql c
      [Event _ (prepareStatement c (Util.c_str sql)) (inr (Some s)); Event _ (executeQuery s) (inr r)] (r, SUCCESS).

Definition exec_kind : kind Z := Kind Z (-1) EMPTY_CONNECTION exec_runs.
Definition prepared_kind : kind (option stmt) := Kind _ None NOT_CONNECTED prepared_runs.
Definition query_kind : kind (option rset) := Kind _ None NOT_CONNECTED query_runs.

(** [sql] runs on the connection of the object; without one, or without a text, no
    call is made.  The object is untouched. *)
Definition attempt {A} (k : kind A) (sql : str) (o : MysqlDB) (r : A * SQLError) (l : list event) : Prop :=
  match open_ o, connection_ o with
  | true, Some c => if decide (sql = []) then l = [] /\ r = (none k, EMPTY_SQL) else runs k sql c l r
  | _, _ => l = [] /\ r = (none k, closed k)
  end.
Definition attempts {A} (k : kind A) (sql : str) (o : MysqlDB) (r : outcome (A * SQLError)) (o' : MysqlDB) (l : list event) : Prop :=
  o' = o /\ exists x, r = Done x /\ attempt k sql o x l.

Section Props.
Context {D : Type} (handle : forall T, call T -> D -> (exn + T) * D) (hash : str -> Z).

(** ** What a method does: the object and the calls it makes *)
Definition emits {A} (m : M D A) (Q : MysqlDB -> outcome A -> MysqlDB -> list event -> Prop) : Prop :=
  forall w, exists l, trace (m w).2 = trace w ++ l /\ Q (obj w) (m w).1 (obj (m w).2) l.

Lemma emits_conseq {A} (m : M D A) (Q R : MysqlDB -> outcome A -> MysqlDB -> list event -> Prop) :
  emits m Q -> (forall o r o' l, Q o r o' l -> R o r o' l) -> emits m R.
Proof. intros Hm HQ w. destruct (Hm w) as (l & E & H). exists l. auto. Qed.

(** The result of a step that stops a sequence. *)
Definition stop {A B} (r : outcome A) : outcome B :=
  match r with Done _ => Undef | Raised e => Raised e | Undef => Undef end.

Lemma emits_bind {A B} (m : M D A) (k : A -> M D B)
    (P : MysqlDB -> outcome A -> MysqlDB -> list event -> Prop)
    (Q : MysqlDB -> outcome B -> MysqlDB -> list event -> Prop) :
  emits m P ->
  (forall a, emits (k a) (fun o r o' l => forall o0 l0, P o0 (Done a) o l0 -> Q o0 r o' (l0 ++ l))) ->
  (forall o r o' l, P o r o' l -> (forall a, r <> Done a) -> Q o (stop r) o' l) ->
  emits (m ≫= k) Q.
Proof.
  intros Hm Hk Hs w. destruct (Hm w) as (l & E & HP). unfold mbind, M_bind.
  destruct (m w) as [[a|e|] w1] eqn:Em; simpl in E, HP.
  - destruct (Hk a w1) as (l1 & E1 & HQ). exists (l ++ l1). rewrite E1, E, app_assoc. split; [done |]. by apply HQ.
  - exists l. split; [done |]. apply (Hs _ _ _ _ HP). done.
  - exists l. split; [done |]. apply (Hs _ _ _ _ HP). done.
Qed.

Ltac calls := calls_of handle.
Ltac emit :=
  first [ exists []; split; [by symmetry; apply app_nil_r |]
        | eexists; split; [by rewrite <- ?app_assoc; cbn [app] |] ].

Ltac run := intros [o d t]; unfold mbind, M_bind, get_obj, catch, do, mret, M_ret, upd; cbn; calls; emit; cbn.

Lemma error_code_failed e : error_code e <> SUCCESS.
Proof. destruct e; simpl; [by case_match | done | done]. Qed.

Ltac finish :=
  repeat match goal with
  | H : bool_decide _ = true |- _ => apply bool_decide_eq_true in H
  | H : bool_decide _ = false |- _ => apply bool_decide_eq_false in H
  | u : unit |- _ => destruct u
  | H : Some _ = Some _ |- _ => injection H as ->
  end;
  first [contradiction | match goal with H : error_code _ = SUCCESS |- _ => destruct (error_code_failed _ H) end | split; [done |]; eexists; split; [done |]; first [done | by constructor]].

Lemma MysqlExec_attempts sql : emits (MysqlExec handle sql) (attempts exec_kind sql).
Proof. unfold MysqlExec, attempts, attempt. run; finish. Qed.

Lemma MysqlPrepared_attempts sql : emits (MysqlPrepared handle sql) (attempts prepared_kind sql).
Proof. unfold MysqlPrepared, attempts, attempt. run; finish. Qed.

Lemma MysqlQuery_attempts sql : emits (MysqlQuery handle sql) (attempts query_kind sql).
Proof. unfold MysqlQuery, MysqlPrepared, attempts, attempt. run; finish. Qed.

(** ** Reconnecting *)

(** A connection to the object's own database. *)
Definition made (o : MysqlDB) (c : conn) (l : list event) : Prop :=
  Event _ (connect (Util.c_str ((addr_ o ++ lit "/") ++ db_ o)) (user_ o) (passwd_ o)) (inr (Some c)) ∈ l.

(** What names the database, and whether a transaction is open. *)
Definition same_target (o o' : MysqlDB) : Prop :=
  addr_ o' = addr_ o /\ user_ o' = user_ o /\ passwd_ o' = passwd_ o /\ db_ o' = db_ o /\ is_begin_trans_ o' = is_begin_trans_ o.

(** After a reconnection the object holds the connection that was made.  A failed
    one leaves the (closed) old connection in place, and the object still says it
    is open. *)
Lemma Reconnect_spec : emits (Reconnect handle hash) (fun o r o' l =>
  (count is_connect l <= 1)%nat /\ count is_statement l = 0%nat /\ same_target o o' /\
  match r with
  | Done true => open_ o' = true /\ exists c, made o c l /\ connection_ o' = Some c
  | Done false => open_ o' = open_ o /\ connection_ o' = connection_ o /\ existsb connected l = false
  | Raised e => probe_failed l e
  | Undef => False
  end).
Proof.
  unfold Reconnect, Open, reset_connection, probe_failed, same_target, made. run.
  all: split_and!; try done; try lia; try (eexists; split_and!; done).
  all: eexists; split; [| reflexivity]; rewrite <- app_assoc; cbn [app]; repeat (first [apply list_elem_of_here | apply list_elem_of_further]).
Qed.

(** ** Several attempts *)
Lemma emits_bind' {A B} (m : M D A) (k : A -> M D B) P Q :
  emits m P -> (forall o r o' l, P o r o' l -> match r with Done a => emits (k a) (fun o1 r1 o1' l1 => o1 = o' -> Q o r1 o1' (l ++ l1)) | _ => Q o (stop r) o' l end) ->
  emits (m ≫= k) Q.
Proof.
  intros Hm Hk w. destruct (Hm w) as (l & E & HP). apply Hk in HP. unfold mbind, M_bind.
  destruct (m w) as [[a|e|] w1] eqn:Em; simpl in E, HP.
  - destruct (HP w1) as (l1 & E1 & HQ). exists (l ++ l1). rewrite E1, E, app_assoc. split; [done |]. by apply HQ.
  - by exists l.
  - by exists l.
Qed.

Lemma made_target o o1 c l : same_target o o1 -> made o1 c l -> made o c l.
Proof. unfold same_target, made. by intros (-> & -> & -> & -> & _). Qed.

Lemma same_target_trans o o1 o2 : same_target o o1 -> same_target o1 o2 -> same_target o o2.
Proof. unfold same_target. intros (-> & -> & -> & -> & ->). done. Qed.

(** What the loop of [Exec], [Prepared] and [Query] does: an exception of a
    reconnection; nothing, when there is no new connection or a transaction was
    open; or [sql] once, on the connection that was made last. *)
Definition retried {A} (k : kind A) (n : nat) (sql : str) (failed : A * SQLError) (o : MysqlDB) (r : outcome (A * SQLError))
    (o' : MysqlDB) (l : list event) : Prop :=
  exists lr lm, l = lr ++ lm /\ (count is_connect lr <= n)%nat /\ count is_statement lr = 0%nat /\ same_target o o' /\
    match r with
    | Raised e => lm = [] /\ probe_failed lr e
    | Undef => False
    | Done x =>
        (lm = [] /\ x = failed /\ (is_begin_trans_ o = false -> existsb connected lr = false)) \/
        (is_begin_trans_ o = false /\ exists c, made o c lr /\ open_ o' = true /\ connection_ o' = Some c /\ attempt k sql o' x lm)
    end.

Lemma retry_spec {A} (k : kind A) sql (m : M D (A * SQLError)) n failed :
  emits m (attempts k sql) -> emits (retry handle hash n m failed) (retried k n sql failed).
Proof.
  intros Hm. induction n as [|n IH]; cbn [retry].
  - intros w. exists []. rewrite app_nil_r. split; [done |]. exists [], []. split_and!; try done. by left.
  - eapply emits_bind'; [apply Reconnect_spec |]. intros o r o1 l1 (Hc & Hs & Ht & Hr).
    destruct r as [[|]|e|]; [| | | done].
    + destruct Hr as (Hop & c & Hmade & Hconn). intros w. unfold mbind, M_bind, get_obj, mret, M_ret. cbn.
      destruct (is_begin_trans_ (obj w)) eqn:Eb; cbn.
      * exists []. rewrite app_nil_r. split; [done |]. intros Ew. rewrite app_nil_r. exists l1, []. rewrite app_nil_r, Ew in *.
        split_and!; [done | lia | done | done |]. left. split_and!; [done | done |]. intros Hf.
        destruct Ht as (_ & _ & _ & _ & Ht). congruence.
      * destruct (Hm w) as (lm & E & Eo & x & -> & HQ). exists lm. split; [done |]. intros Ew. exists l1, lm. rewrite Eo, Ew in *.
        split_and!; [done | lia | done | done |]. right. split; [destruct Ht as (_ & _ & _ & _ & Ht); congruence |]. by exists c.
    + destruct Hr as (Ho & Hcn & Hnone). eapply emits_conseq; [apply IH |]. intros o2 r o' l (lr & lm & -> & Hc2 & Hs2 & Ht2 & Hq) ->.
      exists (l1 ++ lr), lm. rewrite !count_app, app_assoc. split_and!; [done | lia | lia | by eapply same_target_trans |].
      destruct Ht as (E1 & E2 & E3 & E4 & Et). destruct r as [x|e|]; [| | done].
      * destruct Hq as [(-> & -> & Hf)|(Hb & c & Hmade & Hrest)]; [left | right].
        -- split_and!; [done | done |]. intros Hb. rewrite existsb_app, Hnone. apply Hf. congruence.
        -- split; [congruence |]. exists c. split; [| done]. apply elem_of_app. right. unfold made in Hmade. by rewrite E1, E2, E3, E4 in Hmade.
      * destruct Hq as [-> (ev & He & Hp)]. split; [done |]. exists ev. by rewrite last_app, He.
    + exists l1, []. rewrite app_nil_r. split_and!; try done. lia.
Qed.

(** What [Exec], [Prepared] and [Query] do with [sql]. *)
Definition statement_spec {A} (k : kind A) (sql : str) (o : MysqlDB) (r : outcome (A * SQLError)) (o' : MysqlDB) (l : list event) : Prop :=
  exists l1 x, attempt k sql o x l1 /\
    if decide (x.2 = MYSQL_SERVER_GONE_AWAY)
    then exists l2, l = l1 ++ l2 /\ retried k 3 sql (none k, MYSQL_SERVER_GONE_AWAY) o r o' l2
    else l = l1 /\ r = Done x /\ o' = o.

Lemma statement_spec_defined {A} (k : kind A) sql o o' l : ~ statement_spec k sql o Undef o' l.
Proof. intros (l1 & x & _ & H). destruct (decide _); [by destruct H as (? & _ & ? & ? & _ & _ & _ & _ & []) | by destruct H as (_ & ? & _)]. Qed.

Lemma with_retry_spec {A} (k : kind A) sql (m : M D (A * SQLError)) :
  emits m (attempts k sql) -> emits (with_retry handle hash (none k) m) (statement_spec k sql).
Proof.
  intros Hm. unfold with_retry. eapply emits_bind'; [exact Hm |].
  intros o r o' l (-> & [a code] & -> & Ha). unfold statement_spec. destruct (decide (code = MYSQL_SERVER_GONE_AWAY)) as [->|Hg].
  - eapply emits_conseq; [by apply (retry_spec k sql) |]. intros o1 r o2 l1 Hr ->. exists l, (a, MYSQL_SERVER_GONE_AWAY). split; [done |].
    rewrite decide_True by done. by exists l1.
  - intros w. exists []. rewrite app_nil_r. split; [done |]. intros Ew. rewrite app_nil_r. exists l, (a, code). split; [done |].
    by rewrite decide_False.
Qed.

(** C20: [Exec], [Prepared] and [Query], call by call.  The text is sent over the
    object's connection; without one, or without a text, no call is made.  Only when
    the server has gone away they reconnect, at most three times, and then send the
    same text once more, over the connection that was just made to the same
    database, which the object now holds; never when a transaction was open.  The
    result and the code are those of the last of these attempts: a success is what
    the server answered, and a failure is -1 or null with the code of what
    failed.  An exception only escapes from the calls [Reconnect] makes
    unprotected, and no unassigned code is read. *)
Theorem statements_retried sql :
  emits (Exec handle hash sql) (statement_spec exec_kind sql) /\
  emits (Prepared handle hash sql) (statement_spec prepared_kind sql) /\
  emits (Query handle hash sql) (statement_spec query_kind sql).
Proof.
  split_and!; [apply (with_retry_spec exec_kind), MysqlExec_attempts | apply (with_retry_spec prepared_kind), MysqlPrepared_attempts |
    apply (with_retry_spec query_kind), MysqlQuery_attempts].
Qed.

(** ** Transactions *)
Lemma reconnect_loop_spec n : emits (reconnect_loop handle hash n) (fun o r o' l =>
  match r with Done x => x = -1 | Raised e => probe_failed l e | Undef => False end).
Proof.
  induction n as [|n IH]; cbn [reconnect_loop].
  - intros w. exists []. by rewrite app_nil_r.
  - eapply emits_bind'; [apply Reconnect_spec |]. intros o r o1 l1 (_ & _ & _ & Hr).
    destruct r as [[|]|e|]; [| | exact Hr | done].
    + intros w. exists []. by rewrite app_nil_r.
    + eapply emits_conseq; [apply IH |]. intros o2 r o3 l H _. destruct r as [x|e|]; [done | | done].
      destruct H as (ev & He & Hp). exists ev. by rewrite last_app, He.
Qed.

(** The only call was one the server accepted. *)
Definition accepted (l : list event) : Prop :=
  l <> [] /\ Forall (fun e => match e with Event _ _ (inr _) => True | _ => False end) l.

(** The result of a transaction call: no success is ever returned, and reading
    the code is undefined exactly when the server did accept the call. *)
Definition trans_spec (o : MysqlDB) (r : outcome Z) (o' : MysqlDB) (l : list event) : Prop :=
  match r with Done x => x < 0 | Raised e => probe_failed l e | Undef => accepted l end.

Definition trans_attempt (o : MysqlDB) (r : outcome (Z * option SQLError)) (o' : MysqlDB) (l : list event) : Prop :=
  exists x code, r = Done (x, code) /\
    match code with Some _ => x < 0 | None => accepted l end.

Lemma trans_attempts flag :
  emits (MysqlAutoCommit handle flag) trans_attempt /\ emits (MysqlCommit handle) trans_attempt /\
  emits (MysqlRollback handle flag) trans_attempt.
Proof.
  unfold MysqlAutoCommit, MysqlCommit, MysqlRollback, trans_attempt, accepted.
  split_and!; run; eexists _, _; (split; [done |]); cbn; try lia; split; try done; repeat constructor.
Qed.

Lemma trans_code (m : M D (Z * option SQLError)) (gone : M D Z) (keep : Z -> M D Z) :
  emits m trans_attempt ->
  emits gone (fun o r o' l => match r with Done x => x = -1 | Raised e => probe_failed l e | Undef => False end) ->
  (forall x, emits (keep x) (fun o r o' l => l = [] /\ r = Done x)) ->
  emits ('(ret, ret_code) ← m; code ← read_code ret_code;
         if decide (code = MYSQL_SERVER_GONE_AWAY) then gone else keep ret) trans_spec.
Proof.
  intros Hm Hg Hk. eapply emits_bind'; [exact Hm |]. intros o r o' l (x & code & -> & Hx). cbn [stop].
  destruct code as [c|]; cbn [read_code].
  - change (emits (if decide (c = MYSQL_SERVER_GONE_AWAY) then gone else keep x)
      (fun o1 r1 o1' l1 => o1 = o' -> trans_spec o r1 o1' (l ++ l1))).
    destruct (decide (c = MYSQL_SERVER_GONE_AWAY)).
    + eapply emits_conseq; [exact Hg |]. intros o1 r o2 l1 Hr _. destruct r as [y|ex|]; [simpl; lia | | done].
      destruct Hr as (ev & He & Hp). exists ev. by rewrite last_app, He.
    + eapply emits_conseq; [apply Hk |]. by intros o1 r o2 l1 [-> ->] _.
  - intros w. exists []. rewrite app_nil_r. split; [done |]. intros _. by rewrite app_nil_r.
Qed.

(** [AutoCommit], [Commit] and [Rollback] never return success: when the
    server accepts the call they read a code nobody assigned, and every value
    they return is negative. *)
Theorem transactions_never_succeed flag :
  emits (AutoCommit handle hash flag) trans_spec /\ emits (Commit handle hash) trans_spec /\
  emits (Rollback handle hash flag) trans_spec.
Proof.
  destruct (trans_attempts flag) as (Ha & Hc & Hr).
  assert (forall x, emits (mret x : M D Z) (fun o r o' l => l = [] /\ r = Done x)) as Hret.
  { intros x w. exists []. by rewrite app_nil_r. }
  assert (forall f (m : M D Z) Q, emits m (fun o r o' l => Q r l) -> emits (_ ← upd f; m) (fun o r o' l => Q r l)) as Hupd.
  { intros f m Q H w. destruct (H (mkWorld (f (obj w)) (drv w) (trace w))) as (l & E & HQ). by exists l. }
  split_and!.
  - unfold AutoCommit. apply (Hupd _ _ (fun r l => match r with Done x => x < 0 | Raised e => probe_failed l e | Undef => accepted l end)).
    apply trans_code; [exact Ha | |].
    + apply (Hupd _ _ (fun r l => match r with Done x => x = -1 | Raised e => probe_failed l e | Undef => False end)).
      apply reconnect_loop_spec.
    + intros x. intros w. exists []. rewrite app_nil_r. by destruct (x =? 0).
  - apply trans_code; [exact Hc | apply reconnect_loop_spec | apply Hret].
  - apply trans_code; [exact Hr | apply reconnect_loop_spec | apply Hret].
Qed.
End Props.
