(* ===== verification/DBMan.v ===== *)
(** * Connection pools: [src/src/database/src/dbman.cpp] and [dbproxy.cpp]

    [BaseDB], the abstract class the pools hold pointers to, is the type class
    [BaseDB W] over the state [W] all connections live in; [MysqlStore] is the
    implementation by [MysqlDB] objects.  [mutex_] makes [GetDB], [PushDB],
    [SwapDBPool] and [Release] atomic, so each is one function on the state. *)
From S2P Require Import Prelude CStr StdString StringAssist Mysql.
Open Scope Z_scope.

(** A [BaseDBPtr] that is not null. *)
Abbreviation dbptr := positive.

(** ** The interface *)
Class BaseDB (W : Type) : Type := {
  make_db : W -> dbptr * W;
  db_Open : dbptr -> str -> str -> str -> str -> W -> outcome bool * W;
  db_GetDbSn : dbptr -> W -> outcome Z * W;
  db_IsValid : dbptr -> W -> outcome bool * W;
  db_Reconnect : dbptr -> W -> outcome bool * W;
  db_Exec : dbptr -> str -> W -> outcome (Z * SQLError) * W;
  db_Prepared : dbptr -> str -> W -> outcome (option stmt * SQLError) * W;
  db_Query : dbptr -> str -> W -> outcome (option rset * SQLError) * W;
  (** the identifier of the database is read, not changed *)
  GetDbSn_pure : forall p w, (db_GetDbSn p w).2 = w }.

(** ** [MysqlDB] objects behind their pointers *)
Record Store (D : Type) : Type := mkStore {
  objects : gmap dbptr MysqlDB; sdrv : D; strace : list event }.
Arguments mkStore {D} _ _ _.
Arguments objects {D} _.
Arguments sdrv {D} _.
Arguments strace {D} _.

(** A method of the object at [p]. *)
Definition on {D A} (m : M D A) (p : dbptr) (s : Store D) : outcome A * Store D :=
  match objects s !! p with
  | None => (Undef, s)
  | Some o =>
      let '(r, w) := m (mkWorld o (sdrv s) (strace s)) in
      (r, mkStore (<[p := obj w]> (objects s)) (drv w) (trace w))
  end.

(** The address of a new object: behind all others. *)
Definition next_ptr (os : gmap dbptr MysqlDB) : dbptr := Pos.succ (map_fold (fun p _ n => Pos.max p n) 1%positive os).

Lemma next_ptr_new os : os !! next_ptr os = None.
Proof.
  assert (forall p, is_Some (os !! p) -> (p <= map_fold (fun p _ n => Pos.max p n) 1 os)%positive) as H.
  { apply (map_fold_weak_ind (fun n os => forall p, is_Some (os !! p) -> (p <= n)%positive)).
    - intros p [? Hp]. by rewrite lookup_empty in Hp.
    - intros q x m n _ IH p Hp. apply lookup_insert_is_Some in Hp as [->|[_ Hp]]; [lia |]. specialize (IH p Hp). lia. }
  destruct (os !! next_ptr os) as [o|] eqn:E; [| done]. specialize (H (next_ptr os) ltac:(by eexists)). unfold next_ptr in H. lia.
Qed.

Section Implementation.
Context {D : Type} (handle : forall T, call T -> D -> (exn + T) * D) (hash : str -> Z).

#[program] Definition MysqlStore : BaseDB (Store D) := {|
  make_db s := let p := next_ptr (objects s) in (p, mkStore (<[p := MysqlDB_init]> (objects s)) (sdrv s) (strace s));
  db_Open p a u pw d := on (Open handle hash a u pw d) p;
  db_GetDbSn := on GetDbSn;
  db_IsValid := on (IsValid handle);
  db_Reconnect := on (Reconnect handle hash);
  db_Exec p sql := on (Exec handle hash sql) p;
  db_Prepared p sql := on (Prepared handle hash sql) p;
  db_Query p sql := on (Query handle hash sql) p |}.
Next Obligation.
  intros p [os d t]. unfold on, GetDbSn, mbind, M_bind, get_obj, mret, M_ret, undefined. simpl.
  destruct (os !! p) as [o|] eqn:E; [| done]. by destruct (db_sn_ o); simpl; rewrite insert_id.
Qed.
End Implementation.

(** ** [DBMan] *)
Record DBConnConfig : Type := mkConfig {
  driverName : str; addr : str; user : str; passwd : str; db : str; pool_size : Z }.

Record DBMan : Type := mkMan {
  dbPool_ : list dbptr;
  backup_pool_ : list (list dbptr);
  check_running_ : bool;
  active_running_ : bool }.

Definition DBMan_init : DBMan := mkMan [] [] false false.
Definition MAX_POOL_SIZE : Z := 100.

Definition set_pool (p : list dbptr) (m : DBMan) : DBMan :=
  mkMan p (backup_pool_ m) (check_running_ m) (active_running_ m).

Definition Release (m : DBMan) : DBMan := mkMan [] [] false false.

(** The last connection is kept for the checking thread. *)
Definition GetDB (m : DBMan) : option dbptr * DBMan :=
  match dbPool_ m with
  | [] => (None, m)
  | d :: q => if 2 <=? Z.of_nat (length (dbPool_ m)) then (Some d, set_pool q m) else (None, m)
  end.

(** [insert(begin() + size - 1, 1, x)] *)
Definition insert_before_last {A} (x : A) (l : list A) : list A :=
  take (length l - 1) l ++ x :: drop (length l - 1) l.

Definition SwapDBPool (m : DBMan) : DBMan :=
  match backup_pool_ m ++ [dbPool_ m] with
  | p :: rest =>
      match backup_pool_ m with
      | [] => m
      | _ => mkMan p rest (check_running_ m) (active_running_ m)
      end
  | [] => m
  end.

(** ** Code that runs on the manager and the connections *)
Record Sys (W : Type) : Type := mkSys { man : DBMan; world : W }.
Arguments mkSys {W} _ _.
Arguments man {W} _.
Arguments world {W} _.

Definition SysM (W A : Type) : Type := Sys W -> outcome A * Sys W.
#[export] Instance SysM_ret W : MRet (SysM W) := fun A a s => (Done a, s).
#[export] Instance SysM_bind W : MBind (SysM W) := fun A B k m s =>
  match m s with
  | (Done a, s) => k a s
  | (Raised e, s) => (Raised e, s)
  | (Undef, s) => (Undef, s)
  end.

Section Pools.
Context {W : Type} `{BaseDB W}.

Definition lift {A} (f : W -> outcome A * W) : SysM W A :=
  fun s => let '(r, w) := f (world s) in (r, mkSys (man s) w).
Definition get_man : SysM W DBMan := fun s => (Done (man s), s).
Definition upd_man (f : DBMan -> DBMan) : SysM W unit := fun s => (Done tt, mkSys (f (man s)) (world s)).
Definition undef {A} : SysM W A := fun s => (Undef, s).
Definition make : SysM W dbptr := fun s => let '(p, w) := make_db (world s) in (Done p, mkSys (man s) w).

(** [front()] of an empty deque is undefined. *)
Definition front_sn (p : list dbptr) : SysM W Z :=
  match p with [] => undef | d :: _ => lift (db_GetDbSn d) end.

(** The loop over [backup_pool_]: [iter] is a copy of each pool, so the
    insertion is into a copy that is dropped. *)
Fixpoint push_backup (sn : Z) (pools : list (list dbptr)) : SysM W unit :=
  match pools with
  | [] => mret tt
  | iter :: rest =>
      n ← front_sn iter;
      if n =? sn then mret tt else push_backup sn rest
  end.

Definition PushDB (p : option dbptr) : SysM W unit :=
  match p with
  | None => mret tt
  | Some p =>
      sn ← lift (db_GetDbSn p);
      m ← get_man;
      n ← front_sn (dbPool_ m);
      if n =? sn then upd_man (fun m => set_pool (insert_before_last p (dbPool_ m)) m)
      else push_backup sn (backup_pool_ m)
  end.

(** The loop that opens [n] connections. *)
Fixpoint open_loop (n : nat) (addr user passwd db : str) (pool : list dbptr) (count : Z) : SysM W (list dbptr * Z) :=
  match n with
  | O => mret (pool, count)
  | S n =>
      p ← make;
      succ ← lift (db_Open p addr user passwd db);
      if (succ : bool) then open_loop n addr user passwd db (pool ++ [p]) (count + 1)
      else open_loop n addr user passwd db pool count
  end.

Definition Init_pool (driverName addr user passwd db : str) (pool : list dbptr) (poolSize : Z)
    : SysM W (list dbptr * Z) :=
  if bool_decide (driverName = []) || bool_decide (addr = []) || bool_decide (user = []) || bool_decide (passwd = [])
  then mret (pool, 0)
  else
    let poolSize := if (poolSize <=? 0) || (MAX_POOL_SIZE <? poolSize) then MAX_POOL_SIZE else poolSize in
    if bool_decide (driverName = lit "mysql") then open_loop (Z.to_nat poolSize) addr user passwd db pool 0
    else mret (pool, 0).

(** [Init] with one database: the connections go to [dbPool_]. *)
Definition Init_one (driverName addr user passwd db : str) (poolSize : Z) : SysM W bool :=
  m ← get_man;
  '(pool, cnt) ← Init_pool driverName addr user passwd db (dbPool_ m) poolSize;
  _ ← upd_man (set_pool pool);
  mret (negb (cnt =? 0)).

(** [pool_size + 1] is a sum of two [int]s. *)
Fixpoint init_loop (config : list DBConnConfig) (index : Z) : SysM W unit :=
  match config with
  | [] => mret tt
  | c :: config =>
      size ← (if pool_size c =? 2 ^ 31 - 1 then undef else mret (pool_size c + 1));
      '(pool, cnt) ← Init_pool (driverName c) (addr c) (user c) (passwd c) (db c) [] size;
      if 0 <? cnt then
        _ ← upd_man (fun m =>
              if index =? 0 then set_pool pool m
              else mkMan (dbPool_ m) (backup_pool_ m ++ [pool]) (check_running_ m) (active_running_ m));
        init_loop config (index + 1)
      else init_loop config index
  end.

(** The two threads are started at the end. *)
Definition Init (config : list DBConnConfig) : SysM W bool :=
  match config with
  | [] => mret false
  | _ =>
      _ ← init_loop config 0;
      _ ← upd_man (fun m => mkMan (dbPool_ m) (backup_pool_ m) true true);
      mret true
  end.

(** Up to [n] attempts to reconnect. *)
Fixpoint reconnect_attempts (n : nat) (p : dbptr) : SysM W bool :=
  match n with
  | O => mret false
  | S n => ok ← lift (db_Reconnect p); if (ok : bool) then mret true else reconnect_attempts n p
  end.

Definition check_sql : str := lit "SELECT 1=1 AS RESULT".

(** The checking thread on its connection [p]: the connection is valid, it was
    reconnected, or neither. *)
Variant probe : Type := Valid | Reconnected | Dead.

Definition check_probe (p : dbptr) : SysM W probe :=
  valid ← lift (db_IsValid p);
  if (valid : bool) then mret Valid
  else ok ← reconnect_attempts 5 p; mret (if (ok : bool) then Reconnected else Dead).

(** Whether the statement of the check succeeded. *)
Definition check_query (p : dbptr) : SysM W bool :=
  '(res, err) ← lift (db_Query p check_sql);
  mret (negb (bool_decide (res = None) || bool_decide (err <> SUCCESS))).

(** The two reads of the pools without [mutex_]. *)
Definition no_backup : SysM W bool := m ← get_man; mret (bool_decide (backup_pool_ m = [])).
Definition pool_back : SysM W dbptr :=
  m ← get_man; match last (dbPool_ m) with Some p => mret p | None => undef end.

(** What follows a check that failed for good: switch to the backup, or end
    the thread ([None]). *)
Definition switch : SysM W (option dbptr) :=
  empty ← no_backup;
  if (empty : bool) then mret None
  else _ ← upd_man SwapDBPool; q ← pool_back; mret (Some q).

Definition check_ask (p : dbptr) : SysM W (option dbptr) :=
  ok ← check_query p; if (ok : bool) then mret (Some p) else switch.

(** One turn of the checking thread's loop on the connection [p], when nothing
    happens in between. *)
Definition check_turn (p : dbptr) : SysM W (option dbptr) :=
  r ← check_probe p;
  match r with
  | Reconnected => mret (Some p)
  | Valid => check_ask p
  | Dead => q ← switch; match q with Some q => check_ask q | None => mret None end
  end.

(** The thread: turns until it ends, or [check_running_] is cleared. *)
Fixpoint check_loop (turns : nat) (p : dbptr) : SysM W (option dbptr) :=
  match turns with
  | O => mret (Some p)
  | S turns =>
      m ← get_man;
      if check_running_ m then
        q ← check_turn p;
        match q with Some p => check_loop turns p | None => mret None end
      else mret None
  end.

Definition check_thread (turns : nat) : SysM W (option dbptr) :=
  m ← get_man;
  match last (dbPool_ m) with None => mret None | Some p => check_loop turns p end.

(** [ActivePool]: the connections at [i], ..., [size - 1]. *)
Fixpoint active_loop (n : nat) (pool : list dbptr) : SysM W unit :=
  match n with
  | O => mret tt
  | S n =>
      match pool with
      | [] => undef
      | p :: pool =>
          '(res, err) ← lift (db_Query p (lit "SELECT 1=1 AS RESULT;"));
          _ ← (if bool_decide (res = None) || bool_decide (err <> SUCCESS)
               then _ ← reconnect_attempts 5 p; mret tt else mret tt);
          active_loop n pool
      end
  end.

Definition ActivePool (pool : list dbptr) (size : Z) : SysM W unit := active_loop (Z.to_nat size) pool.

Fixpoint active_backups (pools : list (list dbptr)) : SysM W unit :=
  match pools with
  | [] => mret tt
  | p :: pools => _ ← ActivePool p (Z.of_nat (length p)); active_backups pools
  end.

(** One turn of the keep-alive thread. *)
Definition active_turn : SysM W unit :=
  m ← get_man;
  _ ← ActivePool (dbPool_ m) (u64 (Z.of_nat (length (dbPool_ m)) - 1));
  m ← get_man;
  active_backups (backup_pool_ m).
End Pools.
