(* ===== verification/DBProxy.v ===== *)
(** * The database proxy: [src/src/database/src/dbproxy.cpp]

    Each call runs on another thread ([std::async]) and waits for it: the
    destructor of the future waits too, so the thread always runs to its end,
    whether or not the wait timed out. *)
From S2P Require Import Prelude CStr StdString StringAssist Mysql DBMan.
Open Scope Z_scope.

Inductive SQL_OPER_TYPE : Type := QUERY | SELECT | DELETE | UPDATE.

Definition get_sql_flag (type : SQL_OPER_TYPE) : str :=
  match type with
  | QUERY => lit "query"
  | SELECT => lit "select"
  | DELETE => lit "delete"
  | UPDATE => lit "update"
  end.

(** [s[idx]]: the character behind the last one is NUL; further out it is
    undefined. *)
Definition char_at (s : str) (idx : nat) : res ascii :=
  if (idx =? length s)%nat then Ok (chr 0) else at_index s idx.

(** The loop of [CheckSql]; [n] characters of the flag are left. *)
Fixpoint flag_loop (flag : str) (strsql : str) (idx : nat) : res bool :=
  match flag with
  | [] => Ok false
  | f :: flag =>
      c ← char_at strsql idx;
      if bool_decide (Assist.tolower f = Assist.tolower c) then flag_loop flag strsql (idx + 1) else Ok true
  end.

(** [CheckSql] also trims the caller's string on the left. *)
Definition CheckSql (strsql : str) (type : SQL_OPER_TYPE) : res (bool * str) :=
  let strsql := Assist.ltrim strsql in
  let flag := Assist.rtrim (Assist.ltrim (get_sql_flag type)) in
  ok ← flag_loop flag strsql 0;
  Ok (ok, strsql).

Section Proxy.
Context {W : Type} `{BaseDB W}.

(** [GetDB(times)]: [pool i] is what [DBMan::GetDB] answers to attempt [i].
    The recursive call passes [times] itself ([times--]). *)
Fixpoint GetDB_loop (fuel : nat) (times : Z) (pool : nat -> option dbptr) : res (option dbptr) :=
  match fuel with
  | O => Fault OutOfFuel
  | S fuel =>
      if times <=? 0 then Ok None
      else
        match pool O with
        | Some p => Ok (Some p)
        | None => GetDB_loop fuel times (fun i => pool (S i))
        end
  end.

(** One attempt on the manager. *)
Definition man_GetDB : SysM W (option dbptr) :=
  m ← get_man;
  let '(p, m) := DBMan.GetDB m in
  _ ← upd_man (fun _ => m); mret p.

(** [DBMan::Instance()->GetDB()] until it answers: with nobody else at work it
    answers at once or never ([None]). *)
Definition proxy_GetDB : SysM W (option dbptr) :=
  p ← man_GetDB;
  match p with Some p => mret (Some p) | None => mret None end.

(** The body of the three lambdas; [None] when [GetDB] does not return. *)
Definition lambda {A} (f : dbptr -> W -> outcome (A * SQLError) * W) : SysM W (option (A * SQLError)) :=
  p ← proxy_GetDB;
  match p with
  | None => mret None
  | Some p =>
      rst ← lift (f p);
      _ ← PushDB (Some p);
      mret (Some rst)
  end.

(** [fut.wait_for], [fut.get()] and the [catch] clauses: an exception becomes an
    [lh_exception] ([StdException]), unless the wait timed out. *)
Definition await {A} (timed_out : bool) (none : A) (m : SysM W (option (A * SQLError))) : SysM W (option (A * SQLError)) :=
  fun s =>
    match m s with
    | (Undef, s) => (Undef, s)
    | (Done None, s) => (Done None, s)
    | (r, s) => if timed_out then (Done (Some (none, TIMEOUT)), s)
                else match r with Raised _ => (Raised StdException, s) | r => (r, s) end
    end.

Definition Exec (timed_out : bool) (sql : str) : SysM W (option (Z * SQLError)) :=
  match CheckSql sql SELECT with
  | Fault _ => undef
  | Ok (false, _) => mret (Some (-1, SQL_ERROR))
  | Ok (true, sql) => await timed_out (-1) (lambda (fun p => db_Exec p sql))
  end.

Definition Prepared (timed_out : bool) (sql : str) : SysM W (option (option stmt * SQLError)) :=
  await timed_out None (lambda (fun p => db_Prepared p sql)).

Definition Query (timed_out : bool) (sql : str) : SysM W (option (option rset * SQLError)) :=
  await timed_out None (lambda (fun p => db_Query p sql)).
End Proxy.
