(* ===== verification/DBProps.v ===== *)
(** * Connection pools: ownership, order, the proxy *)
From S2P Require Import Prelude CStr StdString StringAssist Mysql DBMan DBProxy.
Open Scope Z_scope.

(** ** The main pool is a queue in front of the monitor connection *)
Lemma insert_before_last_snoc {A} (x : A) q mon : insert_before_last x (q ++ [mon]) = (q ++ [x]) ++ [mon].
Proof.
  unfold insert_before_last. rewrite length_app. cbn [length]. rewrite Nat.add_sub, take_app_length, drop_app_length.
  by rewrite <- app_assoc.
Qed.

Lemma GetDB_queue m d q mon : dbPool_ m = (d :: q) ++ [mon] -> DBMan.GetDB m = (Some d, set_pool (q ++ [mon]) m).
Proof.
  intros E. unfold DBMan.GetDB. rewrite E. cbn [app length]. rewrite (proj2 (Z.leb_le _ _)); [done |].
  rewrite length_app. simpl. lia.
Qed.

Lemma GetDB_short m : (length (dbPool_ m) < 2)%nat -> DBMan.GetDB m = (None, m).
Proof.
  unfold DBMan.GetDB. destruct (dbPool_ m) as [|d q]; [done |]. intros Hl.
  rewrite (proj2 (Z.leb_gt _ _)); [done | lia].
Qed.

(** The connections the manager holds. *)
Definition held (m : DBMan) : list dbptr := dbPool_ m ++ concat (backup_pool_ m).

Section Ownership.
Context {W : Type} `{BaseDB W}.
(** The connections that were opened, and the identifier of the database each
    was opened on. *)
Context (live : dbptr -> Prop) (sn : dbptr -> Z).
Definition sn_known (w : W) : Prop := forall p, live p -> (db_GetDbSn p w).1 = Done (sn p).

Lemma GetDbSn_eq p w : sn_known w -> live p -> db_GetDbSn p w = (Done (sn p), w).
Proof.
  intros Hs Hl. pose proof (GetDbSn_pure p w) as Hp. specialize (Hs p Hl).
  destruct (db_GetDbSn p w). simpl in *. by subst.
Qed.

(** A pool a connection can be pushed to. *)
Definition usable (p : list dbptr) : Prop := p <> [] /\ Forall live p.

Lemma push_backup_spec n pools m w : sn_known w -> Forall usable pools ->
  push_backup n pools (mkSys m w) = (Done tt, mkSys m w).
Proof.
  intros Hs. induction 1 as [|p pools [Hp Hl] _ IH]; [done |]. destruct p as [|d p]; [done |]. inversion Hl; subst.
  cbn [push_backup front_sn]. unfold mbind, SysM_bind, lift. cbn [world]. rewrite GetDbSn_eq by done.
  cbn [man]. by destruct (_ =? _).
Qed.

(** What [PushDB] does on a manager whose pools are not empty. *)
Definition pushed (p : dbptr) (m : DBMan) : DBMan :=
  match dbPool_ m with
  | d :: _ => if sn d =? sn p then set_pool (insert_before_last p (dbPool_ m)) m else m
  | [] => m
  end.

Lemma PushDB_front p m w d q : sn_known w -> live p -> live d -> dbPool_ m = d :: q ->
  PushDB (Some p) (mkSys m w) =
    if sn d =? sn p then (Done tt, mkSys (set_pool (insert_before_last p (dbPool_ m)) m) w)
    else push_backup (sn p) (backup_pool_ m) (mkSys m w).
Proof.
  intros Hs Hp Hd E. unfold PushDB, mbind, SysM_bind, lift, get_man, upd_man. cbn [world man].
  rewrite GetDbSn_eq by done. cbn [world man]. rewrite E. cbn [front_sn]. unfold lift. cbn [world man].
  rewrite GetDbSn_eq by done. cbn [world man]. destruct (sn d =? sn p); [cbn [man world]; by rewrite E | done].
Qed.

Lemma PushDB_spec p m w : sn_known w -> live p -> usable (dbPool_ m) -> Forall usable (backup_pool_ m) ->
  PushDB (Some p) (mkSys m w) = (Done tt, mkSys (pushed p m) w).
Proof.
  intros Hs Hp [Hm Hl] Hb. unfold pushed. destruct (dbPool_ m) as [|d q] eqn:E; [done |]. inversion Hl; subst.
  rewrite (PushDB_front p m w d q) by done. rewrite E.
  destruct (sn d =? sn p); [done |]. by apply push_backup_spec.
Qed.

(** ** Users of the manager *)

(** A user takes a connection, gives one back, or the checking thread switches
    to the backup.  The connections users hold are listed beside the manager. *)
Inductive use : DBMan * list dbptr -> DBMan * list dbptr -> Prop :=
  | use_get m m' b d : DBMan.GetDB m = (Some d, m') -> use (m, b) (m', d :: b)
  | use_push m b1 d b2 : use (m, b1 ++ d :: b2) (pushed d m, b1 ++ b2)
  | use_swap m b : use (m, b) (SwapDBPool m, b).

(** All connections, wherever they are. *)
Definition everywhere (s : DBMan * list dbptr) : list dbptr := held s.1 ++ s.2.

(** No pool is empty, and every connection is in one place only. *)
Definition owned (s : DBMan * list dbptr) : Prop :=
  Forall (fun p => p <> []) (dbPool_ s.1 :: backup_pool_ s.1) /\
  NoDup (everywhere s) /\ Forall live (everywhere s).

Lemma insert_before_last_perm {A} (x : A) l : insert_before_last x l ≡ₚ x :: l.
Proof. unfold insert_before_last. rewrite <- Permutation_middle. by rewrite take_drop. Qed.

Lemma SwapDBPool_perm m : dbPool_ (SwapDBPool m) :: backup_pool_ (SwapDBPool m) ≡ₚ dbPool_ m :: backup_pool_ m.
Proof.
  unfold SwapDBPool. destruct (backup_pool_ m) as [|p ps] eqn:E; [simpl; by rewrite E |]. simpl. solve_Permutation.
Qed.

Lemma held_concat m : held m = concat (dbPool_ m :: backup_pool_ m).
Proof. done. Qed.

(** Connections are moved or dropped, never duplicated. *)
Lemma use_everywhere s s' : use s s' -> everywhere s' ⊆+ everywhere s.
Proof.
  unfold everywhere. destruct 1 as [m m' b d Hg|m b1 d b2|m b]; cbn [fst snd].
  - unfold DBMan.GetDB in Hg. unfold held. destruct (dbPool_ m) as [|x q]; [done |].
    destruct (2 <=? _); [| done]. injection Hg as <- <-. cbn [set_pool dbPool_ backup_pool_].
    rewrite <- Permutation_middle. done.
  - unfold pushed, held. destruct (dbPool_ m) as [|x q] eqn:E; [rewrite E; solve_submseteq |].
    destruct (sn x =? sn d).
    + cbn [set_pool dbPool_ backup_pool_]. rewrite insert_before_last_perm. solve_submseteq.
    + rewrite E. solve_submseteq.
  - rewrite !held_concat. by rewrite SwapDBPool_perm.
Qed.

Lemma use_nonempty s s' : use s s' -> Forall (fun p => p <> []) (dbPool_ s.1 :: backup_pool_ s.1) ->
  Forall (fun p => p <> []) (dbPool_ s'.1 :: backup_pool_ s'.1).
Proof.
  destruct 1 as [m m' b d Hg|m b1 d b2|m b]; cbn [fst snd]; [| | by rewrite SwapDBPool_perm];
    intros [Hm Hb]%Forall_cons.
  - unfold DBMan.GetDB in Hg. destruct (dbPool_ m) as [|x q] eqn:E; [done |].
    destruct (2 <=? _) eqn:E2; [| done]. injection Hg as <- <-. apply Z.leb_le in E2. constructor; [| done].
    by destruct q; simpl in E2; [lia |].
  - unfold pushed. destruct (dbPool_ m) as [|x q] eqn:E; [done |].
    destruct (sn x =? sn d); constructor; try done; [| by rewrite E]. simpl.
    intros E'. pose proof (insert_before_last_perm d (x :: q)) as Hp. rewrite E' in Hp. by apply Permutation_nil in Hp.
Qed.

Lemma use_owned s s' : use s s' -> owned s -> owned s'.
Proof.
  intros Hu (Hp & Hn & Hl). pose proof (use_everywhere s s' Hu) as Hs. split_and!.
  - by apply (use_nonempty s).
  - apply submseteq_Permutation in Hs as [k Hk]. rewrite Hk in Hn. by apply NoDup_app in Hn as [Hn _].
  - apply Forall_forall. intros x Hx. rewrite Forall_forall in Hl. apply Hl. by apply (elem_of_submseteq _ _ _ Hx Hs).
Qed.

Lemma owned_usable m b : owned (m, b) -> usable (dbPool_ m) /\ Forall usable (backup_pool_ m) /\ Forall live b.
Proof.
  intros ([Hm Hb]%Forall_cons & _ & Hl). unfold everywhere, held in Hl. cbn [fst snd] in *.
  apply Forall_app in Hl as [[H1 H2]%Forall_app H3]. split_and!; [done | | done].
  rewrite Forall_forall in H2. apply Forall_forall. intros p Hp. split; [by rewrite Forall_forall in Hb; apply Hb |].
  apply Forall_forall. intros d Hd. apply H2. apply list_elem_of_In, in_concat.
  exists p. by rewrite <- !list_elem_of_In.
Qed.

(** From a manager whose pools are not empty and hold each connection
    once, whatever users and the checking thread do: no pool becomes empty,
    every connection is in one pool or with one user, giving one back is
    defined, [GetDB] never answers a connection somebody holds, and nobody holds
    the last connection of the main pool, which the checking thread uses. *)
Theorem pool_ownership m0 m b w :
  owned (m0, []) -> rtc use (m0, []) (m, b) -> sn_known w ->
  owned (m, b) /\
  (forall d m', DBMan.GetDB m = (Some d, m') -> d ∉ b) /\
  (exists mon, last (dbPool_ m) = Some mon /\ mon ∉ b) /\
  (forall p, p ∈ b -> PushDB (Some p) (mkSys m w) = (Done tt, mkSys (pushed p m) w)).
Proof.
  intros H0 Hr Hs. assert (owned (m, b)) as Hok.
  { remember (m0, []) as s0 eqn:E0. remember (m, b) as s1 eqn:E1. clear E0 E1.
    induction Hr as [|x y z Hu _ IH]; [done |]. by apply IH, (use_owned x). }
  split; [done |]. destruct (owned_usable m b Hok) as (Hm & Hb & Hl). destruct Hok as (_ & Hn & _).
  assert (forall d, d ∈ dbPool_ m -> d ∉ b) as Hin.
  { intros d Hd Hd'. apply NoDup_app in Hn as (_ & Hn & _). apply (Hn d); [| done]. apply elem_of_app. by left. }
  split_and!.
  - intros d m' Hg. apply Hin. unfold DBMan.GetDB in Hg. destruct (dbPool_ m) as [|x q]; [done |].
    destruct (2 <=? _); [| done]. injection Hg as <- _. apply list_elem_of_here.
  - destruct (last (dbPool_ m)) as [mon|] eqn:El; [| by apply last_None in El; destruct Hm].
    exists mon. split; [done |]. by apply Hin, last_Some_elem_of.
  - intros p Hp. apply PushDB_spec; try done. rewrite Forall_forall in Hl. by apply Hl.
Qed.

(** ** The pool is a FIFO queue *)
Inductive op : Type := Get | Push (d : dbptr).

Fixpoint run_pool (ops : list op) : SysM W (list (option dbptr)) :=
  match ops with
  | [] => mret []
  | Get :: ops => p ← man_GetDB; l ← run_pool ops; mret (p :: l)
  | Push d :: ops => _ ← PushDB (Some d); run_pool ops
  end.

(** The specification: a queue of the connections that can be taken. *)
Fixpoint run_queue (ops : list op) (q : list dbptr) : list (option dbptr) * list dbptr :=
  match ops with
  | [] => ([], q)
  | Get :: ops =>
      let '(l, r) := run_queue ops (tail q) in (head q :: l, r)
  | Push d :: ops => run_queue ops (q ++ [d])
  end.

Definition same_db (n : Z) (o : op) : Prop := match o with Get => True | Push d => live d /\ sn d = n end.

Lemma man_GetDB_queue q mon m (w : W) : dbPool_ m = q ++ [mon] ->
  man_GetDB (mkSys m w) = (Done (head q), mkSys (set_pool (tail q ++ [mon]) m) w).
Proof.
  intros E. unfold man_GetDB, mbind, SysM_bind, get_man, upd_man, mret, SysM_ret. cbn [man].
  destruct q as [|d q].
  - rewrite GetDB_short by (rewrite E; simpl; lia). cbn. destruct m. simpl in *. by subst.
  - by rewrite (GetDB_queue m d q mon).
Qed.

(** C18: taking and giving back connections of one database is a FIFO queue in
    front of the monitor connection: [GetDB] answers the connection that was
    given back longest ago, or null when all are in use. *)
Theorem pool_fifo ops q mon m w n :
  dbPool_ m = q ++ [mon] -> sn_known w -> Forall (fun d => live d /\ sn d = n) (q ++ [mon]) -> Forall (same_db n) ops ->
  run_pool ops (mkSys m w) =
    (Done (run_queue ops q).1, mkSys (set_pool ((run_queue ops q).2 ++ [mon]) m) w).
Proof.
  intros E Hs Hq Ho. revert q m E Hq. induction Ho as [|o ops Ho _ IH]; intros q m E Hq.
  - cbn. rewrite <- E. by destruct m.
  - destruct o as [|d]; cbn [run_pool run_queue].
    + unfold mbind at 1, SysM_bind at 1. rewrite (man_GetDB_queue q mon m w E).
      unfold mbind, SysM_bind. rewrite (IH (tail q)); [| done |].
      * by destruct (run_queue ops (tail q)).
      * destruct q; [done |]. by inversion Hq.
    + unfold mbind, SysM_bind. destruct Ho as [Hd Hsd].
      assert (PushDB (Some d) (mkSys m w) = (Done tt, mkSys (set_pool ((q ++ [d]) ++ [mon]) m) w)) as ->.
      { assert (exists x r, dbPool_ m = x :: r /\ live x /\ sn x = n) as (x & r & Ex & Hlx & Hx).
        { rewrite E. destruct q as [|x q]; inversion Hq; subst; [by exists mon, [] | by exists x, (q ++ [mon])]. }
        rewrite (PushDB_front d m w x r) by done. rewrite Hx, Hsd, Z.eqb_refl, E. by rewrite insert_before_last_snoc. }
      rewrite (IH (q ++ [d])); [done | done |]. apply Forall_app in Hq as [Hq Hm].
      repeat (apply Forall_app; split); try done. by repeat constructor.
Qed.

(** A connection taken before the checking thread switched to a backup of
    another database is dropped when it is given back: the manager does not
    change, and no pool holds it.  After [Release] giving one back is
    undefined. *)
Theorem push_after_switch m b d p q ps w :
  owned (m, d :: b) -> sn_known w -> backup_pool_ m = (p :: q) :: ps -> sn p <> sn d ->
  PushDB (Some d) (mkSys (SwapDBPool m) w) = (Done tt, mkSys (SwapDBPool m) w) /\
  d ∉ held (SwapDBPool m) /\
  (PushDB (Some d) (mkSys (Release m) w)).1 = Undef.
Proof.
  intros Ho Hs Hb Hsn.
  assert (owned (SwapDBPool m, d :: b)) as Ho' by (apply (use_owned (m, d :: b)); [constructor | done]).
  destruct (owned_usable _ _ Ho') as (H1 & H2 & [Hd _]%Forall_cons). destruct Ho' as (_ & H3 & _). split_and!.
  - rewrite PushDB_spec by done. unfold pushed, SwapDBPool. rewrite Hb. cbn.
    by rewrite (proj2 (Z.eqb_neq _ _) Hsn).
  - unfold everywhere in H3. cbn [fst snd] in H3. rewrite <- Permutation_middle in H3.
    apply NoDup_cons in H3 as [H3 _]. set_solver.
  - unfold PushDB, mbind, SysM_bind, lift, get_man. cbn [world man]. by rewrite GetDbSn_eq.
Qed.
End Ownership.

(** ** The proxy *)

(** [GetDB(times)] tries without end: its recursive call passes [times]
    itself, so with a positive [times] it returns the first connection the pool
    gives at whatever attempt, and never returns while the pool has none; null
    is only answered for [times <= 0]. *)
Theorem proxy_GetDB_retries fuel times (pool : nat -> option dbptr) :
  (times <= 0 -> (0 < fuel)%nat -> GetDB_loop fuel times pool = Ok None) /\
  (0 < times -> (forall i, (i < fuel)%nat -> pool i = None) -> GetDB_loop fuel times pool = Fault OutOfFuel) /\
  (0 < times -> forall n p, (n < fuel)%nat -> (forall i, (i < n)%nat -> pool i = None) -> pool n = Some p ->
     GetDB_loop fuel times pool = Ok (Some p)).
Proof.
  split_and!.
  - intros Ht Hf. destruct fuel; [lia |]. cbn [GetDB_loop]. by rewrite (proj2 (Z.leb_le _ _) Ht).
  - intros Ht. revert pool. induction fuel as [|fuel IH]; intros pool Hp; [done |]. cbn [GetDB_loop].
    rewrite (proj2 (Z.leb_gt _ _) Ht), Hp by lia. apply IH. intros i Hi. apply Hp. lia.
  - intros Ht. revert pool. induction fuel as [|fuel IH]; intros pool n p Hn Hp E; [lia |]. cbn [GetDB_loop].
    rewrite (proj2 (Z.leb_gt _ _) Ht). destruct n as [|n]; [by rewrite E |].
    rewrite Hp by lia. apply (IH _ n); [lia | | done]. intros i Hi. apply Hp. lia.
Qed.

(** The flag is not one of the operation names when a NUL ends it. *)
Lemma flag_loop_spec flag : forall s idx, Forall (fun c => Assist.tolower c <> chr 0) flag -> (idx <= length s)%nat ->
  flag_loop flag s idx = Ok (negb (is_prefix (Assist.to_lower flag) (Assist.to_lower (drop idx s)))).
Proof.
  induction flag as [|f flag IH]; intros s idx Hf Hi; cbn [flag_loop].
  - done.
  - inversion Hf as [|? ? Hf0 Hf']; subst. unfold char_at.
    destruct (Nat.eqb_spec idx (length s)) as [->|Hne]; cbn [mbind res_bind].
    + change (Assist.tolower (chr 0)) with (chr 0). rewrite bool_decide_eq_false_2 by done.
      rewrite drop_all. unfold is_prefix. by rewrite bool_decide_eq_false_2.
    + destruct (lookup_lt_is_Some_2 s idx) as [c Hc]; [lia |]. unfold at_index. rewrite Hc. cbn [mbind res_bind].
      rewrite (drop_S s c idx) by done. unfold is_prefix. cbn [Assist.to_lower map length take].
      case_bool_decide as Heq.
      * rewrite IH by (done || lia). rewrite Heq. unfold is_prefix. do 2 f_equal. apply bool_decide_ext.
        replace (idx + 1)%nat with (S idx) by lia. unfold Assist.to_lower. split; congruence.
      * rewrite bool_decide_eq_false_2; [done |]. intros [= E _]. by rewrite E in Heq.
Qed.

(** [CheckSql] never reads past the NUL behind the text, and refuses exactly
    the statements that start, after blanks and in any case, with the name of
    the operation; it also drops the leading blanks of the caller's string. *)
Theorem CheckSql_spec s type :
  CheckSql s type =
    Ok (negb (is_prefix (get_sql_flag type) (Assist.to_lower (Assist.ltrim s))), Assist.ltrim s).
Proof.
  unfold CheckSql. set (t := Assist.ltrim s).
  replace (Assist.rtrim (Assist.ltrim (get_sql_flag type))) with (get_sql_flag type) by (by destruct type).
  rewrite (flag_loop_spec (get_sql_flag type) t 0); [| by destruct type; repeat constructor | lia].
  cbn [mbind res_bind]. rewrite drop_0. by destruct type.
Qed.

(** ** Witnesses: two databases with three and two connections *)
Definition demo_handle (T : Type) (c : call T) (d : unit) : (exn + T) * unit :=
  (match c in call T return exn + T with
   | get_mysql_driver_instance => inr true
   | connect _ _ _ => inr (Some 1%positive)
   | isValid _ => inr true
   | createStatement _ => inr (Some 1%positive)
   | getUpdateCount _ => inr 1
   | prepareStatement _ _ => inr (Some 1%positive)
   | executeQuery _ => inr (Some 1%positive)
   | setSavepoint _ _ => inr (Some 1%positive)
   | close _ | delete_connection _ | execute _ _ | setAutoCommit _ _ | commit _
   | rollback_to _ _ | releaseSavepoint _ _ | rollback _ => inr tt
   end, d).

Definition demo_db (n : Z) : MysqlDB := mkDB [] [] [] [] (Some n) true (Some 1%positive) None false 0.
Definition demo_sn (p : dbptr) : Z := if bool_decide (Pos.le p 3) then 10 else 20.
Definition demo_live (p : dbptr) : Prop := p ∈ [1; 2; 3; 4; 5]%positive.
Definition demo_store : Store unit :=
  mkStore {[ 1%positive := demo_db 10; 2%positive := demo_db 10; 3%positive := demo_db 10;
             4%positive := demo_db 20; 5%positive := demo_db 20 ]} tt [].
Definition demo_man : DBMan := mkMan [1; 2; 3]%positive [[4; 5]]%positive true true.
Definition demo_inst : BaseDB (Store unit) := MysqlStore demo_handle (fun _ => 0).

Lemma demo_known : sn_known (H := demo_inst) demo_live demo_sn demo_store.
Proof.
  intros p Hp. unfold demo_live in Hp. repeat (apply elem_of_cons in Hp as [->|Hp]; [reflexivity |]). by apply not_elem_of_nil in Hp.
Qed.

Lemma demo_owned : owned demo_live (demo_man, []).
Proof.
  split_and!.
  - by repeat constructor.
  - by apply (bool_decide_unpack _).
  - by apply (bool_decide_unpack _).
Qed.

(** Connection 1 is taken, then the checking thread switches. *)
Definition demo_taken : DBMan := set_pool [2; 3]%positive demo_man.

Lemma demo_run : rtc (use demo_sn) (demo_man, []) (demo_taken, [1%positive]).
Proof. apply rtc_once. by apply use_get. Qed.

Lemma pool_ownership_witness :
  owned demo_live (demo_taken, [1%positive]) /\
  (forall d m', DBMan.GetDB demo_taken = (Some d, m') -> d ∉ [1%positive]) /\
  (exists mon, last (dbPool_ demo_taken) = Some mon /\ mon ∉ [1%positive]) /\
  (forall p, p ∈ [1%positive] ->
     PushDB (H := demo_inst) (Some p) (mkSys demo_taken demo_store) =
       (Done tt, mkSys (pushed demo_sn p demo_taken) demo_store)).
Proof.
  apply (pool_ownership (H := demo_inst) demo_live demo_sn demo_man demo_taken [1%positive] demo_store
    demo_owned demo_run demo_known).
Defined.

Lemma pool_fifo_witness :
  run_pool (H := demo_inst) [Get; Get; Get; Push 2; Push 1; Get]%positive (mkSys demo_man demo_store) =
    (Done [Some 1; Some 2; None; Some 2]%positive, mkSys (set_pool [1; 3]%positive demo_man) demo_store).
Proof.
  apply (pool_fifo (H := demo_inst) demo_live demo_sn [Get; Get; Get; Push 2; Push 1; Get]%positive
    [1; 2]%positive 3%positive demo_man demo_store 10 eq_refl demo_known).
  - by apply (bool_decide_unpack _).
  - repeat constructor; by apply (bool_decide_unpack _).
Defined.

Lemma push_after_switch_witness :
  PushDB (H := demo_inst) (Some 1%positive) (mkSys (SwapDBPool demo_taken) demo_store) =
    (Done tt, mkSys (SwapDBPool demo_taken) demo_store) /\
  1%positive ∉ held (SwapDBPool demo_taken) /\
  (PushDB (H := demo_inst) (Some 1%positive) (mkSys (Release demo_taken) demo_store)).1 = Undef.
Proof.
  apply (push_after_switch (H := demo_inst) demo_live demo_sn demo_taken [] 1%positive 4%positive [5%positive] [] demo_store).
  - apply (use_owned demo_live demo_sn (demo_man, [])); [by apply use_get | apply demo_owned].
  - apply demo_known.
  - reflexivity.
  - discriminate.
Defined.
