(* ===== verification/ProxyProps.v ===== *)
(** * The database proxy over the pools over MySQL connections

    The three layers together: [DBProxy] takes a connection from [DBMan], runs a
    statement on the [MysqlDB] object and gives the connection back. *)
From S2P Require Import Prelude CStr StdString StringAssist Mysql MysqlProps DBMan DBProxy DBProps.
Open Scope Z_scope.

Section Objects.
Context {D : Type} (handle : forall T, call T -> D -> (exn + T) * D) (hash : str -> Z).

(** ** What no statement changes: the database an object was opened on *)
Definition target_sn (addr db : str) : Z := Z.lxor (hash addr) (u64 (Z.shiftl (hash db) 1)).
Definition opened (o : MysqlDB) : Prop := db_sn_ o = Some (target_sn (addr_ o) (db_ o)).
Definition same_db (o o' : MysqlDB) : Prop := opened o -> opened o' /\ db_sn_ o' = db_sn_ o.

Definition keeps_db {A} (m : M D A) : Prop := forall w, same_db (obj w) (obj (m w).2).

Lemma same_db_trans o1 o2 o3 : same_db o1 o2 -> same_db o2 o3 -> same_db o1 o3.
Proof. intros H1 H2 H. destruct (H1 H) as [Ho2 E2]. destruct (H2 Ho2) as [Ho3 E3]. split; [done | congruence]. Qed.

Lemma keeps_db_bind {A B} (m : M D A) (k : A -> M D B) : keeps_db m -> (forall a, keeps_db (k a)) -> keeps_db (m ≫= k).
Proof.
  intros Hm Hk w. specialize (Hm w). unfold mbind, M_bind. destruct (m w) as [[a|e|] w1]; [| done | done].
  eapply same_db_trans; [exact Hm | apply Hk].
Qed.

Lemma keeps_mret {A} (a : A) : keeps_db (mret a).
Proof. by intros w. Qed.

Lemma keeps_Reconnect : keeps_db (Reconnect handle hash).
Proof.
  unfold Reconnect, Open, reset_connection. intros [o d t].
  unfold mbind, M_bind, get_obj, catch, do, mret, M_ret, upd. cbn. calls_of handle; by intros Ho.
Qed.

Lemma keeps_retry {A} n (m : M D A) failed : keeps_db m -> keeps_db (retry handle hash n m failed).
Proof.
  intros Hm. induction n as [|n IH]; cbn [retry]; [apply keeps_mret |].
  apply keeps_db_bind; [apply keeps_Reconnect |]. intros [|]; [| done].
  apply keeps_db_bind; [by intros w |]. intros o. by destruct (is_begin_trans_ o); [apply keeps_mret |].
Qed.

Lemma keeps_with_retry {A} (none : A) m : keeps_db m -> keeps_db (with_retry handle hash none m).
Proof.
  intros Hm. apply keeps_db_bind; [done |]. intros [ret code].
  destruct (decide _); [by apply keeps_retry | apply keeps_mret].
Qed.

Lemma attempt_keeps {A} (k : kind A) sql m : emits m (attempts k sql) -> keeps_db m.
Proof. intros Hm w. destruct (Hm w) as (l & _ & -> & _). by intros Ho. Qed.

(** ** A statement of a store *)
Definition well_opened (live : dbptr -> Prop) (sn : dbptr -> Z) (s : Store D) : Prop :=
  forall p, live p -> exists o, objects s !! p = Some o /\ opened o /\ db_sn_ o = Some (sn p).

Lemma well_opened_known live sn s : well_opened live sn s -> sn_known (H := MysqlStore handle hash) live sn s.
Proof.
  intros Hs p Hp. destruct (Hs p Hp) as (o & E & _ & Hsn). cbn. unfold on. rewrite E.
  unfold GetDbSn, mbind, M_bind, get_obj. cbn. by rewrite Hsn.
Qed.

Lemma on_well_opened {A} (m : M D A) live sn p s : keeps_db m -> well_opened live sn s -> well_opened live sn (on m p s).2.
Proof.
  intros Hm Hs. unfold on. destruct (objects s !! p) as [o|] eqn:E; [| done].
  specialize (Hm (mkWorld o (sdrv s) (strace s))). destruct (m _) as [r w]. cbn in *. intros x Hx. cbn.
  destruct (Hs x Hx) as (o' & E' & Ho & Hsn). destruct (decide (x = p)) as [->|Hne].
  - rewrite E in E'. injection E' as ->. destruct (Hm Ho) as [Ho2 E2]. exists (obj w).
    rewrite lookup_insert_eq. split_and!; [done | done | congruence].
  - exists o'. by rewrite lookup_insert_ne.
Qed.

(** What the statement did: the calls it made and the object before and after. *)
Definition did {A} (Q : MysqlDB -> outcome A -> MysqlDB -> list event -> Prop) (p : dbptr) (r : outcome A) (s s' : Store D) : Prop :=
  exists o o' l, objects s !! p = Some o /\ objects s' !! p = Some o' /\ strace s' = strace s ++ l /\ Q o r o' l.

Lemma on_emits {A} (m : M D A) Q p s o :
  emits m Q -> objects s !! p = Some o -> did Q p (on m p s).1 s (on m p s).2.
Proof.
  intros Hm E. unfold on. rewrite E. destruct (Hm (mkWorld o (sdrv s) (strace s))) as (l & Et & HQ).
  destruct (m _) as [r w]. cbn in *. unfold did. exists o, (obj w), l. cbn. by rewrite lookup_insert_eq.
Qed.

(** ** A call of the proxy *)
#[local] Hint Extern 0 (BaseDB _) => exact (MysqlStore handle hash) : typeclass_instances.
Context (live : dbptr -> Prop) (sn : dbptr -> Z).

(** The main pool: connections [d :: q] to one database that can be taken, and
    the monitor's. *)
Definition one_database (n : Z) (l : list dbptr) : Prop := Forall (fun p => live p /\ sn p = n) l.

Lemma lambda_spec {A} (f : dbptr -> Store D -> outcome (A * SQLError) * Store D) n d q mon m s :
  well_opened live sn s -> well_opened live sn (f d s).2 ->
  dbPool_ m = (d :: q) ++ [mon] -> one_database n ((d :: q) ++ [mon]) ->
  lambda f (mkSys m s) =
    match f d s with
    | (Done r, s') => (Done (Some r), mkSys (set_pool ((q ++ [d]) ++ [mon]) m) s')
    | (Raised e, s') => (Raised e, mkSys (set_pool (q ++ [mon]) m) s')
    | (Undef, s') => (Undef, mkSys (set_pool (q ++ [mon]) m) s')
    end.
Proof.
  intros Hs Hs' E Hn. unfold lambda, proxy_GetDB. unfold mbind, SysM_bind.
  rewrite (man_GetDB_queue (d :: q) mon m s E). cbn [head tail]. unfold mret, SysM_ret, DBMan.lift. cbn [world man].
  destruct (f d s) as [[r|e|] s'] eqn:Ef; [| done | done]. cbn [snd] in Hs'. cbn [man].
  apply Forall_cons in Hn as [[Hd Hsd] Hn].
  assert (exists x r, q ++ [mon] = x :: r /\ live x /\ sn x = n) as (x & rest & Ex & Hx & Hsx).
  { destruct q as [|x q]; apply Forall_cons in Hn as [[] _]; cbn [app]; eauto 6. }
  rewrite (PushDB_front live sn d (set_pool (q ++ [mon]) m) s' x rest); [| by apply well_opened_known | done | done | done].
  rewrite Hsd, Hsx, Z.eqb_refl. cbn [set_pool dbPool_]. by rewrite insert_before_last_snoc.
Qed.

(** What a call of the proxy promises when a connection is free: the statement is
    run on it as [statement_spec] says, the caller gets the result unless the
    wait timed out, and the connection goes to the back of the queue; an
    exception of the connector loses the connection. *)
Definition proxied {A} (call : SysM (Store D) (option (A * SQLError))) (k : kind A) (sql : str)
    (timed_out : bool) (d : dbptr) (q : list dbptr) (mon : dbptr) (m : DBMan) (s : Store D) : Prop :=
  exists r s', well_opened live sn s' /\ did (statement_spec k sql) d r s s' /\
    match r with
    | Done a =>
        call (mkSys m s) = (Done (Some (if timed_out then (none k, TIMEOUT) else a)), mkSys (set_pool ((q ++ [d]) ++ [mon]) m) s')
    | Raised e =>
        call (mkSys m s) = (if timed_out then Done (Some (none k, TIMEOUT)) else Raised StdException, mkSys (set_pool (q ++ [mon]) m) s')
    | Undef => False
    end.

Lemma await_spec {A} (k : kind A) sql (m0 : M D (A * SQLError)) timed_out n d q mon m s :
  emits m0 (attempts k sql) -> well_opened live sn s ->
  dbPool_ m = (d :: q) ++ [mon] -> one_database n ((d :: q) ++ [mon]) ->
  proxied (await timed_out (none k) (lambda (fun p => on (with_retry handle hash (none k) m0) p))) k sql timed_out d q mon m s.
Proof.
  intros Hm Hs E Hn. set (mm := with_retry handle hash (none k) m0).
  assert (well_opened live sn (on mm d s).2) as Hs'
    by (apply on_well_opened; [by eapply keeps_with_retry, attempt_keeps | done]).
  destruct (Hs d) as (o & Eo & _); [by inversion Hn as [|? ? [? _] _]; subst |].
  pose proof (on_emits mm (statement_spec k sql) d s o (with_retry_spec handle hash k sql m0 Hm) Eo) as Hd.
  exists (on mm d s).1, (on mm d s).2. split; [done |]. split; [done |].
  unfold await. rewrite (lambda_spec (fun p => on mm p) n d q mon m s Hs Hs' E Hn).
  destruct (on mm d s) as [[a|e|] s']; cbn [fst snd] in *.
  - by destruct timed_out.
  - by destruct timed_out.
  - destruct Hd as (o1 & o2 & l & _ & _ & _ & Hsp). by apply statement_spec_defined in Hsp.
Qed.

(** With only the monitor connection left a call never returns. *)
Lemma await_hangs {A} (none : A) f timed_out m s :
  (length (dbPool_ m) < 2)%nat -> await timed_out none (lambda f) (mkSys m s) = (Done None, mkSys m s).
Proof.
  intros Hl. unfold await, lambda, proxy_GetDB, man_GetDB, mbind, SysM_bind, get_man, upd_man, mret, SysM_ret. cbn [man].
  by rewrite GetDB_short.
Qed.

(** C8: [Exec], [Prepared] and [Query] of the proxy, down to the calls of the
    connector.  While a connection is free the given text - for [Exec] without
    its leading blanks - runs on the one that was given back longest ago, with the
    calls and the retries of [MysqlDB] ([statement_spec]); the caller gets the code
    and the result of that connection, or [TIMEOUT] after three seconds, and
    the connection goes back behind the others.  When the connector throws while
    [MysqlDB] reconnects, the caller gets an exception and the pool has lost the
    connection for good; with none left but the monitor's every call hangs.
    [Exec] refuses statements that begin with [select] and takes no connection
    for them. *)
Theorem proxy_calls sql timed_out n m s :
  well_opened live sn s -> one_database n (dbPool_ m) ->
  let sql' := Assist.ltrim sql in
  let selects := is_prefix (get_sql_flag SELECT) (Assist.to_lower sql') in
  (forall d q mon, dbPool_ m = (d :: q) ++ [mon] ->
     (selects = false -> proxied (DBProxy.Exec timed_out sql) exec_kind sql' timed_out d q mon m s) /\
     proxied (DBProxy.Prepared timed_out sql) prepared_kind sql timed_out d q mon m s /\
     proxied (DBProxy.Query timed_out sql) query_kind sql timed_out d q mon m s) /\
  (selects = true -> DBProxy.Exec timed_out sql (mkSys m s) = (Done (Some (-1, SQL_ERROR)), mkSys m s)) /\
  ((length (dbPool_ m) < 2)%nat ->
     (selects = false -> DBProxy.Exec timed_out sql (mkSys m s) = (Done None, mkSys m s)) /\
     DBProxy.Prepared timed_out sql (mkSys m s) = (Done None, mkSys m s) /\
     DBProxy.Query timed_out sql (mkSys m s) = (Done None, mkSys m s)).
Proof.
  intros Hs Hn sql' selects. unfold DBProxy.Exec. rewrite CheckSql_spec.
  change (is_prefix (get_sql_flag SELECT) (Assist.to_lower (Assist.ltrim sql))) with selects.
  change (Assist.ltrim sql) with sql'. split_and!.
  - intros d q mon E. rewrite E in Hn. split_and!.
    + intros ->. cbn [negb]. apply (await_spec exec_kind sql' (MysqlExec handle sql') _ n); try done. apply MysqlExec_attempts.
    + apply (await_spec prepared_kind sql (MysqlPrepared handle sql) _ n); try done. apply MysqlPrepared_attempts.
    + apply (await_spec query_kind sql (MysqlQuery handle sql) _ n); try done. apply MysqlQuery_attempts.
  - by intros ->.
  - intros Hl. split_and!; [intros ->; by apply await_hangs | by apply await_hangs | by apply await_hangs].
Qed.
End Objects.

(** ** Witness: two connections to one database and the monitor's *)
Definition proxy_store : Store unit :=
  mkStore {[ 1%positive := demo_db 0; 2%positive := demo_db 0; 3%positive := demo_db 0 ]} tt [].
Definition proxy_man : DBMan := mkMan [1; 2; 3]%positive [] true true.
Definition proxy_live (p : dbptr) : Prop := p ∈ [1; 2; 3]%positive.

Lemma proxy_opened : well_opened (fun _ => 0) proxy_live (fun _ => 0) proxy_store.
Proof.
  intros p Hp. exists (demo_db 0). split_and!; [| done | done]. unfold proxy_live in Hp.
  repeat (apply elem_of_cons in Hp as [->|Hp]; [reflexivity |]). by apply not_elem_of_nil in Hp.
Qed.

Lemma proxy_one_database : one_database proxy_live (fun _ => 0) 0 (dbPool_ proxy_man).
Proof. repeat constructor; by apply (bool_decide_unpack _). Qed.

Lemma proxy_calls_witness :
  (exists r s', well_opened (fun _ => 0) proxy_live (fun _ => 0) s' /\
     did (statement_spec exec_kind (lit "update t set a=1")) 1%positive r proxy_store s' /\
     match r with
     | Done a =>
         DBProxy.Exec (H := MysqlStore demo_handle (fun _ => 0)) false (lit "update t set a=1") (mkSys proxy_man proxy_store) =
           (Done (Some a), mkSys (set_pool [2; 1; 3]%positive proxy_man) s')
     | Raised e =>
         DBProxy.Exec (H := MysqlStore demo_handle (fun _ => 0)) false (lit "update t set a=1") (mkSys proxy_man proxy_store) =
           (Raised StdException, mkSys (set_pool [2; 3]%positive proxy_man) s')
     | Undef => False
     end) /\
  DBProxy.Exec (H := MysqlStore demo_handle (fun _ => 0)) false (lit "  SELECT 1") (mkSys proxy_man proxy_store) =
    (Done (Some (-1, SQL_ERROR)), mkSys proxy_man proxy_store).
Proof.
  pose proof (proxy_calls demo_handle (fun _ => 0) proxy_live (fun _ => 0) (lit "update t set a=1") false 0
    proxy_man proxy_store proxy_opened proxy_one_database) as (H1 & _).
  pose proof (proxy_calls demo_handle (fun _ => 0) proxy_live (fun _ => 0) (lit "  SELECT 1") false 0
    proxy_man proxy_store proxy_opened proxy_one_database) as (_ & H2 & _).
  split; [| by apply H2]. by apply (H1 1%positive [2%positive] 3%positive eq_refl).
Defined.
