(* ===== verification/PoolInit.v ===== *)
(** * From [DBMan::Init] to the proxy

    What [Init] makes of a configuration, whatever the servers answer, is what
    the theorems about pools (DBProps) and about the proxy (ProxyProps) start
    from; calls of the proxy keep it. *)
From S2P Require Import Prelude CStr StdString StringAssist Mysql MysqlProps DBMan DBProxy DBProps ProxyProps.
Open Scope Z_scope.

Section Init.
Context {D : Type} (handle : forall T, call T -> D -> (exn + T) * D) (hash : str -> Z).
#[local] Hint Extern 0 (BaseDB _) => exact (MysqlStore handle hash) : typeclass_instances.

(** The object at [p] was opened on the database [n]. *)
Definition known (n : Z) (s : Store D) (p : dbptr) : Prop :=
  exists o, objects s !! p = Some o /\ opened hash o /\ db_sn_ o = Some n.
(** Objects made before are as they were. *)
Definition grows (s s' : Store D) : Prop := forall p o, objects s !! p = Some o -> objects s' !! p = Some o.
Definition new_in (s : Store D) (p : dbptr) : Prop := objects s !! p = None.

Lemma known_grows n s s' p : grows s s' -> known n s p -> known n s' p.
Proof. intros Hg (o & E & Ho). exists o. split; [by apply Hg | done]. Qed.

Lemma new_grows s s' p : grows s s' -> new_in s' p -> new_in s p.
Proof. unfold new_in. intros Hg E. destruct (objects s !! p) as [o|] eqn:E'; [| done]. apply Hg in E'. congruence. Qed.

Lemma grows_trans s1 s2 s3 : grows s1 s2 -> grows s2 s3 -> grows s1 s3.
Proof. unfold grows. naive_solver. Qed.

(** ** One connection *)
Lemma Open_opens addr user passwd db w :
  match Open handle hash addr user passwd db w with
  | (Done true, w') => opened hash (obj w') /\ db_sn_ (obj w') = Some (target_sn hash addr db)
  | _ => True
  end.
Proof.
  unfold Open. destruct (_ || _); [done |]. destruct w as [o d t]. unfold reset_connection.
  unfold mbind, M_bind, get_obj, catch, do, mret, M_ret, upd. cbn. calls_of handle; done.
Qed.

Lemma make_open addr user passwd db s :
  let '(p, s1) := make_db s in
  match db_Open p addr user passwd db s1 with
  | (Done b, s2) => new_in s p /\ grows s s2 /\ is_Some (objects s2 !! p) /\ (b = true -> known (target_sn hash addr db) s2 p)
  | _ => True
  end.
Proof.
  cbn. set (p := next_ptr _). pose proof (next_ptr_new (objects s)) as Hp. fold p in Hp.
  unfold on. cbn [objects]. rewrite lookup_insert_eq.
  pose proof (Open_opens addr user passwd db (mkWorld MysqlDB_init (sdrv s) (strace s))) as Ho. cbn [sdrv strace].
  destruct (Open handle hash addr user passwd db _) as [[b|e|] w]; [| done | done]. split_and!; [done | | |].
  - intros q o E. assert (p <> q) by (intros ->; by rewrite E in Hp). cbn. by rewrite !lookup_insert_ne.
  - cbn. by rewrite lookup_insert_eq.
  - intros ->. exists (obj w). cbn. by rewrite lookup_insert_eq.
Qed.

(** ** The connections of one configuration *)
Lemma open_loop_spec n addr user passwd db : forall pool cnt m s pool' cnt' S',
  open_loop n addr user passwd db pool cnt (mkSys m s) = (Done (pool', cnt'), S') ->
  man S' = m /\ grows s (world S') /\ exists l, pool' = pool ++ l /\ cnt' = cnt + Z.of_nat (length l) /\ NoDup l /\
    Forall (fun p => new_in s p /\ known (target_sn hash addr db) (world S') p) l.
Proof.
  induction n as [|n IH]; intros pool cnt m s pool' cnt' S'; cbn [open_loop].
  { intros [= <- <- <-]. split_and!; [done | by intros ? ? |]. exists []. rewrite app_nil_r.
    split_and!; [done | cbn; lia | constructor | constructor]. }
  unfold mbind, SysM_bind, make, DBMan.lift. cbn [world man]. pose proof (make_open addr user passwd db s) as Hm.
  destruct (make_db s) as [p s1]. cbn [world man].
  destruct (db_Open p addr user passwd db s1) as [[b|e|] s2]; [| done | done].
  destruct Hm as (Hp & Hg & Hs2 & Hk). cbn [world man].
  destruct b; intros E; apply IH in E as (Em & Hg' & l & -> & -> & Hnd & Hl).
  - split_and!; [done | by eapply grows_trans |]. exists (p :: l). rewrite <- app_assoc. split_and!; [done | cbn; lia | |].
    + constructor; [| done]. rewrite Forall_forall in Hl. intros Hin. destruct (Hl p Hin) as [Hn _]. unfold new_in in Hn.
      by rewrite Hn in Hs2; destruct Hs2.
    + constructor; [split; [done | by eapply known_grows, Hk] |]. eapply Forall_impl; [exact Hl |].
      intros q [Hq Hkq]. split; [by eapply new_grows | done].
  - split_and!; [done | by eapply grows_trans |]. exists l. split_and!; [done | done | done |].
    eapply Forall_impl; [exact Hl |]. intros q [Hq Hkq]. split; [by eapply new_grows | done].
Qed.

(** A pool of connections to the database [n]. *)
Lemma Init_pool_spec drv addr user passwd db size m s pool cnt S' :
  Init_pool drv addr user passwd db [] size (mkSys m s) = (Done (pool, cnt), S') ->
  man S' = m /\ grows s (world S') /\ cnt = Z.of_nat (length pool) /\ NoDup pool /\
  Forall (fun p => new_in s p /\ known (target_sn hash addr db) (world S') p) pool.
Proof.
  unfold Init_pool. destruct (_ || _).
  { intros [= <- <- <-]. split_and!; [done | by intros ? ? | done | constructor | constructor]. }
  destruct (bool_decide (drv = lit "mysql")).
  - intros E. apply open_loop_spec in E as (-> & Hg & l & -> & -> & Hnd & Hl). by rewrite app_nil_l, Z.add_0_l.
  - intros [= <- <- <-]. split_and!; [done | by intros ? ? | done | constructor | constructor].
Qed.

(** ** The pools of all configurations *)

(** The databases of the configurations. *)
Definition targets (config : list DBConnConfig) (n : Z) : Prop :=
  exists c, c ∈ config /\ n = target_sn hash (addr c) (db c).

(** Each pool holds connections to one of them. *)
Definition pool_of (config : list DBConnConfig) (s : Store D) (p : list dbptr) : Prop :=
  p <> [] /\ exists n, targets config n /\ Forall (known n s) p.

Lemma pool_of_grows config s s' p : grows s s' -> pool_of config s p -> pool_of config s' p.
Proof. intros Hg (Hp & n & Hn & Hk). split; [done |]. exists n. split; [done |]. eapply Forall_impl; [exact Hk |].
intros q. by apply known_grows. Qed.

(** All pools, no connection twice, none of them still to be made. *)
Definition pools_ok (config : list DBConnConfig) (s : Store D) (pools : list (list dbptr)) : Prop :=
  Forall (pool_of config s) pools /\ NoDup (concat pools).

Lemma pool_known config s p q : pool_of config s p -> q ∈ p -> is_Some (objects s !! q).
Proof. intros (_ & n & _ & Hk) Hq. rewrite Forall_forall in Hk. destruct (Hk q Hq) as (o & -> & _). by eexists. Qed.

Lemma pools_add config s s' pools p : grows s s' -> pools_ok config s pools -> pool_of config s' p -> NoDup p ->
  Forall (new_in s) p -> pools_ok config s' (pools ++ [p]).
Proof.
  intros Hg [Hf Hn] Hp Hnp Hnew. split.
  - apply Forall_app. split; [| by constructor]. eapply Forall_impl; [exact Hf |]. intros q. by apply pool_of_grows.
  - rewrite concat_app. cbn [concat]. rewrite app_nil_r. apply NoDup_app. split_and!; [done | | done].
    intros x Hx Hxp. apply list_elem_of_In, in_concat in Hx as (q & Hq & Hxq). apply list_elem_of_In in Hq, Hxq.
    rewrite Forall_forall in Hf. rewrite Forall_forall in Hnew. destruct (pool_known _ _ _ _ (Hf q Hq) Hxq) as [o E].
    specialize (Hnew x Hxp). unfold new_in in Hnew. congruence.
Qed.

(** The pools the manager has after [index] of the configurations were opened. *)
Definition pools_at (index : Z) (m : DBMan) : list (list dbptr) :=
  if index =? 0 then [] else dbPool_ m :: backup_pool_ m.
Definition empty_at (index : Z) (m : DBMan) : Prop := index = 0 -> dbPool_ m = [] /\ backup_pool_ m = [].

Lemma init_loop_spec all config : (forall c, c ∈ config -> c ∈ all) -> forall index m s S', 0 <= index ->
  pools_ok all s (pools_at index m) -> empty_at index m ->
  init_loop config index (mkSys m s) = (Done tt, S') ->
  grows s (world S') /\ exists index', 0 <= index' /\ pools_ok all (world S') (pools_at index' (man S')) /\ empty_at index' (man S').
Proof.
  induction config as [|c config IH]; intros Hall index m s S' Hi Hok He; cbn [init_loop].
  { intros [= <-]. split; [by intros ? ? | by exists index]. }
  unfold mbind, SysM_bind, undef, mret, SysM_ret. destruct (pool_size c =? 2 ^ 31 - 1); [done |].
  destruct (Init_pool (driverName c) _ _ _ _ _ _ _) as [[[pool cnt]|e|] S1] eqn:E; [| done | done].
  apply Init_pool_spec in E as (Em & Hg & -> & Hnd & Hl). destruct S1 as [m1 s1]. cbn [man world] in *. subst m1.
  assert (forall i m2, 0 <= i -> pools_ok all s1 (pools_at i m2) -> empty_at i m2 -> init_loop config i (mkSys m2 s1) = (Done tt, S') ->
    grows s (world S') /\ exists index', 0 <= index' /\ pools_ok all (world S') (pools_at index' (man S')) /\ empty_at index' (man S')) as Hrest.
  { intros i m2 Hi2 Hok2 He2 E2. destruct (IH ltac:(set_solver) i m2 s1 S' Hi2 Hok2 He2 E2) as [Hg2 ?].
    split; [by eapply grows_trans | done]. }
  destruct (Z.ltb_spec 0 (Z.of_nat (length pool))) as [Hlen|Hlen].
  - unfold upd_man. cbn [man world]. intros E. apply (Hrest (index + 1)) in E; [done | lia | | by intros ?; lia].
    assert (pools_ok all s1 (pools_at index m ++ [pool])) as Hadd.
    { apply (pools_add all s s1); [done | done | | done | by eapply Forall_impl; [exact Hl | intros ? []]].
      split; [by destruct pool |]. exists (target_sn hash (addr c) (db c)). split; [exists c; set_solver |].
      eapply Forall_impl; [exact Hl |]. by intros ? []. }
    unfold pools_at in Hadd |- *. rewrite (proj2 (Z.eqb_neq (index + 1) 0)) by lia.
    destruct (Z.eqb_spec index 0) as [->|Hne]; cbn [set_pool dbPool_ backup_pool_]; [| done].
    destruct (He eq_refl) as [_ ->]. done.
  - apply Hrest; [done | | done]. destruct Hok as [Hf Hn]. split; [| done].
    eapply Forall_impl; [exact Hf |]. intros q. by apply pool_of_grows.
Qed.

(** ** What [Init] leaves *)
Definition known_sn (s : Store D) (p : dbptr) : Z := default 0 (objects s !! p ≫= db_sn_).

Lemma known_sn_eq n s p : known n s p -> known_sn s p = n.
Proof. intros (o & E & _ & Hn). unfold known_sn. rewrite E. cbn. by rewrite Hn. Qed.

Lemma pool_one_database config live s p : pool_of config s p -> Forall live p ->
  exists n, targets config n /\ one_database live (known_sn s) n p.
Proof.
  intros (_ & n & Hn & Hk) Hl. exists n. split; [done |]. apply Forall_forall. intros q Hq.
  rewrite Forall_forall in Hk. rewrite Forall_forall in Hl. split; [by apply Hl | by apply known_sn_eq, Hk].
Qed.

Lemma pools_well_opened config s m : pools_ok config s (dbPool_ m :: backup_pool_ m) ->
  well_opened hash (fun p => p ∈ held m) (known_sn s) s.
Proof.
  intros [Hf _] q Hq. rewrite held_concat in Hq. apply list_elem_of_In, in_concat in Hq as (p & Hp & Hqp).
  apply list_elem_of_In in Hp. apply list_elem_of_In in Hqp. rewrite Forall_forall in Hf.
  destruct (Hf p Hp) as (_ & n & _ & Hk). rewrite Forall_forall in Hk. pose proof (Hk q Hqp) as Hkq.
  rewrite (known_sn_eq n s q Hkq). exact Hkq.
Qed.

(** What the manager is after [Init]: nothing at all, or pools that each user and
    the proxy can start from. *)
Definition initialised (config : list DBConnConfig) (m : DBMan) (s : Store D) : Prop :=
  dbPool_ m = [] /\ backup_pool_ m = [] \/
  owned (fun p => p ∈ held m) (m, []) /\ well_opened hash (fun p => p ∈ held m) (known_sn s) s /\
  Forall (fun p => exists n, targets config n /\ one_database (fun p => p ∈ held m) (known_sn s) n p) (dbPool_ m :: backup_pool_ m).

Lemma Init_initialised config s S' : config <> [] -> Init config (mkSys DBMan_init s) = (Done true, S') ->
  initialised config (man S') (world S') /\ check_running_ (man S') = true.
Proof.
  intros Hc. unfold Init. destruct config as [|c config]; [done |]. unfold mbind, SysM_bind, upd_man, mret, SysM_ret.
  destruct (init_loop _ _ _) as [[[]|e|] S1] eqn:E; [| done | done]. intros [= <-]. cbn [man world]. split; [| done].
  destruct (init_loop_spec (c :: config) (c :: config) ltac:(done) 0 DBMan_init s S1) as (_ & i & _ & Hok & He); [done | | done | done |].
  { split; constructor. }
  unfold initialised. cbn [dbPool_ backup_pool_]. unfold pools_at, empty_at in *.
  destruct (Z.eqb_spec i 0) as [Hi|Hi]; [left; by apply He |].
  right. set (m := mkMan _ _ _ _). change (dbPool_ (man S1)) with (dbPool_ m) in Hok |- *.
  change (backup_pool_ (man S1)) with (backup_pool_ m) in Hok |- *.
  pose proof Hok as [Hf Hn]. split_and!; [| by eapply pools_well_opened |].
  - split; [eapply Forall_impl; [exact Hf | by intros p []] |]. unfold everywhere. cbn [fst snd]. rewrite app_nil_r.
    split; [by rewrite held_concat | by apply Forall_forall].
  - apply Forall_forall. intros p Hp. rewrite Forall_forall in Hf. apply pool_one_database; [by apply Hf |].
    apply Forall_forall. intros q Hq. rewrite held_concat. apply list_elem_of_In, in_concat. exists p.
    by rewrite <- !list_elem_of_In.
Qed.

(** ** [Init] is defined *)
Lemma Open_defined addr user passwd db w : (Open handle hash addr user passwd db w).1 <> Undef.
Proof.
  unfold Open. destruct (_ || _); [done |]. destruct w as [o d t]. unfold reset_connection.
  unfold mbind, M_bind, get_obj, catch, do, mret, M_ret, upd. cbn. calls_of handle; done.
Qed.

Lemma open_loop_defined n addr user passwd db : forall pool cnt S, (open_loop n addr user passwd db pool cnt S).1 <> Undef.
Proof.
  induction n as [|n IH]; intros pool cnt [m s]; cbn [open_loop]; [done |].
  unfold mbind, SysM_bind, make, DBMan.lift. cbn. unfold on. cbn [objects]. rewrite lookup_insert_eq.
  pose proof (Open_defined addr user passwd db (mkWorld MysqlDB_init (sdrv s) (strace s))) as Ho. cbn [sdrv strace].
  destruct (Open handle hash addr user passwd db _) as [[[|]|e|] w]; [apply IH | apply IH | done | done].
Qed.

Lemma Init_defined config S : Forall (fun c => pool_size c < 2 ^ 31 - 1) config -> (Init config S).1 <> Undef.
Proof.
  intros Hc. assert (forall index S, (init_loop config index S).1 <> Undef) as Hl.
  { induction Hc as [|c config Hs _ IH]; intros index S1; cbn [init_loop]; [done |].
    rewrite (proj2 (Z.eqb_neq (pool_size c) (2 ^ 31 - 1))) by lia. unfold mbind, SysM_bind, mret, SysM_ret, upd_man.
    assert ((Init_pool (driverName c) (addr c) (user c) (passwd c) (db c) [] (pool_size c + 1) S1).1 <> Undef) as Hp.
    { unfold Init_pool. destruct (_ || _); [done |]. destruct (bool_decide _); [apply open_loop_defined | done]. }
    destruct (Init_pool _ _ _ _ _ _ _ S1) as [[[pool cnt]|e|] S2]; [destruct (0 <? cnt); apply IH | done | done]. }
  unfold Init. destruct config as [|c config]; [done |]. unfold mbind, SysM_bind, upd_man, mret, SysM_ret.
  specialize (Hl 0 S). by destruct (init_loop (c :: config) 0 S) as [[[]|e|] S'].
Qed.

(** ** Calls of the proxy keep it *)
Inductive proxy_use : Sys (Store D) -> Sys (Store D) -> Prop :=
  | use_Exec timed_out sql S : proxy_use S (DBProxy.Exec timed_out sql S).2
  | use_Prepared timed_out sql S : proxy_use S (DBProxy.Prepared timed_out sql S).2
  | use_Query timed_out sql S : proxy_use S (DBProxy.Query timed_out sql S).2.

Context (live : dbptr -> Prop) (sn : dbptr -> Z).

(** The main pool serves the database [n], the last connection is [mon]. *)
Record serving (n : Z) (mon : dbptr) (pool : list dbptr) (S : Sys (Store D)) : Prop := {
  serving_opened : well_opened hash live sn (world S);
  serving_database : one_database live sn n (dbPool_ (man S));
  serving_monitor : last (dbPool_ (man S)) = Some mon;
  serving_pool : dbPool_ (man S) ⊆+ pool }.

Lemma rotated_serving n mon pool d q m s s' : serving n mon pool (mkSys m s) -> dbPool_ m = (d :: q) ++ [mon] ->
  well_opened hash live sn s' -> forall l, l = q \/ l = q ++ [d] -> serving n mon pool (mkSys (set_pool (l ++ [mon]) m) s').
Proof.
  intros [Ho Hd Hm Hp] E Hs' l Hl. cbn [man world] in *. rewrite E in *.
  assert (l ++ [mon] ⊆+ (d :: q) ++ [mon]) as Hsub by (destruct Hl as [->| ->]; solve_submseteq).
  split; cbn [man world set_pool dbPool_].
  - done.
  - apply Forall_forall. intros x Hx. unfold one_database in Hd. rewrite Forall_forall in Hd. apply Hd.
    by apply (elem_of_submseteq _ _ _ Hx Hsub).
  - by rewrite last_snoc.
  - by etrans.
Qed.

Lemma await_serving {A} (k : kind A) sql (m0 : M D (A * SQLError)) timed_out n mon pool S :
  emits m0 (attempts k sql) -> serving n mon pool S ->
  serving n mon pool (await timed_out (none k) (lambda (fun p => on (with_retry handle hash (none k) m0) p)) S).2.
Proof.
  intros Hm Hs. destruct S as [m s]. pose proof Hs as [Ho Hd Hl Hp]. cbn [man world] in *.
  destruct (dbPool_ m) as [|d q'] eqn:E; [done |]. destruct (last_Some (d :: q') mon) as [[q0 Eq] _]; [done |].
  destruct q0 as [|d0 q].
  - rewrite await_hangs; [done |]. rewrite E, Eq. cbn. lia.
  - rewrite Eq in *. injection Eq as -> ->.
    destruct (await_spec handle hash live sn k sql m0 timed_out n d0 q mon m s Hm Ho E Hd) as (r & s' & Hs' & _ & Hr).
    destruct r as [a|e|]; [| | done]; rewrite Hr; cbn [snd]; by eapply rotated_serving; eauto.
Qed.

Lemma proxy_use_serving n mon pool S S' : proxy_use S S' -> serving n mon pool S -> serving n mon pool S'.
Proof.
  destruct 1 as [timed_out sql S|timed_out sql S|timed_out sql S]; intros Hs.
  - unfold DBProxy.Exec. rewrite CheckSql_spec. destruct (negb _); [| done].
    apply (await_serving exec_kind (Assist.ltrim sql) (MysqlExec handle _) _ n); [apply MysqlExec_attempts | done].
  - apply (await_serving prepared_kind sql (MysqlPrepared handle sql) _ n); [apply MysqlPrepared_attempts | done].
  - apply (await_serving query_kind sql (MysqlQuery handle sql) _ n); [apply MysqlQuery_attempts | done].
Qed.

Lemma proxy_uses_serving n mon pool S S' : rtc proxy_use S S' -> serving n mon pool S -> serving n mon pool S'.
Proof. induction 1 as [|x y z Hu _ IH]; [done |]. intros Hs. apply IH. by eapply proxy_use_serving. Qed.

(** On a pool without a connection free the calls change nothing. *)
Lemma proxy_uses_empty S S' : rtc proxy_use S S' -> dbPool_ (man S) = [] -> S' = S.
Proof.
  induction 1 as [|S S1 S' Hu _ IH]; [done |]. intros Hd. assert (S1 = S) as ->; [| by apply IH].
  assert (forall A (none : A) f timed_out, (await timed_out none (lambda f) S).2 = S) as Ha.
  { intros A none f timed_out. destruct S as [m s]. rewrite await_hangs; [done |]. cbn [man] in Hd. by rewrite Hd; cbn; lia. }
  destruct Hu as [timed_out sql S|timed_out sql S|timed_out sql S]; [| apply Ha | apply Ha].
  unfold DBProxy.Exec. rewrite CheckSql_spec. destruct (negb _); [apply Ha | done].
Qed.

(** [Query] with a connection free returns to its caller. *)
Lemma query_answers n mon pool timed_out sql S : serving n mon pool S -> (2 <= length (dbPool_ (man S)))%nat ->
  (exists r, (DBProxy.Query timed_out sql S).1 = Done (Some r)) \/ (DBProxy.Query timed_out sql S).1 = Raised StdException.
Proof.
  intros [Ho Hd Hl Hp] Hlen. destruct S as [m s]. cbn [man world] in *.
  apply last_Some in Hl as [[|d q] E]; [rewrite E in Hlen; cbn in Hlen; lia |]. rewrite E in Hd.
  destruct (await_spec handle hash live sn query_kind sql (MysqlQuery handle sql) timed_out n d q mon m s
    (MysqlQuery_attempts handle sql) Ho E Hd) as (r & s' & _ & _ & Hr).
  destruct r as [a|e|]; [| | done].
  - left. eexists. exact (f_equal fst Hr).
  - destruct timed_out; [left; eexists | right]; exact (f_equal fst Hr).
Qed.
End Init.

Section FromStart.
Context {D : Type} (handle : forall T, call T -> D -> (exn + T) * D) (hash : str -> Z).
#[local] Hint Extern 0 (BaseDB _) => exact (MysqlStore handle hash) : typeclass_instances.

(** C19: from a configuration to any sequence of proxy calls, whatever the servers
    answer.  [Init] is defined when no [pool_size] is the largest [int].  When it
    answers true it may have made no connection at all.  Otherwise its pools are
    what [pool_ownership] starts from - none empty, every connection in one
    place - and each holds connections to one configured database; the calls keep the
    main pool on that database, the monitor's connection last, and take connections
    out of it, never in.  At any time a query hangs when the main pool has fewer
    than two connections (none, or the monitor's alone), and returns to its
    caller, with a result or an exception, when it has more. *)
Theorem init_then_proxy config s :
  (Forall (fun c => pool_size c < 2 ^ 31 - 1) config -> (Init config (mkSys DBMan_init s)).1 <> Undef) /\
  forall S0 S, config <> [] -> Init config (mkSys DBMan_init s) = (Done true, S0) -> rtc (proxy_use handle hash) S0 S ->
  let live p := p ∈ held (man S0) in
  let sn := known_sn (world S0) in
  (dbPool_ (man S0) <> [] ->
     owned live (man S0, []) /\
     Forall (fun p => exists n, targets hash config n /\ one_database live sn n p) (backup_pool_ (man S0)) /\
     exists n mon, targets hash config n /\ serving hash live sn n mon (dbPool_ (man S0)) S) /\
  forall timed_out sql,
    if (length (dbPool_ (man S)) <? 2)%nat then DBProxy.Query timed_out sql S = (Done None, S)
    else (exists r, (DBProxy.Query timed_out sql S).1 = Done (Some r)) \/
         (DBProxy.Query timed_out sql S).1 = Raised StdException.
Proof.
  split; [apply Init_defined |]. intros S0 S Hc E Hr live sn. destruct (Init_initialised handle hash config s S0 Hc E) as [Hi _].
  assert (dbPool_ (man S0) <> [] -> owned live (man S0, []) /\
     Forall (fun p => exists n, targets hash config n /\ one_database live sn n p) (backup_pool_ (man S0)) /\
     exists n mon, targets hash config n /\ serving hash live sn n mon (dbPool_ (man S0)) S) as Hmade.
  { intros Hd. destruct Hi as [[? _]|(Ho & Hw & Hf)]; [done |]. apply Forall_cons in Hf as [(n & Hn & Hone) Hb].
    split_and!; [done | done |]. destruct (last (dbPool_ (man S0))) as [mon|] eqn:El; [| by apply last_None in El].
    exists n, mon. split; [done |]. by eapply proxy_uses_serving. }
  split; [done |]. intros timed_out sql. destruct (Nat.ltb_spec (length (dbPool_ (man S))) 2) as [Hlt|Hge].
  - destruct S as [m w]. by apply await_hangs.
  - destruct (decide (dbPool_ (man S0) = [])) as [Hd|Hd].
    + assert (S = S0) as -> by (by eapply proxy_uses_empty). rewrite Hd in Hge. cbn in Hge. lia.
    + destruct (Hmade Hd) as (_ & _ & n & mon & _ & Hs). by eapply query_answers.
Qed.
End FromStart.

(** ** Witness: one server, two connections and the monitor's *)
Definition one_server : list DBConnConfig := [mkConfig (lit "mysql") (lit "db:3306") (lit "u") (lit "p") (lit "t") 2].
Definition started : outcome bool * Sys (Store unit) :=
  Init (H := MysqlStore demo_handle (fun _ => 0)) one_server (mkSys DBMan_init (mkStore ∅ tt [])).

Lemma init_then_proxy_witness :
  owned (fun p => p ∈ held (man started.2)) (man started.2, []) /\ length (dbPool_ (man started.2)) = 3%nat.
Proof.
  assert (started.1 = Done true) as E by (vm_compute; reflexivity).
  assert (length (dbPool_ (man started.2)) = 3%nat) as El by (vm_compute; reflexivity).
  split; [| exact El].
  assert (started = (Done true, started.2)) as Es by (rewrite <- E; by destruct started).
  assert (dbPool_ (man started.2) <> []) as Hne by (intros Hn; rewrite Hn in El; discriminate El).
  exact (proj1 (proj1 (proj2 (init_then_proxy demo_handle (fun _ => 0) one_server (mkStore ∅ tt [])) started.2 started.2
    ltac:(discriminate) Es (rtc_refl _ _)) Hne)).
Defined.
