(* ===== verification/PoolThreads.v ===== *)
(** * The threads of the connection pools

    What callers, the checking thread and the keep-alive thread of
    [src/src/database/src/dbman.cpp] do to the pools and the connections, in any
    interleaving.  What runs under [mutex_] is one step.  The checking thread's work on
    its connection is a step, and so is each of its accesses to the pools: the
    read of [backup_pool_.empty()] and that of [dbPool_.back()], which do not take
    the mutex, and the swap, which does.  A read without the mutex that another
    thread's write can stand next to is a data race ([back_race], [empty_race]). *)
From S2P Require Import Prelude CStr StdString StringAssist Mysql MysqlProps DBMan DBProxy DBProps ProxyProps PoolInit.
Open Scope Z_scope.

Section Threads.
Context {D : Type} (handle : forall T, call T -> D -> (exn + T) * D) (hash : str -> Z).
#[local] Hint Extern 0 (BaseDB _) => exact (MysqlStore handle hash) : typeclass_instances.

(** ** The system *)
Variant statement : Type := SExec (sql : str) | SPrepared (sql : str) | SQuery (sql : str).

Definition forget {A} (r : outcome A * Store D) : outcome unit * Store D :=
  (match r.1 with Done _ => Done tt | Raised e => Raised e | Undef => Undef end, r.2).

Definition run_statement (st : statement) (d : dbptr) (s : Store D) : outcome unit * Store D :=
  match st with
  | SExec sql => forget (db_Exec d sql s)
  | SPrepared sql => forget (db_Prepared d sql s)
  | SQuery sql => forget (db_Query d sql s)
  end.

(** Where the checking thread is: before [dbPool_.empty()] at its start, at the head
    of its loop, before the query, before one of its accesses to the pools. *)
Variant after : Type := ThenProbe | ThenAsk.
Inductive point : Type :=
  | Begin | Probe (p : dbptr) | Ask (p : dbptr) | LookEmpty (a : after) | Swap (a : after) | Back (a : after) | Ended.

Definition resume (a : after) (p : dbptr) : point := match a with ThenProbe => Probe p | ThenAsk => Ask p end.

(** The manager and the connections, what callers hold, and the checking thread. *)
Record State : Type := mkState { sys : Sys (Store D); busy : list dbptr; checker : point }.

Inductive step : State -> State -> Prop :=
  | step_take m m' s b c d : DBMan.GetDB m = (Some d, m') -> step (mkState (mkSys m s) b c) (mkState (mkSys m' s) (d :: b) c)
  | step_run st m s s' b c d : d ∈ b -> run_statement st d s = (Done tt, s') -> step (mkState (mkSys m s) b c) (mkState (mkSys m s') b c)
  | step_raise st m s s' b1 b2 c d e : run_statement st d s = (Raised e, s') ->
      step (mkState (mkSys m s) (b1 ++ d :: b2) c) (mkState (mkSys m s') (b1 ++ b2) c)
  | step_give S S' b1 b2 c d : PushDB (Some d) S = (Done tt, S') -> step (mkState S (b1 ++ d :: b2) c) (mkState S' (b1 ++ b2) c)
  | step_begin S b : step (mkState S b Begin) (mkState S b (if bool_decide (dbPool_ (man S) = []) then Ended else Back ThenProbe))
  | step_stop S b p : check_running_ (man S) = false -> step (mkState S b (Probe p)) (mkState S b Ended)
  | step_probe S S' b p r : check_running_ (man S) = true -> check_probe p S = (Done r, S') ->
      step (mkState S b (Probe p)) (mkState S' b (match r with Valid => Ask p | Reconnected => Probe p | Dead => LookEmpty ThenAsk end))
  | step_ask S S' b p ok : check_query p S = (Done ok, S') ->
      step (mkState S b (Ask p)) (mkState S' b (if (ok : bool) then Probe p else LookEmpty ThenProbe))
  | step_look S S' b a empty : no_backup S = (Done empty, S') ->
      step (mkState S b (LookEmpty a)) (mkState S' b (if (empty : bool) then Ended else Swap a))
  | step_swap m s b a : step (mkState (mkSys m s) b (Swap a)) (mkState (mkSys (SwapDBPool m) s) b (Back a))
  | step_back S S' b a q : pool_back S = (Done q, S') -> step (mkState S b (Back a)) (mkState S' b (resume a q))
  | step_active S S' b c : ActivePool (dbPool_ (man S)) (u64 (Z.of_nat (length (dbPool_ (man S))) - 1)) S = (Done tt, S') ->
      step (mkState S b c) (mkState S' b c)
  | step_backups S S' b c : active_backups (backup_pool_ (man S)) S = (Done tt, S') -> step (mkState S b c) (mkState S' b c).

(** ** Code that only uses connections *)
Context (live : dbptr -> Prop) (sn : dbptr -> Z).

(** It has defined behaviour, keeps the databases and leaves the pools alone. *)
Definition quiet {A} (c : SysM (Store D) A) : Prop := forall m s, well_opened hash live sn s ->
  (c (mkSys m s)).1 <> Undef /\ man (c (mkSys m s)).2 = m /\ well_opened hash live sn (world (c (mkSys m s)).2).

Lemma quiet_ret {A} (a : A) : quiet (mret a).
Proof. by intros m s Hs. Qed.

Lemma quiet_bind {A B} (c : SysM (Store D) A) (k : A -> SysM (Store D) B) : quiet c -> (forall a, quiet (k a)) -> quiet (c ≫= k).
Proof.
  intros Hc Hk m s Hs. destruct (Hc m s Hs) as (Hu & Hm & Hw). unfold mbind, SysM_bind.
  destruct (c (mkSys m s)) as [[a|e|] [m' s']]; cbn [fst snd man world] in *; [subst m'; by apply Hk | done | done].
Qed.

(** A method of a connection. *)
Lemma quiet_on {A} (m0 : M D A) p : keeps_db hash m0 -> (forall w, (m0 w).1 <> Undef) -> live p -> quiet (DBMan.lift (on m0 p)).
Proof.
  intros Hk Hu Hp m s Hs. pose proof (on_well_opened hash m0 live sn p s Hk Hs) as Hs'. destruct (Hs p Hp) as (o & E & _).
  unfold DBMan.lift. cbn [world man]. unfold on in *. rewrite E in *. specialize (Hu (mkWorld o (sdrv s) (strace s))).
  destruct (m0 _) as [r w]. by cbn in *.
Qed.

Lemma emits_defined {A} (m0 : M D A) (Q : MysqlDB -> outcome A -> MysqlDB -> list event -> Prop) :
  emits m0 Q -> (forall o o' l, ~ Q o Undef o' l) -> forall w, (m0 w).1 <> Undef.
Proof. intros Hm HQ w E. destruct (Hm w) as (l & _ & H). rewrite E in H. by eapply HQ. Qed.

Lemma statement_defined {A} (k : kind A) sql (m0 : M D (A * SQLError)) : emits m0 (attempts k sql) ->
  forall w, (with_retry handle hash (none k) m0 w).1 <> Undef.
Proof. intros Hm. eapply emits_defined; [by apply (with_retry_spec handle hash k sql) |].
apply statement_spec_defined. Qed.

Lemma quiet_Query p sql : live p -> quiet (DBMan.lift (db_Query p sql)).
Proof.
  intros Hp. pose proof (MysqlQuery_attempts handle sql) as Ha. apply (quiet_on (Mysql.Query handle hash sql)); [| | done].
  - by eapply keeps_with_retry, attempt_keeps.
  - exact (statement_defined _ _ _ Ha).
Qed.

Lemma quiet_Reconnect p : live p -> quiet (DBMan.lift (db_Reconnect p)).
Proof.
  intros Hp. apply (quiet_on (Reconnect handle hash)); [apply keeps_Reconnect | | done].
  eapply emits_defined; [apply Reconnect_spec |]. intros o o' l (_ & _ & _ & []).
Qed.

Lemma quiet_IsValid p : live p -> quiet (DBMan.lift (db_IsValid p)).
Proof.
  intros Hp. apply (quiet_on (IsValid handle)); [| | done]; unfold IsValid; intros [o d t];
    unfold mbind, M_bind, get_obj, catch, do, mret, M_ret; cbn; calls_of handle; done.
Qed.

Lemma quiet_reconnect_attempts n p : live p -> quiet (reconnect_attempts n p).
Proof.
  intros Hp. induction n as [|n IH]; cbn [reconnect_attempts]; [apply quiet_ret |].
  apply quiet_bind; [by apply quiet_Reconnect |]. intros [|]; [apply quiet_ret | done].
Qed.

Lemma quiet_active_loop n : forall pool, (n <= length pool)%nat -> Forall live pool -> quiet (active_loop n pool).
Proof.
  induction n as [|n IH]; intros pool Hn Hl; cbn [active_loop]; [apply quiet_ret |].
  destruct pool as [|p pool]; [by apply Nat.nle_succ_0 in Hn |].
  apply Forall_cons in Hl as [Hp Hl]. apply quiet_bind; [by apply quiet_Query |]. intros [res err]. apply quiet_bind.
  - destruct (_ || _); [| apply quiet_ret]. apply quiet_bind; [by apply quiet_reconnect_attempts |]. intros _.
    apply quiet_ret.
  - intros _. apply IH; [cbn in Hn; lia | done].
Qed.

Lemma quiet_backups pools : Forall (Forall live) pools -> quiet (active_backups pools).
Proof.
  induction 1 as [|p pools Hp _ IH]; cbn [active_backups]; [apply quiet_ret |]. apply quiet_bind; [| done].
  apply quiet_active_loop; [by rewrite Nat2Z.id | done].
Qed.

(** The statements of callers. *)
Lemma quiet_Exec p sql : live p -> quiet (DBMan.lift (db_Exec p sql)).
Proof.
  intros Hp. pose proof (MysqlExec_attempts handle sql) as Ha. apply (quiet_on (Mysql.Exec handle hash sql)); [| | done].
  - by eapply keeps_with_retry, attempt_keeps.
  - exact (statement_defined _ _ _ Ha).
Qed.

Lemma quiet_Prepared p sql : live p -> quiet (DBMan.lift (db_Prepared p sql)).
Proof.
  intros Hp. pose proof (MysqlPrepared_attempts handle sql) as Ha.
  apply (quiet_on (Mysql.Prepared handle hash sql)); [| | done].
  - by eapply keeps_with_retry, attempt_keeps.
  - exact (statement_defined _ _ _ Ha).
Qed.

Lemma quiet_forget {A} (f : Store D -> outcome A * Store D) s : quiet (DBMan.lift f) -> well_opened hash live sn s ->
  (forget (f s)).1 <> Undef /\ well_opened hash live sn (forget (f s)).2.
Proof.
  intros Hq Hs. destruct (Hq DBMan_init s Hs) as (Hu & _ & Hw). unfold DBMan.lift in *. cbn [world man] in *.
  destruct (f s) as [[a|e|] s']; done.
Qed.

Lemma run_statement_defined st d s : live d -> well_opened hash live sn s ->
  (run_statement st d s).1 <> Undef /\ well_opened hash live sn (run_statement st d s).2.
Proof. intros Hd. destruct st; apply quiet_forget; [by apply quiet_Exec | by apply quiet_Prepared | by apply quiet_Query].
Qed.

(** ** The checking thread *)
Definition wp {A} (c : SysM (Store D) A) (Q : A -> DBMan -> Prop) (m : DBMan) : Prop :=
  forall s, well_opened hash live sn s ->
    match c (mkSys m s) with
    | (Done a, S') => Q a (man S') /\ well_opened hash live sn (world S')
    | (Raised _, S') => True
    | (Undef, _) => False
    end.

Lemma wp_quiet {A} (c : SysM (Store D) A) Q m : quiet c -> (forall a, Q a m) -> wp c Q m.
Proof.
  intros Hc HQ s Hs. destruct (Hc m s Hs) as (Hu & Hm & Hw).
  destruct (c (mkSys m s)) as [[a|e|] S']; cbn [fst snd] in *; [| done | done].
  rewrite Hm. by split.
Qed.

Lemma wp_ret {A} (a : A) (Q : A -> DBMan -> Prop) m : Q a m -> wp (mret a) Q m.
Proof. by intros HQ s Hs. Qed.

Lemma wp_get (Q : DBMan -> DBMan -> Prop) m : Q m m -> wp get_man Q m.
Proof. by intros HQ s Hs. Qed.

Lemma wp_bind {A B} (c : SysM (Store D) A) (k : A -> SysM (Store D) B) Q m :
  wp c (fun a m' => wp (k a) Q m') m -> wp (c ≫= k) Q m.
Proof.
  intros Hc s Hs. specialize (Hc s Hs). unfold mbind, SysM_bind.
  destruct (c (mkSys m s)) as [[a|e|] [m' s']]; [| done | done]. destruct Hc as [Hk Hw]. by apply Hk.
Qed.

Lemma wp_conseq {A} (c : SysM (Store D) A) (Q R : A -> DBMan -> Prop) m : wp c Q m -> (forall a m', Q a m' -> R a m') -> wp c R m.
Proof.
  intros Hc HQ s Hs. specialize (Hc s Hs). destruct (c (mkSys m s)) as [[a|e|] S']; [| done | done].
  destruct Hc. split; [by apply HQ | done].
Qed.

(** No pool is empty, all connections can be used. *)
Definition pools_usable (m : DBMan) : Prop := Forall (usable live) (dbPool_ m :: backup_pool_ m).
Definition swaps : DBMan -> DBMan -> Prop := rtc (fun m m' => m' = SwapDBPool m).

Lemma swap_usable m : pools_usable m -> pools_usable (SwapDBPool m).
Proof. unfold pools_usable. by rewrite SwapDBPool_perm. Qed.

Lemma swaps_usable m m' : swaps m m' -> pools_usable m -> pools_usable m'.
Proof. induction 1 as [|m m1 m' -> _ IH]; [done |]. intros Hm. by apply IH, swap_usable. Qed.

Lemma usable_last m : pools_usable m -> exists q, last (dbPool_ m) = Some q /\ live q.
Proof.
  intros [[Hm Hl] _]%Forall_cons. destruct (last (dbPool_ m)) as [q|] eqn:E; [| by apply last_None in E].
  exists q. split; [done |]. rewrite Forall_forall in Hl. by apply Hl, last_Some_elem_of.
Qed.

Lemma quiet_probe p : live p -> quiet (check_probe p).
Proof.
  intros Hp. apply quiet_bind; [by apply quiet_IsValid |]. intros [|]; [apply quiet_ret |].
  apply quiet_bind; [by apply quiet_reconnect_attempts | intros ok; apply quiet_ret].
Qed.

Lemma quiet_check_query p : live p -> quiet (check_query p).
Proof. intros Hp. apply quiet_bind; [by apply quiet_Query | intros [res err]; apply quiet_ret]. Qed.

(** ** The invariant *)

(** The checking thread works on the last connection of the main pool, swaps when there
    is a backup, and ends when there is none. *)
Definition point_ok (c : point) (m : DBMan) : Prop :=
  match c with
  | Probe p | Ask p => last (dbPool_ m) = Some p
  | Swap _ => backup_pool_ m <> []
  | Ended => backup_pool_ m = []
  | _ => True
  end.

Record safe (P : Z -> Prop) (k : nat) (x : State) : Prop := {
  safe_owned : owned live (man (sys x), busy x);
  safe_opened : well_opened hash live sn (world (sys x));
  safe_pools : Forall (fun p => exists n, P n /\ one_database live sn n p) (dbPool_ (man (sys x)) :: backup_pool_ (man (sys x)));
  safe_checker : point_ok (checker x) (man (sys x));
  safe_backups : length (backup_pool_ (man (sys x))) = k;
  safe_running : check_running_ (man (sys x)) = true }.

Lemma safe_usable P k x : safe P k x -> pools_usable (man (sys x)).
Proof. intros Hs. destruct (owned_usable live (man (sys x)) (busy x) (safe_owned _ _ _ Hs)) as (H1 & H2 & _).
by constructor. Qed.

Lemma swap_backups m : length (backup_pool_ (SwapDBPool m)) = length (backup_pool_ m).
Proof. unfold SwapDBPool. destruct (backup_pool_ m) as [|p ps] eqn:E; [cbn; by rewrite E |]. cbn. rewrite length_app. cbn.
lia. Qed.

(** Steps that leave the pools and the holders alone. *)
Lemma safe_quiet P k m s s' b c : safe P k (mkState (mkSys m s) b c) -> well_opened hash live sn s' -> safe P k (mkState (mkSys m s') b c).
Proof. intros [Ho Hw Hf Hc Hk Hr] Hs'. by split. Qed.

(** The checking thread moves on. *)
Lemma safe_move P k m s s' b c c' : safe P k (mkState (mkSys m s) b c) -> well_opened hash live sn s' -> point_ok c' m ->
  safe P k (mkState (mkSys m s') b c').
Proof. intros [Ho Hw Hf Hc Hk Hr] Hs' Hc'. by split. Qed.

Lemma safe_swap P k m s b a c : safe P k (mkState (mkSys m s) b c) -> safe P k (mkState (mkSys (SwapDBPool m) s) b (Back a)).
Proof.
  intros [Ho Hw Hf Hc Hk Hr]. split; cbn [sys busy checker man world] in *; try done.
  - apply (use_owned live sn (m, b)); [constructor | done].
  - by rewrite SwapDBPool_perm.
  - by rewrite swap_backups.
  - unfold SwapDBPool. by destruct (backup_pool_ m).
Qed.

(** Dropping a connection. *)
Lemma owned_drop m b1 d b2 : owned live (m, b1 ++ d :: b2) -> owned live (m, b1 ++ b2).
Proof.
  intros (Hp & Hn & Hl). unfold owned, everywhere in *. cbn [fst snd] in *. rewrite <- Permutation_middle in Hn, Hl.
  rewrite <- Permutation_middle in Hn. apply NoDup_cons in Hn as [_ Hn]. rewrite <- Permutation_middle in Hl.
  by apply Forall_cons in Hl as [_ Hl].
Qed.

(** Taking a connection and giving one back keep each pool on its database and
    the last connection in its place. *)
Lemma take_pools (P : Z -> Prop) m m' d : DBMan.GetDB m = (Some d, m') ->
  Forall (fun p => exists n, P n /\ one_database live sn n p) (dbPool_ m :: backup_pool_ m) ->
  Forall (fun p => exists n, P n /\ one_database live sn n p) (dbPool_ m' :: backup_pool_ m') /\
  last (dbPool_ m') = last (dbPool_ m) /\ backup_pool_ m' = backup_pool_ m.
Proof.
  unfold DBMan.GetDB. destruct (dbPool_ m) as [|x q] eqn:E; [done |].
  destruct (Z.leb_spec 2 (Z.of_nat (length (x :: q)))) as [Hl|]; [| done].
  intros [= <- <-] [(n & Hn & Hd) Hb]%Forall_cons. cbn [set_pool dbPool_ backup_pool_]. split_and!; [| | done].
  - constructor; [| done]. exists n. split; [done |]. by apply Forall_cons in Hd as [_ Hd].
  - destruct q; [cbn in Hl; lia | done].
Qed.

Lemma give_pools (P : Z -> Prop) m d : live d -> dbPool_ m <> [] ->
  Forall (fun p => exists n, P n /\ one_database live sn n p) (dbPool_ m :: backup_pool_ m) ->
  Forall (fun p => exists n, P n /\ one_database live sn n p) (dbPool_ (pushed sn d m) :: backup_pool_ (pushed sn d m)) /\
  last (dbPool_ (pushed sn d m)) = last (dbPool_ m) /\ backup_pool_ (pushed sn d m) = backup_pool_ m.
Proof.
  intros Hd Hne Hf. unfold pushed. destruct (dbPool_ m) as [|x q] eqn:E; [done |].
  destruct (Z.eqb_spec (sn x) (sn d)) as [Es|]; [| by rewrite E].
  cbn [set_pool dbPool_ backup_pool_]. apply Forall_cons in Hf as [(n & Hn & Hx) Hb]. split_and!; [| | done].
  - constructor; [| done]. exists n. split; [done |]. unfold one_database. rewrite insert_before_last_perm.
    constructor; [| done].
    apply Forall_cons in Hx as [[_ Hx] _]. split; [done | congruence].
  - destruct (last (x :: q)) as [mon|] eqn:El; [| by apply last_None in El]. apply last_Some in El as [q0 ->].
    by rewrite insert_before_last_snoc, last_snoc.
Qed.

Lemma safe_keep P k (f : SysM (Store D) unit) S S' b c : safe P k (mkState S b c) -> quiet f -> f S = (Done tt, S') -> safe P k (mkState S' b c).
Proof.
  destruct S as [m s]. intros Hs Hq E. destruct (Hq m s (safe_opened _ _ _ Hs)) as (_ & Hm & Hw). rewrite E in Hm, Hw.
  destruct S' as [m' s']. cbn [snd man world] in *. subst m'. by eapply safe_quiet.
Qed.

Lemma quiet_active m : pools_usable m -> quiet (ActivePool (dbPool_ m) (u64 (Z.of_nat (length (dbPool_ m)) - 1))).
Proof.
  intros [[Hne Hl] _]%Forall_cons. apply quiet_active_loop; [| done]. destruct (dbPool_ m) as [|p q]; [done |]. cbn [length].
  unfold u64, wrap. pose proof (Z.mod_le (Z.of_nat (S (length q)) - 1) (2 ^ 64) ltac:(lia) ltac:(lia)). lia.
Qed.

Lemma quiet_keep_backups m : pools_usable m -> quiet (active_backups (backup_pool_ m)).
Proof. intros [_ Hb]%Forall_cons. apply quiet_backups. eapply Forall_impl; [exact Hb |]. by intros p []. Qed.

(** A step of a holder or of the keep-alive thread keeps what the checking thread relies on. *)
Lemma point_ok_stable c m m' : last (dbPool_ m') = last (dbPool_ m) -> backup_pool_ m' = backup_pool_ m -> point_ok c m -> point_ok c m'.
Proof. intros Hl Hb. destruct c; cbn; rewrite ?Hl, ?Hb; done. Qed.

Lemma safe_take P k m m' s b c d : safe P k (mkState (mkSys m s) b c) -> DBMan.GetDB m = (Some d, m') ->
  safe P k (mkState (mkSys m' s) (d :: b) c).
Proof.
  intros [Ho Hw Hf Hc Hk Hr] Hg. cbn [sys busy checker man world] in *. destruct (take_pools P m m' d Hg Hf) as (Hf' & Hl & Hb).
  split; cbn [sys busy checker man world]; [| done | done | by eapply point_ok_stable | by rewrite Hb |].
  - apply (use_owned live sn (m, b)); [by constructor | done].
  - unfold DBMan.GetDB in Hg. destruct (dbPool_ m); [done |]. destruct (2 <=? _); [| done]. by injection Hg as _ <-.
Qed.

Lemma safe_give P k m s b1 b2 c d S' : safe P k (mkState (mkSys m s) (b1 ++ d :: b2) c) -> PushDB (Some d) (mkSys m s) = (Done tt, S') ->
  safe P k (mkState S' (b1 ++ b2) c).
Proof.
  intros Hs E. pose proof (safe_usable _ _ _ Hs) as Hu. destruct Hs as [Ho Hw Hf Hc Hk Hr]. cbn [sys busy checker man world] in *.
  destruct (owned_usable live _ _ Ho) as (_ & _ & Hb). assert (live d) as Hd by (rewrite Forall_forall in Hb; apply Hb; set_solver).
  apply Forall_cons in Hu as [Hu1 Hu2]. rewrite (PushDB_spec live sn d m s) in E by (try done; by apply well_opened_known).
  injection E as <-. destruct (give_pools P m d Hd (proj1 Hu1) Hf) as (Hf' & Hl & Hbk).
  split; cbn [sys busy checker man world]; [| done | done | by eapply point_ok_stable | by rewrite Hbk |].
  - apply (use_owned live sn (m, b1 ++ d :: b2)); [by constructor | done].
  - unfold pushed. destruct (dbPool_ m); [done |]. by destruct (_ =? _).
Qed.

(** A step of the checking thread on a connection. *)
Lemma safe_checks P k {A} (f : SysM (Store D) A) S S' b c c' a : safe P k (mkState S b c) -> quiet f -> f S = (Done a, S') ->
  (point_ok c (man S) -> point_ok c' (man S)) -> safe P k (mkState S' b c').
Proof.
  destruct S as [m s]. intros Hs Hq E Hc. destruct (Hq m s (safe_opened _ _ _ Hs)) as (_ & Hm & Hw). rewrite E in Hm, Hw.
  destruct S' as [m' s']. cbn [snd man world] in *. subst m'. eapply safe_move; [exact Hs | done |]. apply Hc, (safe_checker _ _ _ Hs).
Qed.

Lemma safe_live P k S b c p : safe P k (mkState S b c) -> last (dbPool_ (man S)) = Some p -> live p.
Proof. intros Hs E. destruct (usable_last _ (safe_usable _ _ _ Hs)) as (q & E' & Hq). cbn [sys] in E'. by simplify_eq. Qed.

Lemma safe_step P k x y : step x y -> safe P k x -> safe P k y.
Proof.
  intros Hstep Hs. pose proof (safe_usable _ _ _ Hs) as Hu. pose proof (owned_usable live _ _ (safe_owned _ _ _ Hs)) as (_ & _ & Hb).
  destruct Hstep as [m m' s b c d Hg|st m s s' b c d Hd E|st m s s' b1 b2 c d e E|[m s] S' b1 b2 c d E|S b|S b p Hrun|S S' b p r Hrun E|S S' b p ok E|S S' b a empty E|m s b a|S S' b a q E|[m s] S' b c E|[m s] S' b c E];
    cbn [sys busy checker man world] in *.
  - by eapply safe_take.
  - rewrite Forall_forall in Hb. eapply safe_quiet; [exact Hs |]. pose proof (run_statement_defined st d s (Hb d Hd) (safe_opened _ _ _ Hs)) as [_ Hw'].
    by rewrite E in Hw'.
  - assert (live d) as Hd by (rewrite Forall_forall in Hb; apply Hb; set_solver).
    pose proof (run_statement_defined st d s Hd (safe_opened _ _ _ Hs)) as [_ Hw']. rewrite E in Hw'. destruct Hs. split; try done.
    by apply (owned_drop m b1 d b2).
  - by eapply safe_give.
  - apply Forall_cons in Hu as [[Hne _] _]. rewrite bool_decide_eq_false_2 by done. destruct S as [m s]. by apply (safe_move P k m s s b Begin); [| apply (safe_opened _ _ _ Hs) |].
  - pose proof (safe_running _ _ _ Hs) as Hr. cbn [sys] in Hr. congruence.
  - eapply safe_checks; [exact Hs | apply quiet_probe; by eapply safe_live, (safe_checker _ _ _ Hs) | exact E |]. by destruct r.
  - eapply safe_checks; [exact Hs | apply quiet_check_query; by eapply safe_live, (safe_checker _ _ _ Hs) | exact E |]. by destruct ok.
  - injection E as <- <-. destruct S as [m s]. apply (safe_move P k m s s b (LookEmpty a)); [done | apply (safe_opened _ _ _ Hs) |]. by case_bool_decide.
  - by eapply safe_swap.
  - destruct S as [m s]. unfold pool_back, mbind, SysM_bind, get_man, mret, SysM_ret, undef in E. cbn [man] in E. destruct (last (dbPool_ m)) as [q'|] eqn:El; [| done]. injection E as -> <-.
    apply (safe_move P k m s s b (Back a)); [done | apply (safe_opened _ _ _ Hs) |]. by destruct a.
  - eapply safe_keep; [exact Hs | by apply quiet_active | exact E].
  - eapply safe_keep; [exact Hs | by apply quiet_keep_backups | exact E].
Qed.

(** ** What is defined, and what races *)
Definition defined (x : State) : Prop :=
  (forall d, d ∈ busy x -> (forall st, (run_statement st d (world (sys x))).1 <> Undef) /\ (PushDB (Some d) (sys x)).1 = Done tt) /\
  (forall p, checker x = Probe p -> (check_probe p (sys x)).1 <> Undef) /\
  (forall p, checker x = Ask p -> (check_query p (sys x)).1 <> Undef) /\
  (pool_back (sys x)).1 <> Undef /\ (active_turn (sys x)).1 <> Undef.

(** Another thread can write what the checking thread is about to read without the mutex. *)
Definition writes (R : DBMan -> DBMan -> Prop) (x : State) : Prop :=
  exists y, step x y /\ checker y = checker x /\ ~ R (man (sys x)) (man (sys y)).
Definition back_race (x : State) : Prop :=
  (exists a, checker x = Back a) /\ writes (fun m m' => dbPool_ m' = dbPool_ m) x.
Definition empty_race (x : State) : Prop :=
  (exists a, checker x = LookEmpty a) /\ writes (fun m m' => backup_pool_ m' = backup_pool_ m) x.

Lemma safe_defined P k x : safe P k x -> defined x.
Proof.
  intros Hs. pose proof (safe_usable _ _ _ Hs) as Hu. destruct x as [[m s] b c].
  assert (forall p, last (dbPool_ m) = Some p -> live p) as Hlast by (intros p; by apply (safe_live _ _ _ _ _ _ Hs)).
  destruct Hs as [Ho Hw Hf Hc Hk Hr]. cbn [sys busy checker man world] in *.
  destruct (owned_usable live _ _ Ho) as (_ & _ & Hb). unfold defined. cbn [sys busy checker world]. split_and!.
  - intros d Hd. assert (live d) as Hld by (rewrite Forall_forall in Hb; by apply Hb). apply Forall_cons in Hu as [Hu1 Hu2].
    split; [intros st; by apply run_statement_defined |].
    rewrite (PushDB_spec live sn d m s); [done | by apply well_opened_known | done..].
  - intros p ->. by apply (quiet_probe p (Hlast p Hc)).
  - intros p ->. by apply (quiet_check_query p (Hlast p Hc)).
  - destruct (usable_last m Hu) as (q & E & _). unfold pool_back, mbind, SysM_bind, get_man. cbn [man]. by rewrite E.
  - assert (wp active_turn (fun _ _ => True) m) as Ha.
    { apply wp_bind, wp_get, wp_bind, wp_quiet; [by apply quiet_active |]. intros _.
      apply wp_bind, wp_get, wp_quiet; [by apply quiet_keep_backups | done]. }
    intros E. specialize (Ha s Hw). destruct (active_turn (mkSys m s)) as [r S']. cbn in E. by subst r.
Qed.

(** Only the checking thread writes [backup_pool_]. *)
Lemma safe_empty_race P k x : safe P k x -> ~ empty_race x.
Proof.
  intros Hs ((a & Ea) & y & Hst & Ec & Hne). apply Hne. clear Hne. pose proof (safe_usable _ _ _ Hs) as Hu.
  pose proof (owned_usable live _ _ (safe_owned _ _ _ Hs)) as (_ & _ & Hb). pose proof (safe_opened _ _ _ Hs) as Hw.
  assert (forall (f : SysM (Store D) unit) S S' u, quiet f -> well_opened hash live sn (world S) -> f S = (u, S') -> man S' = man S) as Hquiet.
  { intros f [m s] S' u Hq Hw' E. destruct (Hq m s Hw') as (_ & Hm & _). by rewrite E in Hm. }
  destruct Hst as [m m' s b c d Hg|st m s s' b c d Hd E|st m s s' b1 b2 c d e E|[m s] S' b1 b2 c d E|S b|S b p Hrun|S S' b p r Hrun E|S S' b p ok E|S S' b a' empty E|m s b a'|S S' b a' q E|S S' b c E|S S' b c E];
    cbn [sys busy checker man world] in *; try done.
  - unfold DBMan.GetDB in Hg. destruct (dbPool_ m); [done |]. destruct (2 <=? _); [| done]. by injection Hg as _ <-.
  - assert (live d) as Hd by (rewrite Forall_forall in Hb; apply Hb; set_solver). apply Forall_cons in Hu as [Hu1 Hu2].
    rewrite (PushDB_spec live sn d m s) in E by (try done; by apply well_opened_known). injection E as <-. cbn [man].
    unfold pushed. destruct (dbPool_ m); [done |]. by destruct (_ =? _).
  - by injection E as _ <-.
  - by rewrite (Hquiet _ _ _ _ (quiet_active _ Hu) Hw E).
  - by rewrite (Hquiet _ _ _ _ (quiet_keep_backups _ Hu) Hw E).
Qed.
End Threads.

Section FromStart.
Context {D : Type} (handle : forall T, call T -> D -> (exn + T) * D) (hash : str -> Z).
#[local] Hint Extern 0 (BaseDB _) => exact (MysqlStore handle hash) : typeclass_instances.

(** C7: the pools from [Init] on, whatever the servers answer and however callers,
    the checking thread (its reads outside the mutex included) and the keep-alive
    thread interleave: nobody holds a connection that is in a pool or held by
    somebody else, and nobody holds the one the checking thread uses, which is the
    last of the main pool, also after it switched to a backup; every pool keeps
    connections to one configured database; no pool runs empty and the number of
    backups stays; the checking thread ends only without a backup.  Every
    statement of a holder, every return of a connection and every action of the
    threads is defined, and no other thread writes [backup_pool_] when the checking
    thread reads it without the mutex.  (Its reads of [dbPool_] without the mutex,
    and that of the keep-alive thread when it starts, are not among the steps that
    are safe: they race with callers, [back_races].) *)
Theorem pools_safe config s S0 x :
  config <> [] -> Init config (mkSys DBMan_init s) = (Done true, S0) -> dbPool_ (man S0) <> [] ->
  rtc (step handle hash) (mkState S0 [] Begin) x ->
  safe hash (fun p => p ∈ held (man S0)) (known_sn (world S0)) (targets hash config) (length (backup_pool_ (man S0))) x /\
  defined handle hash x /\ ~ empty_race handle hash x /\
  (forall p, checker x = Probe p \/ checker x = Ask p -> p ∉ busy x).
Proof.
  intros Hc E Hne Hr. destruct (Init_initialised handle hash config s S0 Hc E) as [[[? _]|(Ho & Hw & Hf)] Hrun]; [done |].
  assert (safe hash (fun p => p ∈ held (man S0)) (known_sn (world S0)) (targets hash config) (length (backup_pool_ (man S0))) x) as Hs.
  { assert (safe hash (fun p => p ∈ held (man S0)) (known_sn (world S0)) (targets hash config) (length (backup_pool_ (man S0)))
      (mkState S0 [] Begin)) as H0 by (by split).
    revert H0. generalize (held (man S0)) (known_sn (world S0)) (length (backup_pool_ (man S0))). intros l sn k.
    induction Hr as [|y z w Hst _ IH]; [done |]. intros H0. by eapply IH, safe_step. }
  split_and!; [done | by eapply safe_defined | by eapply safe_empty_race |]. intros p Hp Hb. destruct Hs as [(_ & Hn & _) _ _ Hck _ _].
  assert (last (dbPool_ (man (sys x))) = Some p) as Hl by (destruct Hp as [Hp|Hp]; by rewrite Hp in Hck).
  unfold everywhere, held in Hn. cbn [fst snd] in Hn. apply last_Some_elem_of in Hl.
  apply NoDup_app in Hn as (_ & Hn & _). apply (Hn p); [| done]. apply elem_of_app. by left.
Qed.
End FromStart.

(** ** Witness: a caller takes a connection, the checking thread looks at its own *)
Definition threads_start : State := mkState started.2 [] Begin.
Definition threads_taken : State :=
  mkState (mkSys (DBMan.GetDB (man started.2)).2 (world started.2)) [2%positive] Begin.
Definition threads_back : State := mkState started.2 [] (Back ThenProbe).

Lemma started_eq : started = (Done true, started.2).
Proof. assert (started.1 = Done true) as <- by (vm_compute; reflexivity). by destruct started. Qed.
Lemma started_take : DBMan.GetDB (man started.2) = (Some 2%positive, (DBMan.GetDB (man started.2)).2).
Proof. vm_compute. reflexivity. Qed.

Lemma pools_safe_witness : defined demo_handle (fun _ => 0) threads_taken /\ busy threads_taken = [2%positive].
Proof.
  split; [| reflexivity].
  apply (pools_safe demo_handle (fun _ => 0) one_server (mkStore ∅ tt []) started.2 threads_taken).
  - discriminate.
  - exact started_eq.
  - vm_compute. discriminate.
  - apply rtc_once. unfold threads_taken. pose proof started_take as Eg. destruct started.2 as [m s]. by apply step_take.
Defined.

(** The checking thread reads [dbPool_.back()] while a caller takes a connection out of the deque. *)
Lemma back_races : rtc (step demo_handle (fun _ => 0)) threads_start threads_back /\ back_race demo_handle (fun _ => 0) threads_back.
Proof.
  split.
  - apply rtc_once. apply (step_begin demo_handle (fun _ => 0) started.2 []).
  - split; [by exists ThenProbe |]. exists (mkState (mkSys (DBMan.GetDB (man started.2)).2 (world started.2)) [2%positive] (Back ThenProbe)). split_and!.
    + unfold threads_back. pose proof started_take as Eg. destruct started.2 as [m s]. by apply step_take.
    + done.
    + vm_compute. discriminate.
Qed.

(** The threads catch nothing: when the connector throws while a connection is
    checked again ([isValid] in [Reconnect]), the exception leaves the thread and
    ends the program. *)
Definition broken_handle (T : Type) (c : call T) (d : unit) : (exn + T) * unit := (inl StdException, d).

Example check_turn_raises :
  (check_turn (H := MysqlStore broken_handle (fun _ => 0)) 3%positive (mkSys proxy_man proxy_store)).1 = Raised StdException /\
  (active_turn (H := MysqlStore broken_handle (fun _ => 0)) (mkSys proxy_man proxy_store)).1 = Raised StdException.
Proof. vm_compute. auto. Qed.
