(* ===== verification/Metric.v ===== *)
(** * Metrics: [src/src/iomn/src/metric.cpp]

    Producers push samples on a queue; a worker thread folds them into the maps
    and moves a ring of 1000 one-second slots; a server thread prints the maps, and
    ends the object when it cannot listen.  The queue is third-party: a list of
    samples with their producers, of which [try_dequeue] finds the oldest of any
    one producer, or nothing; [enqueue] may run out of memory.  Additions of
    [int64_t] are checked, those of [uint64_t] wrap. *)
From S2P Require Import Prelude CStr StdString.
Open Scope Z_scope.

Inductive METRIC_TYPE : Type := count | gugae | histogram | summary | status.

Record metric : Type := mkMetric {
  type : METRIC_TYPE; times : Z; key : str; interval : list Z; int_value : Z; str_value : str }.

Definition summary_count : Z := 1000.

Abbreviation producer := positive.

Record Metric : Type := mkMetrics {
  app_tag_ : str;
  count_map_ : gmap str Z;
  guage_map_ : gmap str Z;
  summary_map_ : gmap str (list Z);
  summary_current_index_ : Z;
  summary_total_map_ : gmap str Z;
  summary_type_map_ : gmap str (list Z);
  status_map_ : gmap str str;
  is_running_ : bool;
  q_ : list (producer * metric);
  time_last : Z }.  (** a local of the worker thread *)

Definition Metric_init : Metric := mkMetrics [] ∅ ∅ ∅ 0 ∅ ∅ ∅ false [] 0.

(** [run], which then starts the two threads. *)
Definition run (app_tag : str) (m : Metric) : Metric :=
  mkMetrics app_tag (count_map_ m) (guage_map_ m) (summary_map_ m) (summary_current_index_ m) (summary_total_map_ m)
    (summary_type_map_ m) (status_map_ m) true (q_ m) (time_last m).

(** [is_running_ = false]: the server thread could not listen, or the object is
    destroyed. *)
Definition stop (m : Metric) : Metric :=
  mkMetrics (app_tag_ m) (count_map_ m) (guage_map_ m) (summary_map_ m) (summary_current_index_ m) (summary_total_map_ m)
    (summary_type_map_ m) (status_map_ m) false (q_ m) (time_last m).

Definition with_queue (q : list (producer * metric)) (m : Metric) : Metric :=
  mkMetrics (app_tag_ m) (count_map_ m) (guage_map_ m) (summary_map_ m) (summary_current_index_ m)
    (summary_total_map_ m) (summary_type_map_ m) (status_map_ m) (is_running_ m) q (time_last m).

(** ** Producers *)

Definition stamp (now : Z) (d : metric) : metric :=
  mkMetric (type d) (Z.quot now 1000) (key d) (interval d) (int_value d) (str_value d).

(** [push] on the thread [who]; [room]: [enqueue] had memory. *)
Definition push (who : producer) (room : bool) (now : Z) (d : metric) (m : Metric) : Metric * bool :=
  if is_running_ m then
    if room then (with_queue (q_ m ++ [(who, stamp now d)]) m, true) else (m, false)
  else (m, false).

Definition push_status (who : producer) (room : bool) (now : Z) (k v : str) (m : Metric) : Metric * bool :=
  push who room now (mkMetric status 0 k [] 0 v) m.
Definition push_count (who : producer) (room : bool) (now : Z) (k : str) (m : Metric) : Metric * bool :=
  push who room now (mkMetric count 0 k [] 0 []) m.
Definition push_guage (who : producer) (room : bool) (now : Z) (k : str) (value : Z) (m : Metric) : Metric * bool :=
  push who room now (mkMetric gugae 0 k [] value []) m.
Definition push_summary (who : producer) (room : bool) (now : Z) (k : str) (value : Z) (iv : list Z) (m : Metric) : Metric * bool :=
  push who room now (mkMetric summary 0 k iv value []) m.

(** ** The worker *)

(** Signed addition: overflow is undefined. *)
Definition add_i64 (a b : Z) : res Z :=
  if (- 2 ^ 63 <=? a + b) && (a + b <? 2 ^ 63) then Ok (a + b) else Fault Undefined.

(** [m[k]] of a map: a missing key gets the default. *)
Definition get_or {A} (d : A) (k : str) (m : gmap str A) : A := default d (m !! k).

Definition zeros : list Z := replicate (Z.to_nat summary_count) 0.

Definition next_index (i : Z) : Z := if summary_count <=? i + 1 then 0 else i + 1.

(** Without the mutex: when a second has passed the slots that come next are
    cleared; whether there are any is [update_index]. *)
Definition zero_next (now : Z) (m : Metric) : Metric * bool :=
  if (time_last m <=? now - 1000) && negb (bool_decide (summary_map_ m = ∅)) then
    (mkMetrics (app_tag_ m) (count_map_ m) (guage_map_ m)
       ((fun a => <[ Z.to_nat (next_index (summary_current_index_ m)) := 0 ]> a) <$> summary_map_ m)
       (summary_current_index_ m) (summary_total_map_ m) (summary_type_map_ m) (status_map_ m) (is_running_ m)
       (q_ m) (time_last m), true)
  else (m, false).

(** With the mutex: the ring moves to them. *)
Definition advance (now : Z) (update_index : bool) (m : Metric) : Metric :=
  if update_index then
    mkMetrics (app_tag_ m) (count_map_ m) (guage_map_ m) (summary_map_ m) (next_index (summary_current_index_ m))
      (summary_total_map_ m) (summary_type_map_ m) (status_map_ m) (is_running_ m) (q_ m) now
  else m.

(** [update_summary] *)
Definition update_summary (d : metric) (m : Metric) : res Metric :=
  let '(sm, tm) :=
    match summary_map_ m !! key d with
    | Some _ => (summary_map_ m, summary_type_map_ m)
    | None => (<[key d := zeros]> (summary_map_ m), <[key d := interval d]> (summary_type_map_ m))
    end in
  let slots := get_or zeros (key d) sm in
  old ← at_index slots (Z.to_nat (summary_current_index_ m));
  new ← add_i64 old (int_value d);
  Ok (mkMetrics (app_tag_ m) (count_map_ m) (guage_map_ m)
        (<[key d := <[ Z.to_nat (summary_current_index_ m) := new ]> slots]> sm)
        (summary_current_index_ m)
        (<[key d := u64 (get_or 0 (key d) (summary_total_map_ m) + int_value d)]> (summary_total_map_ m))
        tm (status_map_ m) (is_running_ m) (q_ m) (time_last m)).

Definition handle (d : metric) (m : Metric) : res Metric :=
  match type d with
  | count => Ok (mkMetrics (app_tag_ m) (<[key d := u64 (get_or 0 (key d) (count_map_ m) + 1)]> (count_map_ m))
      (guage_map_ m) (summary_map_ m) (summary_current_index_ m) (summary_total_map_ m) (summary_type_map_ m)
      (status_map_ m) (is_running_ m) (q_ m) (time_last m))
  | gugae => Ok (mkMetrics (app_tag_ m) (count_map_ m) (<[key d := u64 (int_value d)]> (guage_map_ m))
      (summary_map_ m) (summary_current_index_ m) (summary_total_map_ m) (summary_type_map_ m)
      (status_map_ m) (is_running_ m) (q_ m) (time_last m))
  | histogram => Ok m
  | summary => update_summary d m
  | status => Ok (mkMetrics (app_tag_ m) (count_map_ m) (guage_map_ m) (summary_map_ m) (summary_current_index_ m)
      (summary_total_map_ m) (summary_type_map_ m) (<[key d := str_value d]> (status_map_ m)) (is_running_ m)
      (q_ m) (time_last m))
  end.

(** The oldest sample of the producer [p]. *)
Fixpoint dequeue (p : producer) (q : list (producer * metric)) : option (metric * list (producer * metric)) :=
  match q with
  | [] => None
  | (x, d) :: q =>
      if decide (x = p) then Some (d, q) else '(d', q') ← dequeue p q; Some (d', (x, d) :: q')
  end.

(** [pick]: the producer in whose stream a sample is found, if any is. *)
Definition try_dequeue (pick : option producer) (m : Metric) : option (metric * list (producer * metric)) :=
  p ← pick; dequeue p (q_ m).

(** The rest of the turn: a sample is taken from the queue, if one is found. *)
Definition deliver (pick : option producer) (m : Metric) : res Metric :=
  match try_dequeue pick m with
  | None => Ok m
  | Some (d, q) => handle d (with_queue q m)
  end.

(** A turn of the worker's loop at time [now] that nothing comes between. *)
Definition turn (now : Z) (pick : option producer) (m : Metric) : res Metric :=
  let '(m, update_index) := zero_next now m in deliver pick (advance now update_index m).

(** ** The threads *)

(** Where the worker is: not started, at the test of its loop, before it takes
    the mutex, ended. *)
Inductive point : Type := Starting | Looping | Zeroed (now : Z) (update_index : bool) | Ended.

Record System : Type := mkSystem { object : Metric; worker : point }.

(** The first lines of the worker. *)
Definition worker_start (now : Z) (m : Metric) : Metric :=
  mkMetrics (app_tag_ m) (count_map_ m) (guage_map_ m) (summary_map_ m) 0 (summary_total_map_ m)
    (summary_type_map_ m) (status_map_ m) (is_running_ m) (q_ m) now.

(** What a thread does next: a producer pushes, the server thread cannot listen,
    the worker starts, ends, clears slots, delivers. *)
Inductive act : Type :=
  | Push (who : producer) (room : bool) (now : Z) (d : metric)
  | Fail
  | Start (now : Z)
  | End
  | Zero (now : Z)
  | Deliver (pick : option producer).

Inductive step : act -> System -> System -> Prop :=
  | step_push who room now d m w : step (Push who room now d) (mkSystem m w) (mkSystem (push who room now d m).1 w)
  | step_fail m w : step Fail (mkSystem m w) (mkSystem (stop m) w)
  | step_start now m : step (Start now) (mkSystem m Starting) (mkSystem (worker_start now m) Looping)
  | step_end m : is_running_ m = false -> step End (mkSystem m Looping) (mkSystem m Ended)
  | step_zero now m : is_running_ m = true ->
      step (Zero now) (mkSystem m Looping) (mkSystem (zero_next now m).1 (Zeroed now (zero_next now m).2))
  | step_deliver pick now u m m' : deliver pick (advance now u m) = Ok m' ->
      step (Deliver pick) (mkSystem m (Zeroed now u)) (mkSystem m' Looping).

(** The object once [run] was called. *)
Definition started (app_tag : str) : System := mkSystem (run app_tag Metric_init) Starting.

(** ** The report *)

(** The sum of the last [n] slots, [index] of them added already. *)
Fixpoint window_loop (n : nat) (index : Z) (current : Z) (slots : list Z) (sum : Z) : res Z :=
  match n with
  | O => Ok sum
  | S n =>
      let i := current - index in
      let i := if i <? 0 then i + summary_count else i in
      v ← (if i <? 0 then Fault Undefined else at_index slots (Z.to_nat i));
      sum ← add_i64 sum v;
      window_loop n (index + 1) current slots sum
  end.

Definition window (iv : Z) (current : Z) (slots : list Z) : res Z :=
  window_loop (Z.to_nat iv) 0 current slots 0.

Section Report.
(** The order each map is visited in. *)
Context (iter : forall A, gmap str A -> list (str * A)).

Definition n : str := [chr 10].

Fixpoint interval_lines (k : str) (ivs : list Z) (current : Z) (slots : list Z) : res str :=
  match ivs with
  | [] => Ok []
  | iv :: ivs =>
      sum ← window iv current slots;
      rest ← interval_lines k ivs current slots;
      Ok ((k ++ lit "_" ++ show_int iv ++ lit "_sum:" ++ show_int sum ++ n) ++ rest)
  end.

Fixpoint summary_lines (l : list (str * list Z)) (m : Metric) : res str :=
  match l with
  | [] => Ok []
  | (k, slots) :: l =>
      a ← interval_lines k (get_or [] k (summary_type_map_ m)) (summary_current_index_ m) slots;
      rest ← summary_lines l m;
      Ok (a ++ (k ++ lit "_total_sum:" ++ show_int (get_or 0 k (summary_total_map_ m)) ++ n) ++ rest)
  end.

(** The text [gen_and_write_output] sends. *)
Definition gen_and_write_output (m : Metric) : res str :=
  s ← summary_lines (iter _ (summary_map_ m)) m;
  Ok ((lit "======" ++ app_tag_ m ++ lit " begin" ++ lit "======" ++ n)
      ++ (app_tag_ m ++ n)
      ++ concat (map (fun kv => kv.1 ++ lit "_count:" ++ show_int kv.2 ++ n) (iter _ (count_map_ m)))
      ++ concat (map (fun kv => kv.1 ++ lit "_guagae:" ++ show_int kv.2 ++ n) (iter _ (guage_map_ m)))
      ++ s
      ++ concat (map (fun kv => kv.1 ++ lit "_status:" ++ kv.2 ++ n) (iter _ (status_map_ m)))
      ++ (lit "=====" ++ app_tag_ m ++ lit " end" ++ lit "=====" ++ n)).
End Report.
