(* ===== verification/MetricProps.v ===== *)
(** * Metrics: the ring of slots is a sliding window *)
From S2P Require Import Prelude CStr StdString Metric.
Open Scope Z_scope.

(** ** The abstraction: what was added in each past second, newest first *)
Definition past (h : list Z) (j : Z) : Z := nth (Z.to_nat j) h 0.

Definition tick (h : list Z) : list Z := 0 :: h.
Definition sample (v : Z) (h : list Z) : list Z := (hd 0 h + v) :: tl h.

Lemma past_tick h j : 0 <= j -> past (tick h) (j + 1) = past h j.
Proof. intros Hj. unfold past. by rewrite Z2Nat.inj_add, Nat.add_1_r by lia. Qed.

Lemma past_sample v h j : 0 < j -> past (sample v h) j = past h j.
Proof.
  intros Hj. unfold past, sample. replace (Z.to_nat j) with (S (Z.to_nat (j - 1))) by lia.
  by destruct h; simpl; [destruct (Z.to_nat (j - 1)) |].
Qed.

(** The slot that is [j] seconds old. *)
Definition slot (cur j : Z) : Z := (cur - j) mod 1000.

(** The last [N] seconds are in the ring. *)
Record ring (N : Z) (cur : Z) (slots : list Z) (h : list Z) : Prop := {
  ring_cur : 0 <= cur < 1000;
  ring_len : length slots = Z.to_nat 1000;
  ring_slot : forall j, 0 <= j < N -> slots !! Z.to_nat (slot cur j) = Some (past h j) }.

Lemma next_index_spec cur : 0 <= cur < 1000 -> next_index cur = (cur + 1) mod 1000.
Proof.
  intros Hc. unfold next_index, summary_count. destruct (Z.leb_spec 1000 (cur + 1)).
  - replace (cur + 1) with 1000 by lia. done.
  - by rewrite Z.mod_small by lia.
Qed.

Lemma slot_range cur j : 0 <= slot cur j < 1000.
Proof. apply Z.mod_pos_bound. lia. Qed.

Lemma next_slot cur j : 0 <= cur < 1000 -> 0 <= j < 999 -> slot cur j <> next_index cur.
Proof. intros Hc Hj. rewrite next_index_spec by done. unfold slot. zdiv. Qed.

Lemma next_index_range cur : 0 <= cur < 1000 -> 0 <= next_index cur < 1000.
Proof. intros Hc. rewrite next_index_spec by done. apply Z.mod_pos_bound. lia. Qed.

(** The oldest second is cleared first, then the ring moves. *)
Lemma ring_zero cur slots h : ring 1000 cur slots h ->
  ring 999 cur (<[ Z.to_nat (next_index cur) := 0 ]> slots) h /\
  <[ Z.to_nat (next_index cur) := 0 ]> slots !! Z.to_nat (next_index cur) = Some 0.
Proof.
  intros [Hc Hl Hs]. pose proof (next_index_range cur Hc) as Hn. split; [| apply list_lookup_insert_eq; lia].
  split; [done | by rewrite length_insert |]. intros j Hj. rewrite list_lookup_insert_ne; [apply Hs; lia |].
  pose proof (slot_range cur j). intros E. apply Z2Nat.inj in E; [| lia | lia]. by apply (next_slot cur j).
Qed.

Lemma ring_tick cur slots h : ring 999 cur slots h -> slots !! Z.to_nat (next_index cur) = Some 0 ->
  ring 1000 (next_index cur) slots (tick h).
Proof.
  intros [Hc Hl Hs] Hz. split; [by apply next_index_range | done |].
  rewrite next_index_spec in * by done. intros j Hj. destruct (Z.eq_dec j 0) as [->|Hj0].
  - unfold slot. by rewrite Z.sub_0_r, Z.mod_mod by lia.
  - assert (slot ((cur + 1) mod 1000) j = slot cur (j - 1)) as ->.
    { unfold slot. rewrite Zminus_mod_idemp_l. f_equal. lia. }
    rewrite Hs by lia. f_equal. rewrite <- (past_tick h (j - 1)) by lia. f_equal. lia.
Qed.

Lemma ring_current cur slots h : ring 1000 cur slots h -> slots !! Z.to_nat cur = Some (hd 0 h).
Proof.
  intros [Hc Hl Hs]. specialize (Hs 0 ltac:(lia)). unfold slot in Hs. rewrite Z.sub_0_r, Z.mod_small in Hs by lia.
  rewrite Hs. unfold past. by destruct h.
Qed.

Lemma ring_sample cur slots h v : ring 1000 cur slots h ->
  ring 1000 cur (<[ Z.to_nat cur := hd 0 h + v ]> slots) (sample v h).
Proof.
  intros [Hc Hl Hs]. split; [done | by rewrite length_insert |]. intros j Hj.
  destruct (Z.eq_dec j 0) as [->|Hj0].
  - unfold slot. rewrite Z.sub_0_r, Z.mod_small by lia. rewrite list_lookup_insert_eq by lia. done.
  - rewrite past_sample by lia. rewrite list_lookup_insert_ne; [by apply Hs |].
    pose proof (slot_range cur j). intros E. apply Z2Nat.inj in E; [| lia | lia]. unfold slot in *. zdiv.
Qed.

Lemma ring_zeros cur h : 0 <= cur < 1000 -> (forall j, 0 <= j -> past h j = 0) -> ring 1000 cur zeros h.
Proof.
  intros Hc Hh. split; [done | by unfold zeros; rewrite length_replicate |]. intros j Hj.
  rewrite Hh by lia. unfold zeros. apply lookup_replicate_2. pose proof (slot_range cur j). unfold summary_count. lia.
Qed.

(** ** One key of the maps *)

(** Between two turns of the worker. *)
Definition view (k : str) (m : Metric) (h : list Z) : Prop :=
  0 <= summary_current_index_ m < 1000 /\
  match summary_map_ m !! k with
  | Some slots => ring 1000 (summary_current_index_ m) slots h
  | None => forall j, 0 <= j -> past h j = 0
  end.

(** Once the slots that come next are cleared. *)
Definition cleared (k : str) (m : Metric) (h : list Z) : Prop :=
  0 <= summary_current_index_ m < 1000 /\
  match summary_map_ m !! k with
  | Some slots => ring 999 (summary_current_index_ m) slots h /\
      slots !! Z.to_nat (next_index (summary_current_index_ m)) = Some 0
  | None => forall j, 0 <= j -> past h j = 0
  end.

Lemma zero_next_view k now m h : view k m h ->
  if (zero_next now m).2 then cleared k (zero_next now m).1 h else view k (zero_next now m).1 h.
Proof.
  unfold zero_next. destruct (_ && _); [| done]. intros [Hc Hv]. cbn [fst snd]. unfold cleared.
  cbn [summary_map_ summary_current_index_]. rewrite lookup_fmap. split; [done |].
  destruct (summary_map_ m !! k) as [slots|]; cbn [fmap option_fmap option_map]; [by apply ring_zero | done].
Qed.

Lemma advance_view k now m h : cleared k m h -> view k (advance now true m) (tick h).
Proof.
  intros [Hc Hv]. unfold view. cbn [advance summary_map_ summary_current_index_]. split; [by apply next_index_range |].
  destruct (summary_map_ m !! k) as [slots|]; [destruct Hv; by apply ring_tick |].
  intros j Hj. destruct (Z.eq_dec j 0) as [->|Hj0]; [done |].
  replace j with (j - 1 + 1) by lia. rewrite past_tick by lia. apply Hv. lia.
Qed.

(** What a sample does to the history of [k]. *)
Definition fold_in (k : str) (d : option metric) (h : list Z) : list Z :=
  match d with
  | Some d => match type d with
              | summary => if bool_decide (key d = k) then sample (int_value d) h else h
              | _ => h
              end
  | None => h
  end.

(** [update_summary] once the key has its slots [slots]; only the maps of slots
    and of types were touched before. *)
Definition add_sample (d : metric) (slots : list Z) (sm : gmap str (list Z)) (tm : gmap str (list Z)) (m : Metric) : res Metric :=
  old ← at_index slots (Z.to_nat (summary_current_index_ m));
  new ← add_i64 old (int_value d);
  Ok (mkMetrics (app_tag_ m) (count_map_ m) (guage_map_ m)
        (<[key d := <[ Z.to_nat (summary_current_index_ m) := new ]> slots]> sm)
        (summary_current_index_ m)
        (<[key d := u64 (get_or 0 (key d) (summary_total_map_ m) + int_value d)]> (summary_total_map_ m))
        tm (status_map_ m) (is_running_ m) (q_ m) (time_last m)).

Lemma update_summary_eq d m : exists sm tm,
  update_summary d m = add_sample d (get_or zeros (key d) (summary_map_ m)) sm tm m /\
  forall k, k <> key d -> sm !! k = summary_map_ m !! k.
Proof.
  unfold update_summary. destruct (summary_map_ m !! key d) as [slots|] eqn:E; [by eexists _, _ |].
  assert (get_or zeros (key d) (summary_map_ m) = zeros) as -> by (unfold get_or; by rewrite E).
  assert (get_or zeros (key d) (<[key d := zeros]> (summary_map_ m)) = zeros) as -> by (unfold get_or; by rewrite lookup_insert_eq).
  eexists _, _. split; [done |]. intros k Hk. by rewrite lookup_insert_ne.
Qed.

Lemma update_summary_view k d m m' h : view k m h -> update_summary d m = Ok m' ->
  view k m' (if bool_decide (key d = k) then sample (int_value d) h else h).
Proof.
  intros [Hc Hv] E. destruct (update_summary_eq d m) as (sm & tm & Eu & Hne). rewrite Eu in E. unfold add_sample in E.
  unfold view. case_bool_decide as Hk.
  - subst k. assert (ring 1000 (summary_current_index_ m) (get_or zeros (key d) (summary_map_ m)) h) as Hr.
    { unfold get_or. destruct (summary_map_ m !! key d); [done | by apply ring_zeros]. }
    unfold at_index in E. rewrite (ring_current _ _ _ Hr) in E. cbn [mbind res_bind] in E.
    unfold add_i64 in E. destruct (_ && _); cbn [mbind res_bind] in E; [| done]. injection E as <-. cbn.
    rewrite lookup_insert_eq. split; [done |]. by apply ring_sample.
  - destruct (at_index _ _); cbn [mbind res_bind] in E; [| done].
    destruct (add_i64 _ _); cbn [mbind res_bind] in E; [| done]. injection E as <-. cbn.
    rewrite lookup_insert_ne by done. rewrite Hne by done. done.
Qed.

Lemma deliver_view k pick m m' h : view k m h -> deliver pick m = Ok m' ->
  view k m' (fold_in k (fst <$> try_dequeue pick m) h).
Proof.
  intros Hv. unfold deliver. destruct (try_dequeue pick m) as [[d q]|]; cbn [fmap option_fmap option_map fst fold_in];
    [| by intros [= <-]].
  unfold handle. destruct (type d); try (by intros [= <-]). intros H. by eapply update_summary_view; [| exact H].
Qed.

(** A turn moves the ring and delivers a sample. *)
Definition history (k : str) (a : act) (st : System) (h : list Z) : list Z :=
  match a, worker st with
  | Deliver pick, Zeroed _ u => fold_in k (fst <$> try_dequeue pick (object st)) (if u then tick h else h)
  | _, _ => h
  end.

(** The states the threads reach once [run] was called, with the history of the
    key [k]. *)
Inductive runs (k : str) : System -> list Z -> Prop :=
  | runs_start tag : runs k (started tag) []
  | runs_step a st st' h : runs k st h -> step a st st' -> runs k st' (history k a st h).

(** The worker has cleared slots, and has not taken the mutex yet. *)
Definition clearing (st : System) : bool := match worker st with Zeroed _ u => u | _ => false end.

Definition system_view (k : str) (st : System) (h : list Z) : Prop :=
  (worker st = Starting -> summary_map_ (object st) = ∅ /\ h = []) /\
  if clearing st then cleared k (object st) h else view k (object st) h.

Lemma push_maps who room now d m :
  summary_map_ (push who room now d m).1 = summary_map_ m /\
  summary_current_index_ (push who room now d m).1 = summary_current_index_ m.
Proof. unfold push. by destruct (is_running_ m), room. Qed.

Lemma step_view k a st st' h : step a st st' -> system_view k st h -> system_view k st' (history k a st h).
Proof.
  intros Hs [H0 Hv]. destruct Hs as [who room now d m w|m w|now m|m Hr|now m Hr|pick now u m m' E];
    unfold system_view, clearing, history in *; cbn [object worker] in *.
  - destruct (push_maps who room now d m) as [Em Ei]. unfold cleared, view in *. rewrite Em, Ei. done.
  - done.
  - destruct (H0 eq_refl) as [Em ->]. split; [done |]. split; [done |]. cbn [worker_start summary_map_]. rewrite Em, lookup_empty.
    intros j _. unfold past. by destruct (Z.to_nat j).
  - by split.
  - split; [done |]. by apply zero_next_view.
  - split; [done |]. assert (try_dequeue pick (advance now u m) = try_dequeue pick m) as Eq by by destruct u.
    rewrite <- Eq. eapply deliver_view, E. destruct u; [by apply advance_view | done].
Qed.

Lemma runs_view k st h : runs k st h -> system_view k st h.
Proof.
  induction 1 as [tag|a st st' h _ IH Hs]; [| by eapply step_view].
  split; [done |]. split; [done |]. cbn [started object run Metric_init summary_map_]. rewrite lookup_empty.
  intros j _. unfold past. by destruct (Z.to_nat j).
Qed.

(** ** The windows of the report *)
Definition total (l : list Z) : Z := foldr Z.add 0 l.

Lemma total_step n i h : total (take (S n) (drop i h)) = nth i h 0 + total (take n (drop (S i) h)).
Proof.
  revert i. induction h as [|x h IH]; intros [|i]; cbn [drop nth take total foldr]; try done.
  all: by rewrite take_nil.
Qed.

(** The slots the loop reads are those of the seconds [i], [i + 1], ...; [off] is
    how far ahead its counter is. *)
Lemma window_loop_slots N off n : forall i cur slots h s, ring N cur slots h -> Z.of_nat (i + n) <= N ->
  (forall j, Z.of_nat i <= j < Z.of_nat (i + n) ->
     (if cur - (off + j) <? 0 then cur - (off + j) + summary_count else cur - (off + j)) = slot cur j) ->
  (forall n', (n' <= n)%nat -> - 2 ^ 63 <= s + total (take n' (drop i h)) < 2 ^ 63) ->
  window_loop n (off + Z.of_nat i) cur slots s = Ok (s + total (take n (drop i h))).
Proof.
  induction n as [|n IH]; intros i cur slots h s Hr Hi Hslot Hf; cbn [window_loop]; [by rewrite Z.add_0_r |].
  pose proof Hr as [Hc _ Hs]. rewrite Hslot by lia. pose proof (slot_range cur (Z.of_nat i)).
  rewrite (proj2 (Z.ltb_ge _ _)) by lia. unfold at_index. rewrite Hs by lia. cbn [mbind res_bind].
  unfold past. rewrite Nat2Z.id.
  pose proof (Hf 1%nat ltac:(lia)) as H1. rewrite (total_step 0 i h) in H1. cbn [take total foldr] in H1. rewrite Z.add_0_r in H1.
  unfold add_i64. rewrite (proj2 (Z.leb_le _ _)), (proj2 (Z.ltb_lt _ _)) by lia. cbn [andb mbind res_bind].
  replace (off + Z.of_nat i + 1) with (off + Z.of_nat (S i)) by lia. rewrite (IH (S i) cur slots h).
  - f_equal. rewrite total_step. lia.
  - done.
  - lia.
  - intros j Hj. apply Hslot. lia.
  - intros n' Hn'. specialize (Hf (S n') ltac:(lia)). rewrite total_step in Hf. lia.
Qed.

(** Up to the length of the ring every slot is read once. *)
Lemma window_loop_sum N n cur slots h : ring N cur slots h -> Z.of_nat n <= N <= 1000 ->
  (forall n', (n' <= n)%nat -> - 2 ^ 63 <= total (take n' h) < 2 ^ 63) ->
  window_loop n 0 cur slots 0 = Ok (total (take n h)).
Proof.
  intros Hr Hn Hf. pose proof (ring_cur _ _ _ _ Hr) as Hc.
  apply (window_loop_slots N 0 n 0 cur slots h 0 Hr); [lia | | done].
  intros j Hj. rewrite Z.add_0_l. unfold slot, summary_count. destruct (Z.ltb_spec (cur - j) 0); [| by rewrite Z.mod_small by lia].
  rewrite <- (Z.mod_add (cur - j) 1 1000) by lia. rewrite Z.mod_small by lia. lia.
Qed.

Lemma window_loop_app n1 n2 i cur slots s : window_loop (n1 + n2) i cur slots s =
  (s1 ← window_loop n1 i cur slots s; window_loop n2 (i + Z.of_nat n1) cur slots s1).
Proof.
  revert i s. induction n1 as [|n1 IH]; intros i s; cbn [Nat.add window_loop mbind res_bind]; [by rewrite Z.add_0_r |].
  destruct (if _ <? 0 then Fault Undefined else _) as [v|]; cbn [mbind res_bind]; [| done].
  destruct (add_i64 s v) as [s1|]; cbn [mbind res_bind]; [| done]. rewrite IH. by replace (i + 1 + Z.of_nat n1) with (i + Z.of_nat (S n1)) by lia.
Qed.

(** Beyond it the slots up to the current one are read again. *)
Lemma window_loop_again n cur slots h : ring 1000 cur slots h -> Z.of_nat n <= cur + 1 ->
  (forall n', (n' <= 1000)%nat -> - 2 ^ 63 <= total (take n' h) < 2 ^ 63) ->
  (forall n', (n' <= n)%nat -> - 2 ^ 63 <= total (take 1000 h) + total (take n' h) < 2 ^ 63) ->
  window_loop (1000 + n) 0 cur slots 0 = Ok (total (take 1000 h) + total (take n h)).
Proof.
  intros Hr Hn H1 H2. pose proof (ring_cur _ _ _ _ Hr) as Hc.
  rewrite window_loop_app, (window_loop_sum 1000 1000 cur slots h Hr) by (done || lia). cbn [mbind res_bind].
  apply (window_loop_slots 1000 1000 n 0 cur slots h _ Hr); [lia | | done].
  intros j Hj. unfold slot, summary_count. rewrite (proj2 (Z.ltb_lt _ _)), Z.mod_small by lia. lia.
Qed.

Lemma window_loop_outside n : forall i cur slots s, 0 <= cur -> 0 <= i <= cur + 1001 -> cur + 1001 < i + Z.of_nat n ->
  window_loop n i cur slots s = Fault Undefined.
Proof.
  induction n as [|n IH]; intros i cur slots s Hc Hi Hn; [lia |]. cbn [window_loop]. unfold summary_count.
  set (i0 := if cur - i <? 0 then cur - i + 1000 else cur - i).
  destruct (Z.ltb_spec i0 0) as [|H0]; [done |].
  destruct (at_index slots (Z.to_nat i0)) as [v|f] eqn:E; cbn [mbind res_bind].
  - unfold add_i64. destruct (_ && _); cbn [mbind res_bind]; [| done]. apply IH; [done | | lia].
    unfold i0 in H0. destruct (Z.ltb_spec (cur - i) 0); lia.
  - unfold at_index in E. destruct (slots !! _); [done |]. by injection E as <-.
Qed.

(** C40: the ring of a summary is a sliding window over the seconds the worker
    has moved it by.  Whatever was pushed, whenever the threads ran and while the
    sums fit [int64_t]: between two turns of the worker the sum reported for an
    interval of up to 1000 is what was delivered in the last so many seconds; up to
    1001 more than the current index the latest seconds are added twice; beyond, the
    report reads outside the array.  While the worker has cleared slots without the
    mutex and not moved yet, this holds for intervals of up to 999. *)
Theorem summary_window k st h slots iv :
  runs k st h -> summary_map_ (object st) !! k = Some slots ->
  let cur := summary_current_index_ (object st) in
  let fits s n := forall n', (n' <= n)%nat -> - 2 ^ 63 <= s + total (take n' h) < 2 ^ 63 in
  (0 <= iv <= (if clearing st then 999 else 1000) -> fits 0 (Z.to_nat iv) ->
     window iv cur slots = Ok (total (take (Z.to_nat iv) h))) /\
  (clearing st = false -> 1000 < iv <= cur + 1001 -> fits 0 1000%nat -> fits (total (take 1000 h)) (Z.to_nat (iv - 1000)) ->
     window iv cur slots = Ok (total (take 1000 h) + total (take (Z.to_nat (iv - 1000)) h))) /\
  (cur + 1001 < iv -> window iv cur slots = Fault Undefined).
Proof.
  intros Hr Hs cur fits. apply runs_view in Hr as [_ Hv].
  assert (0 <= cur < 1000 /\ ring (if clearing st then 999 else 1000) cur slots h) as [Hc Hring].
  { destruct (clearing st); destruct Hv as [Hc Hv]; rewrite Hs in Hv; [by destruct Hv | done]. }
  split_and!.
  - intros Hiv Hf. unfold window. apply (window_loop_sum _ _ _ _ _ Hring); [destruct (clearing st); lia |].
    intros n' Hn'. by apply Hf.
  - intros Hcl Hiv H1 H2. rewrite Hcl in Hring. unfold window. replace (Z.to_nat iv) with (1000 + Z.to_nat (iv - 1000))%nat by lia.
    apply (window_loop_again _ _ _ _ Hring); [lia | | done]. intros n' Hn'. by apply H1.
  - intros Hiv. unfold window. apply window_loop_outside; lia.
Qed.

(** ** Witness: three samples, one second between the second and the third *)
Definition demo_metric (v : Z) : metric := mkMetric summary 0 (lit "flow") [1; 2; 2000] v [].
Definition demo_acts : list act :=
  [Start 0; Push 1 true 0 (demo_metric 3); Push 2 true 0 (demo_metric 7); Push 1 true 0 (demo_metric 5);
   Zero 1; Deliver (Some 2%positive); Zero 2; Deliver (Some 1%positive); Zero 1005; Deliver (Some 1%positive)].

(** The state an act leads to, if it can be done. *)
Definition do_act (a : act) (st : System) : option System :=
  match a, worker st with
  | Push who room now d, w => Some (mkSystem (push who room now d (object st)).1 w)
  | Fail, w => Some (mkSystem (stop (object st)) w)
  | Start now, Starting => Some (mkSystem (worker_start now (object st)) Looping)
  | End, Looping => if is_running_ (object st) then None else Some (mkSystem (object st) Ended)
  | Zero now, Looping =>
      if is_running_ (object st)
      then Some (mkSystem (zero_next now (object st)).1 (Zeroed now (zero_next now (object st)).2)) else None
  | Deliver pick, Zeroed now u =>
      match deliver pick (advance now u (object st)) with Ok m => Some (mkSystem m Looping) | Fault _ => None end
  | _, _ => None
  end.

Lemma do_act_step a st st' : do_act a st = Some st' -> step a st st'.
Proof.
  destruct st as [m w]. unfold do_act. cbn [worker object]. destruct a; try (intros [= <-]; by constructor).
  - destruct w; try discriminate 1. intros [= <-]. constructor.
  - destruct w; try discriminate 1. destruct (is_running_ m) eqn:E; [discriminate 1 |]. intros [= <-]. by constructor.
  - destruct w; try discriminate 1. destruct (is_running_ m) eqn:E; [| discriminate 1]. intros [= <-]. by constructor.
  - destruct w as [| |now u|]; try discriminate 1. destruct (deliver _ _) as [m'|] eqn:E; [| discriminate 1].
    intros [= <-]. by constructor.
Qed.

(** Acts one after the other, with the history of [k]; one that cannot be done is
    left out. *)
Definition do_acts (k : str) (l : list act) (s : System * list Z) : System * list Z :=
  fold_left (fun s a => match do_act a s.1 with Some st => (st, history k a s.1 s.2) | None => s end) l s.

Lemma do_acts_runs k l : forall s, runs k s.1 s.2 -> runs k (do_acts k l s).1 (do_acts k l s).2.
Proof.
  unfold do_acts. induction l as [|a l IH]; intros s Hs; [done |]. cbn [fold_left]. apply IH.
  destruct (do_act a s.1) eqn:E; [| done]. eapply runs_step; [exact Hs | by apply do_act_step].
Qed.

Definition demo_state : System * list Z := do_acts (lit "flow") demo_acts (started (lit "app"), []).
Definition demo_slots : list Z := get_or [] (lit "flow") (summary_map_ (object demo_state.1)).

Lemma demo_runs : runs (lit "flow") demo_state.1 [5; 10].
Proof.
  replace [5; 10] with demo_state.2 by (vm_compute; reflexivity). apply do_acts_runs, runs_start.
Qed.

Lemma summary_window_witness :
  window 2 1 demo_slots = Ok 15 /\ window 1001 1 demo_slots = Ok (15 + 5) /\ window 2000 1 demo_slots = Fault Undefined.
Proof.
  assert (summary_map_ (object demo_state.1) !! lit "flow" = Some demo_slots) as Hs by (vm_compute; reflexivity).
  assert (summary_current_index_ (object demo_state.1) = 1 /\ clearing demo_state.1 = false) as [Hc Hg] by (vm_compute; split; reflexivity).
  pose proof (fun iv => summary_window (lit "flow") demo_state.1 [5; 10] demo_slots iv demo_runs Hs) as H.
  rewrite Hc, Hg in H.
  assert (forall n, 0 <= total (take n [5; 10]) <= 15) as Ht by (intros [|[|[|n]]]; cbn; lia).
  assert (take 1000 [5; 10] = [5; 10]) as H1000 by (vm_compute; reflexivity).
  split_and!.
  - apply (proj1 (H 2)); [lia |]. intros n _. specialize (Ht n). lia.
  - destruct (H 1001) as (_ & Ha & _). rewrite H1000 in Ha. apply Ha; [done | lia | |]; intros n _; specialize (Ht n); cbn [total foldr]; lia.
  - apply (H 2000). lia.
Defined.
