(* ===== verification/MetricFlow.v ===== *)
(** * Metrics end to end: no sample is lost, and the program [src/src/iomn/src/main.cpp]

    [folded] is the specification of the maps: what they hold is a function of
    the samples that were delivered, in their order.  Producers push samples while
    the worker and the server thread run; every interleaving is a sequence of
    steps. *)
From S2P Require Import Prelude CStr StdString Metric MetricProps.
Open Scope Z_scope.

(** ** The program *)
Inductive push_op : Type :=
  | Status (k v : str)
  | Count (k : str)
  | Summary (k : str) (v : Z) (iv : list Z)
  | Guage (k : str) (v : Z).

(** [main] is the only producer. *)
Definition main_thread : producer := 1%positive.

Definition do_push (room : bool) (now : Z) (o : push_op) : Metric -> Metric * bool :=
  match o with
  | Status k v => push_status main_thread room now k v
  | Count k => push_count main_thread room now k
  | Summary k v iv => push_summary main_thread room now k v iv
  | Guage k v => push_guage main_thread room now k v
  end.

(** The body of the loop; [count] is an [int]. *)
Definition main_turn (count : Z) : res (list push_op * Z) :=
  if 2 ^ 31 <=? count + 2 then Fault Undefined
  else Ok ([Count (lit "times"); Summary (lit "summary") count [1; 2; 5; 10; 100];
            Summary (lit "summary2") (count + 1) [1; 20; 50]; Guage (lit "guagage") (count + 2)], count + 2).

Fixpoint main_turns (n : nat) (count : Z) : res (list push_op) :=
  match n with
  | O => Ok []
  | S n =>
      '(ops, count) ← main_turn count;
      rest ← main_turns n count;
      Ok (ops ++ rest)
  end.

(** What [main] pushes in its first [n] turns, and the program with its worker. *)
Definition main_ops (n : nat) : res (list push_op) :=
  ops ← main_turns n 0;
  Ok (Status (lit "start") (lit "success") :: ops).

(** The steps of the program while there is memory and the server thread can
    listen: a push of [main], a step of the worker. *)
Definition goes_on (a : act) : bool := match a with Push _ _ _ _ | Fail => false | _ => true end.

Inductive program : list push_op * System -> list push_op * System -> Prop :=
  | program_push now o ops m w : program (o :: ops, mkSystem m w) (ops, mkSystem (do_push true now o m).1 w)
  | program_step a ops st st' : step a st st' -> goes_on a = true -> program (ops, st) (ops, st').

(** ** The specification of the maps *)
Definition is_type (t : METRIC_TYPE) (k : str) (d : metric) : bool :=
  match t, type d with
  | count, count | gugae, gugae | histogram, histogram | summary, summary | status, status => bool_decide (key d = k)
  | _, _ => false
  end.

Definition add_up (f : metric -> Z) (l : list metric) : Z := total (map f l).
Definition counts (k : str) (l : list metric) : Z := add_up (fun d => if is_type count k d then 1 else 0) l.
Definition sums (k : str) (l : list metric) : Z := add_up (fun d => if is_type summary k d then int_value d else 0) l.
Definition latest (t : METRIC_TYPE) (k : str) (l : list metric) : option metric := last (filter (fun d => is_type t k d = true) l).

Record folded (m : Metric) (l : list metric) : Prop := {
  folded_count : forall k, get_or 0 k (count_map_ m) = u64 (counts k l);
  folded_guage : forall k, guage_map_ m !! k = (fun d => u64 (int_value d)) <$> latest gugae k l;
  folded_total : forall k, get_or 0 k (summary_total_map_ m) = u64 (sums k l);
  folded_status : forall k, status_map_ m !! k = str_value <$> latest status k l }.

Lemma add_up_app f l1 l2 : add_up f (l1 ++ l2) = add_up f l1 + add_up f l2.
Proof. unfold add_up. rewrite map_app. induction (map f l1) as [|x l IH]; cbn [app total foldr]; [done |].
fold (total (l ++ map f l2)) (total l). lia. Qed.

Lemma add_up_snoc f l d : add_up f (l ++ [d]) = add_up f l + f d.
Proof. rewrite add_up_app. unfold add_up at 2. cbn. lia. Qed.

Lemma latest_snoc t k l d : latest t k (l ++ [d]) = if is_type t k d then Some d else latest t k l.
Proof.
  unfold latest. rewrite filter_app. destruct (is_type t k d) eqn:E.
  - rewrite filter_cons_True, filter_nil by done. by rewrite last_snoc.
  - rewrite filter_cons_False, filter_nil by (by rewrite E). by rewrite app_nil_r.
Qed.

Lemma latest_app t k l1 l2 : latest t k (l1 ++ l2) = match latest t k l2 with Some d => Some d | None => latest t k l1 end.
Proof. unfold latest. by rewrite filter_app, last_app. Qed.

Lemma get_or_insert {A} (d x : A) (k k' : str) m : get_or d k' (<[k := x]> m) = if decide (k = k') then x else get_or d k' m.
Proof. unfold get_or. rewrite lookup_insert. by case_decide. Qed.

Lemma u64_add_l a b : u64 (u64 a + b) = u64 (a + b).
Proof. unfold u64, wrap. by rewrite Zplus_mod_idemp_l. Qed.

(** The summary case of the worker leaves the other maps alone. *)
Lemma update_summary_fields d m m' : update_summary d m = Ok m' ->
  count_map_ m' = count_map_ m /\ guage_map_ m' = guage_map_ m /\ status_map_ m' = status_map_ m /\
  summary_total_map_ m' = <[key d := u64 (get_or 0 (key d) (summary_total_map_ m) + int_value d)]> (summary_total_map_ m) /\
  q_ m' = q_ m /\ is_running_ m' = is_running_ m.
Proof.
  destruct (update_summary_eq d m) as (sm & tm & -> & _). unfold add_sample.
  destruct (at_index _ _); cbn [mbind res_bind]; [| done].
  destruct (add_i64 _ _); cbn [mbind res_bind]; [| done]. by intros [= <-].
Qed.

Lemma handle_folded d m m' l : folded m l -> handle d m = Ok m' -> folded m' (l ++ [d]).
Proof.
  intros [Hc Hg Ht Hs] E. unfold handle in E.
  destruct (type d) eqn:Ed; [injection E as <-.. | apply update_summary_fields in E as (E1 & E2 & E3 & E4 & _) | injection E as <-];
    split; intros k; unfold counts, sums; rewrite ?add_up_snoc, ?latest_snoc; unfold is_type; rewrite Ed;
    cbn [count_map_ guage_map_ summary_total_map_ status_map_]; rewrite ?E1, ?E2, ?E3, ?E4, ?Z.add_0_r, ?get_or_insert, ?lookup_insert;
    fold (counts k l) (sums k l); try done.
  all: repeat case_bool_decide; repeat case_decide; subst; try done; rewrite ?Z.add_0_r, ?Hc, ?Ht, ?u64_add_l; done.
Qed.

(** ** Samples accepted, delivered and queued *)
Abbreviation sent := (list (producer * metric)).

(** The samples of one producer. *)
Definition of_producer (p : producer) (l : sent) : list metric := map snd (filter (fun x => x.1 = p) l).

(** What a step adds to the queue. *)
Definition accepts (a : act) (st : System) : sent :=
  match a with
  | Push who room now d => if is_running_ (object st) && room then [(who, stamp now d)] else []
  | _ => []
  end.

(** The states the threads reach once [run] was called, with everything that was
    accepted, in order. *)
Inductive accepted : System -> sent -> Prop :=
  | accepted_start tag : accepted (started tag) []
  | accepted_step a st st' l : accepted st l -> step a st st' -> accepted st' (l ++ accepts a st).

Lemma of_producer_app p l1 l2 : of_producer p (l1 ++ l2) = of_producer p l1 ++ of_producer p l2.
Proof. unfold of_producer. by rewrite filter_app, map_app. Qed.

Lemma of_producer_cons p x d l : of_producer p ((x, d) :: l) = if decide (x = p) then d :: of_producer p l else of_producer p l.
Proof. unfold of_producer. case_decide; [by rewrite filter_cons_True | by rewrite filter_cons_False]. Qed.

(** [try_dequeue] takes the oldest sample of one producer. *)
Lemma dequeue_spec p q d q' : dequeue p q = Some (d, q') ->
  q ≡ₚ (p, d) :: q' /\ forall x, of_producer x q = of_producer x ((p, d) :: q').
Proof.
  revert q'. induction q as [|[x e] q IH]; intros q'; cbn [dequeue]; [done |]. case_decide as Hx.
  - intros [= -> ->]. subst x. done.
  - destruct (dequeue p q) as [[d' q1]|] eqn:E; cbn [mbind option_bind]; [| done]. intros [= -> <-].
    destruct (IH q1 eq_refl) as [Hp Ho]. split; [rewrite Hp; apply Permutation_swap |].
    intros y. rewrite !of_producer_cons. specialize (Ho y). rewrite of_producer_cons in Ho. rewrite Ho.
    repeat case_decide; try done. congruence.
Qed.

Lemma try_dequeue_spec pick m d q : try_dequeue pick m = Some (d, q) ->
  exists p, q_ m ≡ₚ (p, d) :: q /\ forall x, of_producer x (q_ m) = of_producer x ((p, d) :: q).
Proof. destruct pick as [p|]; [| done]. intros E. exists p. by apply dequeue_spec. Qed.

(** A sample that is there can be found. *)
Lemma dequeue_finds p d q : (p, d) ∈ q -> exists d' q', dequeue p q = Some (d', q').
Proof.
  induction q as [|[x e] q IH]; [by intros ?%elem_of_nil |]. intros Hin. cbn [dequeue]. case_decide as Hx; [eauto |].
  apply elem_of_cons in Hin as [[= <- <-]|Hin]; [done |]. destruct (IH Hin) as (d' & q' & ->). cbn [mbind option_bind]. eauto.
Qed.

Lemma advance_keeps now u m l : folded m l ->
  folded (advance now u m) l /\ q_ (advance now u m) = q_ m /\ is_running_ (advance now u m) = is_running_ m.
Proof. intros [Hc Hg Ht Hs]. by destruct u. Qed.

Lemma zero_next_keeps now m l : folded m l ->
  folded (zero_next now m).1 l /\ q_ (zero_next now m).1 = q_ m /\ is_running_ (zero_next now m).1 = is_running_ m.
Proof. intros [Hc Hg Ht Hs]. unfold zero_next. by destruct (_ && _). Qed.

Lemma handle_keeps d m m' : handle d m = Ok m' -> q_ m' = q_ m /\ is_running_ m' = is_running_ m.
Proof. unfold handle. destruct (type d); try (by intros [= <-]). by intros (_ & _ & _ & _ & ? & ?)%update_summary_fields.
Qed.

Lemma folded_with_queue q m l : folded m l -> folded (with_queue q m) l.
Proof. by intros []. Qed.

Lemma deliver_folded pick m m' l : deliver pick m = Ok m' -> folded m l ->
  is_running_ m' = is_running_ m /\
  match try_dequeue pick m with
  | Some (d, q) => q_ m' = q /\ folded m' (l ++ [d])
  | None => m' = m
  end.
Proof.
  unfold deliver. intros E Hf. destruct (try_dequeue pick m) as [[d q]|]; [| by injection E as <-].
  pose proof (handle_keeps _ _ _ E) as [Eq Er]. split_and!; [by rewrite Er | done |].
  by eapply handle_folded, E; apply folded_with_queue.
Qed.

(** The samples [l] are those delivered, and those on the queue: all of them
    once, and each producer's in its order. *)
Record split_ok (m : Metric) (l del : sent) : Prop := {
  split_all : l ≡ₚ del ++ q_ m;
  split_order : forall p, of_producer p l = of_producer p del ++ of_producer p (q_ m);
  split_folded : folded m (map snd del) }.

Lemma split_deliver pick m m' l del : deliver pick m = Ok m' -> split_ok m l del -> 
  exists del', split_ok m' l del' /\ match try_dequeue pick m with
    | Some (d, _) => exists p, del' = del ++ [(p, d)] /\ q_ m ≡ₚ (p, d) :: q_ m' | None => del' = del /\ m' = m end.
Proof.
  intros E [Ha Ho Hf]. destruct (deliver_folded _ _ _ _ E Hf) as [_ Hd].
  destruct (try_dequeue pick m) as [[d q]|] eqn:Et; [| subst m'; exists del; by split_and!].
  destruct Hd as [Hq Hf']. destruct (try_dequeue_spec _ _ _ _ Et) as (p & Hp & Hpo). rewrite <- Hq in Hp, Hpo.
  exists (del ++ [(p, d)]). split; [split |].
  - rewrite Ha, Hp, <- app_assoc. done.
  - intros x. rewrite Ho, Hpo, of_producer_app, <- app_assoc. f_equal. rewrite <- (of_producer_app x [(p, d)]). done.
  - by rewrite map_app.
  - by exists p.
Qed.

Lemma split_same m m' l del : split_ok m l del -> q_ m' = q_ m -> folded m' (map snd del) -> split_ok m' l del.
Proof. intros [Ha Ho _] Hq Hf. split; [by rewrite Hq | intros p; by rewrite Hq | done]. Qed.

Lemma split_push who room now d m l del : split_ok m l del ->
  split_ok (push who room now d m).1 (l ++ if is_running_ m && room then [(who, stamp now d)] else []) del.
Proof.
  intros [Ha Ho Hf]. unfold push. destruct (is_running_ m), room; cbn [andb fst]; rewrite ?app_nil_r; try done.
  split; cbn [with_queue q_]; [by rewrite Ha, app_assoc | | by apply folded_with_queue].
  intros p. by rewrite !of_producer_app, Ho, app_assoc.
Qed.

(** ** The worker never stops *)

(** The slots hold parts of the sums. *)
Definition slots_ok (m : Metric) (l : list metric) : Prop :=
  0 <= summary_current_index_ m < 1000 /\
  forall k slots, summary_map_ m !! k = Some slots ->
    length slots = 1000%nat /\ Forall (fun x => 0 <= x <= sums k l) slots.

Definition nonneg (l : list metric) : Prop := Forall (fun d => 0 <= int_value d) l.

Lemma sums_nonneg k l : nonneg l -> 0 <= sums k l.
Proof.
  unfold sums, add_up. induction 1 as [|d l Hd _ IH]; [done |]. cbn [map total foldr].
  fold (total (map (fun d => if is_type summary k d then int_value d else 0) l)). destruct (is_type _ _ _); lia.
Qed.

Lemma sums_app k l1 l2 : sums k (l1 ++ l2) = sums k l1 + sums k l2.
Proof. apply add_up_app. Qed.

Lemma sums_snoc k l d : sums k (l ++ [d]) = sums k l + if is_type summary k d then int_value d else 0.
Proof. apply add_up_snoc. Qed.

Lemma advance_slots now u m l : slots_ok m l -> slots_ok (advance now u m) l.
Proof. intros [Hc Hs]. destruct u; [| done]. split; [by apply next_index_range | exact Hs]. Qed.

Lemma zero_next_slots now m l : nonneg l -> slots_ok m l -> slots_ok (zero_next now m).1 l.
Proof.
  intros Hn [Hc Hs]. unfold zero_next. destruct (_ && _); [| done]. split; cbn [fst summary_current_index_ summary_map_]; [done |].
  - intros k slots. rewrite lookup_fmap. destruct (summary_map_ m !! k) as [s0|] eqn:E; [| done]. intros [= <-].
    destruct (Hs k s0 E) as [Hl Hf]. split; [by rewrite length_insert |].
    apply Forall_insert; [done |]. split; [done | by apply sums_nonneg].
Qed.

(** A sample delivered keeps the bounds of every other key. *)
Lemma slots_ok_more m l d : 0 <= int_value d -> slots_ok m l ->
  forall k slots, summary_map_ m !! k = Some slots -> length slots = 1000%nat /\ Forall (fun x => 0 <= x <= sums k (l ++ [d])) slots.
Proof.
  intros Hd [_ Hs] k slots E. destruct (Hs k slots E) as [Hl Hf]. split; [done |]. eapply Forall_impl; [exact Hf |].
  intros x Hx. cbn in Hx. rewrite sums_snoc. destruct (is_type _ _ _); lia.
Qed.

(** The slot a summary adds to. *)
Lemma current_slot d m l : nonneg l -> slots_ok m l ->
  exists x, get_or zeros (key d) (summary_map_ m) !! Z.to_nat (summary_current_index_ m) = Some x /\
    0 <= x <= sums (key d) l /\ length (get_or zeros (key d) (summary_map_ m)) = 1000%nat /\
    Forall (fun y => 0 <= y <= sums (key d) l) (get_or zeros (key d) (summary_map_ m)).
Proof.
  intros Hn [Hc Hs]. set (slots := get_or zeros (key d) (summary_map_ m)).
  assert (length slots = 1000%nat /\ Forall (fun x => 0 <= x <= sums (key d) l) slots) as [Hl Hf].
  { unfold slots, get_or. destruct (summary_map_ m !! key d) as [s0|] eqn:E; [by apply Hs |].
    split; [done |]. apply Forall_replicate. split; [done | by apply sums_nonneg]. }
  destruct (lookup_lt_is_Some_2 slots (Z.to_nat (summary_current_index_ m))) as [x Hx]; [rewrite Hl; lia |].
  exists x. split_and!; try done; by apply (Forall_lookup_1 _ _ _ _ Hf Hx).
Qed.

Lemma update_summary_slots d m m' l : type d = summary -> 0 <= int_value d -> nonneg l -> slots_ok m l ->
  update_summary d m = Ok m' -> slots_ok m' (l ++ [d]).
Proof.
  intros Et Hd Hn Hok. pose proof (slots_ok_more m l d Hd Hok) as Hmore.
  destruct (current_slot d m l Hn Hok) as (x & Hx & Hxb & Hl & Hf). destruct Hok as [Hc _].
  destruct (update_summary_eq d m) as (sm & tm & -> & Hsm). unfold add_sample, at_index. rewrite Hx. cbn [mbind res_bind].
  unfold add_i64. destruct (_ && _); cbn [mbind res_bind]; [| done]. intros [= <-]. split; [done |].
  cbn [summary_map_]. intros k s1. rewrite lookup_insert. case_decide as Hk; [| rewrite Hsm by done; apply Hmore].
  intros [= <-]. subst k. rewrite length_insert, sums_snoc. unfold is_type. rewrite Et, bool_decide_eq_true_2 by done.
  split; [done |]. apply Forall_insert; [| lia]. eapply Forall_impl; [exact Hf |]. cbn. lia.
Qed.

Lemma handle_slots d m m' l : 0 <= int_value d -> nonneg l -> slots_ok m l -> handle d m = Ok m' -> slots_ok m' (l ++ [d]).
Proof.
  intros Hd Hn Hok. unfold handle.
  destruct (type d) eqn:Et; [| | | by apply update_summary_slots |];
    (intros [= <-]; split; [apply Hok | apply (slots_ok_more m l d Hd Hok)]).
Qed.

Lemma handle_ok d m l : 0 <= int_value d -> nonneg l -> slots_ok m l -> sums (key d) (l ++ [d]) < 2 ^ 63 ->
  exists m', handle d m = Ok m'.
Proof.
  intros Hd Hn Hok Hb. unfold handle. destruct (type d) eqn:Et; try (by eexists).
  rewrite sums_snoc in Hb. unfold is_type in Hb. rewrite Et, bool_decide_eq_true_2 in Hb by done.
  destruct (current_slot d m l Hn Hok) as (x & Hx & Hxb & _).
  destruct (update_summary_eq d m) as (sm & tm & -> & _). unfold add_sample, at_index, add_i64. rewrite Hx.
  cbn [mbind res_bind].
  rewrite (proj2 (Z.leb_le _ _)), (proj2 (Z.ltb_lt _ _)) by lia. by eexists.
Qed.

(** ** Every sample is delivered *)

(** The invariant: what was delivered, and while no value is negative, the slots. *)
Definition flow_ok (st : System) (l : sent) : Prop := exists del, split_ok (object st) l del /\
  (nonneg (map snd l) -> worker st = Starting \/ slots_ok (object st) (map snd del)) /\
  (worker st = Starting -> summary_map_ (object st) = ∅ /\ del = []).

Lemma nonneg_perm l del m : split_ok m l del -> nonneg (map snd l) -> nonneg (map snd del) /\ nonneg (map snd (q_ m)).
Proof.
  intros [Ha _ _] Hn. unfold nonneg in *. rewrite Ha, map_app in Hn. by apply Forall_app in Hn.
Qed.

Lemma deliver_slots pick m m' l del : deliver pick m = Ok m' -> split_ok m l del -> nonneg (map snd l) ->
  slots_ok m (map snd del) -> forall del', split_ok m' l del' ->
  match try_dequeue pick m with
  | Some (d, _) => exists p, del' = del ++ [(p, d)] /\ q_ m ≡ₚ (p, d) :: q_ m' | None => del' = del /\ m' = m end ->
  slots_ok m' (map snd del').
Proof.
  intros E Hok Hn Hs del' _ Hd. destruct (nonneg_perm _ _ _ Hok Hn) as [Hnd Hnq]. unfold deliver in E.
  destruct (try_dequeue pick m) as [[d q]|]; [| by destruct Hd as [-> ->]].
  destruct Hd as (p & -> & Hq). rewrite map_app. unfold nonneg in Hnq. rewrite Hq in Hnq. apply Forall_cons in Hnq as [Hd _].
  by apply (handle_slots d (with_queue q m)).
Qed.

Lemma step_flow a st st' l : step a st st' -> flow_ok st l -> flow_ok st' (l ++ accepts a st).
Proof.
  intros Hs (del & Hok & Hsl & H0). destruct Hs as [who room now d m w|m w|now m|m Hr|now m Hr|pick now u m m' E];
    cbn [object worker accepts] in *; rewrite ?app_nil_r; unfold flow_ok; cbn [object worker].
  - exists del. split; [by apply split_push |]. destruct (push_maps who room now d m) as [Em Ei]. rewrite Em.
    split; [| exact H0]. intros Hn. rewrite map_app in Hn. apply Forall_app in Hn as [Hn _].
    unfold slots_ok. rewrite Em, Ei. by apply Hsl.
  - exists del. split; [| done]. by apply (split_same m); [| | destruct (split_folded _ _ _ Hok)].
  - destruct (H0 eq_refl) as [Em ->]. exists []. split; [by apply (split_same m); [| | destruct (split_folded _ _ _ Hok)] |].
    split; [| done]. intros _. right. split; [done |]. cbn [worker_start summary_map_]. rewrite Em. intros k slots.
    by rewrite lookup_empty.
  - exists del. split_and!; [done | | done]. intros Hn. destruct (Hsl Hn) as [|]; [done | by right].
  - destruct (zero_next_keeps now m _ (split_folded _ _ _ Hok)) as (Hf & Hq & _). exists del.
    split; [by apply (split_same m) |]. split; [| done]. intros Hn. right. destruct (Hsl Hn) as [|Hs]; [done |].
    apply zero_next_slots; [by eapply nonneg_perm | done].
  - destruct (advance_keeps now u m _ (split_folded _ _ _ Hok)) as (Hf & Hq & _).
    assert (split_ok (advance now u m) l del) as Hok1 by by apply (split_same m).
    destruct (split_deliver _ _ _ _ _ E Hok1) as (del' & Hok' & Hd). exists del'. split; [done |]. split; [| done].
    intros Hn. right. destruct (Hsl Hn) as [|Hs]; [done |]. eapply deliver_slots; [exact E | exact Hok1 | done | | exact Hok' | exact Hd].
    by apply advance_slots.
Qed.

Lemma accepted_flow st l : accepted st l -> flow_ok st l.
Proof.
  induction 1 as [tag|a st st' l _ IH Hs]; [| by eapply step_flow].
  exists []. split; [| split; [by left | done]]. split; [done | done |]. by split.
Qed.

(** While the sums fit, no delivery is undefined. *)
Lemma sums_perm k l1 l2 : l1 ≡ₚ l2 -> sums k l1 = sums k l2.
Proof.
  induction 1 as [|x l1 l2 _ IH|x y l|l1 l2 l3 _ IH1 _ IH2]; [done | | | congruence]; unfold sums, add_up, total in *;
    cbn [map foldr]; lia.
Qed.

Lemma deliver_ok pick m l del : split_ok m l del -> nonneg (map snd l) -> (forall k, sums k (map snd l) < 2 ^ 63) ->
  slots_ok m (map snd del) -> exists m', deliver pick m = Ok m'.
Proof.
  intros Hok Hn Hb Hs. destruct (nonneg_perm _ _ _ Hok Hn) as [Hnd Hnq]. unfold deliver.
  destruct (try_dequeue pick m) as [[d q]|] eqn:E; [| by eexists]. destruct (try_dequeue_spec _ _ _ _ E) as (p & Hp & _).
  unfold nonneg in Hnq. rewrite Hp in Hnq. apply Forall_cons in Hnq as [Hd Hq]. cbn [snd] in Hd.
  apply (handle_ok d _ (map snd del)); try done. specialize (Hb (key d)).
  rewrite (sums_perm _ _ (map snd (del ++ [(p, d)] ++ q))) in Hb
    by (by rewrite (split_all _ _ _ Hok), Hp).
  rewrite !map_app, app_assoc, sums_app in Hb. pose proof (sums_nonneg (key d) (map snd q) Hq). cbn [map snd] in Hb. lia.
Qed.

(** Turns of the worker that nothing comes between, each of which finds a sample
    if there is one. *)
Inductive worker_turns : nat -> Metric -> Metric -> Prop :=
  | turns_none m : worker_turns 0 m m
  | turns_one n now pick m m1 m2 : (q_ m <> [] -> try_dequeue pick m <> None) ->
      turn now pick m = Ok m1 -> worker_turns n m1 m2 -> worker_turns (S n) m m2.

(** The worker at the test of its loop. *)
Definition loop_ok (m : Metric) (l : sent) : Prop :=
  exists del, split_ok m l del /\ slots_ok m (map snd del).

Lemma turn_loop now pick m l : nonneg (map snd l) -> (forall k, sums k (map snd l) < 2 ^ 63) -> loop_ok m l ->
  exists m', turn now pick m = Ok m' /\ loop_ok m' l /\
    match try_dequeue pick m with Some _ => S (length (q_ m')) = length (q_ m) | None => q_ m' = q_ m end.
Proof.
  intros Hn Hb (del & Hok & Hs). unfold turn. destruct (zero_next now m) as [m1 u] eqn:E1.
  destruct (zero_next_keeps now m _ (split_folded _ _ _ Hok)) as (Hf1 & Hq1 & _). rewrite E1 in Hf1, Hq1. cbn [fst] in *.
  destruct (advance_keeps now u m1 _ Hf1) as (Hf2 & Hq2 & _). rewrite Hq1 in Hq2.
  assert (split_ok (advance now u m1) l del) as Hok2 by by apply (split_same m).
  assert (slots_ok (advance now u m1) (map snd del)) as Hs2.
  { apply advance_slots. change m1 with (m1, u).1. rewrite <- E1. apply zero_next_slots; [by eapply nonneg_perm | done]. }
  destruct (deliver_ok pick _ _ _ Hok2 Hn Hb Hs2) as [m' E]. exists m'. split; [exact E |].
  destruct (split_deliver _ _ _ _ _ E Hok2) as (del' & Hok' & Hd). split.
  - exists del'. split; [done |]. by eapply deliver_slots.
  - assert (try_dequeue pick (advance now u m1) = try_dequeue pick m) as Et.
    { unfold try_dequeue. by rewrite Hq2. }
    rewrite Et, Hq2 in Hd. destruct (try_dequeue pick m) as [[d q]|]; [| destruct Hd as [_ ->]; by rewrite Hq2].
    destruct Hd as (p & _ & Hp). by rewrite Hp.
Qed.

Lemma worker_turns_drain n m m' l : worker_turns n m m' -> nonneg (map snd l) -> (forall k, sums k (map snd l) < 2 ^ 63) ->
  loop_ok m l -> loop_ok m' l /\ (length (q_ m) <= n -> q_ m' = [])%nat.
Proof.
  intros Ht Hn Hb. induction Ht as [m|n now pick m m1 m2 Hfind E Ht IH]; intros Hok.
  - split; [done |]. intros Hl. apply nil_length_inv. lia.
  - destruct (turn_loop now pick m l Hn Hb Hok) as (m1' & E' & Hok' & Hq). rewrite E in E'. injection E' as <-.
    destruct (IH Hok') as [H1 H2]. split; [done |]. intros Hl. apply H2. destruct (try_dequeue pick m) eqn:Et.
    + lia.
    + rewrite Hq. destruct (q_ m); [cbn; lia |]. by destruct Hfind.
Qed.

Lemma worker_turns_exist n m l : nonneg (map snd l) -> (forall k, sums k (map snd l) < 2 ^ 63) -> loop_ok m l ->
  exists m', worker_turns n m m'.
Proof.
  intros Hn Hb. revert m. induction n as [|n IH]; intros m Hok; [exists m; constructor |].
  set (pick := fst <$> head (q_ m)). destruct (turn_loop 0 pick m l Hn Hb Hok) as (m1 & E & Hok1 & _).
  destruct (IH m1 Hok1) as [m' Ht]. exists m'. eapply turns_one, Ht; [| exact E]. intros Hq. unfold pick.
  destruct (q_ m) as [|[p d] q] eqn:Eq; [done |]. cbn. rewrite Eq. destruct (dequeue_finds p d ((p, d) :: q)) as (d' & q' & ->); [by left | done].
Qed.

(** Once the object has been stopped the worker takes no further sample than
    that of the turn it is in. *)
Lemma stopped_step a st st' : step a st st' -> is_running_ (object st) = false ->
  is_running_ (object st') = false /\
  (worker st = Looping \/ worker st = Ended -> (worker st' = Looping \/ worker st' = Ended) /\ q_ (object st') = q_ (object st)).
Proof.
  intros Hs Hr. destruct Hs as [who room now d m w|m w|now m|m Hr'|now m Hr'|pick now u m m' E]; cbn [object worker] in *.
  - unfold push. rewrite Hr. done.
  - done.
  - split; [done |]. by intros [|].
  - split; [done |]. intros _. split; [by right | done].
  - congruence.
  - split; [| by intros [|]]. unfold deliver in E. assert (is_running_ (advance now u m) = false) as Ha by (by destruct u).
    destruct (try_dequeue _ _) as [[d q]|]; [| by injection E as <-]. apply handle_keeps in E as [_ ->]. exact Ha.
Qed.

Lemma stopped_steps st st' : rtc (fun s s' => exists a, step a s s') st st' -> is_running_ (object st) = false ->
  worker st = Looping \/ worker st = Ended -> q_ (object st') = q_ (object st).
Proof.
  induction 1 as [st|st st1 st2 [a Hs] _ IH]; intros Hr Hw; [done |].
  destruct (stopped_step a st st1 Hs Hr) as [Hr1 Hq]. destruct (Hq Hw) as [Hw1 Hq1]. by rewrite IH, Hq1.
Qed.

(** C33: whatever producers, the worker and the server thread do, in any
    interleaving, and whichever producer's samples the queue gives out first: what
    was accepted is what was delivered together with what is on the queue, no
    sample lost or counted twice and those of each producer in their order, and the
    maps are the counts, the latest values and the sums of the delivered ones.
    While no value is negative and the sums fit [int64_t], the worker's turns are
    never undefined, and as many turns as there are samples on the queue, each of
    which finds one if there is any, deliver all of them.  Once the object was
    stopped, as it is when the server thread cannot listen, the samples left on the
    queue at the end of the worker's turn stay there, and no push is accepted. *)
Theorem samples_delivered st l :
  accepted st l ->
  (exists del, l ≡ₚ del ++ q_ (object st) /\
     (forall p, of_producer p l = of_producer p del ++ of_producer p (q_ (object st))) /\
     folded (object st) (map snd del)) /\
  (worker st = Looping -> nonneg (map snd l) -> (forall k, sums k (map snd l) < 2 ^ 63) ->
     (forall now pick, exists m, turn now pick (object st) = Ok m) /\
     (forall n, exists m, worker_turns n (object st) m) /\
     (forall n m, worker_turns n (object st) m -> (length (q_ (object st)) <= n)%nat ->
        q_ m = [] /\ exists del, del ≡ₚ l /\ (forall p, of_producer p del = of_producer p l) /\ folded m (map snd del))) /\
  (is_running_ (object st) = false -> worker st = Looping \/ worker st = Ended ->
     (forall who room now d, (push who room now d (object st)).2 = false) /\
     forall st', rtc (fun s s' => exists a, step a s s') st st' -> q_ (object st') = q_ (object st)).
Proof.
  intros Ha. destruct (accepted_flow st l Ha) as (del & Hok & Hsl & _). split_and!.
  - exists del. by destruct Hok.
  - intros Hw Hn Hb. assert (loop_ok (object st) l) as Hl.
    { exists del. split; [done |]. destruct (Hsl Hn) as [E|]; [by rewrite Hw in E | done]. }
    split_and!.
    + intros now pick. destruct (turn_loop now pick _ l Hn Hb Hl) as (m & E & _). by exists m.
    + intros n. by eapply worker_turns_exist.
    + intros n m Ht Hlen. destruct (worker_turns_drain n _ _ l Ht Hn Hb Hl) as [(del' & [Ha' Ho' Hf'] & _) Hq].
      specialize (Hq Hlen). split; [done |]. exists del'. rewrite Hq in Ha', Ho'. split_and!; [by rewrite Ha', app_nil_r | | done].
      intros p. by rewrite Ho', app_nil_r.
  - intros Hr Hw. split; [intros who room now d; unfold push; by rewrite Hr |]. intros st' Hst. by apply stopped_steps.
Qed.

(** ** The program *)
Definition sample_of (o : push_op) : metric :=
  match o with
  | Status k v => mkMetric status 0 k [] 0 v
  | Count k => mkMetric count 0 k [] 0 []
  | Summary k v iv => mkMetric summary 0 k iv v []
  | Guage k v => mkMetric gugae 0 k [] v []
  end.

Lemma do_push_sample room now o : do_push room now o = push main_thread room now (sample_of o).
Proof. by destruct o. Qed.

(** Samples that differ only in their time stamps. *)
Definition same_sample (d e : metric) : Prop :=
  type d = type e /\ key d = key e /\ int_value d = int_value e /\ str_value d = str_value e.

Lemma is_type_same t k d e : same_sample d e -> is_type t k d = is_type t k e.
Proof. intros (Et & Ek & _). unfold is_type. by rewrite Et, Ek. Qed.

Lemma same_counts k l1 l2 : Forall2 same_sample l1 l2 -> counts k l1 = counts k l2.
Proof.
  unfold counts, add_up. induction 1 as [|d e l1 l2 Hd _ IH]; [done |]. cbn [map total foldr].
  rewrite (is_type_same _ _ _ _ Hd). f_equal. exact IH.
Qed.

Lemma same_sums k l1 l2 : Forall2 same_sample l1 l2 -> sums k l1 = sums k l2.
Proof.
  unfold sums, add_up. induction 1 as [|d e l1 l2 Hd _ IH]; [done |]. cbn [map total foldr].
  rewrite (is_type_same _ _ _ _ Hd). destruct Hd as (_ & _ & -> & _). f_equal. exact IH.
Qed.

Lemma same_latest t k l1 l2 : Forall2 same_sample l1 l2 ->
  match latest t k l1, latest t k l2 with Some d, Some e => same_sample d e | None, None => True | _, _ => False end.
Proof.
  revert l2. induction l1 as [|d l1 IH] using rev_ind; intros l2 H.
  - by apply Forall2_nil_inv_l in H as ->.
  - apply Forall2_app_inv_l in H as (k1 & k2 & H1 & H2 & ->). apply Forall2_cons_inv_l in H2 as (e & k3 & He & H3 & ->).
    apply Forall2_nil_inv_l in H3 as ->. rewrite !latest_snoc, (is_type_same _ _ _ _ He).
    destruct (is_type t k e); [done | by apply IH].
Qed.

(** All samples are those of [main], and the object runs. *)
Record of_main (st : System) (l : sent) : Prop := {
  main_accepted : accepted st l;
  main_only : Forall (fun x => x.1 = main_thread) l;
  main_running : is_running_ (object st) = true }.

Lemma step_running a st st' : step a st st' -> goes_on a = true -> is_running_ (object st') = is_running_ (object st).
Proof.
  intros Hs Ha. destruct Hs as [| |now m|m Hr|now m Hr|pick now u m m' E]; try discriminate Ha; cbn [object]; try done.
  - unfold zero_next. by destruct (_ && _).
  - unfold deliver in E. assert (is_running_ (advance now u m) = is_running_ m) as <- by (by destruct u).
    destruct (try_dequeue _ _) as [[d q]|]; [| by injection E as <-]. by apply handle_keeps in E as [_ ->].
Qed.

(** What is left to push, and what was accepted of the rest. *)
Lemma program_accepted ops st ops' st' : rtc program (ops, st) (ops', st') -> forall l, of_main st l ->
  exists pre l', ops = pre ++ ops' /\ of_main st' (l ++ l') /\ Forall2 same_sample (map snd l') (map sample_of pre).
Proof.
  intros Hr. remember (ops, st) as s eqn:Es. remember (ops', st') as s' eqn:Es'. revert ops st Es.
  induction Hr as [s|s s1 s2 Hp _ IH]; intros ops st ->; intros l Hl.
  - injection Es' as -> ->. exists [], []. rewrite app_nil_r. by split_and!.
  - inversion Hp as [now o ops1 m w E1 E2|a ops1 st0 st1 Hs Ha E1 E2]; subst.
    + destruct Hl as [Hacc Hmain Hrun]. cbn [object] in Hrun. rewrite do_push_sample in IH.
      pose proof (accepted_step _ _ _ _ Hacc (step_push main_thread true now (sample_of o) m w)) as Hacc'.
      cbn [accepts object] in Hacc'. rewrite Hrun in Hacc'. cbn [andb] in Hacc'.
      destruct (IH eq_refl _ _ eq_refl _ (Build_of_main _ _ Hacc' ltac:(apply Forall_app; split; [done | by constructor])
        ltac:(unfold push; by rewrite Hrun))) as (pre & l' & -> & Hm & Hl').
      exists (o :: pre), ((main_thread, stamp now (sample_of o)) :: l'). rewrite <- app_assoc in Hm.
      split_and!; [done | done |]. constructor; [by destruct o | done].
    + apply (IH eq_refl _ _ eq_refl). destruct Hl as [Hacc Hmain Hrun]. pose proof (accepted_step _ _ _ _ Hacc Hs) as Hacc'.
      assert (accepts a st = []) as Ea by (by destruct a). rewrite Ea, app_nil_r in Hacc'.
      split; [done | done |]. by rewrite (step_running a st st1).
Qed.

(** The samples of one producer are delivered in their order. *)
Lemma main_samples l : Forall (fun x => x.1 = main_thread) l -> of_producer main_thread l = map snd l.
Proof.
  induction 1 as [|[p d] l Hp _ IH]; [done |]. cbn [fst] in Hp. rewrite of_producer_cons, decide_True, IH by done. done.
Qed.

(** What [n] turns push, starting at [c]. *)
Lemma main_turns_samples n : forall c, 0 <= c -> c + 2 * Z.of_nat n < 2 ^ 31 ->
  exists ops, main_turns n c = Ok ops /\ nonneg (map sample_of ops) /\
    let l := map sample_of ops in
    counts (lit "times") l = Z.of_nat n /\
    (forall k, 0 <= sums k l <= Z.of_nat n * (c + 1 + Z.of_nat n)) /\
    sums (lit "summary") l = Z.of_nat n * (c + Z.of_nat n - 1) /\
    sums (lit "summary2") l = Z.of_nat n * (c + Z.of_nat n) /\
    (forall k, latest status k l = None) /\
    int_value <$> latest gugae (lit "guagage") l = if (n =? 0)%nat then None else Some (c + 2 * Z.of_nat n).
Proof.
  induction n as [|n IH]; intros c Hc Hn; cbn [main_turns].
  { exists []. unfold counts, sums, add_up. split_and!; try done. by constructor. }
  unfold main_turn. rewrite (proj2 (Z.leb_gt _ _)) by lia. cbn [mbind res_bind].
  destruct (IH (c + 2) ltac:(lia) ltac:(lia)) as (ops & -> & Hnn & H1 & H2 & H3 & H4 & H5 & H6). cbn [mbind res_bind].
  eexists. split; [done |]. rewrite map_app. set (l := map sample_of ops) in *. cbn [map sample_of].
  set (one := [_; _; _; _]). split; [apply Forall_app; split; [by repeat constructor; cbn; lia | done] |].
  assert (forall k, sums k one = (if decide (k = lit "summary") then c else 0) + if decide (k = lit "summary2") then c + 1 else 0) as Ho.
  { intros k. unfold sums, add_up, one, is_type. cbn.
    repeat case_bool_decide; repeat case_decide; subst; try congruence; lia. }
  cbv zeta. split_and!.
  - unfold counts. rewrite add_up_app. change (add_up _ l) with (counts (lit "times") l). rewrite H1.
    change (add_up _ one) with 1. lia.
  - intros k. rewrite sums_app, Ho. specialize (H2 k). repeat case_decide; subst; [done | nia..].
  - rewrite sums_app, Ho, H3, decide_True, decide_False by done. nia.
  - rewrite sums_app, Ho, H4, decide_False, decide_True by done. nia.
  - intros k. rewrite latest_app, H5. done.
  - rewrite latest_app. destruct (latest gugae (lit "guagage") l); cbn in H6 |- *; destruct n; simplify_eq/=; f_equal; lia.
Qed.

Lemma main_turns_overflow n : forall c, 0 <= c < 2 ^ 31 -> 2 ^ 31 <= c + 2 * Z.of_nat n -> main_turns n c = Fault Undefined.
Proof.
  induction n as [|n IH]; intros c Hc Hn; cbn [main_turns]; [lia |]. unfold main_turn.
  destruct (Z.leb_spec (2 ^ 31) (c + 2)); [done |]. cbn [mbind res_bind]. by rewrite IH by lia.
Qed.

(** The samples of [main] are small enough for the worker. *)
Lemma main_ops_samples n ops : 0 <= 2 * Z.of_nat n < 2 ^ 31 -> main_ops n = Ok ops ->
  let l := map sample_of ops in
  nonneg l /\ counts (lit "times") l = Z.of_nat n /\ (forall k, 0 <= sums k l < 2 ^ 63) /\
  sums (lit "summary") l = Z.of_nat n * (Z.of_nat n - 1) /\ sums (lit "summary2") l = Z.of_nat n * Z.of_nat n /\
  str_value <$> latest status (lit "start") l = Some (lit "success") /\
  int_value <$> latest gugae (lit "guagage") l = if (n =? 0)%nat then None else Some (2 * Z.of_nat n).
Proof.
  intros Hn E. destruct (main_turns_samples n 0 ltac:(lia) ltac:(lia)) as (ops' & E' & Hnn & H1 & H2 & H3 & H4 & H5 & H6).
  unfold main_ops in E. rewrite E' in E. cbn [mbind res_bind] in E. injection E as <-. cbn [map sample_of].
  set (d := mkMetric status _ _ _ _ _). change (d :: map sample_of ops') with ([d] ++ map sample_of ops').
  assert (forall k, sums k [d] = 0) as Hd by done. cbv zeta. split_and!.
  - by constructor.
  - unfold counts. rewrite add_up_app. change (add_up _ (map _ _)) with (counts (lit "times") (map sample_of ops')).
    by rewrite H1.
  - intros k. rewrite sums_app, Hd. specialize (H2 k). nia.
  - rewrite sums_app, Hd, H3. lia.
  - rewrite sums_app, Hd, H4. lia.
  - by rewrite latest_app, H5.
  - rewrite latest_app. by destruct (latest gugae (lit "guagage") (map sample_of ops')).
Qed.

Lemma nonneg_same l1 l2 : Forall2 same_sample l1 l2 -> nonneg l2 -> nonneg l1.
Proof.
  intros H. induction H as [|d e l1 l2 (_ & _ & E & _) _ IH]; [done |]. intros [He Hl]%Forall_cons.
  constructor; [by rewrite E | by apply IH].
Qed.

(** The program, whatever the order its pushes and its worker run in, while there
    is memory and the server thread can listen: no turn of the worker is undefined,
    and after [n] turns of [main], once the queue is empty, the report says [n]
    times, the sums of the even and of the odd numbers below [2 n], the gauge [2 n]
    and the status.  At 2^30 turns its counter overflows. *)
Theorem program_counts n ops ops' st :
  2 * Z.of_nat n < 2 ^ 31 -> main_ops n = Ok ops ->
  rtc program (ops, started (lit "test_8106")) (ops', st) ->
  let m := object st in
  (worker st = Looping -> forall now pick, exists m', turn now pick m = Ok m') /\
  (ops' = [] -> q_ m = [] ->
     get_or 0 (lit "times") (count_map_ m) = Z.of_nat n /\
     get_or 0 (lit "summary") (summary_total_map_ m) = Z.of_nat n * (Z.of_nat n - 1) /\
     get_or 0 (lit "summary2") (summary_total_map_ m) = Z.of_nat n * Z.of_nat n /\
     guage_map_ m !! lit "guagage" = (if (n =? 0)%nat then None else Some (2 * Z.of_nat n)) /\
     status_map_ m !! lit "start" = Some (lit "success")) /\
  (forall n', 2 ^ 31 <= 2 * Z.of_nat n' -> main_ops n' = Fault Undefined).
Proof.
  intros Hn E Hr m. destruct (main_ops_samples n ops ltac:(lia) E) as (Hnn & H1 & H2 & H3 & H4 & H5 & H6).
  destruct (program_accepted _ _ _ _ Hr []) as (pre & l & -> & [Ha Hm _] & Hl); [split; [apply accepted_start | done | done] |].
  cbn [app] in *. rewrite map_app in *. pose proof Hnn as [Hnp Hnq]%Forall_app. pose proof (nonneg_same _ _ Hl Hnp) as Hnl.
  destruct (accepted_flow st l Ha) as (del & Hok & Hsl & _). split_and!.
  - intros Hw now pick. destruct (turn_loop now pick m l Hnl) as (m' & E' & _).
    + intros k. rewrite (same_sums k _ _ Hl). specialize (H2 k). rewrite sums_app in H2. pose proof (sums_nonneg k _ Hnq). lia.
    + exists del. split; [done |]. destruct (Hsl Hnl) as [E'|]; [by rewrite Hw in E' | done].
    + by exists m'.
  - intros -> Hq. cbn [map] in *. rewrite app_nil_r in *. destruct Hok as [Hp Ho [Fc Fg Ft Fs]]. fold m in Hp, Ho, Fc, Fg, Ft, Fs.
    assert (map snd del = map snd l) as Ed.
    { rewrite Hq, app_nil_r in Hp. assert (Forall (fun x => x.1 = main_thread) del) as Hd by (by rewrite <- Hp).
      specialize (Ho main_thread). rewrite Hq in Ho. cbn in Ho. rewrite app_nil_r in Ho.
      by rewrite !main_samples in Ho. }
    rewrite Ed in *. clear Ed Hp Ho.
    pose proof (same_latest status (lit "start") _ _ Hl) as L1. pose proof (same_latest gugae (lit "guagage") _ _ Hl) as L2.
    rewrite Fc, !Ft, Fg, Fs, (same_counts _ _ _ Hl), !(same_sums _ _ _ Hl), H1, H3, H4. split_and!.
    1-3: apply u64_small; nia.
    + destruct (latest gugae _ _), (latest gugae _ (map _ _)); try done. cbn [fmap option_fmap option_map] in H6 |- *.
      destruct L2 as (_ & _ & -> & _). destruct (n =? 0)%nat; [done |]. injection H6 as ->. by rewrite u64_small by lia.
    + destruct (latest status _ _), (latest status _ (map _ _)); try done. cbn in H5 |- *.
      by destruct L1 as (_ & _ & _ & ->).
  - intros n' Hn'. unfold main_ops. by rewrite main_turns_overflow by lia.
Qed.

(** ** Witnesses *)

(** Two producers. *)
Definition flow_push1 : act := Push 1 true 0 (demo_metric 7).
Definition flow_push2 : act := Push 2 true 0 (demo_metric 5).
Definition flow_state : System :=
  mkSystem (push 2 true 0 (demo_metric 5) (push 1 true 0 (demo_metric 7) (worker_start 0 (run (lit "app") Metric_init))).1).1 Looping.
Definition flow_sent : sent := [(1%positive, stamp 0 (demo_metric 7)); (2%positive, stamp 0 (demo_metric 5))].

Lemma flow_accepted : accepted flow_state flow_sent.
Proof.
  assert (accepted (mkSystem (worker_start 0 (run (lit "app") Metric_init)) Looping) []) as H0
    by (apply (accepted_step (Start 0) _ _ [] (accepted_start (lit "app"))); constructor).
  assert (accepted (mkSystem (push 1 true 0 (demo_metric 7) (worker_start 0 (run (lit "app") Metric_init))).1 Looping)
    [(1%positive, stamp 0 (demo_metric 7))]) as H1 by (apply (accepted_step flow_push1 _ _ [] H0); constructor).
  apply (accepted_step flow_push2 _ _ [(1%positive, stamp 0 (demo_metric 7))] H1). constructor.
Qed.

(** The second producer's sample is found first. *)
Definition flow_first : Metric := from_ok Metric_init (turn 1 (Some 2%positive) (object flow_state)).
Definition flow_second : Metric := from_ok Metric_init (turn 2 (Some 1%positive) flow_first).

Lemma samples_delivered_witness :
  q_ flow_second = [] /\ exists del, del ≡ₚ flow_sent /\ folded flow_second (map snd del).
Proof.
  destruct (samples_delivered flow_state flow_sent flow_accepted) as (_ & H & _).
  destruct (H eq_refl) as (_ & _ & Hturns).
  - by repeat constructor.
  - intros k. unfold sums, add_up, is_type. cbn. case_bool_decide; cbn; lia.
  - destruct (Hturns 2%nat flow_second) as (Hq & del & Hp & _ & Hf); [| vm_compute; lia | by split; [| exists del]].
    apply (turns_one 1 1 (Some 2%positive) _ flow_first flow_second); [intros _ E; vm_compute in E; discriminate E | vm_compute; reflexivity |].
    apply (turns_one 0 2 (Some 1%positive) _ flow_second flow_second); [intros _ E; vm_compute in E; discriminate E | vm_compute; reflexivity |].
    apply turns_none.
Defined.

Definition flow_ops : list push_op := match main_ops 1 with Ok l => l | Fault _ => [] end.

Lemma program_counts_witness :
  main_ops 1 = Ok (Status (lit "start") (lit "success") :: tail flow_ops) /\
  forall now pick, exists m', turn now pick (worker_start 0 (do_push true 3 (Status (lit "start") (lit "success"))
    (run (lit "test_8106") Metric_init)).1) = Ok m'.
Proof.
  split; [reflexivity |].
  apply (program_counts 1 flow_ops (tail flow_ops)
    (mkSystem (worker_start 0 (do_push true 3 (Status (lit "start") (lit "success")) (run (lit "test_8106") Metric_init)).1) Looping));
    [lia | reflexivity | | reflexivity].
  eapply rtc_l; [apply (program_push 3 (Status (lit "start") (lit "success"))) |].
  apply rtc_once, (program_step (Start 0)); [constructor | done].
Defined.
