(* ===== verification/MetricServ.v ===== *)
(** * The report server of the metrics: [serv_listen], [serv_accept], the
    listening thread and the destructor of [src/src/iomn/src/metric.cpp]

    The kernel is third-party: system calls are values of [call].  The flag
    [is_running_] and the maps belong to other threads, so reading them is a call
    too. *)
From S2P Require Import Prelude CStr StdString Trace Metric.
Open Scope Z_scope.

Abbreviation fd := positive.

Inductive call : Type -> Type :=
  (** [socket_dir] exists and is not a directory *)
  | stat_not_dir : call bool
  | system_mkdir : call Z
  | socket : call (option fd)
  | unlink (name : str) : call Z
  | bind (f : fd) (name : str) : call Z
  | listen (f : fd) (qlen : Z) : call Z
  | accept (f : fd) : call (option fd)
  | close (f : fd) : call Z
  | send (f : fd) (text : str) : call Z
  | load_running : call bool
  | store_running (b : bool) : call unit
  | load_maps : call Metric
  (** the client end of the destructor *)
  | connect_self (f : fd) (name : str) : call Z
  | join : call unit.

Definition socket_dir : str := lit "/tmp/sds/".
Definition QLEN : Z := 10.
(** The room for a name and its NUL in [sockaddr_un]. *)
Definition sun_path_size : Z := 108.

Section Server.
Context {D : Type} (handle : forall T, call T -> D -> T * D).
(** The object is [app_tag_]. *)
Local Abbreviation C := (Trace.C call str D).
Local Abbreviation World := (Trace.World call str D).
Local Abbreviation do := (Trace.do handle).
Context (iter : forall A, gmap str A -> list (str * A)).

Definition copy_path (name : str) : C unit := if size name <? sun_path_size then mret tt else lift (Fault Undefined).

(** [inr] is the negative return value. *)
Definition serv_listen (name : str) : C (fd + Z) :=
  f ← do socket;
  match f with
  | None => mret (inr (-1))
  | Some f =>
      _ ← do (unlink name);
      _ ← copy_path name;
      r ← do (bind f name);
      if r <? 0 then _ ← do (close f); mret (inr (-2))
      else
        r ← do (listen f QLEN);
        if r <? 0 then _ ← do (close f); mret (inr (-3))
        else mret (inl f)
  end.

Definition serv_accept (listenfd : fd) : C (option fd) := do (accept listenfd).

(** A turn of the loop after its test: whether there is another. *)
Definition serve_one (listen_fd : fd) : C bool :=
  connect_fd ← serv_accept listen_fd;
  running ← do load_running;
  if negb running then mret false
  else
    match connect_fd with
    | None => mret false
    | Some c =>
        m ← do load_maps;
        text ← lift (gen_and_write_output iter m);
        _ ← do (send c text);
        _ ← do (close c);
        mret true
    end.

(** At most [n] turns. *)
Fixpoint serve (n : nat) (listen_fd : fd) : C unit :=
  match n with
  | O => mret tt
  | S n =>
      running ← do load_running;
      if negb running then mret tt
      else more ← serve_one listen_fd; if (more : bool) then serve n listen_fd else mret tt
  end.

Definition listen_thread (n : nat) : C unit :=
  tag ← get;
  not_dir ← do stat_not_dir;
  if (not_dir : bool) then do (store_running false)
  else
    _ ← do system_mkdir;
    r ← serv_listen (socket_dir ++ tag);
    match r with
    | inr _ => do (store_running false)
    | inl listen_fd => serve n listen_fd
    end.

(** [connect], the function of the file; the socket is not closed. *)
Definition connect (name : str) : C unit :=
  _ ← copy_path name;
  f ← do socket;
  match f with
  | None => mret ()
  | Some f =>
      r ← do (connect_self f name);
      if r <? 0 then mret tt else _ ← do (send f ([chr 1; chr 2; chr 3] ++ replicate 1021 (chr 0))); mret tt
  end.

(** [~Metric]; [t1], [t2]: the threads were started. *)
Definition delete (t1 t2 : bool) : C unit :=
  tag ← get;
  let socket_name := socket_dir ++ tag in
  _ ← do (store_running false);
  _ ← (if t1 then _ ← connect socket_name; do join else mret tt);
  _ ← (if t2 then do join else mret tt);
  _ ← do (unlink socket_name);
  mret tt.

(** ** Descriptors and reports *)
Definition fd_effect (e : event call) : effect fd :=
  match e with
  | Event _ c a =>
      match c in call T return T -> effect fd with
      | socket => fun a => Makes a
      | accept _ => fun a => Makes a
      | bind f _ => fun _ => Uses f
      | listen f _ => fun _ => Uses f
      | send f _ => fun _ => Uses f
      | connect_self f _ => fun _ => Uses f
      | close f => fun _ => Frees f
      | _ => fun _ => Quiet
      end a
  end.
Definition open_fds : list (event call) -> option (list fd) := resources fd_effect.

Definition accepted1 (e : event call) : option fd :=
  match e with Event _ c a => match c in call T return T -> option fd with accept _ => fun a => a | _ => fun _ => None end a end.
Definition reported1 (e : event call) : option fd :=
  match e with Event _ c _ => match c with send f _ => Some f | _ => None end end.
Definition accepted (l : list (event call)) : list fd := omap accepted1 l.
Definition reported (l : list (event call)) : list fd := omap reported1 l.

(** [waiting] are the connections accepted and not answered; [others] the open
    descriptors that are not connections. *)
Definition serving (waiting others : list fd) (w : World) : Prop :=
  open_fds (log w) = Some (waiting ++ others) /\ accepted (log w) = reported (log w) ++ waiting.

Definition served (w : World) : Prop := exists waiting others, (length waiting <= 1)%nat /\ (length others <= 1)%nat /\ serving waiting others w.
Local Abbreviation triple := (Trace.triple served).

Lemma serving_served waiting others w : serving waiting others w -> (length waiting <= 1)%nat -> (length others <= 1)%nat -> served w.
Proof. by exists waiting, others. Qed.

(** One more call. *)
Lemma serving_call {T} (c : call T) a d waiting others waiting' others' w :
  serving waiting others w ->
  apply_effect (waiting ++ others) (fd_effect (Event T c a)) = Some (waiting' ++ others') ->
  reported (log w) ++ waiting ++ option_list (accepted1 (Event T c a)) = reported (log w) ++ option_list (reported1 (Event T c a)) ++ waiting' ->
  serving waiting' others' (mkWorld (self w) d (log w ++ [Event T c a])).
Proof.
  intros [Ho Ha] He Hr. unfold serving, open_fds, accepted, reported in *. cbn [log].
  rewrite resources_snoc, Ho. split; [exact He |]. rewrite !omap_app, Ha.
  cbn [omap list_omap]. unfold option_list in Hr. rewrite <- !app_assoc.
  destruct (accepted1 _), (reported1 _); exact Hr.
Qed.

Lemma triple_quiet {T} (c : call T) waiting others :
  (forall a, (fd_effect (Event T c a) = Quiet \/ exists f, f ∈ waiting ++ others /\ fd_effect (Event T c a) = Uses f) /\
             accepted1 (Event T c a) = None /\ reported1 (Event T c a) = None) ->
  triple (serving waiting others) (do c) (fun _ => serving waiting others).
Proof.
  intros Hc w Hw. unfold Trace.do. destruct (handle T c (drv w)) as [a d]. destruct (Hc a) as (He & Ha & Hr).
  apply (serving_call c a d waiting others); [done | | by rewrite Ha, Hr, app_nil_r].
  destruct He as [-> | (f & Hf & ->)]; [done | by apply apply_uses].
Qed.

(** A call that leaves everything as it is, before the rest. *)
Lemma triple_then {T A} (c : call T) waiting others (k : T -> C A) Q :
  (forall a, (fd_effect (Event T c a) = Quiet \/ exists f, f ∈ waiting ++ others /\ fd_effect (Event T c a) = Uses f) /\
             accepted1 (Event T c a) = None /\ reported1 (Event T c a) = None) ->
  (forall a, triple (serving waiting others) (k a) Q) -> triple (serving waiting others) (a ← do c; k a) Q.
Proof. intros Hc Hk. eapply triple_bind; [by apply triple_quiet | done]. Qed.

Ltac quiet := intros ?; split; [first [by left | right; eexists; split; [| reflexivity]; set_solver] | done].

Lemma triple_close f others :
  triple (serving [] (f :: others)) (do (close f)) (fun _ => serving [] others).
Proof.
  intros w Hw. unfold Trace.do. destruct (handle Z (close f) (drv w)) as [a d].
  eapply serving_call; [exact Hw | | done]. cbn [fd_effect app]. cbn. by rewrite decide_True.
Qed.

Lemma triple_serv_listen name :
  triple (serving [] []) (serv_listen name) (fun r => serving [] (match r with inl f => [f] | inr _ => [] end)).
Proof.
  unfold serv_listen. eapply triple_bind with (R := fun f => serving [] (option_list f)).
  { intros w Hw. unfold Trace.do. destruct (handle _ socket (drv w)) as [a d].
    eapply serving_call; [exact Hw | by destruct a | done]. }
  intros [f|]; [| by apply triple_ret]. apply triple_then; [quiet | intros ?].
  eapply triple_bind with (R := fun _ => serving [] [f]).
  { unfold copy_path. destruct (_ <? _); [by apply triple_ret |]. intros w Hw. by eapply serving_served; [exact Hw | cbn; lia | cbn; lia]. }
  intros ?. apply triple_then; [quiet | intros r]. destruct (r <? 0).
  { eapply triple_bind; [apply triple_close |]. intros ?. by apply triple_ret. }
  apply triple_then; [quiet | intros r']. destruct (r' <? 0); [| by apply triple_ret].
  eapply triple_bind; [apply triple_close |]. intros ?. by apply triple_ret.
Qed.

Lemma triple_serve_one l :
  triple (serving [] [l]) (serve_one l) (fun more w => served w /\ (more = true -> serving [] [l] w)).
Proof.
  assert (forall c w, serving (option_list c) [l] w -> served w) as Hs
    by (intros c w Hw; eapply serving_served; [exact Hw | destruct c; cbn; lia | cbn; lia]).
  unfold serve_one. eapply triple_bind with (R := fun c => serving (option_list c) [l]).
  { intros w Hw. unfold serv_accept, Trace.do. destruct (handle _ (accept l) (drv w)) as [a d].
    eapply serving_call; [exact Hw | by destruct a | cbn; by destruct a]. }
  intros c. apply triple_then; [quiet | intros running]. destruct running; cbn [negb].
  2: { apply triple_ret. intros w Hw. split; [by eapply Hs | done]. }
  destruct c as [c|]; [| apply triple_ret; intros w Hw; split; [by apply (Hs None) | done]].
  apply triple_then; [quiet | intros m]. eapply triple_bind with (R := fun _ => serving [c] [l]).
  { intros w Hw. unfold lift. destruct (gen_and_write_output iter m); [done | by apply (Hs (Some c))]. }
  intros text. eapply triple_bind with (R := fun _ => serving [] [c; l]).
  { intros w Hw. unfold Trace.do. destruct (handle Z (send c text) (drv w)) as [a d].
    eapply serving_call; [exact Hw | apply apply_uses; by left | done]. }
  intros ?. eapply triple_bind; [apply triple_close |]. intros ?. apply triple_ret. intros w Hw.
  split; [by apply (Hs None) | done].
Qed.

Lemma triple_serve n l : triple (serving [] [l]) (serve n l) (fun _ => served).
Proof.
  assert (forall w, serving [] [l] w -> served w) as Hs by (intros w Hw; eapply serving_served; [exact Hw | cbn; lia | cbn; lia]).
  induction n as [|n IH]; cbn [serve]; [by apply triple_ret |].
  apply triple_then; [quiet | intros running]. destruct running; cbn [negb]; [| by apply triple_ret].
  eapply triple_bind; [apply triple_serve_one |]. intros [].
  - eapply triple_weaken; [exact IH | intros w [_ Hw]; by apply Hw | done].
  - apply triple_ret. by intros w [Hw _].
Qed.

Lemma triple_listen_thread n : triple (serving [] []) (listen_thread n) (fun _ => served).
Proof.
  assert (forall w, serving [] [] w -> served w) as Hs by (intros w Hw; eapply serving_served; [exact Hw | cbn; lia | cbn; lia]).
  assert (forall b, triple (serving [] []) (do (store_running b)) (fun _ => served)) as Hstop.
  { intros b. eapply triple_weaken; [apply (triple_quiet (store_running b) [] []); quiet | done | by intros ? w; apply Hs]. }
  unfold listen_thread. apply triple_get. intros tag.
  apply triple_weaken with (P := serving [] []) (Q := fun _ => served); [| by intros w [Hw _] | done].
  apply triple_then; [quiet | intros not_dir]. destruct not_dir; [apply Hstop |].
  apply triple_then; [quiet | intros ?]. eapply triple_bind; [apply triple_serv_listen |].
  intros [l|e]; [apply triple_serve | apply Hstop].
Qed.
End Server.

(** Whatever the kernel answers, and wherever the thread stops: every
    connection accepted was sent one report, in order, and closed, all but at
    most the last; besides that one at most the listening socket is open, which
    the thread never closes itself. *)
Theorem reports_served {D} (handle : forall T, call T -> D -> T * D) iter tag d n :
  let w := (listen_thread handle iter n (mkWorld tag d [])).2 in
  exists waiting listening, (length waiting <= 1)%nat /\ (length listening <= 1)%nat /\
    open_fds (log w) = Some (waiting ++ listening) /\
    accepted (log w) = reported (log w) ++ waiting.
Proof.
  intros w. destruct (triple_run served _ _ _ (mkWorld tag d []) (triple_listen_thread handle iter n)) as (a & b & Ha & Hb & Ho & Hr).
  - by split.
  - done.
  - by exists a, b.
Qed.
