(* ===== verification/LinkerServer.v ===== *)
(** * The linker server: [XTcpServer] of [src/src/linker/l1]

    Unlike [ServerEnd] it parses the frames itself.  [live] are the connections
    libevent has not freed, [sent] the bytes written to connections, in order;
    [time(0)] and the milliseconds clock of the metrics are arguments. *)
From S2P Require Import Prelude CStr StdString Bytes QtpMsg Decode Metric Server.
Open Scope Z_scope.

(** The other message types [OnRead] knows ([msg.h]). *)
Definition kMtSubscribe : Z := 105.
Definition kMtUnsubscribe : Z := 106.

(** [OptionRequestId], packed: [option_id | option_size | option_buf]. *)
Record OptionRequestId : Type := mkRequestId { req_id : Z; req_size : Z; req_buf : Z }.
Definition request_id_bytes (o : OptionRequestId) : str :=
  le 2 (req_id o) ++ le 2 (req_size o) ++ le 8 (u64 (req_buf o)).
Definition request_id_size : nat := 12.

Record XTcpServer : Type := mkLinker {
  _connect_count : Z;
  live : gset bufferevent;
  sent : list (bufferevent * str);
  metrics : Metric }.

Definition XTcpServer_init (m : Metric) : XTcpServer := mkLinker 0 ∅ [] m.

Section Linker.
(** [time(0)] and [unixTimeNowMs()] *)
Context (time now : Z).
(** the thread of the event loop, and whether the metrics queue has memory *)
Context (loop_thread : producer) (room : bool).

(** [METRIC_GUAGE("connect_count", ...)] *)
Definition count_connections (d : Z) (s : XTcpServer) : res XTcpServer :=
  n ← add_i64 (_connect_count s) d;
  Ok (mkLinker n (live s) (sent s) (push_guage loop_thread room now (lit "connect_count") n (metrics s)).1).

(** [EventServer::Close] frees the connection; one that is not live was freed
    before. *)
Definition close_bev (bev : bufferevent) (s : XTcpServer) : res XTcpServer :=
  if decide (bev ∈ live s)
  then Ok (mkLinker (_connect_count s) (live s ∖ {[bev]}) (sent s) (metrics s))
  else Fault Undefined.

Definition bev_write (bev : bufferevent) (d : str) (s : XTcpServer) : res XTcpServer :=
  if decide (bev ∈ live s)
  then Ok (mkLinker (_connect_count s) (live s) (sent s ++ [(bev, d)]) (metrics s))
  else Fault Undefined.

(** The callback of the listener hands over a connection it has just made. *)
Definition OnAccept (bev : bufferevent) (s : XTcpServer) : res XTcpServer :=
  count_connections 1 (mkLinker (_connect_count s) ({[bev]} ∪ live s) (sent s) (metrics s)).

Definition OnEvent (bev : bufferevent) (events : Z) (s : XTcpServer) : res XTcpServer :=
  if broken events then s ← close_bev bev s; count_connections (-1) s else Ok s.

(** [case kMtHeartBeat]: the answer keeps the [datalen] of the request. *)
Definition heartbeat_reply (h : MSG_HEAD) : MSG_HEAD :=
  mkHead (version h) (service h) kMtHeartBeatAns (QtpMsg.topic h) (Z.of_nat request_id_size) (datalen h).
Definition server_time : OptionRequestId := mkRequestId kOptionId_ServerTime 8 time.

Definition answer (bev : bufferevent) (h : MSG_HEAD) (s : XTcpServer) : res XTcpServer :=
  s ← bev_write bev (head_bytes (heartbeat_reply h)) s;
  bev_write bev (request_id_bytes server_time) s.

Section Read.
Context `{EvBuffer B}.

(** The [switch] over the message type. *)
Definition on_frame (bev : bufferevent) (h : MSG_HEAD) (input : B) (s : XTcpServer) : res (B * XTcpServer) :=
  if msgtype h =? kMtHeartBeat then
    let input := evbuffer_drain input (datalen h) in
    s ← answer bev h s;
    Ok (input, s)
  else if msgtype h =? kMtSubscribe then Ok (input, s)
  else if msgtype h =? kMtUnsubscribe then Ok (input, s)
  else Ok (evbuffer_drain input (datalen h), s).

(** One turn of the loop; [true] goes on, [false] is one of the [return]s. *)
Definition read_frame (bev : bufferevent) (input : B) (s : XTcpServer) : res (bool * B * XTcpServer) :=
  let len := evbuffer_get_length input in
  if len <? Z.of_nat MSG_HEAD_SIZE then Ok (false, input, s)
  else
    let '(headp, input) := evbuffer_pullup input MSG_HEAD_SIZE in
    match headp with
    | None => Fault Undefined
    | Some p =>
        let msg_total_len :=
          Z.of_nat MSG_HEAD_SIZE + optslen (head_of_bytes p) + datalen (head_of_bytes p) in
        if len <? msg_total_len then Ok (false, input, s)
        else
          let '(hb, input) := evbuffer_remove input (Z.of_nat MSG_HEAD_SIZE) in
          let head := head_of_bytes hb in
          if version head =? 1 then s ← close_bev bev s; Ok (false, input, s)
          else
            if negb (optslen head =? 0) then
              let '(d, input) := evbuffer_remove input (optslen head) in
              let opts := filled (optslen head) d in
              if (length opts <? request_id_size)%nat then Fault Undefined
              else '(input, s) ← on_frame bev head input s; Ok (true, input, s)
            else '(input, s) ← on_frame bev head input s; Ok (true, input, s)
    end.

Fixpoint OnRead (fuel : nat) (bev : bufferevent) (input : B) (s : XTcpServer) : res (B * XTcpServer) :=
  match fuel with
  | O => Fault OutOfFuel
  | S f =>
      '(again, input, s) ← read_frame bev input s;
      if (again : bool) then OnRead f bev input s else Ok (input, s)
  end.
End Read.
End Linker.
