(* ===== verification/LinkerProps.v ===== *)
(** * The linker server: streams, answers, connection count *)
From S2P Require Import Prelude CStr StdString Bytes QtpMsg QtpMsgProps Decode DecodeProps Metric Server LinkerServer.
Open Scope Z_scope.

Section Read.
Context (time : Z).
Context (bev : bufferevent).

(** ** [OnRead] on the bytes of the buffer *)
Lemma on_frame_refines `{EvBuffer B} h (b : B) s : head_ok h ->
  match on_frame time bev h (contents b) s with
  | Ok (r, s') => exists b', on_frame time bev h b s = Ok (b', s') /\ contents b' = r
  | Fault f => on_frame time bev h b s = Fault f
  end.
Proof.
  intros (_ & _ & _ & _ & _ & Hd). unfold in_u in Hd. unfold on_frame. destruct (_ =? kMtHeartBeat).
  - destruct (answer _ _ _ _); cbn [mbind res_bind]; [| done]. eexists. split; [done |]. by rewrite drain_spec by lia.
  - destruct (_ =? kMtSubscribe); [eauto |]. destruct (_ =? kMtUnsubscribe); [eauto |].
    eexists. split; [done |]. by rewrite drain_spec by lia.
Qed.

(** One turn, as a function of the bytes. *)
Definition turn_bytes (s : str) (st : XTcpServer) : res (bool * str * XTcpServer) :=
  if size s <? 12 then Ok (false, s, st)
  else
    let h := head_of_bytes s in
    if size s <? frame_len h then Ok (false, s, st)
    else if version h =? 1 then st ← close_bev bev st; Ok (false, drop 12 s, st)
    else if negb (optslen h =? 0) && (optslen h <? 12) then Fault Undefined
    else '(r, st) ← on_frame time bev h (drop (Z.to_nat (12 + optslen h)) s) st; Ok (true, r, st).

Lemma read_frame_bytes `{EvBuffer B} (b : B) st :
  match turn_bytes (contents b) st with
  | Ok (g, r, st') => exists b', read_frame time bev b st = Ok (g, b', st') /\ contents b' = r
  | Fault f => read_frame time bev b st = Fault f
  end.
Proof.
  unfold turn_bytes, read_frame. rewrite get_length_spec. change (Z.of_nat MSG_HEAD_SIZE) with 12.
  destruct (Z.ltb_spec (size (contents b)) 12); [eauto |].
  pose proof (pullup_spec b MSG_HEAD_SIZE ltac:(unfold MSG_HEAD_SIZE; lia) eq_refl) as [H1 H2]. destruct (evbuffer_pullup b MSG_HEAD_SIZE) as [hp b1].
  simpl in H1, H2. rewrite (proj2 (Nat.ltb_ge _ _)) in H1 by (unfold size in *; unfold MSG_HEAD_SIZE; lia).
  subst hp. rewrite head_of_prefix by (unfold MSG_HEAD_SIZE; lia).
  pose proof (head_of_bytes_ok (contents b)) as Hh. pose proof Hh as (_ & _ & _ & _ & Ho & Hd). set (h := head_of_bytes (contents b)) in *.
  unfold frame_len. destruct (Z.ltb_spec (size (contents b)) (12 + optslen h + datalen h)) as [Hlt|Hge]; [by exists b1 |].
  unfold in_u in Ho, Hd.
  destruct (evbuffer_remove b1 12) as [hb b2] eqn:E2. apply remove_filled in E2 as E2'; [| lia | rewrite H2; lia].
  pose proof (remove_spec b1 12 ltac:(lia)) as [Hhb _]. rewrite E2, H2 in Hhb. cbn [fst] in Hhb. destruct E2' as [_ Hb2]. rewrite H2 in Hb2.
  assert (head_of_bytes hb = h) as -> by (rewrite Hhb; apply head_of_prefix; lia). clear Hhb.
  destruct (version h =? 1).
  { destruct (close_bev bev st); cbn [mbind res_bind]; [by exists b2 | done]. }
  destruct (Z.eqb_spec (optslen h) 0) as [E|E]; cbn [negb andb].
  - pose proof (on_frame_refines h b2 st Hh) as Hf. rewrite Hb2 in Hf. rewrite E, Z.add_0_r.
    destruct (on_frame time bev h (drop (Z.to_nat 12) (contents b)) st) as [[r st']|]; cbn [mbind res_bind].
    + destruct Hf as (b' & -> & Hb'). cbn [mbind res_bind]. eauto.
    + by rewrite Hf.
  - destruct (evbuffer_remove b2 (optslen h)) as [d b3] eqn:E3.
    apply remove_filled in E3 as [-> Hb3]; [| lia | rewrite Hb2; unfold size in *; rewrite length_drop; lia].
    assert (length (take (Z.to_nat (optslen h)) (contents b2)) = Z.to_nat (optslen h)) as ->
      by (rewrite length_take, Hb2, length_drop; unfold size in *; lia).
    destruct (Z.ltb_spec (optslen h) 12).
    { by rewrite (proj2 (Nat.ltb_lt _ _)) by (unfold request_id_size; lia). }
    rewrite (proj2 (Nat.ltb_ge _ _)) by (unfold request_id_size; lia).
    assert (contents b3 = drop (Z.to_nat (12 + optslen h)) (contents b)) as Hb3'
      by (rewrite Hb3, Hb2, drop_drop; f_equal; lia).
    pose proof (on_frame_refines h b3 st Hh) as Hf. rewrite Hb3' in Hf.
    destruct (on_frame time bev h (drop _ (contents b)) st) as [[r st']|]; cbn [mbind res_bind].
    + destruct Hf as (b' & -> & Hb'). cbn [mbind res_bind]. eauto.
    + by rewrite Hf.
Qed.

Fixpoint read_bytes (fuel : nat) (s : str) (st : XTcpServer) : res (str * XTcpServer) :=
  match fuel with
  | O => Fault OutOfFuel
  | S f =>
      '(again, s, st) ← turn_bytes s st;
      if (again : bool) then read_bytes f s st else Ok (s, st)
  end.

Lemma OnRead_bytes `{EvBuffer B} fuel : forall (b : B) st,
  match read_bytes fuel (contents b) st with
  | Ok (r, st') => exists b', OnRead time fuel bev b st = Ok (b', st') /\ contents b' = r
  | Fault f => OnRead time fuel bev b st = Fault f
  end.
Proof.
  induction fuel as [|f IH]; intros b st; cbn [read_bytes OnRead]; [done |].
  pose proof (read_frame_bytes b st) as Ht. destruct (turn_bytes (contents b) st) as [[[g r] st']|]; cbn [mbind res_bind].
  - destruct Ht as (b' & -> & <-). cbn [mbind res_bind]. destruct g; [apply IH | eauto].
  - by rewrite Ht.
Qed.

(** ** More bytes behind a frame *)
Lemma answer_live h st st' : answer time bev h st = Ok st' ->
  live st' = live st /\ _connect_count st' = _connect_count st /\ metrics st' = metrics st.
Proof.
  unfold answer, bev_write. destruct (decide (bev ∈ live st)); cbn [mbind res_bind]; [| done].
  cbn [live]. rewrite decide_True by done. intros. by inv_res.
Qed.

Lemma on_frame_app h (s t : str) st : 0 <= datalen h <= size s ->
  match on_frame time bev h s st with
  | Ok (r, st') => on_frame time bev h (s ++ t) st = Ok (r ++ t, st') /\ (length r <= length s)%nat /\
      live st' = live st /\ _connect_count st' = _connect_count st
  | Fault f => on_frame time bev h (s ++ t) st = Fault f
  end.
Proof.
  intros Hd. unfold on_frame, size in *. cbn [evbuffer_drain str_evbuffer].
  rewrite drop_app_le by lia.
  destruct (_ =? kMtHeartBeat).
  - destruct (answer time bev h st) as [st'|] eqn:E; cbn [mbind res_bind]; [| done].
    apply answer_live in E as (-> & -> & _). rewrite length_drop. split_and!; try done; lia.
  - destruct (_ =? kMtSubscribe); [| destruct (_ =? kMtUnsubscribe)]; cbv beta iota;
      rewrite ?length_drop; split_and!; try done; lia.
Qed.

Lemma turn_bytes_app s t st :
  match turn_bytes s st with
  | Ok (true, r, st') => turn_bytes (s ++ t) st = Ok (true, r ++ t, st') /\ (length r < length s)%nat /\
      live st' = live st /\ _connect_count st' = _connect_count st
  | Ok (false, r, st') => (r = s /\ st' = st) \/
      (turn_bytes (s ++ t) st = Ok (false, r ++ t, st') /\ (length r <= length s)%nat /\ close_bev bev st = Ok st')
  | Fault f => turn_bytes (s ++ t) st = Fault f
  end.
Proof.
  unfold turn_bytes. destruct (Z.ltb_spec (size s) 12) as [|H12]; [by left |].
  pose proof (head_of_bytes_ok s) as (_ & _ & _ & _ & Ho & Hd). unfold in_u in Ho, Hd.
  set (h := head_of_bytes s) in *. destruct (Z.ltb_spec (size s) (frame_len h)) as [|Hf]; [by left |].
  pose proof (size_nonneg t). rewrite (proj2 (Z.ltb_ge (size (s ++ t)) 12)) by (rewrite size_app; lia).
  rewrite head_of_app by done. fold h.
  rewrite (proj2 (Z.ltb_ge (size (s ++ t)) (frame_len h))) by (rewrite size_app; lia).
  unfold frame_len, size in *. destruct (version h =? 1).
  { destruct (close_bev bev st) eqn:E; cbn [mbind res_bind]; [right | done].
    rewrite drop_app_le, length_drop by lia. split_and!; [done | lia | done]. }
  destruct (negb _ && _); [done |].
  rewrite drop_app_le by lia.
  pose proof (on_frame_app h (drop (Z.to_nat (12 + optslen h)) s) t st) as Ha. unfold size in Ha.
  rewrite length_drop in Ha. specialize (Ha ltac:(lia)).
  destruct (on_frame time bev h (drop _ s) st) as [[r st']|]; cbn [mbind res_bind].
  - destruct Ha as (-> & Hl & Hv & Hc). cbn [mbind res_bind]. split_and!; try done. lia.
  - by rewrite Ha.
Qed.

(** The fuel does not matter once there is more of it than bytes. *)
Lemma linker_bytes_fuel n : forall s st f1 f2, (length s <= n)%nat -> (n < f1)%nat -> (n < f2)%nat ->
  read_bytes f1 s st = read_bytes f2 s st.
Proof.
  induction n as [|n IH]; intros s st [|f1] [|f2] Hs H1 H2; try lia; cbn [read_bytes];
    pose proof (turn_bytes_app s [] st) as Ht; destruct (turn_bytes s st) as [[[[] r] st']|] eqn:E; cbn [mbind res_bind]; try done.
  - lia.
  - apply IH; lia.
Qed.

Lemma read_bytes_shrinks f : forall s st r st', read_bytes f s st = Ok (r, st') ->
  (length r <= length s)%nat.
Proof.
  induction f as [|f IH]; intros s st r st' E; [done |]. cbn [read_bytes] in E.
  pose proof (turn_bytes_app s [] st) as Ht. destruct (turn_bytes s st) as [[[[] q] st1]|]; cbn [mbind res_bind] in E; [| | done].
  - apply IH in E. lia.
  - inv_res. destruct Ht as [[-> _]|(_ & ? & _)]; lia.
Qed.

Lemma close_bev_live st st' : close_bev bev st = Ok st' ->
  bev ∈ live st /\ bev ∉ live st' /\ live st' = live st ∖ {[bev]} /\ _connect_count st' = _connect_count st.
Proof. unfold close_bev. destruct (decide (bev ∈ live st)); intros; inv_res. cbn [live]. set_solver. Qed.

(** Bytes that arrive later are read if the connection is still there. *)
Definition resume (f : nat) (s : str) (st : XTcpServer) : res (str * XTcpServer) :=
  if decide (bev ∈ live st) then read_bytes f s st else Ok (s, st).

Lemma linker_bytes_app n : forall s t st f, (length s <= n)%nat -> (length s + length t < f)%nat ->
  bev ∈ live st ->
  read_bytes f (s ++ t) st = ('(r, st1) ← read_bytes f s st; resume f (r ++ t) st1).
Proof.
  induction n as [|n IH]; intros s t st [|f] Hs Hf Hv; try lia; cbn [read_bytes];
    pose proof (turn_bytes_app s t st) as Ht; destruct (turn_bytes s st) as [[[[] r] st']|] eqn:E;
    cbn [mbind res_bind]; try (by rewrite Ht).
  - destruct Ht as (_ & Hl & _). lia.
  - destruct Ht as [[-> ->]|(-> & _ & Hc)]; unfold resume; [by rewrite decide_True |].
    apply close_bev_live in Hc as (_ & Hc & _). by rewrite decide_False.
  - destruct Ht as (-> & Hl & Hv' & _). cbn [mbind res_bind]. rewrite (IH r t st' f) by (rewrite ?Hv'; done || lia).
    destruct (read_bytes f r st') as [[q st1]|] eqn:Er; cbn [mbind res_bind]; [| done].
    apply read_bytes_shrinks in Er. unfold resume. destruct (decide _); [| done].
    apply (linker_bytes_fuel (length (q ++ t))); rewrite ?length_app; lia.
  - destruct Ht as [[-> ->]|(-> & _ & Hc)]; unfold resume; [by rewrite decide_True |].
    apply close_bev_live in Hc as (_ & Hc & _). by rewrite decide_False.
Qed.
End Read.

(** ** The theorems *)
Section Theorems.
Context (time : Z).
Context `{EvBuffer B}.

(** libevent calls [OnRead] while the connection is not freed; [b] is the
    buffer before the bytes arrive, [bx] with them. *)
Definition deliver (fuel : nat) (bev : bufferevent) (b bx : B) (st : XTcpServer) : res (B * XTcpServer) :=
  if decide (bev ∈ live st) then OnRead time fuel bev bx st else Ok (b, st).

(** C35: whatever arrives on a connection, how TCP cuts it makes no difference:
    when [x ++ y] has arrived, [OnRead] ends in the state, with the answers, that
    it ends in after [x] and then after [y], with the same bytes left unless the
    connection was closed; and it fails exactly when one of the two fails. *)
Theorem linker_chunks bev (b bx bxy : B) x y st fuel :
  arrives b x bx -> arrives b (x ++ y) bxy ->
  (length (contents b) + length x + length y < fuel)%nat -> bev ∈ live st ->
  match OnRead time fuel bev bxy st with
  | Ok (b', st') => exists b1 st1, OnRead time fuel bev bx st = Ok (b1, st1) /\
      forall b1y, arrives b1 y b1y ->
      exists b2, deliver fuel bev b1 b1y st1 = Ok (b2, st') /\ (bev ∈ live st' -> contents b2 = contents b')
  | Fault f => OnRead time fuel bev bx st = Fault f \/
      exists b1 st1, OnRead time fuel bev bx st = Ok (b1, st1) /\
        forall b1y, arrives b1 y b1y -> deliver fuel bev b1 b1y st1 = Fault f
  end.
Proof.
  intros Ax Axy Hf Hv. pose proof (OnRead_bytes time bev fuel bxy st) as Hxy. pose proof (OnRead_bytes time bev fuel bx st) as Hx.
  rewrite (arrives_spec _ _ _ Axy), app_assoc in Hxy. rewrite (arrives_spec _ _ _ Ax) in Hx.
  rewrite (linker_bytes_app time bev (length (contents b ++ x))) in Hxy by (rewrite ?length_app; done || lia).
  destruct (read_bytes time bev fuel (contents b ++ x) st) as [[r st1]|f] eqn:E; cbn [mbind res_bind] in Hxy.
  2: { rewrite Hxy. by left. }
  destruct Hx as (b1 & Hx & Hb1). unfold resume in Hxy. unfold deliver. destruct (decide (bev ∈ live st1)) as [Hv1|Hv1].
  - assert (forall b1y, arrives b1 y b1y -> match read_bytes time bev fuel (r ++ y) st1 with
      | Ok (s, st') => exists b2, OnRead time fuel bev b1y st1 = Ok (b2, st') /\ contents b2 = s
      | Fault f => OnRead time fuel bev b1y st1 = Fault f end) as Hy.
    { intros b1y Ay. pose proof (OnRead_bytes time bev fuel b1y st1) as Hy. by rewrite (arrives_spec _ _ _ Ay), Hb1 in Hy. }
    destruct (read_bytes time bev fuel (r ++ y) st1) as [[s st']|f].
    + destruct Hxy as (b' & -> & Hb'). exists b1, st1. split; [done |]. intros b1y (b2 & Hy' & Hb2)%Hy. exists b2.
      rewrite decide_True by done. split; [done | intros _; congruence].
    + rewrite Hxy. right. exists b1, st1. split; [done |]. intros b1y Ay%Hy. by rewrite decide_True.
  - destruct Hxy as (b' & -> & Hb'). exists b1, st1. split; [done |]. intros b1y _. exists b1. by rewrite decide_False.
Qed.

(** ** Frames a client sends *)
Record frame : Type := mkFrame { fhead : MSG_HEAD; fopts : str; fdata : str }.
Definition frame_bytes (f : frame) : str := head_bytes (fhead f) ++ fopts f ++ fdata f.

(** The lengths are right, the options are none or a whole
    [OptionRequestId], and it is not of version 1. *)
Record frame_ok (f : frame) : Prop := {
  fr_head : head_ok (fhead f);
  fr_version : version (fhead f) <> 1;
  fr_opts : optslen (fhead f) = size (fopts f);
  fr_data : datalen (fhead f) = size (fdata f);
  fr_request : fopts f = [] \/ 12 <= size (fopts f) }.

Definition is_subscription (f : frame) : bool :=
  (msgtype (fhead f) =? kMtSubscribe) || (msgtype (fhead f) =? kMtUnsubscribe).

(** What the server writes for a frame. *)
Definition answers (bev : bufferevent) (f : frame) : list (bufferevent * str) :=
  if msgtype (fhead f) =? kMtHeartBeat
  then [(bev, head_bytes (heartbeat_reply (fhead f))); (bev, request_id_bytes (server_time time))]
  else [].
Definition with_sent (l : list (bufferevent * str)) (st : XTcpServer) : XTcpServer :=
  mkLinker (_connect_count st) (live st) (sent st ++ l) (metrics st).

(** One frame at the front: a subscription leaves its data in the buffer. *)
Lemma turn_frame bev f rest st : frame_ok f -> bev ∈ live st ->
  turn_bytes time bev (frame_bytes f ++ rest) st =
    Ok (true, (if is_subscription f then fdata f else []) ++ rest, with_sent (answers bev f) st).
Proof.
  intros [Hh Hver Ho Hd Hr] Hv. unfold turn_bytes, frame_bytes. rewrite <- !app_assoc.
  pose proof (size_nonneg (fopts f)). pose proof (size_nonneg (fdata f)). pose proof (size_nonneg rest).
  assert (size (head_bytes (fhead f)) = 12) as Hhs by done.
  rewrite (proj2 (Z.ltb_ge _ 12)) by (rewrite !size_app; lia).
  rewrite head_bytes_slices by done. unfold frame_len.
  rewrite (proj2 (Z.ltb_ge (size _) _)) by (rewrite !size_app; lia).
  rewrite (proj2 (Z.eqb_neq _ _) Hver).
  assert (negb (optslen (fhead f) =? 0) && (optslen (fhead f) <? 12) = false) as ->.
  { destruct Hr as [Hr|Hr]; [by rewrite Ho, Hr |].
    rewrite (proj2 (Z.ltb_ge (optslen _) 12)) by lia. by rewrite andb_false_r. }
  replace (drop (Z.to_nat (12 + optslen (fhead f))) _) with (fdata f ++ rest)
    by (rewrite Ho, app_assoc, drop_app_length' by (rewrite length_app, head_bytes_length; unfold size in *; lia); done).
  assert (drop (Z.to_nat (datalen (fhead f))) (fdata f ++ rest) = rest) as Hdrop
    by (apply drop_app_length'; unfold size in *; lia).
  unfold on_frame, is_subscription, answers. cbn [evbuffer_drain str_evbuffer]. rewrite Hdrop.
  destruct (Z.eqb_spec (msgtype (fhead f)) kMtHeartBeat) as [E|E].
  - rewrite E. change (kMtHeartBeat =? kMtSubscribe) with false. change (kMtHeartBeat =? kMtUnsubscribe) with false.
    unfold answer, bev_write. rewrite decide_True by done. cbn [mbind res_bind live].
    rewrite decide_True by done. cbn [mbind res_bind sent _connect_count live metrics orb].
    unfold with_sent. by rewrite <- app_assoc.
  - assert (with_sent [] st = st) as -> by (unfold with_sent; rewrite app_nil_r; by destruct st).
    by destruct (msgtype (fhead f) =? kMtSubscribe), (msgtype (fhead f) =? kMtUnsubscribe).
Qed.

Lemma with_sent_nil st : with_sent [] st = st.
Proof. unfold with_sent. rewrite app_nil_r. by destruct st. Qed.

(** Frames whose data is taken out, in front of anything else. *)
Lemma read_frames bev fs tail fuel st :
  Forall frame_ok fs -> Forall (fun f => is_subscription f = true -> fdata f = []) fs -> bev ∈ live st ->
  read_bytes time bev (length fs + fuel) (concat (map frame_bytes fs) ++ tail) st =
  read_bytes time bev fuel tail (with_sent (concat (map (answers bev) fs)) st).
Proof.
  intros Hok Hsub. revert st. induction fs as [|f fs IH]; intros st Hv; [by rewrite with_sent_nil |].
  apply Forall_cons in Hok as [Hf1 Hok], Hsub as [Hs1 Hsub]. cbn [map concat length Nat.add read_bytes].
  rewrite <- app_assoc, turn_frame by done. cbn [mbind res_bind].
  assert ((if is_subscription f then fdata f else []) = []) as -> by (destruct (is_subscription f); auto).
  cbn [app]. rewrite (IH Hok Hsub) by done. unfold with_sent. cbn [_connect_count live sent metrics]. by rewrite app_assoc.
Qed.

(** A subscription leaves its data in front. *)
Lemma read_subscription bev f rest fuel st : frame_ok f -> is_subscription f = true -> bev ∈ live st ->
  read_bytes time bev (S fuel) (frame_bytes f ++ rest) st = read_bytes time bev fuel (fdata f ++ rest) st.
Proof.
  intros Hf Hs Hv. cbn [read_bytes]. rewrite turn_frame, Hs by done. cbn [mbind res_bind].
  assert (answers bev f = []) as ->; [| by rewrite with_sent_nil]. unfold answers, is_subscription in *.
  destruct (Z.eqb_spec (msgtype (fhead f)) kMtHeartBeat) as [E|E]; [by rewrite E in Hs | done].
Qed.

(** C36: well-formed frames of which no subscription has a body are consumed to
    the last byte, and answered, each heartbeat once and in order, with nothing
    else written.  The first subscription with a body, the list of codes, is not:
    the server reads its body as the frames that follow. *)
Theorem frames_answered bev (b : B) fs tail st fuel :
  Forall frame_ok fs -> Forall (fun f => is_subscription f = true -> fdata f = []) fs ->
  bev ∈ live st -> contents b = concat (map frame_bytes fs) ++ tail -> (length fs < fuel)%nat ->
  let st1 := with_sent (concat (map (answers bev) fs)) st in
  (tail = [] -> exists b', OnRead time fuel bev b st = Ok (b', st1) /\ contents b' = []) /\
  (forall f rest (b2 : B), tail = frame_bytes f ++ rest -> frame_ok f -> is_subscription f = true ->
     contents b2 = fdata f ++ rest ->
     match OnRead time (fuel - S (length fs)) bev b2 st1 with
     | Ok (b2', st') => exists b', OnRead time fuel bev b st = Ok (b', st') /\ contents b' = contents b2'
     | Fault e => OnRead time fuel bev b st = Fault e
     end).
Proof.
  intros Hok Hsub Hv Hb Hf st1. pose proof (OnRead_bytes time bev fuel b st) as Hr. rewrite Hb in Hr.
  pose proof (read_frames bev fs tail (S (fuel - S (length fs))) st Hok Hsub Hv) as E.
  replace (length fs + S (fuel - S (length fs)))%nat with fuel in E by lia. rewrite E in Hr. clear E. fold st1 in Hr. split.
  - intros ->. exact Hr.
  - intros f rest b2 -> Hfok Hs Hb2. rewrite read_subscription in Hr by done.
    pose proof (OnRead_bytes time bev (fuel - S (length fs)) b2 st1) as H2. rewrite Hb2 in H2.
    destruct (read_bytes time bev _ (fdata f ++ rest) st1) as [[r st']|].
    + destruct Hr as (b1 & Hr & Hb1), H2 as (b2' & -> & Hb2'). exists b1. by rewrite Hb2'.
    + by rewrite H2.
Qed.
End Theorems.

(** ** The answer to a heartbeat *)
Definition time_option (time : Z) : OptionRequest := mkOption kOptionId_ServerTime 8 (le 8 (u64 time)).

Lemma request_id_option time : request_id_bytes (server_time time) = opt_bytes (time_option time).
Proof. done. Qed.

Lemma time_option_ok time : opt_ok (time_option time).
Proof. unfold opt_ok, time_option, in_u. cbn [option_id option_size option_buf]. unfold kOptionId_ServerTime. split_and!; done. Qed.

Lemma heartbeat_reply_ok h : head_ok h -> head_ok (heartbeat_reply h).
Proof. intros (H1 & H2 & H3 & H4 & H5 & H6). unfold head_ok, heartbeat_reply. cbn. done. Qed.

(** The answer to a heartbeat without data is one whole frame: a client
    decodes it to a message of type 102 that carries the server's time, and the
    bytes behind it stay.  The answer to a heartbeat that came with data is not:
    it announces the data of the request, which is not sent, so the client
    waits for that many bytes of what follows. *)
Theorem heartbeat_answer time h rest :
  head_ok h -> - 2 ^ 63 <= time < 2 ^ 63 ->
  let reply := head_bytes (heartbeat_reply h) ++ request_id_bytes (server_time time) in
  (datalen h = 0 -> exists c, decode_bytes (reply ++ rest) = Ok (Some c, rest) /\
     msgtype (head_ c) = kMtHeartBeatAns /\
     exists r, get_option kOptionId_ServerTime c = Some r /\ option_int64 r = Ok time) /\
  (size rest < datalen h -> decode_bytes (reply ++ rest) = Ok (None, reply ++ rest)).
Proof.
  intros Hh Ht reply. pose proof (heartbeat_reply_ok h Hh) as Hr. pose proof (size_nonneg rest).
  unfold reply. rewrite request_id_option, <- app_assoc. unfold decode_bytes.
  assert (size (head_bytes (heartbeat_reply h)) = 12) as Hhs by done.
  assert (size (opt_bytes (time_option time)) = 12) as Hos by done.
  rewrite (proj2 (Z.ltb_ge _ 12)) by (rewrite !size_app; lia).
  rewrite head_bytes_slices by done. unfold frame_len.
  change (optslen (heartbeat_reply h)) with 12. change (datalen (heartbeat_reply h)) with (datalen h).
  split; intros Hd.
  - rewrite (proj2 (Z.ltb_ge (size _) _)) by (rewrite !size_app; lia).
    unfold decode_frame. change (optslen (heartbeat_reply h)) with 12. change (datalen (heartbeat_reply h)) with (datalen h).
    unfold part at 1. rewrite Hd. cbn [Z.eqb].
    rewrite (part_mid (head_bytes (heartbeat_reply h)) (opt_bytes (time_option time)) rest) by done. cbn [Z.eqb].
    unfold QtpMsg_new, parse_options. cbn [opt_len_ opt_buf_ opts_]. change (optslen (heartbeat_reply h)) with 12.
    assert (parse_loop (S (Z.to_nat 12)) (opt_bytes (time_option time)) 12 ∅ =
            Ok (<[kOptionId_ServerTime := time_option time]> ∅)) as E.
    { rewrite <- (app_nil_r (opt_bytes (time_option time))).
      rewrite parse_loop_opt; [done | apply time_option_ok | done]. }
    change (from_option id [] (Some (opt_bytes (time_option time)))) with (opt_bytes (time_option time)).
    rewrite E. cbn [mbind res_bind]. eexists. split.
    { rewrite app_assoc, drop_app_length'; [done | done]. }
    split; [done |]. exists (time_option time). split; [done |].
    unfold option_int64, time_option. cbn [option_buf].
    change (length (le 8 (u64 time)) <? 8)%nat with false. cbv iota.
    rewrite <- (app_nil_r (le 8 (u64 time))). by rewrite i64_le.
  - by rewrite (proj2 (Z.ltb_lt (size _) _)) by (rewrite !size_app; lia).
Qed.

(** ** The number of connections *)
Lemma OnRead_live time bev `{EvBuffer B} fuel : forall (b : B) st b' st', bev ∈ live st ->
  OnRead time fuel bev b st = Ok (b', st') -> _connect_count st' = _connect_count st /\
  (live st' = live st \/ (bev ∉ live st' /\ live st' = live st ∖ {[bev]})).
Proof.
  assert (forall f s st r st', read_bytes time bev f s st = Ok (r, st') -> _connect_count st' = _connect_count st /\
    (live st' = live st \/ (bev ∉ live st' /\ live st' = live st ∖ {[bev]}))) as Hr.
  { induction f as [|f IH]; intros s st r st' E; [done |]. cbn [read_bytes] in E.
    pose proof (turn_bytes_app time bev s [] st) as Ht.
    destruct (turn_bytes time bev s st) as [[[[] q] st1]|]; cbn [mbind res_bind] in E; [| | done].
    - destruct Ht as (_ & _ & Hv & Hc). apply IH in E. by rewrite Hv, Hc in E.
    - inv_res. destruct Ht as [[_ ->]|(_ & _ & Hc)]; [by split; [| left] |].
      apply close_bev_live in Hc as (_ & Hn & Hv & Hcc). split; [done |]. by right. }
  intros b st b' st' Hv E. pose proof (OnRead_bytes time bev fuel b st) as Hb.
  destruct (read_bytes time bev fuel (contents b) st) as [[r st1]|] eqn:Eb; [| by rewrite E in Hb].
  destruct Hb as (b1 & E1 & _). rewrite E in E1. injection E1 as <- <-. by apply Hr in Eb.
Qed.

(** Runs of the server: [n] connections accepted, [v] of them closed because
    of a frame of version 1.  libevent hands over new connections and calls
    back for live ones. *)
Inductive linker_run `{EvBuffer B} : nat -> nat -> XTcpServer -> Prop :=
  | run_start m : linker_run 0 0 (XTcpServer_init m)
  | run_accept n v s now who room bev s' : linker_run n v s -> bev ∉ live s -> OnAccept now who room bev s = Ok s' ->
      linker_run (S n) v s'
  | run_event n v s now who room bev ev s' : linker_run n v s -> bev ∈ live s -> OnEvent now who room bev ev s = Ok s' ->
      linker_run n v s'
  | run_read n v s time fuel bev (b b' : B) s' : linker_run n v s -> bev ∈ live s ->
      OnRead time fuel bev b s = Ok (b', s') ->
      linker_run n (if decide (bev ∈ live s') then v else S v) s'.

Lemma count_connections_ok now who room d s : - 2 ^ 63 <= _connect_count s + d < 2 ^ 63 ->
  exists m, count_connections now who room d s = Ok (mkLinker (_connect_count s + d) (live s) (sent s) m).
Proof.
  intros Hd. unfold count_connections, add_i64.
  rewrite (proj2 (Z.leb_le _ _)), (proj2 (Z.ltb_lt _ _)) by lia. cbn [andb mbind res_bind]. eauto.
Qed.

Lemma size_remove (bev : bufferevent) (X : gset bufferevent) : bev ∈ X ->
  Z.of_nat (base.size (X ∖ {[bev]})) = Z.of_nat (base.size X) - 1.
Proof.
  intros Hb. rewrite size_difference by set_solver. rewrite size_singleton.
  assert (base.size X <> 0)%nat; [| lia]. intros E%size_empty_inv. set_solver.
Qed.

Lemma close_bev_Ok bev s : bev ∈ live s ->
  close_bev bev s = Ok (mkLinker (_connect_count s) (live s ∖ {[bev]}) (sent s) (metrics s)).
Proof. intros Hb. unfold close_bev. by rewrite decide_True. Qed.

(** The gauge of connections is the number of live connections plus the
    number closed for a frame of version 1, which are never counted off; and no
    callback for a connection libevent knows fails before 2^63 were accepted. *)
Theorem connect_count_exact `{EvBuffer B} n v s :
  linker_run n v s -> Z.of_nat n < 2 ^ 63 - 1 ->
  _connect_count s = Z.of_nat (base.size (live s)) + Z.of_nat v /\
  Z.of_nat (base.size (live s)) + Z.of_nat v <= Z.of_nat n /\
  (forall now who room bev, bev ∉ live s -> exists s', OnAccept now who room bev s = Ok s') /\
  (forall now who room bev ev, bev ∈ live s -> exists s', OnEvent now who room bev ev s = Ok s').
Proof.
  intros Hr Hn.
  assert (_connect_count s = Z.of_nat (base.size (live s)) + Z.of_nat v /\
    Z.of_nat (base.size (live s)) + Z.of_nat v <= Z.of_nat n) as [Hc Hl].
  { clear -Hr Hn. induction Hr as [m|n v s now who room bev s' _ IH Hb E|n v s now who room bev ev s' _ IH Hb E|n v s time fuel bev b b' s' _ IH Hb E].
    - cbn. rewrite size_empty. lia.
    - destruct IH as [Hc Hl]; [lia |]. unfold OnAccept in E.
      destruct (count_connections_ok now who room 1 (mkLinker (_connect_count s) ({[bev]} ∪ live s) (sent s) (metrics s)))
        as [m Em]; [cbn; lia |]. rewrite Em in E. inv_res. cbn [_connect_count live].
      rewrite size_union, size_singleton by set_solver. lia.
    - destruct IH as [Hc Hl]; [lia |]. unfold OnEvent in E. destruct (broken ev); [| by inv_res].
      rewrite close_bev_Ok in E by done. cbn [mbind res_bind] in E.
      destruct (count_connections_ok now who room (-1) (mkLinker (_connect_count s) (live s ∖ {[bev]}) (sent s) (metrics s)))
        as [m Em]; [cbn; lia |]. rewrite Em in E. inv_res. cbn [_connect_count live].
      rewrite size_remove by done. lia.
    - destruct IH as [Hc Hl]; [lia |]. apply OnRead_live in E as [-> [E|[Hn' E]]]; [| | done].
      + rewrite decide_True by (by rewrite E). rewrite E. done.
      + rewrite decide_False by done. rewrite E, size_remove by done. lia. }
  split_and!; [done | done | |].
  - intros now who room bev Hb. unfold OnAccept.
    destruct (count_connections_ok now who room 1 (mkLinker (_connect_count s) ({[bev]} ∪ live s) (sent s) (metrics s)))
        as [m Em]; [cbn; lia |]. rewrite Em. eauto.
  - intros now who room bev ev Hb. unfold OnEvent. destruct (broken ev); [| eauto]. rewrite close_bev_Ok by done.
    cbn [mbind res_bind].
    destruct (count_connections_ok now who room (-1) (mkLinker (_connect_count s) (live s ∖ {[bev]}) (sent s) (metrics s)))
        as [m Em]; [cbn; lia |]. rewrite Em. eauto.
Qed.

(** ** The theorems at work *)
Definition beat : frame := mkFrame (mkHead 2 0 101 0 0 0) [] [].
Definition unknown : frame := mkFrame (mkHead 2 0 900 0 12 3) (request_id_bytes (mkRequestId 60005 8 7)) (lit "abc").
Definition one_client : XTcpServer := mkLinker 1 {[ 1%positive ]} [] Metric_init.

Lemma linker_chunks_witness :
  exists b1 st1, OnRead (B := str) 5 30 1 (take 7 (frame_bytes beat)) one_client = Ok (b1, st1) /\
    sent st1 = [] /\
    exists b2, deliver (B := str) 5 30 1 b1 (b1 ++ drop 7 (frame_bytes beat)) st1 = Ok (b2, with_sent (answers 5 1 beat) one_client).
Proof.
  pose proof (linker_chunks (B := str) 5 1 [] (take 7 (frame_bytes beat)) (frame_bytes beat) (take 7 (frame_bytes beat))
    (drop 7 (frame_bytes beat)) one_client 30 eq_refl) as H.
  rewrite take_drop in H. specialize (H eq_refl ltac:(vm_compute; lia) ltac:(set_solver)).
  assert (OnRead (B := str) 5 30 1 (frame_bytes beat) one_client = Ok ([], with_sent (answers 5 1 beat) one_client)) as E
    by (vm_compute; reflexivity).
  rewrite E in H. destruct H as (b1 & st1 & H1 & H2). exists b1, st1. split; [exact H1 |]. split.
  - assert (OnRead (B := str) 5 30 1 (take 7 (frame_bytes beat)) one_client = Ok (take 7 (frame_bytes beat), one_client)) as E1
      by (vm_compute; reflexivity).
    rewrite E1 in H1. injection H1 as <- <-. reflexivity.
  - destruct (H2 _ eq_refl) as (b2 & H3 & _). by exists b2.
Defined.

Lemma frame_ok_beat : frame_ok beat.
Proof. split; try done. by left. Qed.
Lemma frame_ok_unknown : frame_ok unknown.
Proof. split; try done. by right. Qed.

(** A heartbeat is answered; another one as the body of a subscription, too. *)
Definition subscription : frame := mkFrame (mkHead 2 0 105 0 0 12) [] (frame_bytes beat).

Lemma frames_answered_witness :
  (exists b', OnRead (B := str) 5 4 1 (frame_bytes beat ++ frame_bytes unknown ++ frame_bytes beat) one_client
    = Ok (b', with_sent (answers 5 1 beat ++ answers 5 1 beat) one_client) /\ contents b' = []) /\
  exists b', OnRead (B := str) 5 4 1 (frame_bytes beat ++ frame_bytes subscription) one_client
    = Ok (b', with_sent (answers 5 1 beat ++ answers 5 1 beat) one_client) /\ contents b' = [].
Proof.
  split.
  - destruct (frames_answered (B := str) 5 1 (frame_bytes beat ++ frame_bytes unknown ++ frame_bytes beat)
      [beat; unknown; beat] [] one_client 4) as [H _].
    + repeat constructor; apply frame_ok_beat || apply frame_ok_unknown.
    + repeat constructor; done.
    + set_solver.
    + reflexivity.
    + simpl. lia.
    + exact (H eq_refl).
  - destruct (frames_answered (B := str) 5 1 (frame_bytes beat ++ frame_bytes subscription)
      [beat] (frame_bytes subscription) one_client 4) as [_ H].
    + repeat constructor; apply frame_ok_beat.
    + repeat constructor; done.
    + set_solver.
    + reflexivity.
    + simpl. lia.
    + specialize (H subscription [] (frame_bytes beat) eq_refl).
      assert (OnRead (B := str) 5 2 1 (frame_bytes beat) (with_sent (concat (map (answers 5 1) [beat])) one_client)
        = Ok ([], with_sent (answers 5 1 beat ++ answers 5 1 beat) one_client)) as E by (vm_compute; reflexivity).
      change (4 - S (length [beat]))%nat with 2%nat in H. rewrite E in H. apply H; [| reflexivity | reflexivity].
      split; try done. by left.
Defined.

Lemma heartbeat_answer_witness : exists c,
  decode_bytes ((head_bytes (heartbeat_reply (fhead beat)) ++ request_id_bytes (server_time 1700000000)) ++ lit "more")
    = Ok (Some c, lit "more") /\ msgtype (head_ c) = 102.
Proof.
  destruct (heartbeat_answer 1700000000 (fhead beat) (lit "more")) as [H _].
  - apply frame_ok_beat.
  - lia.
  - destruct (H eq_refl) as (c & E & Hm & _). by exists c.
Defined.

Definition old_frame : str := head_bytes (mkHead 1 0 101 0 0 0).

Lemma connect_count_exact_witness : exists s,
  linker_run (B := str) 1 1 s /\ live s = ∅ /\ _connect_count s = Z.of_nat (base.size (live s)) + 1.
Proof.
  assert (linker_run (B := str) 1 0 (mkLinker 1 {[ 1%positive ]} [] Metric_init)) as H1
    by (apply (run_accept 0 0 (XTcpServer_init Metric_init) 0 1 true 1); [apply run_start | set_solver | reflexivity]).
  pose proof (run_read 1 0 _ 0 2 1%positive old_frame (drop 12 old_frame) (mkLinker 1 ∅ [] Metric_init) H1
    ltac:(set_solver) ltac:(vm_compute; reflexivity)) as H2.
  exists (mkLinker 1 ∅ [] Metric_init). split; [exact H2 |]. split; [reflexivity |].
  apply (connect_count_exact (B := str) 1 1 _ H2). lia.
Defined.
