(* ===== verification/LinkerClient.v ===== *)
(** * The test client: [src/src/linker/c1/main.cpp]

    [msg_queue_] is the list of the messages in the order [try_dequeue] gives
    them, [out] the buffers given to [Send] while the client was connected.
    Files are arguments; so is the JSON parser ([true] when it accepts). *)
From S2P Require Import Prelude CStr StdString Bytes QtpMsg Decode Server.
Open Scope Z_scope.

(** ** [readConfigFile] *)

(** [istream::getline(tmp, 1000)] on a good stream: the characters stored, the
    rest of the file, [eofbit], [failbit]. *)
Fixpoint getline (n : nat) (s : str) {struct s} : str * str * bool * bool :=
  match s with
  | [] => ([], [], true, false)
  | c :: s' =>
      if decide (c = chr 10) then ([], s', false, false)
      else
        match n with
        | O => ([], s, false, true)
        | S n =>
            let '(l, r, eof, fail) := getline n s' in (c :: l, r, eof, fail)
        end
  end.

(** The C string in [tmp]: up to the first NUL. *)
Fixpoint up_to_nul (s : str) : str :=
  match s with
  | [] => []
  | c :: s' => if decide (c = chr 0) then [] else c :: up_to_nul s'
  end.

(** [line.find('=')] and the two [substr]s. *)
Fixpoint split_eq (line : str) : option (str * str) :=
  match line with
  | [] => None
  | c :: s =>
      if decide (c = "="%char) then Some ([], s)
      else match split_eq s with Some (k, v) => Some (c :: k, v) | None => None end
  end.

(** The loop; after [failbit] a [getline] stores the empty string. *)
Fixpoint config_loop (fuel : nat) (key : str) (rest : str) (eof fail : bool) : res (option str) :=
  match fuel with
  | O => Fault OutOfFuel
  | S f =>
      if eof then Ok None
      else
        let '(tmp, rest, eof, fail) := if fail then ([], rest, eof, fail) else getline 999 rest in
        match split_eq (up_to_nul tmp) with
        | None => Ok None
        | Some (tmpKey, value) =>
            if decide (key = tmpKey) then Ok (Some value) else config_loop f key rest eof fail
        end
  end.

(** [file] is [None] when it cannot be opened. *)
Definition readConfigFile (file : option str) (key : str) : res (option str) :=
  match file with
  | None => Ok None
  | Some s => config_loop (S (S (length s))) key s false false
  end.

(** ** [TestClient] *)
Record TestClient : Type := mkClient {
  session_id_ : Z;
  last_heart_beat_time_ : Z;
  msg_queue_ : list QtpMsg;
  out : list str }.

Definition TestClient_init : TestClient := mkClient 0 0 [] [].

Definition kMtCmnUnsubscribe : Z := 1006.
Definition kMtCmnUnsubscribeAns : Z := 1007.
Definition kMtCmnPublish : Z := 1005.
Definition kMtCmnQueryFormular : Z := 1008.
Definition kMtCmnQueryFormularAns : Z := 1009.
Definition kMtCmnQueryFactor : Z := 1010.
Definition kMtCmnQueryFactorAns : Z := 1011.
Definition kMtCmnFactorOperAns : Z := 1013.
Definition kMtCmnFactorSupplementAns : Z := 1015.
Definition kMtCmnClientDisconnected : Z := 1099.
Definition kMtFactorCalc : Z := 2000.
Definition kMtFactorCalcAns : Z := 2001.
Definition kMtFactorConf : Z := 2002.
Definition kMtFactorConfAns : Z := 2003.
Definition kMtModifyFormularType : Z := 2004.
Definition kMtModifyFormularTypeAns : Z := 2005.
Definition kMtQueryFormularType : Z := 2006.
Definition kMtQueryFormularTypeAns : Z := 2007.
Definition kMtCmnQueryFormularTree : Z := 2008.
Definition kMtCmnQueryFormularTreeAns : Z := 2009.

Definition set_session (id : Z) (c : TestClient) : TestClient :=
  mkClient id (last_heart_beat_time_ c) (msg_queue_ c) (out c).

(** [{"formular_name": ...}] over three lines, as in the raw string literals. *)
Definition quoted (s : string) : str := chr 34 :: lit s ++ [chr 34].
Definition formular_body (name : string) : str :=
  lit "{" ++ [chr 10] ++ replicate 16 " "%char ++ quoted "formular_name" ++ lit ": " ++ quoted name
  ++ [chr 10] ++ replicate 12 " "%char ++ lit "}".
(** The [snprintf] of the disconnect message. *)
Definition session_body (id : Z) : str := lit "{" ++ quoted "session_id" ++ lit ":" ++ show_int (i64 id) ++ lit "}".

Section Client.
Context (iter : gmap Z OptionRequest -> list OptionRequest).
Context (read_file : str -> str) (json_parse : str -> bool).
(** whether [client_] is not null *)
Context (connected : bool).

Definition Send (s : str) (c : TestClient) : TestClient :=
  if connected then mkClient (session_id_ c) (last_heart_beat_time_ c) (msg_queue_ c) (out c ++ [s]) else c.

(** [options()] and [data()] with the lengths of the header. *)
Definition send_part (buf : option str) (n : Z) (c : TestClient) : res TestClient :=
  if 0 <? n then
    match buf with
    | Some b => if size b <? n then Fault Undefined else Ok (Send (take (Z.to_nat n) b) c)
    | None => Fault Undefined
    end
  else Ok c.

Definition SendMsg (m : QtpMsg) (c : TestClient) : res TestClient :=
  let head := head_ m in
  let c := Send (head_bytes head) c in
  c ← send_part (opt_buf_ m) (optslen head) c;
  send_part (data_buf_ m) (datalen head) c.

(** [enqueue] copies the message. *)
Definition enqueue (m : QtpMsg) (c : TestClient) : res TestClient :=
  m ← QtpMsg_copy m;
  Ok (mkClient (session_id_ c) (last_heart_beat_time_ c) (msg_queue_ c ++ [m]) (out c)).

Definition SendHeartBeat (c : TestClient) : res TestClient := enqueue (set_msgtype 101 QtpMsg_empty) c.
Definition SendLogin (c : TestClient) : res TestClient := enqueue (set_msgtype kMtCmnLogin QtpMsg_empty) c.

Definition set_string (s : str) (m : QtpMsg) : res QtpMsg := '(m, _) ← set_data (Some s) (size s) m; Ok m.

(** The branches of [SendOnMsgType] on the type, and what becomes of the session. *)
Definition fill (msg_type : Z) (m : QtpMsg) (c : TestClient) : res (QtpMsg * TestClient) :=
  if msg_type =? kMtFactorCalc then
    m ← set_string (read_file (lit "sample_cal.json")) m;
    m ← add_option_int iter kOptionId_ReqId 888888 m;
    m ← add_option_int iter kOptionId_ServerTime 123456 m;
    Ok (m, c)
  else if msg_type =? kMtCmnSubscribe then
    m ← set_string (formular_body "CashflowZSpread") m; Ok (m, c)
  else if msg_type =? kMtCmnUnsubscribe then
    m ← set_string (formular_body "CashflowZSpread000") m; Ok (m, c)
  else if msg_type =? kMtFactorConf then
    let config := read_file (lit "factors_mass.json") ++ [chr 0] in
    if json_parse config then m ← set_string config m; Ok (m, c) else Fault Thrown
  else if msg_type =? kMtCmnClientDisconnected then
    m ← set_string (session_body (session_id_ c)) m; Ok (m, set_session 0 c)
  else Ok (m, c).

Definition SendOnMsgType (msg_type : Z) (data : str) (c : TestClient) : res TestClient :=
  let m := set_msgtype msg_type QtpMsg_empty in
  m ← add_option_int iter kOptionId_SessionId (i64 (session_id_ c)) m;
  m ← (if negb (size data =? 0) then set_string data m else Ok m);
  '(m, c) ← fill msg_type m c;
  m ← encode iter m;
  enqueue m c.

Definition RawEnqueue (num : Z) (body : str) (c : TestClient) : res TestClient :=
  let body := body ++ [chr 0] in
  m ← add_option_int iter kOptionId_SessionId (i64 (session_id_ c)) QtpMsg_empty;
  m ← add_option_int iter kOptionId_ReqId 888888 m;
  m ← set_string body (set_msgtype num m);
  m ← encode iter m;
  enqueue m c.

(** The [try_dequeue] loop of [OnLoop] over the messages queued: [m] is the
    local variable each is moved into. *)
Fixpoint drain (q : list QtpMsg) (m : QtpMsg) (c : TestClient) : res TestClient :=
  match q with
  | [] => Ok c
  | x :: q =>
      '(m, _) ← move_assign m x;
      c ← SendMsg m (mkClient (session_id_ c) (last_heart_beat_time_ c) q (out c));
      drain q m c
  end.

(** [now_ms] is [unixTimeNowMs()]. *)
Definition OnLoop (now_ms : Z) (c : TestClient) : res TestClient :=
  let now := Z.quot now_ms 1000 in
  c ← (if 3 <? now - last_heart_beat_time_ c then
         c ← SendOnMsgType 101 [] c;
         Ok (mkClient (session_id_ c) now (msg_queue_ c) (out c))
       else Ok c);
  drain (msg_queue_ c) QtpMsg_empty c.

(** The replies that are only printed. *)
Definition printed_replies : list Z :=
  [kMtFactorCalcAns; kMtFactorConfAns; kMtCmnQueryFormularAns; kMtCmnQueryFactorAns; kMtCmnUnsubscribeAns;
   kMtCmnSubscribeAns; kMtModifyFormularTypeAns; kMtQueryFormularTypeAns; kMtCmnFactorOperAns;
   kMtCmnQueryFormularTreeAns; kMtCmnFactorSupplementAns; kMtCmnPublish].

Definition printed_option (id : Z) (m : QtpMsg) : res unit :=
  match get_option id m with Some r => _ ← option_int64 r; Ok tt | None => Ok tt end.

(** One message of [OnRead]. *)
Definition on_message (m : QtpMsg) (c : TestClient) : res TestClient :=
  let t := msgtype (head_ m) in
  if t =? kMtCmnLoginAns then
    match get_option kOptionId_SessionId m with
    | None => Fault Undefined
    | Some r => id ← option_int64 r; Ok (set_session (u64 id) c)
    end
  else if existsb (Z.eqb t) printed_replies then
    _ ← printed_option kOptionId_ReqId m;
    _ ← printed_option kOptionId_ServerTime m;
    Ok c
  else Ok c.

Fixpoint OnRead `{EvBuffer B} (fuel : nat) (input : B) (c : TestClient) : res (B * TestClient) :=
  match fuel with
  | O => Fault OutOfFuel
  | S f =>
      '(msg, input) ← decode_msg_with_head input;
      match msg with
      | None => Ok (input, c)
      | Some m => c ← on_message m c; OnRead f input c
      end
  end.

(** ** Commands *)

(** The lines behind the first line [|||], joined; the lines with that text
    that follow are kept. *)
Fixpoint json_lines (found : bool) (l : list str) : str :=
  match l with
  | [] => []
  | x :: l =>
      (if found then x else []) ++ json_lines (found || bool_decide (x = lit "|||")) l
  end.

Definition TestUseFile (file : option str) (c : TestClient) : res TestClient :=
  match file with
  | None => Ok c
  | Some s =>
      match file_lines [] s with
      | [] => RawEnqueue 0 [] c
      | l :: ls =>
          num ← atoi_int l;
          if num =? 0 then Ok c else RawEnqueue (u16 num) (json_lines false ls) c
      end
  end.

Definition cmdList : list Z :=
  [kMtCmnLogin; kMtCmnSubscribe; kMtCmnUnsubscribe; kMtCmnQueryFormular; kMtCmnQueryFactor; kMtFactorCalc;
   kMtFactorConf; kMtModifyFormularType; kMtQueryFormularType; kMtCmnQueryFormularTree; kMtCmnClientDisconnected].

(** One line of input; what is only printed is left out. *)
Definition command (line : str) (c : TestClient) (file : option str) : res TestClient :=
  num ← atoi_int line;
  let msg_type := u16 num in
  if bool_decide (line = []) then Ok c
  else if bool_decide (line = lit "=") then TestUseFile file c
  else if existsb (Z.eqb msg_type) cmdList then SendOnMsgType msg_type [] c
  else Ok c.
End Client.
