(* ===== verification/LinkerClientProps.v ===== *)
(** * The test client: messages, sessions, the configuration file *)
From S2P Require Import Prelude CStr StdString Bytes QtpMsg QtpMsgProps Decode DecodeProps Server ServerProps LinkerClient.
Open Scope Z_scope.

Section Client.
Context (iter : gmap Z OptionRequest -> list OptionRequest).
Hypothesis iter_perm : forall o, iter o ≡ₚ (map_to_list o).*2.

(** A message as [encode] leaves it, small enough for the fields of the header. *)
Record ready (m : QtpMsg) : Prop := {
  rd_ok : msg_ok m;
  rd_synced : synced iter m;
  rd_optslen : optslen (head_ m) = opts_len iter m;
  rd_datalen : datalen (head_ m) = data_len_ m;
  rd_opts_small : opts_len iter m < 2 ^ 16;
  rd_data_small : data_len_ m < 2 ^ 32;
  rd_opts : opts_ m <> ∅ }.

(** What goes over the wire for it. *)
Definition wire (m : QtpMsg) : str := head_bytes (head_ m) ++ opts_bytes iter m ++ data_bytes m.

Lemma opts_len_nonneg m : msg_ok m -> 0 <= opts_len iter m.
Proof.
  intros [Ho _ _ _]. pose proof (sum_len_nonneg _ (iter_ok iter iter_perm _ Ho)). unfold opts_len. lia.
Qed.

Lemma encode_ready m : msg_ok m -> opts_len iter m < 2 ^ 16 -> data_len_ m < 2 ^ 32 -> opts_ m <> ∅ ->
  exists m', encode iter m = Ok m' /\ ready m' /\ opts_ m' = opts_ m /\ data_bytes m' = data_bytes m /\
    msgtype (head_ m') = msgtype (head_ m).
Proof.
  intros Hm Hl Hd Hne. pose proof (opts_len_nonneg m Hm). pose proof Hm as [Ho Hob Hdb Hh].
  destruct (encode_spec iter iter_perm m Ho Hob ltac:(lia)) as (buf & E & Hbuf & Hu & _).
  eexists. split; [exact E |]. split; [| done].
  constructor; cbn [opt_buf_ head_ data_len_ opts_ set_lens optslen datalen]; try done.
  - split; [done | done | done |]. by apply set_lens_ok.
  - rewrite u16_small; [done | lia].
  - apply u32_small. destruct Hdb. lia.
Qed.

Lemma ready_opt_len m : msg_ok m -> synced iter m -> opts_ m <> ∅ -> 0 < opt_len_ m /\ opt_buf_ m <> None.
Proof.
  intros Hm Hs Hne. pose proof Hm as [Ho [Hol Hob] Hdb Hh]. assert (opt_buf_ m <> None) as Hb.
  { intros E. apply Hne. by apply (synced_no_buffer iter iter_perm m). }
  split; [| done]. destruct (Z.eq_dec (opt_len_ m) 0) as [E|E]; [exfalso | lia].
  destruct (map_choose _ Hne) as (k & r & Hr). destruct (Ho k r Hr) as [Hk Hrok].
  assert (r ∈ iter (opts_ m)) as Hin by (apply (iter_elem iter iter_perm); [done | by rewrite Hk]).
  destruct Hs as [Hl _]. rewrite E in Hl. unfold opts_len in Hl.
  pose proof (sum_len_nonneg _ (iter_ok iter iter_perm _ Ho)) as Hn. destruct (iter (opts_ m)); [by apply elem_of_nil in Hin |].
  simpl length in Hn. lia.
Qed.

(** The copy in the queue sends the same bytes. *)
Lemma copy_ready m : ready m -> exists c, QtpMsg_copy m = Ok c /\ ready c /\ opts_ c = opts_ m /\
  head_ c = head_ m /\ data_bytes c = data_bytes m.
Proof.
  intros [Hm Hs Hol Hdl Hos Hds Hne]. destruct (ready_opt_len m Hm Hs Hne) as [Hpos Hnn].
  pose proof Hs as [Hl Hu]. pose proof Hm as [Ho Hob Hdb Hh].
  unfold QtpMsg_copy, copy_into, set_options. cbn [set_head with_head QtpMsg_empty opts_ opt_len_ opt_buf_ data_len_ data_buf_ head_].
  destruct (opt_buf_ m) as [ob|] eqn:Eob; [| done]. destruct Hob as [Hob1 Hob2].
  destruct (refill_spec 0 None ob (opt_len_ m)) as (b & -> & Hb & Hbu & _); [done | lia | lia |]. cbn [mbind res_bind].
  cbn [used_bytes] in Hu. rewrite Hu in Hbu.
  assert (forall m', opt_len_ m' = opt_len_ m -> opt_buf_ m' = b -> (forall k, opts_ m !! k = None -> opts_ m' !! k = None) ->
    parse_options m' = Ok (with_opts (opts_ m) m')) as Hp.
  { intros m' E1 E2 E3. unfold parse_options. rewrite E1, E2. by rewrite (parse_synced iter iter_perm (opts_ m)). }
  rewrite Hp by (try done; intros; apply lookup_empty). cbn [mbind res_bind].
  assert (forall h n d, h = head_ m -> n = data_len_ m -> buf_ok n d -> used_bytes n d = data_bytes m ->
    let c := mkMsg h (opts_ m) n d (opt_len_ m) b in
    ready c /\ opts_ c = opts_ m /\ head_ c = head_ m /\ data_bytes c = data_bytes m) as Hc.
  { intros h n d -> -> Hd Hdu c. split; [| done]. by constructor. }
  unfold set_data. destruct (data_buf_ m) as [db|] eqn:Edb; cbn [mbind res_bind].
  - destruct Hdb as [Hdb1 Hdb2].
    destruct (refill_spec 0 None db (data_len_ m)) as (d & E & Hd & Hdu & _); [done | lia | lia |].
    match goal with |- context [refill ?a ?b db _] => change a with 0; change b with (None : option str) end.
    rewrite E. cbn [mbind res_bind]. rewrite Hp by done. eexists. split; [done |]. apply Hc; [| done | done |].
    + unfold with_data, with_head. cbn [head_]. rewrite u32_small, <- Hdl by lia. by destruct (head_ m).
    + unfold data_bytes. rewrite Edb. exact Hdu.
  - rewrite Hp by done. eexists. split; [done |]. destruct Hdb as [Hdb1 Hdb2].
    apply Hc; [done | by rewrite Hdb2 | done |]. unfold data_bytes. by rewrite Edb.
Qed.

(** What [OnLoop] sends for a message it takes out of the queue. *)
Lemma SendMsg_ready m c : ready m ->
  exists parts, SendMsg true m c = Ok (mkClient (session_id_ c) (last_heart_beat_time_ c) (msg_queue_ c) (out c ++ parts)) /\
    concat parts = wire m.
Proof.
  intros [Hm Hs Hol Hdl Hos Hds Hne]. destruct (ready_opt_len m Hm Hs Hne) as [Hpos Hnn].
  pose proof Hs as [Hl Hu]. pose proof Hm as [Ho [Hob1 Hob2] [Hdb1 Hdb2] Hh].
  unfold SendMsg, send_part, Send. rewrite Hol, Hdl. destruct (opt_buf_ m) as [ob|]; [| done].
  rewrite <- Hl. rewrite (proj2 (Z.ltb_lt 0 (opt_len_ m))) by lia.
  rewrite (proj2 (Z.ltb_ge (size ob) (opt_len_ m))) by lia.
  cbn [mbind res_bind used_bytes session_id_ last_heart_beat_time_ msg_queue_ out] in *. rewrite Hu.
  unfold wire, data_bytes. destruct (Z.ltb_spec 0 (data_len_ m)).
  - destruct (data_buf_ m) as [db|]; [| lia]. rewrite (proj2 (Z.ltb_ge _ _)) by lia.
    exists [head_bytes (head_ m); opts_bytes iter m; take (Z.to_nat (data_len_ m)) db].
    rewrite <- !app_assoc. split; [done |]. cbn [concat used_bytes]. by rewrite app_nil_r.
  - exists [head_bytes (head_ m); opts_bytes iter m]. rewrite <- !app_assoc. split; [done |].
    assert (data_len_ m = 0) as -> by lia. cbn [concat]. destruct (data_buf_ m); cbn [used_bytes]; by rewrite ?app_nil_r.
Qed.

Lemma move_ready m0 m : ready m -> exists m' old, move_assign m0 m = Ok (m', old) /\ ready m' /\ wire m' = wire m.
Proof.
  intros Hr. pose proof Hr as [Hm Hs Hol Hdl Hos Hds Hne]. pose proof Hs as [Hl Hu]. pose proof Hm as [Ho Hob Hdb Hh].
  unfold move_assign, parse_options. cbn [opt_len_ opt_buf_ opts_].
  rewrite (parse_synced iter iter_perm (opts_ m)) by done. cbn [mbind res_bind].
  eexists _, _. split; [done |]. split; [| done]. by constructor.
Qed.

(** Everything in the queue is sent, in order. *)
Lemma drain_ready q : forall m0 c, Forall ready q ->
  exists parts, drain true q m0 c = Ok (mkClient (session_id_ c) (last_heart_beat_time_ c)
      (match q with [] => msg_queue_ c | _ => [] end) (out c ++ parts)) /\
    concat parts = concat (map wire q).
Proof.
  induction q as [|m q IH]; intros m0 c Hq; cbn [drain].
  - exists []. rewrite app_nil_r. by destruct c.
  - apply Forall_cons in Hq as [Hm Hq]. destruct (move_ready m0 m Hm) as (m' & old & -> & Hr & Hw). cbn [mbind res_bind].
    destruct (SendMsg_ready m' (mkClient (session_id_ c) (last_heart_beat_time_ c) q (out c)) Hr) as (p1 & -> & Hp1).
    cbn [mbind res_bind session_id_ last_heart_beat_time_ msg_queue_ out].
    destruct (IH m' (mkClient (session_id_ c) (last_heart_beat_time_ c) q (out c ++ p1)) Hq) as (p2 & -> & Hp2).
    cbn [session_id_ last_heart_beat_time_ msg_queue_ out]. exists (p1 ++ p2). rewrite <- app_assoc. split.
    + by destruct q.
    + by rewrite concat_app, Hp1, Hp2, Hw.
Qed.

(** The other end reads the message back. *)
Lemma wire_decodes m rest : ready m -> exists d, decode_bytes (wire m ++ rest) = Ok (Some d, rest) /\
  head_ d = head_ m /\ opts_ d = opts_ m /\ data_bytes d = data_bytes m.
Proof.
  intros [Hm Hs Hol Hdl Hos Hds Hne]. destruct (decode_sent iter iter_perm m rest Hm Hos Hds) as (d & E & Hh & Ho & Hd).
  assert (set_lens (opts_len iter m) (data_len_ m) (head_ m) = head_ m) as El
    by (rewrite <- Hol, <- Hdl; by destruct (head_ m)).
  rewrite El in *. exists d. unfold wire. rewrite <- !app_assoc. done.
Qed.

(** ** Requests *)
Lemma set_string_spec s m : msg_ok m -> size s < 2 ^ 32 -> exists m', set_string s m = Ok m' /\ msg_ok m' /\
  opts_ m' = opts_ m /\ data_len_ m' = size s /\ data_bytes m' = s /\ msgtype (head_ m') = msgtype (head_ m).
Proof.
  intros Hm Hs. pose proof (size_nonneg s). unfold set_string.
  destruct (set_data_spec s (size s) m Hm) as (m' & -> & Hm' & Ho & Hl & Hd & Hh); [lia | lia |]. cbn [mbind res_bind].
  exists m'. split_and!; try done; [| by rewrite Hh]. rewrite Hd. unfold size. rewrite Nat2Z.id. by apply take_ge.
Qed.

(** The session identifier a message carries. *)
Definition carries (id : Z) (m : QtpMsg) : Prop :=
  exists r, get_option kOptionId_SessionId m = Some r /\ option_int64 r = Ok id.

Lemma carries_insert id k r m m' : k <> kOptionId_SessionId -> opts_ m' = <[k := r]> (opts_ m) -> carries id m -> carries id m'.
Proof. intros Hk Ho (x & Hx & Hi). exists x. unfold get_option. by rewrite Ho, lookup_insert_ne. Qed.

Lemma carries_opts id m m' : opts_ m' = opts_ m -> carries id m -> carries id m'.
Proof. intros Ho (x & Hx & Hi). exists x. unfold get_option. by rewrite Ho. Qed.

Lemma carries_nonempty id m : carries id m -> opts_ m <> ∅.
Proof. intros (r & Hr & _) E. unfold get_option in Hr. by rewrite E, lookup_empty in Hr. Qed.

(** Adding an option, as far as the requests need it. *)
Lemma add_int id v m : msg_ok m -> in_u 16 id -> - 2 ^ 63 <= v < 2 ^ 63 -> opts_len iter m <= 2 ^ 15 ->
  exists m' r, add_option_int iter id v m = Ok m' /\ msg_ok m' /\ opts_ m' = <[id := r]> (opts_ m) /\
    option_int64 r = Ok v /\ opts_len iter m' <= opts_len iter m + 12 /\ data_bytes m' = data_bytes m /\
    data_len_ m' = data_len_ m /\ msgtype (head_ m') = msgtype (head_ m).
Proof.
  intros Hm Hid Hv Hl. destruct (add_option_int_spec iter iter_perm id v m Hm Hid Hv ltac:(lia))
    as (m' & r & E & Ho & Hm' & Hr & Hr8 & Hlen & Hh & Hd & Hb).
  exists m', r. split_and!; try done; [| by rewrite Hh].
  unfold option_int64. rewrite (proj2 (Nat.ltb_ge _ _)) by lia. by rewrite Hr.
Qed.

Context (read_file : str -> str) (json_parse : str -> bool).

(** The body a request is sent with. *)
Definition body (t : Z) (data : str) (c : TestClient) : str :=
  if t =? kMtFactorCalc then read_file (lit "sample_cal.json")
  else if t =? kMtCmnSubscribe then formular_body "CashflowZSpread"
  else if t =? kMtCmnUnsubscribe then formular_body "CashflowZSpread000"
  else if t =? kMtFactorConf then read_file (lit "factors_mass.json") ++ [chr 0]
  else if t =? kMtCmnClientDisconnected then session_body (session_id_ c)
  else data.

(** The session the client keeps: leaving forgets it. *)
Definition kept (t : Z) (c : TestClient) : TestClient := if t =? kMtCmnClientDisconnected then set_session 0 c else c.

Lemma show_int_size z : size (show_int z) <= 21.
Proof.
  assert (forall n z, (length (digits n z) <= n)%nat) as Hd.
  { induction n as [|n IH]; intros x; cbn [digits]; [done |]. rewrite length_app. simpl length at 2.
    destruct (x <? 10); [simpl; lia |]. specialize (IH (x / 10)). lia. }
  unfold show_int, show_nat, size. pose proof (Hd 20%nat (- z)). pose proof (Hd 20%nat z).
  destruct (z <? 0); cbn [length]; lia.
Qed.

Hypothesis file_size : forall f, size (read_file f) < 2 ^ 32 - 1.

Lemma body_size t data c : size data < 2 ^ 32 -> size (body t data c) < 2 ^ 32.
Proof.
  intros Hd. unfold body. pose proof (file_size (lit "sample_cal.json")). pose proof (file_size (lit "factors_mass.json")).
  destruct (_ =? kMtFactorCalc); [lia |]. destruct (_ =? kMtCmnSubscribe); [vm_compute; reflexivity |].
  destruct (_ =? kMtCmnUnsubscribe); [vm_compute; reflexivity |].
  destruct (_ =? kMtFactorConf); [rewrite size_app; change (size [chr 0]) with 1; lia |].
  destruct (_ =? kMtCmnClientDisconnected); [| done].
  unfold session_body. pose proof (show_int_size (i64 (session_id_ c))). rewrite !size_app.
  change (size (lit "{")) with 1. change (size (quoted "session_id")) with 12.
  change (size (lit ":")) with 1. change (size (lit "}")) with 1. lia.
Qed.

(** [json::parse] throws on what is not JSON. *)
Definition parses (t : Z) : Prop :=
  t = kMtFactorConf -> json_parse (read_file (lit "factors_mass.json") ++ [chr 0]) = true.

Lemma fill_spec t data id m c : msg_ok m -> opts_len iter m <= 2 ^ 15 -> carries id m -> data_bytes m = data ->
  data_len_ m = size data -> size data < 2 ^ 32 -> parses t ->
  exists m', fill iter read_file json_parse t m c = Ok (m', kept t c) /\ msg_ok m' /\
    opts_len iter m' <= opts_len iter m + 24 /\ carries id m' /\ data_bytes m' = body t data c /\
    data_len_ m' = size (body t data c) /\ msgtype (head_ m') = msgtype (head_ m).
Proof.
  intros Hm Hl Hc Hd Hdl Hds Hj. pose proof (body_size t data c Hds) as Hbs.
  assert (forall b, size b < 2 ^ 32 -> exists m', set_string b m = Ok m' /\ msg_ok m' /\
    opts_len iter m' <= opts_len iter m + 24 /\ carries id m' /\ data_bytes m' = b /\ data_len_ m' = size b /\
    msgtype (head_ m') = msgtype (head_ m)) as Hset.
  { intros b Hb. destruct (set_string_spec b m Hm Hb) as (m1 & -> & Hm1 & Ho1 & Hl1 & Hb1 & Ht1). exists m1.
    split_and!; try done; [unfold opts_len; rewrite Ho1; lia | by eapply carries_opts]. }
  unfold fill, kept, body, parses in *.
  destruct (Z.eqb_spec t kMtFactorCalc) as [->|].
  { change (kMtFactorCalc =? kMtCmnClientDisconnected) with false. cbv iota.
    destruct (set_string_spec _ m Hm Hbs) as (m1 & -> & Hm1 & Ho1 & Hl1 & Hb1 & Ht1). cbn [mbind res_bind].
    assert (opts_len iter m1 = opts_len iter m) as El1 by (unfold opts_len; by rewrite Ho1).
    destruct (add_int kOptionId_ReqId 888888 m1 Hm1) as (m2 & r2 & -> & Hm2 & Ho2 & _ & Hl2 & Hb2 & Hd2 & Ht2);
      [done | lia | lia |]. cbn [mbind res_bind].
    assert (carries id m2) as Hc2 by (eapply (carries_insert id kOptionId_ReqId); [done | exact Ho2 | by eapply carries_opts]).
    assert (opts_len iter m2 <= 2 ^ 15 + 12) as Hl2' by lia.
    destruct (add_option_int_spec iter iter_perm kOptionId_ServerTime 123456 m2 Hm2 ltac:(done) ltac:(lia) ltac:(lia))
      as (m3 & r3 & -> & Ho3 & Hm3 & _ & _ & Hl3 & Hh3 & Hd3 & Hb3). cbn [mbind res_bind].
    exists m3. split; [done |]. split; [done |]. split; [lia |]. split; [by eapply (carries_insert id kOptionId_ServerTime) |].
    split_and!; [congruence | congruence |]. rewrite Hh3. cbn [set_lens msgtype]. congruence. }
  destruct (Z.eqb_spec t kMtCmnSubscribe) as [->|].
  { destruct (Hset _ Hbs) as (m1 & -> & Hr). exists m1. by split. }
  destruct (Z.eqb_spec t kMtCmnUnsubscribe) as [->|].
  { destruct (Hset _ Hbs) as (m1 & -> & Hr). exists m1. by split. }
  destruct (Z.eqb_spec t kMtFactorConf) as [->|].
  { rewrite Hj by done. destruct (Hset _ Hbs) as (m1 & -> & Hr). exists m1. by split. }
  destruct (Z.eqb_spec t kMtCmnClientDisconnected) as [->|].
  { destruct (Hset _ Hbs) as (m1 & -> & Hr). exists m1. by split. }
  exists m. split_and!; try done. lia.
Qed.

Lemma SendOnMsgType_spec t data c : in_u 16 t -> size data < 2 ^ 32 -> parses t ->
  exists x, SendOnMsgType iter read_file json_parse t data c =
      Ok (mkClient (session_id_ (kept t c)) (last_heart_beat_time_ c) (msg_queue_ c ++ [x]) (out c)) /\
    ready x /\ msgtype (head_ x) = t /\ carries (i64 (session_id_ c)) x /\ data_bytes x = body t data c /\
    opts_len iter x <= 36.
Proof.
  intros Ht Hds Hj. unfold SendOnMsgType.
  assert (msg_ok (set_msgtype t QtpMsg_empty)) as Hm0 by (apply set_msgtype_ok; [done | apply QtpMsg_empty_ok]).
  assert (opts_len iter (set_msgtype t QtpMsg_empty) = 0) as Hl0.
  { unfold opts_len. cbn. assert (iter ∅ = []) as ->; [| done].
    apply Permutation_nil_r. rewrite (iter_perm ∅), map_to_list_empty. done. }
  assert (- 2 ^ 63 <= i64 (session_id_ c) < 2 ^ 63) as Hi
    by (unfold i64, swrap; pose proof (Z.mod_pos_bound (session_id_ c + 2 ^ (64 - 1)) (2 ^ 64) ltac:(lia)); lia).
  destruct (add_int kOptionId_SessionId (i64 (session_id_ c)) _ Hm0) as (m1 & r & -> & Hm1 & Ho1 & Hr & Hl1 & Hb1 & Hd1 & Ht1);
    [done | done | lia |]. cbn [mbind res_bind].
  assert (carries (i64 (session_id_ c)) m1) as Hc1.
  { exists r. unfold get_option. by rewrite Ho1, lookup_insert_eq. }
  assert (exists m2, (if negb (size data =? 0) then set_string data m1 else Ok m1) = Ok m2 /\ msg_ok m2 /\ opts_ m2 = opts_ m1 /\
    data_len_ m2 = size data /\ data_bytes m2 = data /\ msgtype (head_ m2) = msgtype (head_ m1)) as (m2 & -> & Hm2 & Ho2 & Hl2 & Hb2 & Ht2).
  { destruct (Z.eqb_spec (size data) 0) as [E|E].
    - exists m1. destruct data as [|x l]; [by rewrite Hd1, Hb1 | rewrite size_cons in E; pose proof (size_nonneg l); lia].
    - destruct (set_string_spec data m1 Hm1 Hds) as (m2 & H2). by exists m2. }
  cbn [mbind res_bind]. assert (opts_len iter m2 = opts_len iter m1) as El2 by (unfold opts_len; by rewrite Ho2).
  destruct (fill_spec t data (i64 (session_id_ c)) m2 c Hm2) as (m3 & -> & Hm3 & Hl3 & Hc3 & Hb3 & Hd3 & Ht3);
    [lia | by eapply carries_opts | done | done | done | done |]. cbn [mbind res_bind].
  destruct (encode_ready m3 Hm3) as (m4 & -> & Hr4 & Ho4 & Hb4 & Ht4);
    [lia | rewrite Hd3; by apply body_size | by eapply carries_nonempty |]. cbn [mbind res_bind].
  unfold enqueue. destruct (copy_ready m4 Hr4) as (x & -> & Hrx & Hox & Hhx & Hbx). cbn [mbind res_bind].
  exists x. split; [unfold kept, set_session; by destruct (t =? kMtCmnClientDisconnected) |].
  split_and!; [done | | eapply carries_opts; [| exact Hc3]; congruence | congruence |
    unfold opts_len in *; rewrite Hox, Ho4; lia].
  rewrite Hhx, Ht4, Ht3, Ht2, Ht1. done.
Qed.

(** ** Requests, from the client's queue to the other end *)
Fixpoint submit (rs : list (Z * str)) (c : TestClient) : res TestClient :=
  match rs with
  | [] => Ok c
  | (t, data) :: rs => c ← SendOnMsgType iter read_file json_parse t data c; submit rs c
  end.

Definition request_ok (r : Z * str) : Prop := in_u 16 r.1 /\ size r.2 < 2 ^ 32 /\ parses r.1.

(** The messages the other end decodes from the bytes of a stream, and what is left. *)
Fixpoint received (fuel : nat) (s : str) : res (list QtpMsg * str) :=
  match fuel with
  | O => Fault OutOfFuel
  | S f =>
      '(m, s) ← decode_bytes s;
      match m with
      | None => Ok ([], s)
      | Some m => '(ms, s) ← received f s; Ok (m :: ms, s)
      end
  end.

(** Type, session and body of every request: leaving forgets the session. *)
Fixpoint requested (rs : list (Z * str)) (c : TestClient) : list (Z * Z * str) :=
  match rs with
  | [] => []
  | (t, data) :: rs => (t, i64 (session_id_ c), body t data c) :: requested rs (kept t c)
  end.

Definition says (m : QtpMsg) (r : Z * Z * str) : Prop :=
  msgtype (head_ m) = r.1.1 /\ carries r.1.2 m /\ data_bytes m = r.2.

Lemma requested_session rs c c' : session_id_ c = session_id_ c' -> requested rs c = requested rs c'.
Proof.
  revert c c'. induction rs as [|[t data] rs IH]; intros c c' Hs; [done |]. cbn [requested].
  unfold body. rewrite Hs. f_equal. apply IH. unfold kept. by destruct (t =? kMtCmnClientDisconnected).
Qed.

Lemma submit_spec rs : forall c, Forall request_ok rs -> exists xs c', submit rs c = Ok c' /\
  msg_queue_ c' = msg_queue_ c ++ xs /\ out c' = out c /\ Forall ready xs /\ Forall2 says xs (requested rs c).
Proof.
  induction rs as [|[t data] rs IH]; intros c Hrs; cbn [submit requested].
  - exists [], c. rewrite app_nil_r. split_and!; done.
  - apply Forall_cons in Hrs as [(Ht & Hd & Hj) Hrs]. cbn [fst snd] in *.
    destruct (SendOnMsgType_spec t data c Ht Hd Hj) as (x & -> & Hr & Hxt & Hxc & Hxb & _). cbn [mbind res_bind].
    destruct (IH (mkClient (session_id_ (kept t c)) (last_heart_beat_time_ c) (msg_queue_ c ++ [x]) (out c)) Hrs)
      as (xs & c' & -> & Hq & Ho & Hrxs & Hsays). cbn [msg_queue_ out] in *.
    exists (x :: xs), c'. split_and!; [done | by rewrite Hq, <- app_assoc | done | by constructor |].
    constructor; [done |]. by rewrite (requested_session rs (kept t c) (mkClient (session_id_ (kept t c)) (last_heart_beat_time_ c) (msg_queue_ c ++ [x]) (out c))).
Qed.

Lemma received_wires xs : forall rest fuel, Forall ready xs -> (length xs < fuel)%nat -> decode_bytes rest = Ok (None, rest) ->
  exists ms, received fuel (concat (map wire xs) ++ rest) = Ok (ms, rest) /\
    Forall2 (fun m x => head_ m = head_ x /\ opts_ m = opts_ x /\ data_bytes m = data_bytes x) ms xs.
Proof.
  induction xs as [|x xs IH]; intros rest [|fuel] Hxs Hf Hrest; simpl in Hf; try lia; cbn [received map concat app].
  - rewrite Hrest. by exists [].
  - apply Forall_cons in Hxs as [Hx Hxs]. rewrite <- app_assoc.
    destruct (wire_decodes x (concat (map wire xs) ++ rest) Hx) as (d & -> & Hd). cbn [mbind res_bind].
    destruct (IH rest fuel Hxs ltac:(lia) Hrest) as (ms & -> & Hms). cbn [mbind res_bind].
    exists (d :: ms). split; [done |]. by constructor.
Qed.

(** C24: whatever requests a connected client is told to send, after the next
    turn of its loop the other end has exactly these messages, in order: each
    with its type, the session of the client at that time, and its body. *)
Theorem requests_delivered rs c :
  Forall request_ok rs -> msg_queue_ c = [] ->
  exists c1 c2 parts ms, submit rs c = Ok c1 /\ drain true (msg_queue_ c1) QtpMsg_empty c1 = Ok c2 /\
    msg_queue_ c2 = [] /\ out c2 = out c ++ parts /\
    received (S (length rs)) (concat parts) = Ok (ms, []) /\ Forall2 says ms (requested rs c).
Proof.
  intros Hrs Hq. destruct (submit_spec rs c Hrs) as (xs & c1 & E1 & Hq1 & Ho1 & Hr & Hsays).
  rewrite Hq in Hq1. cbn [app] in Hq1.
  destruct (drain_ready xs QtpMsg_empty c1 Hr) as (parts & E2 & Hp).
  assert (length xs = length rs) as Hlen.
  { apply Forall2_length in Hsays. rewrite Hsays. clear. revert c. induction rs as [|[t d] rs IH]; intros c; [done |].
    cbn [requested length]. by rewrite IH. }
  destruct (received_wires xs [] (S (length rs)) Hr ltac:(lia) eq_refl) as (ms & Em & Hms). rewrite app_nil_r in Em.
  eexists c1, _, parts, ms. split; [exact E1 |]. split; [rewrite Hq1; exact E2 |]. cbn [msg_queue_ out]. split_and!.
  - destruct xs; [by rewrite Hq1 | done].
  - by rewrite Ho1.
  - by rewrite Hp.
  - clear -Hms Hsays. revert Hsays. generalize (requested rs c). induction Hms as [|m x ms xs (Hh & Ho & Hb) _ IH]; intros l Hs.
    + by inversion Hs.
    + inversion Hs as [|? r ? l' (H1 & H2 & H3) Hs']; subst. constructor; [| by apply IH].
      split_and!; [by rewrite Hh | by eapply carries_opts | by rewrite Hb].
Qed.

(** ** Logging in *)

(** The bytes a request of the client becomes, and the client after they are sent. *)
Definition sends (t : Z) (data : str) (c : TestClient) (bytes : str) (c' : TestClient) : Prop :=
  exists c1 parts, SendOnMsgType iter read_file json_parse t data c = Ok c1 /\
    drain true (msg_queue_ c1) QtpMsg_empty c1 = Ok c' /\ out c' = out c ++ parts /\ bytes = concat parts.

Lemma sends_spec t data c : in_u 16 t -> size data < 2 ^ 32 -> parses t -> msg_queue_ c = [] ->
  exists x c', sends t data c (wire x) c' /\ session_id_ c' = session_id_ (kept t c) /\ msg_queue_ c' = [] /\
    ready x /\ msgtype (head_ x) = t /\ carries (i64 (session_id_ c)) x /\ opts_len iter x <= 36.
Proof.
  intros Ht Hd Hj Hq. destruct (SendOnMsgType_spec t data c Ht Hd Hj) as (x & E & Hr & Hxt & Hxc & _ & Hxl).
  rewrite Hq in E. cbn [app] in E.
  destruct (drain_ready [x] QtpMsg_empty (mkClient (session_id_ (kept t c)) (last_heart_beat_time_ c) [x] (out c)))
    as (parts & E2 & Hp); [by constructor |].
  cbn [map concat] in Hp. rewrite app_nil_r in Hp.
  eexists x, _. split; [eexists _, parts; split; [exact E |]; split; [exact E2 | done] |]. done.
Qed.

Lemma decode_str s m r : decode_bytes s = Ok (m, r) -> decode_msg_with_head (B := str) s = Ok (m, r).
Proof.
  intros E. pose proof (decode_refines (B := str) s) as H. cbn [contents str_evbuffer] in H. rewrite E in H.
  destruct H as (b' & H & Hb). cbn in Hb. by subst b'.
Qed.

Lemma carries_IsLogin id m st : carries id m -> IsLogin m st = Ok (bool_decide (id ∈ session_logined_ st)).
Proof. intros (r & Hr & Hi). unfold IsLogin. rewrite Hr, Hi. done. Qed.

(** The server reads one message from the wire. *)
Lemma server_reads onMessage time bev x st st' d :
  decode_bytes (wire x) = Ok (Some d, []) -> dispatch iter time onMessage bev d st = Ok st' ->
  Server.OnRead iter time onMessage 2 bev (wire x) st = Ok ([], st').
Proof.
  intros Hd Hs. pose proof (OnRead_refines (B := str) (dispatch iter time onMessage bev) 2 (wire x) st) as H.
  cbn [contents str_evbuffer read_bytes] in H. rewrite Hd in H. cbn [mbind res_bind] in H. rewrite Hs in H.
  destruct H as (b' & H & Hb). cbn in Hb. by subst b'.
Qed.

(** C5: the client and the session server together: a client without a session
    logs in, the server answers with a fresh identifier and the client takes it
    over.  From then on, whatever else happens to the server, every request that
    client sends arrives as that of a logged-in session and, heartbeats and logins
    apart, is handed to the message handler, until the client leaves. *)
Theorem login_session onMessage time bev st c :
  sessions_ok st -> cur_session_id_ st < 2 ^ 63 - 1 ->
  msg_queue_ c = [] -> i64 (session_id_ c) ∉ session_logined_ st ->
  (forall b m s s', onMessage b m s = Ok s' -> same_sessions s s') ->
  exists bytes c1 st1 reply c2,
    sends kMtCmnLogin [] c bytes c1 /\
    Server.OnRead iter time onMessage 2 bev bytes st = Ok ([], st1) /\
    written st1 = written st ++ [(bev, reply)] /\
    OnRead 2 reply c1 = Ok ([], c2) /\
    session_id_ c2 = cur_session_id_ st + 1 /\ session_id_ c2 ∉ session_logined_ st /\ msg_queue_ c2 = [] /\
    forall c' t data, session_id_ c' = session_id_ c2 -> msg_queue_ c' = [] ->
      in_u 16 t -> size data < 2 ^ 32 -> parses t ->
      exists bytes' c3 m, sends t data c' bytes' c3 /\ decode_bytes bytes' = Ok (Some m, []) /\
        msgtype (head_ m) = t /\
        (forall st2, later iter onMessage st1 st2 -> IsLogin m st2 = Ok true /\
           (t <> 101 -> t <> 1001 -> forall time2 bev2, dispatch iter time2 onMessage bev2 m st2 = onMessage bev2 m st2)) /\
        msg_queue_ c3 = [] /\ (t <> kMtCmnClientDisconnected -> session_id_ c3 = session_id_ c2).
Proof.
  intros [H0 Hids] Hcur Hq Hnew Hkeep.
  destruct (sends_spec kMtCmnLogin [] c) as (x & c1 & Hsend & Hs1 & Hq1 & Hr & Hxt & Hxc & Hxl); [done | done | done | done |].
  destruct (wire_decodes x [] Hr) as (d & Ed & Hdh & Hdo & Hdb). rewrite app_nil_r in Ed.
  assert (carries (i64 (session_id_ c)) d) as Hdc by by eapply carries_opts.
  assert (IsLogin d st = Ok false) as Hlog.
  { rewrite (carries_IsLogin _ _ _ Hdc). by rewrite bool_decide_eq_false_2. }
  destruct (decode_bytes_ok _ _ _ Ed) as (Hdok & Hhead & _ & Hdl & _).
  destruct (login_reply (B := str) iter iter_perm bev d st Hdok) as (st1 & reply & El & Hw & Hsl & Hrd);
    [unfold opts_len in *; rewrite Hdo; lia | | lia | done |].
  { rewrite Hdl, Hhead. apply head_of_bytes_ok. }
  destruct (Hrd reply eq_refl) as (a & b' & Ea & Hb' & Hat & _ & r & Hra & Hri). cbn in Hb'. subst b'.
  assert (OnRead 2 reply c1 = Ok ([], set_session (cur_session_id_ st + 1) c1)) as Ec.
  { cbn [OnRead]. rewrite Ea. cbn [mbind res_bind]. unfold on_message. rewrite Hat.
    change (1002 =? kMtCmnLoginAns) with true. cbv iota. rewrite Hra, Hri. cbn [mbind res_bind].
    rewrite u64_small by lia. done. }
  exists (wire x), c1, st1, reply, (set_session (cur_session_id_ st + 1) c1). split; [done |]. split.
  { apply (server_reads onMessage time bev x st st1 d Ed). unfold dispatch. rewrite Hdh, Hxt. exact El. }
  split_and!; [done | done | done | | done |].
  - cbn [set_session session_id_]. intros Hin%Hids. lia.
  - intros c' t data Hc' Hq' Ht Hds Hj. cbn [set_session session_id_] in Hc'.
    destruct (sends_spec t data c' Ht Hds Hj Hq') as (y & c3 & Hsy & Hs3 & Hq3 & Hry & Hyt & Hyc & _).
    rewrite Hc', i64_small in Hyc by lia.
    destruct (wire_decodes y [] Hry) as (e & Ee & Heh & Heo & _). rewrite app_nil_r in Ee.
    exists (wire y), c3, e. assert (msgtype (head_ e) = t) as Het by (by rewrite Heh).
    split_and!; [done | done | done | | done |].
    + intros st2 Hl%later_keeps; [| exact Hkeep].
      assert (IsLogin e st2 = Ok true) as He.
      { rewrite (carries_IsLogin (cur_session_id_ st + 1)) by (by eapply carries_opts).
        rewrite bool_decide_eq_true_2; [done |]. apply Hl. rewrite Hsl. set_solver. }
      split; [done |]. intros H101 H1001 time2 bev2. unfold dispatch. rewrite Het, He.
      by rewrite !(proj2 (Z.eqb_neq _ _)) by done.
    + intros Hne. rewrite Hs3. unfold kept. rewrite (proj2 (Z.eqb_neq _ _) Hne). by rewrite Hc'.
Qed.
End Client.

(** ** The configuration file *)
Lemma getline_line l : forall n r, (length l <= n)%nat -> chr 10 ∉ l -> getline n (l ++ chr 10 :: r) = (l, r, false, false).
Proof.
  induction l as [|c l IH]; intros n r Hn Hl; [by destruct n |]. cbn [app getline].
  apply not_elem_of_cons in Hl as [Hc Hl]. rewrite decide_False by congruence. destruct n as [|n]; [simpl in Hn; lia |].
  rewrite IH by (done || simpl in Hn; lia). done.
Qed.

Lemma getline_shrinks n : forall s l r eof fail, getline n s = (l, r, eof, fail) ->
  (length r <= length s)%nat /\ (eof = true \/ fail = true \/ (length r < length s)%nat).
Proof.
  intros s. revert n. induction s as [|c s IH]; intros n l r eof fail E; cbn [getline] in E;
    [injection E as <- <- <- <-; simpl; auto |].
  destruct (decide (c = chr 10)); [injection E as <- <- <- <-; simpl; auto |].
  destruct n as [|n]; [injection E as <- <- <- <-; simpl; auto |].
  destruct (getline n s) as [[[l1 r1] e1] f1] eqn:E1. injection E as <- <- <- <-.
  apply IH in E1 as [H1 H2]. simpl. split; [lia |]. destruct H2 as [?|[?|?]]; auto with lia.
Qed.

Lemma up_to_nul_id s : chr 0 ∉ s -> up_to_nul s = s.
Proof.
  induction s as [|c s IH]; intros Hs; [done |]. apply not_elem_of_cons in Hs as [Hc Hs].
  cbn [up_to_nul]. rewrite decide_False by congruence. by rewrite IH.
Qed.

Lemma split_eq_pair k v : "="%char ∉ k -> split_eq (k ++ "="%char :: v) = Some (k, v).
Proof.
  induction k as [|c k IH]; intros Hk; [done |]. apply not_elem_of_cons in Hk as [Hc Hk].
  cbn [app split_eq]. rewrite decide_False by congruence. by rewrite IH.
Qed.

(** A file of [key=value] lines. *)
Definition config_line (e : str * str) : str := e.1 ++ "="%char :: e.2.
Definition config_text (l : list (str * str)) : str := concat (map (fun e => config_line e ++ [chr 10]) l).
Record line_ok (e : str * str) : Prop := {
  line_key : "="%char ∉ e.1;
  line_end : chr 10 ∉ config_line e;
  line_nul : chr 0 ∉ config_line e;
  line_length : (length (config_line e) <= 999)%nat }.

(** The value of the first line with the key. *)
Fixpoint config_find (key : str) (l : list (str * str)) : option str :=
  match l with
  | [] => None
  | (k, v) :: l => if decide (key = k) then Some v else config_find key l
  end.

Lemma config_loop_ok key n : forall s eof fail f, (length s <= n)%nat -> (n + 2 <= f)%nat ->
  exists o, config_loop f key s eof fail = Ok o.
Proof.
  induction n as [|n IH]; intros s eof fail f Hs Hf; (destruct f as [|f]; [lia |]); cbn [config_loop];
    (destruct eof; [eauto |]); (destruct fail; [cbn; eauto |]);
    destruct (getline 999 s) as [[[l r] e1] f1] eqn:E; apply getline_shrinks in E as [H1 H2];
    (destruct (split_eq (up_to_nul l)) as [[k v]|]; [| eauto]); (destruct (decide (key = k)); [eauto |]);
    (destruct f as [|f]; [lia |]).
  - destruct H2 as [->|[->|H2]]; [cbn; eauto | destruct e1; cbn; eauto | lia].
  - destruct H2 as [->|[->|H2]]; [cbn; eauto | destruct e1; cbn; eauto |]. apply IH; lia.
Qed.

Lemma config_loop_text key l : forall f, Forall line_ok l -> (length l < f)%nat ->
  config_loop f key (config_text l) false false = Ok (config_find key l).
Proof.
  induction l as [|[k v] l IH]; intros [|f] Hl Hf; simpl in Hf; try lia; [done |].
  apply Forall_cons in Hl as [[Hk Hend Hnul Hlen] Hl]. unfold config_text. cbn [map concat]. fold (config_text l).
  rewrite <- app_assoc. cbn [app config_loop]. rewrite getline_line by done. rewrite up_to_nul_id by done.
  unfold config_line. cbn [fst snd] in *. rewrite split_eq_pair by done. cbn [config_find].
  destruct (decide (key = k)); [done |]. apply IH; [done | lia].
Qed.

Lemma config_text_length l : (length l <= length (config_text l))%nat.
Proof.
  induction l as [|e l IH]; [done |]. unfold config_text in *. cbn [map concat length]. rewrite !length_app. simpl. lia.
Qed.

(** Reading the configuration terminates on every file, and on a file of
    [key=value] lines finds the value of the first line with the key; a line
    without ['='] ends the search, whatever follows it. *)
Theorem readConfigFile_spec key :
  (forall file, exists o, readConfigFile file key = Ok o) /\
  (forall l, Forall line_ok l -> readConfigFile (Some (config_text l)) key = Ok (config_find key l)) /\
  (forall l bad rest, Forall line_ok l -> config_find key l = None ->
     "="%char ∉ bad -> chr 10 ∉ bad -> (length bad <= 999)%nat ->
     readConfigFile (Some (config_text l ++ bad ++ chr 10 :: rest)) key = Ok None).
Proof.
  split_and!.
  - intros [s|]; [| by exists None]. apply (config_loop_ok key (length s)); lia.
  - intros l Hl. apply config_loop_text; [done |]. pose proof (config_text_length l). lia.
  - intros l bad rest Hl Hnone Hb Hn Hlen. unfold readConfigFile.
    assert (forall f, (length l < f)%nat ->
      config_loop f key (config_text l ++ bad ++ chr 10 :: rest) false false = Ok None) as Hloop.
    { induction l as [|[k v] l IH]; intros [|f] Hf; simpl in Hf; try lia.
      - cbn [config_text map concat app config_loop]. rewrite getline_line by done.
        assert (split_eq (up_to_nul bad) = None) as ->; [| done].
        clear -Hb. induction bad as [|c bad IH]; [done |]. apply not_elem_of_cons in Hb as [Hc Hb]. cbn [up_to_nul].
        destruct (decide (c = chr 0)); [done |]. cbn [split_eq]. rewrite decide_False by congruence. by rewrite IH.
      - apply Forall_cons in Hl as [[Hk Hend Hnul Hl1] Hl]. unfold config_text. cbn [map concat]. fold (config_text l).
        rewrite <- !app_assoc. cbn [app config_loop]. rewrite getline_line by done. rewrite up_to_nul_id by done.
        unfold config_line. cbn [fst snd] in *. rewrite split_eq_pair by done. cbn [config_find] in Hnone.
        destruct (decide (key = k)); [done |]. apply IH; [done | done | lia]. }
    apply Hloop. pose proof (config_text_length l). rewrite length_app. lia.
Qed.

(** ** Witnesses: files without content, everything is JSON *)
Definition no_file (_ : str) : str := [].
Definition any_json (_ : str) : bool := true.

Lemma no_file_small : forall f, size (no_file f) < 2 ^ 32 - 1.
Proof. done. Qed.

Lemma requests_delivered_witness : exists c1 c2 parts ms,
  submit key_order no_file any_json [(1003, []); (1099, []); (2001, lit "abc")] (set_session 7 TestClient_init) = Ok c1 /\
  drain true (msg_queue_ c1) QtpMsg_empty c1 = Ok c2 /\ msg_queue_ c2 = [] /\ out c2 = [] ++ parts /\
  received 4 (concat parts) = Ok (ms, []) /\
  Forall2 says ms [(1003, 7, formular_body "CashflowZSpread"); (1099, 7, session_body 7); (2001, 0, lit "abc")].
Proof.
  exact (requests_delivered key_order key_order_perm no_file any_json no_file_small
    [(1003, []); (1099, []); (2001, lit "abc")] (set_session 7 TestClient_init)
    ltac:(repeat constructor; done) eq_refl).
Defined.

Lemma login_session_witness : exists bytes c1 st1 reply c2,
  sends key_order no_file any_json kMtCmnLogin [] TestClient_init bytes c1 /\
  Server.OnRead key_order 5 (Server.onMessage any_json) 2 1%positive bytes ServerEnd_init = Ok ([], st1) /\
  written st1 = [(1%positive, reply)] /\ OnRead 2 reply c1 = Ok ([], c2) /\ session_id_ c2 = 1.
Proof.
  destruct (login_session key_order key_order_perm no_file any_json no_file_small (Server.onMessage any_json) 5 1
    ServerEnd_init TestClient_init) as (bytes & c1 & st1 & reply & c2 & H1 & H2 & H3 & H4 & H5 & H6 & H7 & _).
  - split; [done |]. intros id Hid. cbn in Hid. set_solver.
  - done.
  - done.
  - cbn. set_solver.
  - intros b m s s'. apply signal_sessions.
  - exists bytes, c1, st1, reply, c2. exact (conj H1 (conj H2 (conj H3 (conj H4 H5)))).
Defined.

Lemma readConfigFile_spec_witness :
  readConfigFile (Some (config_text [(lit "ip", lit "10.0.0.1"); (lit "port", lit "8888")])) (lit "port") = Ok (Some (lit "8888")).
Proof.
  refine (proj1 (proj2 (readConfigFile_spec (lit "port"))) [(lit "ip", lit "10.0.0.1"); (lit "port", lit "8888")] _).
  repeat constructor; try (vm_compute; set_solver); vm_compute; lia.
Defined.
