(* ===== verification/SubPub.v ===== *)
(** * Publish and subscribe: [src/src/include/subpub_man.h]

    [Topics] holds the subscribers of one topic, by key and for every key;
    [SubManager] finds or creates the [Topics] of a topic.  The specification is
    a relation: who subscribed to which key of which topic, and who to the whole
    topic. *)
From S2P Require Import Prelude CStr StdString.
Open Scope Z_scope.

Section SubPub.
Context {SuberType KeyType : Type} `{Countable SuberType} `{Countable KeyType}.

(** ** [Topics] *)
Record Topics : Type := mkTopics {
  topic_ : Z;
  subers_ : gmap KeyType (gset SuberType);
  topic_subers_ : gset SuberType }.

Definition Topics_new (topic : Z) : Topics := mkTopics topic ∅ ∅.

Definition addTopicSuber (st : SuberType) (t : Topics) : Topics :=
  mkTopics (topic_ t) (subers_ t) ({[st]} ∪ topic_subers_ t).

Definition addSubscriber (key : KeyType) (st : SuberType) (t : Topics) : Topics :=
  match subers_ t !! key with
  | Some s => mkTopics (topic_ t) (<[key := {[st]} ∪ s]> (subers_ t)) (topic_subers_ t)
  | None => mkTopics (topic_ t) (<[key := {[st]}]> (subers_ t)) (topic_subers_ t)
  end.

Definition removeSubscriber_key (key : KeyType) (st : SuberType) (t : Topics) : Topics :=
  match subers_ t !! key with
  | Some s => mkTopics (topic_ t) (<[key := s ∖ {[st]}]> (subers_ t)) (topic_subers_ t)
  | None => t
  end.

Definition removeSubscriber (st : SuberType) (t : Topics) : Topics :=
  mkTopics (topic_ t) ((fun s => s ∖ {[st]}) <$> subers_ t) (topic_subers_ t ∖ {[st]}).

Definition Topics_subers (key : KeyType) (t : Topics) : gset SuberType :=
  match subers_ t !! key with
  | None => topic_subers_ t
  | Some s => if bool_decide (topic_subers_ t = ∅) then s else s ∪ topic_subers_ t
  end.

(** ** [SubManager]: the topics behind their pointers *)
Abbreviation SubManager := (gmap Z Topics).

(** [get]: the topic, and the manager with the topic it may have created. *)
Definition get (topic : Z) (create : bool) (m : SubManager) : option Topics * SubManager :=
  match m !! topic with
  | Some t => (Some t, m)
  | None => if create then (Some (Topics_new topic), <[topic := Topics_new topic]> m) else (None, m)
  end.

(** Run an operation on the topic [get] answers. *)
Definition on_topic (topic : Z) (create : bool) (f : Topics -> Topics) (m : SubManager) : SubManager :=
  match get topic create m with
  | (Some t, m) => <[topic := f t]> m
  | (None, m) => m
  end.

Definition Subscribe (topic : Z) (key : KeyType) (st : SuberType) : SubManager -> SubManager :=
  on_topic topic true (addSubscriber key st).
Definition SubscribeTopic (topic : Z) (st : SuberType) : SubManager -> SubManager :=
  on_topic topic true (addTopicSuber st).
Definition UnsubscribeTopic (topic : Z) (st : SuberType) : SubManager -> SubManager :=
  on_topic topic true (removeSubscriber st).
Definition Unsubscribe_key (topic : Z) (key : KeyType) (st : SuberType) : SubManager -> SubManager :=
  on_topic topic false (removeSubscriber_key key st).
Definition Unsubscribe (st : SuberType) (m : SubManager) : SubManager := removeSubscriber st <$> m.

Definition subers (topic : Z) (key : KeyType) (m : SubManager) : gset SuberType :=
  match (get topic false m).1 with
  | Some t => Topics_subers key t
  | None => ∅
  end.

(** ** [dumpSubers]: [order] gives the order the hash maps are visited in *)
Section Dump.
Context (to_string : SuberType -> str) (show_key : KeyType -> str).
Context (keys : gmap KeyType (gset SuberType) -> list (KeyType * gset SuberType)).
Context (topics : gmap Z Topics -> list (Z * Topics)).
(** [std::set] is visited in ascending order. *)
Context (ascending : gset SuberType -> list SuberType).

Definition endl : str := [chr 10].

Fixpoint join_subers (ks : str) (l : list SuberType) : str :=
  match l with
  | [] => ks
  | j :: l =>
      let ks := if bool_decide (ks = []) then ks else ks ++ lit ", " in
      join_subers (ks ++ to_string j) l
  end.

Definition dash_line : str := lit "--------------------------------" ++ endl.

Definition Topics_dump (t : Topics) : str :=
  dash_line
  ++ concat (map (fun i => lit "  <Key, Suber>:[" ++ show_key i.1 ++ lit "] <==> ["
                        ++ join_subers [] (ascending i.2) ++ lit "]" ++ endl) (keys (subers_ t)))
  ++ (if bool_decide (topic_subers_ t = ∅) then []
      else lit "  <Topic, Suber>:[" ++ show_int (topic_ t) ++ lit "] <==> ["
           ++ join_subers [] (ascending (topic_subers_ t)) ++ lit "]" ++ endl)
  ++ dash_line.

Definition dumpSubers (m : SubManager) : str := concat (map (fun i => Topics_dump i.2) (topics m)).
End Dump.

(** ** The specification *)

(** What users ask for. *)
Inductive request : Type :=
  | ReqSubscribe (topic : Z) (key : KeyType) (st : SuberType)
  | ReqSubscribeTopic (topic : Z) (st : SuberType)
  | ReqUnsubscribeTopic (topic : Z) (st : SuberType)
  | ReqUnsubscribeKey (topic : Z) (key : KeyType) (st : SuberType)
  | ReqUnsubscribe (st : SuberType).

Definition run1 (m : SubManager) (r : request) : SubManager :=
  match r with
  | ReqSubscribe t k s => Subscribe t k s m
  | ReqSubscribeTopic t s => SubscribeTopic t s m
  | ReqUnsubscribeTopic t s => UnsubscribeTopic t s m
  | ReqUnsubscribeKey t k s => Unsubscribe_key t k s m
  | ReqUnsubscribe s => Unsubscribe s m
  end.

(** The requests made so far, newest first. *)
Fixpoint run (rs : list request) : SubManager :=
  match rs with [] => ∅ | r :: rs => run1 (run rs) r end.

(** Whether the last request about it leaves [st] subscribed to the key, and to
    the whole topic. *)
Fixpoint wants_key (topic : Z) (key : KeyType) (st : SuberType) (rs : list request) : bool :=
  match rs with
  | [] => false
  | ReqSubscribe t k s :: rs =>
      bool_decide (t = topic /\ k = key /\ s = st) || wants_key topic key st rs
  | ReqSubscribeTopic _ _ :: rs => wants_key topic key st rs
  | ReqUnsubscribeTopic t s :: rs => negb (bool_decide (t = topic /\ s = st)) && wants_key topic key st rs
  | ReqUnsubscribeKey t k s :: rs =>
      negb (bool_decide (t = topic /\ k = key /\ s = st)) && wants_key topic key st rs
  | ReqUnsubscribe s :: rs => negb (bool_decide (s = st)) && wants_key topic key st rs
  end.

Fixpoint wants_topic (topic : Z) (st : SuberType) (rs : list request) : bool :=
  match rs with
  | [] => false
  | ReqSubscribe _ _ _ :: rs => wants_topic topic st rs
  | ReqSubscribeTopic t s :: rs => bool_decide (t = topic /\ s = st) || wants_topic topic st rs
  | ReqUnsubscribeTopic t s :: rs => negb (bool_decide (t = topic /\ s = st)) && wants_topic topic st rs
  | ReqUnsubscribeKey _ _ _ :: rs => wants_topic topic st rs
  | ReqUnsubscribe s :: rs => negb (bool_decide (s = st)) && wants_topic topic st rs
  end.

(** ** The manager as sets of pairs *)
Definition key_set (topic : Z) (key : KeyType) (m : SubManager) : gset SuberType :=
  match m !! topic with Some t => default ∅ (subers_ t !! key) | None => ∅ end.
Definition topic_set (topic : Z) (m : SubManager) : gset SuberType :=
  match m !! topic with Some t => topic_subers_ t | None => ∅ end.

Lemma subers_sets topic key m : subers topic key m = key_set topic key m ∪ topic_set topic m.
Proof.
  unfold subers, get, key_set, topic_set, Topics_subers. destruct (m !! topic) as [t|]; simpl; [| set_solver].
  destruct (subers_ t !! key); simpl; [| set_solver]. case_bool_decide; set_solver.
Qed.

Lemma on_topic_lookup topic create f m t' :
  on_topic topic create f m !! t' =
    if decide (t' = topic) then
      match m !! topic with Some t => Some (f t) | None => if create then Some (f (Topics_new topic)) else None end
    else m !! t'.
Proof.
  unfold on_topic, get. destruct (decide (t' = topic)) as [->|Hne], (m !! topic) eqn:E, create; cbn;
    rewrite ?lookup_insert_eq, ?lookup_insert_ne by done; done.
Qed.

(** Each operation on the two sets. *)
Lemma addSubscriber_sets k' s t k :
  default ∅ (subers_ (addSubscriber k' s t) !! k) =
    (if decide (k = k') then {[s]} ∪ default ∅ (subers_ t !! k) else default ∅ (subers_ t !! k)) /\
  topic_subers_ (addSubscriber k' s t) = topic_subers_ t.
Proof.
  unfold addSubscriber. destruct (subers_ t !! k') eqn:E; split; try done; cbn [subers_];
    destruct (decide (k = k')) as [->|Hne]; rewrite ?lookup_insert_eq, ?lookup_insert_ne by done; rewrite ?E; cbn; set_solver.
Qed.

Lemma removeSubscriber_key_sets k' s t k :
  default ∅ (subers_ (removeSubscriber_key k' s t) !! k) =
    (if decide (k = k') then default ∅ (subers_ t !! k) ∖ {[s]} else default ∅ (subers_ t !! k)) /\
  topic_subers_ (removeSubscriber_key k' s t) = topic_subers_ t.
Proof.
  unfold removeSubscriber_key. destruct (subers_ t !! k') eqn:E; split; try done; cbn [subers_];
    destruct (decide (k = k')) as [->|Hne]; rewrite ?lookup_insert_eq, ?lookup_insert_ne by done; rewrite ?E; cbn; set_solver.
Qed.

Lemma removeSubscriber_sets s t k :
  default ∅ (subers_ (removeSubscriber s t) !! k) = default ∅ (subers_ t !! k) ∖ {[s]} /\
  topic_subers_ (removeSubscriber s t) = topic_subers_ t ∖ {[s]}.
Proof.
  split; [| done]. unfold removeSubscriber. cbn [subers_]. rewrite lookup_fmap. destruct (subers_ t !! k); cbn; set_solver.
Qed.

(** The sets of a topic that does not exist are those of an empty one. *)
Definition topic_at (topic : Z) (m : SubManager) : Topics := default (Topics_new topic) (m !! topic).

Lemma key_set_at topic key m : key_set topic key m = default ∅ (subers_ (topic_at topic m) !! key).
Proof. unfold key_set, topic_at. destruct (m !! topic); [done |]. cbn. by rewrite lookup_empty. Qed.
Lemma topic_set_at topic m : topic_set topic m = topic_subers_ (topic_at topic m).
Proof. unfold topic_set, topic_at. by destruct (m !! topic). Qed.

Lemma topic_at_on topic create f m t' :
  (create = false -> f (Topics_new topic) = Topics_new topic) ->
  topic_at t' (on_topic topic create f m) = if decide (t' = topic) then f (topic_at topic m) else topic_at t' m.
Proof.
  intros Hf. unfold topic_at. rewrite on_topic_lookup. destruct (decide (t' = topic)) as [->|Hne]; [| done].
  destruct (m !! topic); [done |]. destruct create; [done |]. cbn. by rewrite Hf.
Qed.

Lemma topic_at_fmap f m t' : f (Topics_new t') = Topics_new t' -> topic_at t' (f <$> m) = f (topic_at t' m).
Proof. intros Hf. unfold topic_at. rewrite lookup_fmap. by destruct (m !! t'). Qed.

Lemma removeSubscriber_new topic st : removeSubscriber st (Topics_new topic) = Topics_new topic.
Proof. unfold removeSubscriber, Topics_new. cbn. rewrite fmap_empty. f_equal. set_solver. Qed.

Lemma run_sets rs topic key st :
  (st ∈ key_set topic key (run rs) <-> wants_key topic key st rs = true) /\
  (st ∈ topic_set topic (run rs) <-> wants_topic topic st rs = true).
Proof.
  rewrite key_set_at, topic_set_at. induction rs as [|r rs [IHk IHt]]; [split; split; try done; set_solver |].
  cbn [run]. set (m := run rs) in *.
  destruct r as [t k s|t s|t s|t k s|s]; cbn [run1 wants_key wants_topic];
    unfold Subscribe, SubscribeTopic, UnsubscribeTopic, Unsubscribe_key, Unsubscribe.
  - rewrite topic_at_on by done. destruct (decide (topic = t)) as [->|Hne].
    + destruct (addSubscriber_sets k s (topic_at t m) key) as [-> ->]. split; [| done].
      destruct (decide (key = k)) as [->|Hk]; case_bool_decide; cbn; set_solver.
    + split; [| done]. rewrite bool_decide_eq_false_2 by naive_solver. done.
  - rewrite topic_at_on by done. destruct (decide (topic = t)) as [->|Hne].
    + split; [done |]. case_bool_decide; cbn; set_solver.
    + split; [done |]. rewrite bool_decide_eq_false_2 by naive_solver. done.
  - rewrite topic_at_on by done. destruct (decide (topic = t)) as [->|Hne].
    + destruct (removeSubscriber_sets s (topic_at t m) key) as [-> ->]. case_bool_decide; cbn; set_solver.
    + rewrite bool_decide_eq_false_2 by naive_solver. done.
  - rewrite topic_at_on by done. destruct (decide (topic = t)) as [->|Hne].
    + destruct (removeSubscriber_key_sets k s (topic_at t m) key) as [-> ->]. split; [| done].
      destruct (decide (key = k)) as [->|Hk]; case_bool_decide; cbn; set_solver.
    + split; [| done]. rewrite bool_decide_eq_false_2 by naive_solver. done.
  - rewrite topic_at_fmap by apply removeSubscriber_new.
    destruct (removeSubscriber_sets s (topic_at topic m) key) as [-> ->]. case_bool_decide; cbn; set_solver.
Qed.

(** C27: after any requests, [subers] of a key of a topic is exactly the set of
    those whose last request about the key, or about the whole topic, was to
    subscribe. *)
Theorem subers_spec rs topic key st :
  st ∈ subers topic key (run rs) <->
  wants_key topic key st rs = true \/ wants_topic topic st rs = true.
Proof.
  rewrite subers_sets, elem_of_union. destruct (run_sets rs topic key st) as [-> ->]. done.
Qed.
End SubPub.
