(* ===== verification/Heap.v ===== *)
(** * Heaps: [src/src/topk/heapsort.cpp] and [src/src/topk/main.cpp]

    An [int] array is a [list Z]; indices stay far below 2^30, so they are
    natural numbers.  [main] of [topk] reads a text with [fscanf] and [feof]. *)
From S2P Require Import Prelude CStr StdString.
Open Scope Z_scope.

(** [std::swap(arr[i], arr[j])] *)
Definition swap (i j : nat) (arr : list Z) : res (list Z) :=
  x ← at_index arr i;
  y ← at_index arr j;
  Ok (<[j := x]> (<[i := y]> arr)).

(** The [while] loop of [adjust]: a smallest child goes up. *)
Fixpoint adjust_loop (fuel : nat) (arr : list Z) (top_size parent : nat) : res (list Z) :=
  match fuel with
  | O => Fault OutOfFuel
  | S fuel =>
      let child := (parent * 2 + 1)%nat in
      if (child <? top_size)%nat then
        child ← (if (child + 1 <? top_size)%nat then
                   r ← at_index arr (child + 1);
                   l ← at_index arr child;
                   Ok (if r <? l then (child + 1)%nat else child)
                 else Ok child);
        c ← at_index arr child;
        p ← at_index arr parent;
        if c <? p then
          arr ← swap child parent arr;
          adjust_loop fuel arr top_size child
        else Ok arr
      else Ok arr
  end.

Definition adjust (arr : list Z) (top_size parent : nat) : res (list Z) :=
  adjust_loop (S top_size) arr top_size parent.

(** [for (i = start; i >= 0; --i) adjust(arr, size, i)] *)
Fixpoint build (arr : list Z) (size start : nat) : res (list Z) :=
  arr ← adjust arr size start;
  match start with
  | O => Ok arr
  | S start => build arr size start
  end.

(** [for (i = start; i > 0; --i) { swap(arr[0], arr[i]); adjust(arr, i, 0); }] *)
Fixpoint sort_loop (arr : list Z) (start : nat) : res (list Z) :=
  match start with
  | O => Ok arr
  | S i =>
      arr ← swap 0 start arr;
      arr ← adjust arr start 0;
      sort_loop arr i
  end.

(** [main] of [heapsort.cpp] on any array. *)
Definition heapsort (arr : list Z) : res (list Z) :=
  arr ← build arr (length arr) ((length arr - 1) / 2);
  sort_loop arr (length arr - 1).

(** ** [topk] *)
Definition TOP_NUM : nat := 100.

(** A stream: what is left and the end-of-file mark. *)
Record FILE : Type := mkFile { rest : str; eof : bool }.

Definition is_sign (c : ascii) : bool := bool_decide (c = "-"%char) || bool_decide (c = "+"%char).

(** [fscanf(f, "%d", &val)]: the value, if one was converted. *)
Definition fscanf_d (f : FILE) : res (option Z * FILE) :=
  match scan_int (rest f) with
  | Some (v, r) =>
      if (- 2 ^ 31 <=? v) && (v <? 2 ^ 31) then Ok (Some v, mkFile r (bool_decide (r = []))) else Fault Undefined
  | None =>
      let r := skip_space (rest f) in
      let r := match r with c :: r' => if is_sign c then r' else r | [] => r end in
      Ok (None, mkFile r (bool_decide (r = [])))
  end.

Definition adjustDown := adjust.

(** The first loop.  A value that was not read leaves its element
    indeterminate, and building the heap reads every element. *)
Fixpoint read_heap (n : nat) (f : FILE) : res (list Z * FILE) :=
  match n with
  | O => Ok ([], f)
  | S n =>
      '(v, f) ← fscanf_d f;
      match v with
      | None => Fault Undefined
      | Some v => '(l, f) ← read_heap n f; Ok (v :: l, f)
      end
  end.

(** One value of the loop. *)
Definition offer (val : Z) (heap : list Z) : res (list Z) :=
  top ← at_index heap 0;
  if top <? val then adjustDown (<[0%nat := val]> heap) (length heap) 0 else Ok heap.

(** [while (!feof(f))]: [val] keeps its value when nothing was read. *)
Fixpoint feof_loop (fuel : nat) (f : FILE) (val : Z) (heap : list Z) : res (list Z) :=
  match fuel with
  | O => Fault OutOfFuel
  | S fuel =>
      if eof f then Ok heap
      else
        '(v, f) ← fscanf_d f;
        let val := default val v in
        heap ← offer val heap;
        feof_loop fuel f val heap
  end.

(** [main] on the text of data.txt; [K] is [TOP_NUM]. *)
Definition topk (K : nat) (text : str) : res (list Z) :=
  '(heap, f) ← read_heap K (mkFile text false);
  heap ← build heap K ((K - 2) / 2);
  heap ← feof_loop (S (S (length text))) f 0 heap;
  sort_loop heap (K - 1).

(** [CreateNData] prints the values [rand() % 100000] line by line. *)
Definition CreateNData (data : list Z) : str := concat (map (fun x => show_int x ++ [chr 10]) data).
