(* ===== verification/HeapProps.v ===== *)
(** * Heaps: sorting and the largest values *)
From S2P Require Import Prelude CStr StdString Heap.
Open Scope Z_scope.

(** ** Swapping *)
Lemma at_index_lt (a : list Z) i : (i < length a)%nat -> at_index a i = Ok (a !!! i).
Proof. intros Hi. unfold at_index. destruct (lookup_lt_is_Some_2 a i Hi) as [x E]. by rewrite E, (list_lookup_total_correct _ _ _ E). Qed.

Definition swapped (i j : nat) (a : list Z) : list Z := <[j := a !!! i]> (<[i := a !!! j]> a).

Lemma swap_ok i j a : (i < length a)%nat -> (j < length a)%nat -> swap i j a = Ok (swapped i j a).
Proof. intros Hi Hj. unfold swap. by rewrite !at_index_lt. Qed.

Lemma swapped_length i j a : length (swapped i j a) = length a.
Proof. unfold swapped. by rewrite !length_insert. Qed.

Lemma swapped_lookup i j a k : (i < length a)%nat -> (j < length a)%nat ->
  swapped i j a !!! k = if decide (k = j) then a !!! i else if decide (k = i) then a !!! j else a !!! k.
Proof.
  intros Hi Hj. unfold swapped. destruct (decide (k = j)) as [->|].
  - apply list_lookup_total_insert_eq. by rewrite length_insert.
  - rewrite list_lookup_total_insert_ne by done. destruct (decide (k = i)) as [->|].
    + by apply list_lookup_total_insert_eq.
    + by rewrite list_lookup_total_insert_ne.
Qed.

Lemma insert_delete_perm (l : list Z) i x : (i < length l)%nat -> <[i := x]> l ≡ₚ x :: delete i l.
Proof.
  intros Hi. rewrite (insert_take_drop l i x Hi), (delete_take_drop l i). by rewrite Permutation_middle.
Qed.

Lemma lookup_delete_perm (l : list Z) i : (i < length l)%nat -> l ≡ₚ (l !!! i) :: delete i l.
Proof. intros Hi. apply delete_Permutation. by apply list_lookup_lookup_total_lt. Qed.

Lemma swapped_perm i j a : (i < length a)%nat -> (j < length a)%nat -> swapped i j a ≡ₚ a.
Proof.
  intros Hi Hj. unfold swapped. set (b := <[i := a !!! j]> a).
  assert (length b = length a) as Hl by apply length_insert.
  destruct (decide (i = j)) as [->|Hne].
  - assert (b = a) as -> by (unfold b; apply list_insert_id; by apply list_lookup_lookup_total_lt).
    by rewrite list_insert_id by (by apply list_lookup_lookup_total_lt).
  - rewrite insert_delete_perm by lia. apply (Permutation_cons_inv (a := a !!! j)). rewrite Permutation_swap.
    assert (b !!! j = a !!! j) as Hb by (apply list_lookup_total_insert_ne; done).
    rewrite <- Hb at 1. rewrite <- (lookup_delete_perm b j) by lia.
    unfold b. rewrite insert_delete_perm by done. rewrite Permutation_swap. by rewrite <- lookup_delete_perm.
Qed.

(** ** Only the first [n] elements matter to [adjust] *)
Lemma at_index_app (a b : list Z) i : (i < length a)%nat -> at_index (a ++ b) i = at_index a i.
Proof. intros Hi. unfold at_index. by rewrite lookup_app_l. Qed.

Lemma swapped_app i j a b : (i < length a)%nat -> (j < length a)%nat -> swapped i j (a ++ b) = swapped i j a ++ b.
Proof.
  intros Hi Hj. unfold swapped. rewrite !lookup_total_app_l by done.
  rewrite insert_app_l by done. by rewrite insert_app_l by (by rewrite length_insert).
Qed.

(** The smaller child. *)
Definition min_child (a : list Z) (n p : nat) : nat :=
  let c := (p * 2 + 1)%nat in
  if (c + 1 <? n)%nat then (if a !!! (c + 1)%nat <? a !!! c then (c + 1)%nat else c) else c.

Lemma min_child_range a n p : (p * 2 + 1 < n)%nat ->
  (p * 2 + 1 <= min_child a n p)%nat /\ (min_child a n p < n)%nat /\ (min_child a n p <= p * 2 + 2)%nat.
Proof. intros Hc. unfold min_child. destruct (Nat.ltb_spec (p * 2 + 1 + 1) n); [destruct (_ <? _) |]; lia. Qed.

Lemma adjust_loop_eq fuel a n p : (n <= length a)%nat ->
  adjust_loop (S fuel) a n p =
    if (p * 2 + 1 <? n)%nat then
      if a !!! (min_child a n p) <? a !!! p then adjust_loop fuel (swapped (min_child a n p) p a) n (min_child a n p)
      else Ok a
    else Ok a.
Proof.
  intros Hn. cbn [adjust_loop]. destruct (Nat.ltb_spec (p * 2 + 1) n) as [Hc|]; [| done].
  pose proof (min_child_range a n p Hc) as (H1 & H2 & _).
  assert ((if (p * 2 + 1 + 1 <? n)%nat
           then r ← at_index a (p * 2 + 1 + 1); l ← at_index a (p * 2 + 1);
                Ok (if r <? l then (p * 2 + 1 + 1)%nat else (p * 2 + 1)%nat)
           else Ok (p * 2 + 1)%nat) = Ok (min_child a n p)) as ->.
  { unfold min_child. destruct (Nat.ltb_spec (p * 2 + 1 + 1) n); [| done]. by rewrite !at_index_lt by lia. }
  cbn [mbind res_bind]. rewrite !at_index_lt by lia. cbn [mbind res_bind].
  destruct (_ <? _); [| done]. by rewrite swap_ok by lia.
Qed.

Lemma adjust_loop_app fuel : forall a b p, (p < length a)%nat ->
  adjust_loop fuel (a ++ b) (length a) p = (x ← adjust_loop fuel a (length a) p; Ok (x ++ b)).
Proof.
  induction fuel as [|fuel IH]; intros a b p Hp; [done |].
  rewrite adjust_loop_eq by (rewrite length_app; lia). rewrite adjust_loop_eq by lia.
  destruct (Nat.ltb_spec (p * 2 + 1) (length a)) as [Hc|]; [| done].
  assert (min_child (a ++ b) (length a) p = min_child a (length a) p) as ->.
  { unfold min_child. destruct (Nat.ltb_spec (p * 2 + 1 + 1) (length a)); [| done].
    by rewrite !lookup_total_app_l by lia. }
  pose proof (min_child_range a (length a) p Hc) as (H1 & H2 & _).
  rewrite !lookup_total_app_l by lia. destruct (_ <? _); [| done].
  rewrite swapped_app by lia. set (m := min_child a (length a) p) in *.
  rewrite <- (swapped_length m p a). apply IH. rewrite swapped_length. lia.
Qed.

(** ** The heap property from index [lo] on *)
Definition child_of (i c : nat) : Prop := c = (i * 2 + 1)%nat \/ c = (i * 2 + 2)%nat.

Definition heap (lo : nat) (a : list Z) : Prop :=
  forall i c, (lo <= i)%nat -> child_of i c -> (c < length a)%nat -> a !!! i <= a !!! c.

(** Everywhere but below [p]; what is above [p] is below [p]'s children. *)
Definition hole (lo p : nat) (a : list Z) : Prop :=
  (forall i c, (lo <= i)%nat -> child_of i c -> (c < length a)%nat -> i <> p -> a !!! i <= a !!! c) /\
  (forall i c, (lo <= i)%nat -> child_of i p -> child_of p c -> (c < length a)%nat -> a !!! i <= a !!! c).

Lemma min_child_le a p c : (p * 2 + 1 < length a)%nat -> child_of p c -> (c < length a)%nat ->
  a !!! min_child a (length a) p <= a !!! c.
Proof.
  intros Hp Hc Hl. unfold min_child. destruct (Nat.ltb_spec (p * 2 + 1 + 1) (length a)).
  - destruct (Z.ltb_spec (a !!! (p * 2 + 1 + 1)%nat) (a !!! (p * 2 + 1)%nat)); destruct Hc as [->| ->]; try lia;
      replace (p * 2 + 1 + 1)%nat with (p * 2 + 2)%nat in * by lia; lia.
  - destruct Hc as [->| ->]; [lia | lia].
Qed.

Lemma hole_swapped lo p a : (p * 2 + 1 < length a)%nat -> (lo <= p)%nat -> hole lo p a ->
  a !!! min_child a (length a) p < a !!! p ->
  hole lo (min_child a (length a) p) (swapped (min_child a (length a) p) p a).
Proof.
  intros Hp Hlo [H1 H2] Hlt. pose proof (min_child_range a (length a) p Hp) as (Hm1 & Hm2 & Hm3).
  pose proof (fun c => min_child_le a p c Hp) as Hmin. set (m := min_child a (length a) p) in *.
  assert (child_of p m) as Hpm by (unfold child_of; lia).
  split; intros i c Hi Hc; rewrite ?swapped_length.
  - intros Hl Hne. rewrite !swapped_lookup by lia. unfold child_of in *.
    destruct (decide (i = m)) as [|_]; [lia |].
    destruct (decide (c = p)) as [Ec|Hcp]; [| destruct (decide (i = p)) as [Ei|Hip]].
    + destruct (decide (i = p)); [lia |]. apply (H2 i m); [lia | | done | lia]. unfold child_of. lia.
    + destruct (decide (c = m)); [lia |]. apply Hmin; [unfold child_of; lia | lia].
    + destruct (decide (c = m)); [lia |]. by apply H1.
  - intros Hc' Hl. rewrite !swapped_lookup by lia. unfold child_of in *.
    assert (i = p) as -> by lia. destruct (decide (c = p)); [lia |]. destruct (decide (p = p)); [| done].
    destruct (decide (c = m)); [lia |]. apply (H1 m c); [lia | done | lia | lia].
Qed.

Lemma adjust_loop_spec fuel : forall lo p a, (lo <= p)%nat -> (p < length a)%nat -> (length a < fuel + p)%nat -> hole lo p a ->
  exists a', adjust_loop fuel a (length a) p = Ok a' /\ heap lo a' /\ a' ≡ₚ a.
Proof.
  induction fuel as [|fuel IH]; intros lo p a Hlo Hpl Hf Hh; [lia |].
  rewrite adjust_loop_eq by lia. destruct (Nat.ltb_spec (p * 2 + 1) (length a)) as [Hc|Hc].
  - pose proof (min_child_range a (length a) p Hc) as (Hm1 & Hm2 & Hm3).
    destruct (Z.ltb_spec (a !!! min_child a (length a) p) (a !!! p)) as [Hlt|Hge].
    + pose proof (hole_swapped lo p a Hc Hlo Hh Hlt) as Hh'.
      set (m := min_child a (length a) p) in *.
      destruct (IH lo m (swapped m p a)) as (a' & E & Ha & Hperm); rewrite ?swapped_length; try lia; [exact Hh' |].
      rewrite swapped_length in E. exists a'. split_and!; [done | done |]. rewrite Hperm. apply swapped_perm; lia.
    + exists a. split_and!; [done | | done]. destruct Hh as [H1 _]. intros i c Hi Hic Hl.
      destruct (decide (i = p)) as [->|]; [| by apply H1].
      pose proof (min_child_le a p c Hc Hic Hl). lia.
  - exists a. split_and!; [done | | done]. destruct Hh as [H1 _]. intros i c Hi Hic Hl.
    destruct (decide (i = p)) as [->|]; [unfold child_of in Hic; lia | by apply H1].
Qed.

(** [adjust] on an array whose first [n] elements are [a]. *)
Lemma adjust_spec lo p a b : (lo <= p)%nat -> (p < length a)%nat -> hole lo p a ->
  exists a', adjust (a ++ b) (length a) p = Ok (a' ++ b) /\ heap lo a' /\ a' ≡ₚ a.
Proof.
  intros Hlo Hp Hh. unfold adjust. rewrite adjust_loop_app by done.
  destruct (adjust_loop_spec (S (length a)) lo p a Hlo Hp ltac:(lia) Hh) as (a' & -> & H1 & H2).
  by exists a'.
Qed.

Lemma hole_of_heap p a : heap (S p) a -> hole p p a.
Proof.
  intros Hh. split.
  - intros i c Hi Hc Hl Hne. apply Hh; [lia | done | done].
  - intros i c Hi Hip. unfold child_of in Hip. lia.
Qed.

Lemma build_spec a start : (start < length a)%nat -> heap (S start) a ->
  exists a', build a (length a) start = Ok a' /\ heap 0 a' /\ a' ≡ₚ a.
Proof.
  revert a. induction start as [|start IH]; intros a Hs Hh; cbn [build];
    (match goal with |- context [adjust a _ ?p] =>
       destruct (adjust_spec p p a [] ltac:(lia) Hs (hole_of_heap p a Hh)) as (a1 & E & H1 & Hp) end);
    rewrite !app_nil_r in E; rewrite E; cbn [mbind res_bind].
  - by exists a1.
  - rewrite <- (Permutation_length Hp). destruct (IH a1) as (a' & E' & H2 & Hp2);
      [rewrite (Permutation_length Hp); lia | done |].
    exists a'. split_and!; [done | done | by rewrite Hp2].
Qed.

Lemma heap_min a j : heap 0 a -> (j < length a)%nat -> a !!! 0%nat <= a !!! j.
Proof.
  intros Hh. induction j as [j IH] using lt_wf_ind. intros Hj. destruct j as [|j]; [done |].
  assert (exists i, child_of i (S j) /\ (i < S j)%nat) as (i & Hc & Hi).
  { exists (j / 2)%nat. unfold child_of. pose proof (Nat.div_mod_eq j 2). pose proof (Nat.mod_upper_bound j 2). lia. }
  specialize (IH i Hi ltac:(lia)). pose proof (Hh i (S j) ltac:(lia) Hc Hj). lia.
Qed.

Definition desc : list Z -> Prop := StronglySorted (fun x y => y <= x).

Lemma sort_loop_spec n : forall pre suf, length pre = S n -> heap 0 pre -> desc suf ->
  (forall x y, x ∈ pre -> y ∈ suf -> y <= x) ->
  exists a', sort_loop (pre ++ suf) n = Ok a' /\ desc a' /\ a' ≡ₚ pre ++ suf.
Proof.
  induction n as [|n IH]; intros pre suf Hl Hh Hd Hle; cbn [sort_loop].
  - exists (pre ++ suf). split_and!; [done | | done]. destruct pre as [|x [|? ?]]; try done. constructor; [done |].
    apply Forall_forall. intros y Hy. apply Hle; [apply list_elem_of_here | done].
  - set (q := swapped 0 (S n) pre). set (low := pre !!! 0%nat).
    rewrite swap_ok, swapped_app by (rewrite ?length_app; lia). fold q. cbn [mbind res_bind].
    assert (length q = S (S n)) as Hq by (unfold q; by rewrite swapped_length).
    assert (q = take (S n) q ++ [low]) as Eq.
    { rewrite <- (take_drop (S n) q) at 1. f_equal. rewrite (drop_S q low (S n)).
      - rewrite drop_ge by lia. done.
      - assert (low = q !!! S n) as ->; [| apply list_lookup_lookup_total_lt; lia].
        unfold q. rewrite swapped_lookup by lia. by rewrite decide_True by done. }
    set (a1 := take (S n) q) in *. assert (length a1 = S n) as Ha1 by (unfold a1; rewrite length_take; lia).
    assert (q ≡ₚ pre) as Hqp by (apply swapped_perm; lia).
    assert (hole 0 0 a1) as Hhole.
    { split; [| intros i c _ Hi; unfold child_of in Hi; lia]. intros i c _ Hc Hcl Hi.
      assert (forall k, (k < S n)%nat -> k <> 0%nat -> a1 !!! k = pre !!! k) as Hk.
      { intros k Hk Hk0. unfold a1. rewrite lookup_total_take, decide_True by done. unfold q. rewrite swapped_lookup by lia.
        destruct (decide (k = S n)); [lia |]. by destruct (decide (k = 0%nat)). }
      unfold child_of in Hc. rewrite !Hk by lia. apply Hh; unfold child_of; lia. }
    destruct (adjust_spec 0 0 a1 (low :: suf) ltac:(lia) ltac:(lia) Hhole) as (a2 & E & Hh2 & Hp2).
    replace (q ++ suf) with (a1 ++ low :: suf) by (rewrite Eq at 1; by rewrite <- app_assoc).
    rewrite Ha1 in E. rewrite E. cbn [mbind res_bind].
    assert (low :: a1 ≡ₚ pre) as Hpre by (rewrite <- Hqp, Eq; by rewrite Permutation_app_comm).
    assert (forall x, x ∈ pre -> low <= x) as Hlow.
    { intros x Hx. apply list_elem_of_lookup in Hx as [i Hi]. rewrite <- (list_lookup_total_correct _ _ _ Hi).
      apply heap_min; [done |]. by apply lookup_lt_Some in Hi. }
    destruct (IH a2 (low :: suf)) as (a' & E' & Hd' & Hp').
    + by rewrite (Permutation_length Hp2).
    + done.
    + constructor; [done |]. apply Forall_forall. intros y Hy. apply Hle; [| done].
      rewrite <- Hpre. apply list_elem_of_here.
    + intros x y Hx Hy. rewrite Hp2 in Hx. assert (x ∈ pre) as Hxp by (rewrite <- Hpre; by right).
      apply elem_of_cons in Hy as [->|Hy]; [by apply Hlow | by apply Hle].
    + exists a'. split_and!; [done | done |]. rewrite Hp', Hp2. rewrite <- Hpre. solve_Permutation.
Qed.

(** C26: [heapsort] returns, and what it returns is the input in descending
    order. *)
Theorem heapsort_sorts a : exists a', heapsort a = Ok a' /\ desc a' /\ a' ≡ₚ a.
Proof.
  unfold heapsort. destruct (decide (a = [])) as [->|Hne].
  - exists []. split_and!; [done | constructor | done].
  - destruct a as [|x a]; [done |]. set (b := x :: a).
    destruct (build_spec b ((length b - 1) / 2)) as (h & E & Hh & Hp).
    + unfold b. simpl length. pose proof (Nat.div_le_upper_bound (S (length a) - 1) 2 (length a)). lia.
    + intros i c Hi Hc Hl. unfold child_of in Hc. pose proof (Nat.div_mod_eq (length b - 1) 2).
      pose proof (Nat.mod_upper_bound (length b - 1) 2). lia.
    + rewrite E. cbn [mbind res_bind]. destruct (sort_loop_spec (length b - 1) h []) as (a' & E' & Hd & Hp').
      * rewrite (Permutation_length Hp). unfold b. simpl. lia.
      * done.
      * constructor.
      * intros ? ? ? Hy. by apply not_elem_of_nil in Hy.
      * rewrite app_nil_r in E', Hp'. rewrite (Permutation_length Hp).
        exists a'. split_and!; [done | done | by rewrite Hp', Hp].
Qed.

(** ** The largest values of a stream *)
Fixpoint offer_all (vals : list Z) (h : list Z) : res (list Z) :=
  match vals with
  | [] => Ok h
  | v :: vals => h ← offer v h; offer_all vals h
  end.

(** [h] holds the [length h] largest of the values [seen]. *)
Definition largest (seen h : list Z) : Prop :=
  heap 0 h /\ exists low, seen ≡ₚ h ++ low /\ forall x y, x ∈ h -> y ∈ low -> y <= x.

Lemma heap_low h x : heap 0 h -> x ∈ h -> h !!! 0%nat <= x.
Proof.
  intros Hh Hx. apply list_elem_of_lookup in Hx as [i Hi]. rewrite <- (list_lookup_total_correct _ _ _ Hi).
  apply heap_min; [done |]. by apply lookup_lt_Some in Hi.
Qed.

Lemma offer_spec v seen h : h <> [] -> largest seen h ->
  exists h', offer v h = Ok h' /\ length h' = length h /\ largest (v :: seen) h'.
Proof.
  intros Hne [Hh (low & Hp & Hle)]. destruct h as [|top h]; [done |]. unfold offer. cbn [at_index lookup list_lookup mbind res_bind].
  change (at_index (top :: h) 0) with (Ok top). cbn [mbind res_bind].
  assert (forall x, x ∈ top :: h -> top <= x) as Htop by (intros x Hx; by apply (heap_low (top :: h))).
  destruct (Z.ltb_spec top v) as [Hlt|Hge].
  - change (<[0%nat := v]> (top :: h)) with (v :: h). unfold adjustDown.
    assert (hole 0 0 (v :: h)) as Hhole.
    { split; [| intros i c _ Hi; unfold child_of in Hi; lia]. intros i c _ Hc Hl Hi.
      destruct i as [|i]; [done |]. destruct c as [|c]; [unfold child_of in Hc; lia |].
      apply (Hh (S i) (S c)); [lia | done | done]. }
    destruct (adjust_spec 0 0 (v :: h) [] ltac:(lia) ltac:(simpl; lia) Hhole) as (h' & E & Hh' & Hp').
    rewrite !app_nil_r in E. change (length (top :: h)) with (length (v :: h)). exists h'.
    split_and!; [done | by rewrite (Permutation_length Hp') |]. split; [done |]. exists (top :: low). split.
    + rewrite Hp, Hp'. solve_Permutation.
    + intros x y Hx Hy. rewrite Hp' in Hx. apply elem_of_cons in Hx. apply elem_of_cons in Hy.
      assert (top <= x) by (destruct Hx as [->|Hx]; [lia | apply Htop; by right]).
      destruct Hy as [->|Hy]; [done |]. pose proof (Hle top y (list_elem_of_here _ _) Hy). lia.
  - exists (top :: h). split_and!; [done | done |]. split; [done |]. exists (v :: low). split.
    + rewrite Hp. solve_Permutation.
    + intros x y Hx Hy. apply elem_of_cons in Hy as [->|Hy]; [| by apply Hle]. specialize (Htop x Hx). lia.
Qed.

Lemma offer_all_spec vals : forall seen h, h <> [] -> largest seen h ->
  exists h', offer_all vals h = Ok h' /\ length h' = length h /\ largest (rev vals ++ seen) h'.
Proof.
  induction vals as [|v vals IH]; intros seen h Hne Hl; cbn [offer_all rev]; [by exists h |].
  destruct (offer_spec v seen h Hne Hl) as (h1 & -> & Hlen & Hl1). cbn [mbind res_bind].
  destruct (IH (v :: seen) h1) as (h2 & -> & Hlen2 & Hl2); [by destruct h1, h | done |].
  exists h2. split_and!; [done | congruence |]. by rewrite <- app_assoc.
Qed.

(** ** Reading the file [CreateNData] writes *)
Definition printable (x : Z) : Prop := 0 <= x < 2 ^ 31.
Definition nl : str := [chr 10].

Lemma fscanf_line x r p e : printable x -> p = [] \/ p = nl ->
  fscanf_d (mkFile (p ++ (show_int x ++ nl) ++ r) e) = Ok (Some x, mkFile (nl ++ r) false).
Proof.
  intros [H1 H2] Hp. unfold fscanf_d. cbn [rest].
  assert (scan_int (p ++ (show_int x ++ nl) ++ r) = Some (x, nl ++ r)) as ->.
  { assert (scan_int ((show_int x ++ nl) ++ r) = Some (x, nl ++ r)) as E.
    { rewrite <- app_assoc. unfold show_int. rewrite (proj2 (Z.ltb_ge _ _)) by lia. by apply scan_int_show_nat; [lia |]. }
    destruct Hp as [-> | ->]; exact E. }
  rewrite (proj2 (Z.leb_le _ _)), (proj2 (Z.ltb_lt _ _)) by lia. done.
Qed.

Lemma CreateNData_cons x data : CreateNData (x :: data) = (show_int x ++ nl) ++ CreateNData data.
Proof. done. Qed.

Lemma read_heap_file first : forall data p e, p = [] \/ p = nl -> Forall printable first -> first <> [] ->
  read_heap (length first) (mkFile (p ++ CreateNData (first ++ data)) e) = Ok (first, mkFile (nl ++ CreateNData data) false).
Proof.
  induction first as [|x first IH]; intros data p e Hp Hf Hne; [done |]. inversion Hf; subst.
  cbn [length read_heap app]. rewrite CreateNData_cons, fscanf_line by done. cbn [mbind res_bind].
  destruct first as [|y first]; [done |]. rewrite (IH data nl false) by (done || by right). done.
Qed.

Lemma feof_loop_file data : forall val h fuel, Forall printable data -> (length data + 1 < fuel)%nat ->
  feof_loop fuel (mkFile (nl ++ CreateNData data) false) val h = offer_all (data ++ [default val (last data)]) h.
Proof.
  induction data as [|x data IH]; intros val h [|fuel] Hd Hf; try lia; cbn [feof_loop eof].
  - assert (fscanf_d (mkFile (nl ++ CreateNData []) false) = Ok (None, mkFile [] true)) as -> by done.
    cbn [mbind res_bind default app last offer_all]. destruct (offer val h); cbn [mbind res_bind]; [| done].
    by destruct fuel; [simpl in Hf; lia |].
  - inversion Hd; subst. rewrite CreateNData_cons, fscanf_line by (done || by right). cbn [mbind res_bind default app offer_all].
    change (id x) with x. destruct (offer x h); cbn [mbind res_bind]; [| done]. cbn [length] in Hf. rewrite IH; [| assumption | lia].
    do 3 f_equal. rewrite last_cons. by destruct (last data).
Qed.

Lemma CreateNData_length data : (length data <= length (CreateNData data))%nat.
Proof.
  induction data as [|x data IH]; [simpl; lia |]. rewrite CreateNData_cons, !length_app. simpl. lia.
Qed.

(** On a file of at least [K] values, one per line, [main] returns the [K]
    largest in descending order, but of the values with the last one of the loop
    counted twice (with a 0 when the loop reads nothing): [feof] only turns true
    after a read that fails. *)
Theorem topk_spec first data :
  (2 <= length first)%nat -> Forall printable (first ++ data) ->
  exists out low, topk (length first) (CreateNData (first ++ data)) = Ok out /\
    desc out /\ length out = length first /\
    first ++ data ++ [default 0 (last data)] ≡ₚ out ++ low /\
    (forall x y, x ∈ out -> y ∈ low -> y <= x).
Proof.
  intros Hk [Hf Hd]%Forall_app. unfold topk.
  assert (first <> []) as Hne by (by intros ->; simpl in Hk; lia).
  pose proof (read_heap_file first data [] false (or_introl eq_refl) Hf Hne) as Er. cbn [app] in Er. rewrite Er.
  cbn [mbind res_bind].
  destruct (build_spec first ((length first - 2) / 2)) as (h & E & Hh & Hp).
  - pose proof (Nat.div_mod_eq (length first - 2) 2). lia.
  - intros i c Hi Hc Hl. unfold child_of in Hc. pose proof (Nat.div_mod_eq (length first - 2) 2).
    pose proof (Nat.mod_upper_bound (length first - 2) 2). lia.
  - rewrite E. cbn [mbind res_bind]. pose proof (Permutation_length Hp) as Hlen.
    rewrite feof_loop_file; [| done | pose proof (CreateNData_length (first ++ data)) as H; rewrite length_app in H; lia].
    destruct (offer_all_spec (data ++ [default 0 (last data)]) first h) as (h2 & E2 & Hlen2 & Hh2 & low & Hp2 & Hle).
    + intros ->. simpl in Hlen. lia.
    + split; [done |]. exists []. rewrite app_nil_r. split; [done |]. intros ? ? _ Hy. by apply not_elem_of_nil in Hy.
    + rewrite E2. cbn [mbind res_bind].
      destruct (sort_loop_spec (length first - 1) h2 []) as (out & Eo & Hdesc & Hpo); [lia | done | constructor | |].
      { intros ? ? _ Hy. by apply not_elem_of_nil in Hy. }
      rewrite app_nil_r in Eo, Hpo. exists out, low. split_and!; [done | done | | |].
      * rewrite (Permutation_length Hpo). lia.
      * rewrite Hpo, <- Hp2, <- (Permutation_rev (data ++ _)). solve_Permutation.
      * intros x y Hx. rewrite Hpo in Hx. by apply Hle.
Qed.

Lemma topk_spec_witness : exists out low, topk 3 (CreateNData ([1; 2; 3] ++ [4; 9])) = Ok out /\
    desc out /\ length out = 3%nat /\
    [1; 2; 3] ++ [4; 9] ++ [9] ≡ₚ out ++ low /\ (forall x y, x ∈ out -> y ∈ low -> y <= x).
Proof.
  apply (topk_spec [1; 2; 3] [4; 9]); [simpl; lia |]. repeat constructor; unfold printable; lia.
Defined.

(** The largest value of the file is reported twice. *)
Lemma topk_twice : topk 3 (CreateNData [1; 2; 3; 4; 9]) = Ok [9; 9; 4] /\ topk 3 (lit "1 2 3 4 9") = Ok [9; 4; 3].
Proof. split; vm_compute; reflexivity. Qed.
