(* ===== verification/RedisMng.v ===== *)
(** * Redis connection pools: [src/src/utils/redis_mng.cpp]

    (The file of the same name under [src/src/redis] has the same functions
    inside a namespace.)  A [Redis] object of redis-plus-plus is an identifier
    with the options it was made from; making one does not connect.  The pool
    counters stay far below 2^31. *)
From S2P Require Import Prelude CStr StdString.
Open Scope Z_scope.

Record SentinelConfig : Type := mkSentinel { s_host : str; s_port : Z; s_passwd : str }.

Record RedisConfig : Type := mkConfig {
  host : str; port : Z; passwd : str; master_name : str; db : Z;
  connect_timeout : Z; socket_timeout : Z; pool_size : Z }.

(** [sw::redis::ConnectionOptions], the fields the code sets. *)
Record ConnectionOptions : Type := mkConnOpts {
  o_host : option str; o_port : option Z; o_password : str; o_connect_timeout : Z; o_socket_timeout : Z;
  o_db : Z; o_keep_alive : bool }.

Record SentinelOptions : Type := mkSentOpts {
  nodes : list (str * Z); t_password : str; t_connect_timeout : Z; t_socket_timeout : Z }.

Inductive Role : Type := MASTER | SLAVE.

(** The two constructors of [Redis] the code calls. *)
Inductive Redis : Type :=
  | Direct (id : positive) (opts : ConnectionOptions) (size : Z)
  | ViaSentinel (id : positive) (sentinel : SentinelOptions) (name : str) (role : Role)
      (opts : ConnectionOptions) (size : Z).

(** [RedisPtr]: [None] is null. *)
Abbreviation RedisPtr := (option Redis).

Record RealRedis : Type := mkReal { master : bool; redis : RedisPtr }.

Record RedisPool : Type := mkPool {
  totalsize : Z; usesize : Z; idlesize : Z; redis_queue : list (option RealRedis) }.

Definition RedisPool_new : RedisPool := mkPool 0 0 0 [].

Record RedisMng : Type := mkMng {
  sentinel_configs_ : list SentinelConfig;
  redis_config_ : option RedisConfig;
  sentinel_ : option SentinelOptions;
  redis_conn_pool_ : list (option RedisPool);
  next_id : positive }.  (** the next [Redis] object *)

Definition RedisMng_init : RedisMng := mkMng [] None None [] 1.

Definition Init (sentinel_configs : list SentinelConfig) (redis_config : RedisConfig) (m : RedisMng) : RedisMng :=
  let sentinel :=
    match sentinel_configs with
    | [] => sentinel_ m
    | c :: _ =>
        Some (mkSentOpts (map (fun v => (s_host v, s_port v)) sentinel_configs) (s_passwd c)
                (connect_timeout redis_config) (socket_timeout redis_config))
    end in
  mkMng sentinel_configs (Some redis_config) sentinel
    (redis_conn_pool_ m ++ replicate 16 (Some RedisPool_new)) (next_id m).

(** A null [redis_config_] is dereferenced. *)
Definition config (m : RedisMng) : res RedisConfig :=
  match redis_config_ m with Some c => Ok c | None => Fault Undefined end.

(** [GetRedisPool]: [operator[]] of the vector is not checked. *)
Definition GetRedisPool (idx : Z) (m : RedisMng) : res (RedisPool * RedisMng) :=
  p ← at_index (redis_conn_pool_ m) (Z.to_nat idx);
  match p with
  | Some p => Ok (p, m)
  | None =>
      Ok (RedisPool_new,
          mkMng (sentinel_configs_ m) (redis_config_ m) (sentinel_ m)
            (<[Z.to_nat idx := Some RedisPool_new]> (redis_conn_pool_ m)) (next_id m))
  end.

Definition set_pool (idx : Z) (p : RedisPool) (m : RedisMng) : RedisMng :=
  mkMng (sentinel_configs_ m) (redis_config_ m) (sentinel_ m)
    (<[Z.to_nat idx := Some p]> (redis_conn_pool_ m)) (next_id m).

(** The search for an idle connection: the connection found, if any, and the
    pool.  Entries without a connection are erased; [seen] are those passed. *)
Fixpoint scan (want : bool) (seen queue : list (option RealRedis)) (total use idle : Z)
    : option Redis * RedisPool :=
  match queue with
  | [] => (None, mkPool total use idle seen)
  | Some (mkReal m (Some r)) :: queue =>
      if Bool.eqb m want then (Some r, mkPool total (use + 1) (idle - 1) (seen ++ queue))
      else scan want (seen ++ [Some (mkReal m (Some r))]) queue total use idle
  | _ :: queue => scan want seen queue (total - 1) use idle
  end.

(** Making a connection, directly - [GetRedis2] sets [keep_alive], [GiveBack] does not - or
    through the sentinel. *)
Definition make_direct (keep_alive : bool) (idx : Z) (c : RedisConfig) (m : RedisMng) : Redis * RedisMng :=
  (Direct (next_id m)
     (mkConnOpts (Some (host c)) (Some (port c)) (passwd c) (connect_timeout c) (socket_timeout c) idx keep_alive)
     (pool_size c),
   mkMng (sentinel_configs_ m) (redis_config_ m) (sentinel_ m) (redis_conn_pool_ m) (Pos.succ (next_id m))).

Definition make_sentinel (s : SentinelOptions) (role : Role) (idx : Z) (c : RedisConfig) (m : RedisMng)
    : Redis * RedisMng :=
  (ViaSentinel (next_id m) s (master_name c) role
     (mkConnOpts None None (passwd c) (connect_timeout c) (socket_timeout c) idx false) (pool_size c),
   mkMng (sentinel_configs_ m) (redis_config_ m) (sentinel_ m) (redis_conn_pool_ m) (Pos.succ (next_id m))).

(** The common body of [GetRedis] and [GetRedis2]; [pool_size * 5] is a product of [int]s. *)
Definition get_with (make : Z -> RedisConfig -> RedisMng -> Redis * RedisMng) (want : bool) (dbn : Z) (m : RedisMng)
    : res (RedisPtr * RedisMng) :=
  c ← config m;
  let idx := if dbn =? -1 then db c else dbn in
  if (16 <? idx) || (idx <? 0) then Ok (None, m)
  else
    '(p, m) ← GetRedisPool idx m;
    match scan want [] (redis_queue p) (totalsize p) (usesize p) (idlesize p) with
    | (Some r, p) => Ok (Some r, set_pool idx p m)
    | (None, p) =>
        if negb ((- 2 ^ 31 <=? pool_size c * 5) && (pool_size c * 5 <? 2 ^ 31)) then Fault Undefined
        else if pool_size c * 5 <=? totalsize p then Ok (None, set_pool idx p m)
        else
          let '(r, m) := make idx c m in
          Ok (Some r, set_pool idx (mkPool (totalsize p + 1) (usesize p + 1) 0 (redis_queue p)) m)
    end.

Definition GetRedis2 (want : bool) (dbn : Z) (m : RedisMng) : res (RedisPtr * RedisMng) :=
  get_with (make_direct true) want dbn m.

Definition GetRedis (want : bool) (dbn : Z) (m : RedisMng) : res (RedisPtr * RedisMng) :=
  match sentinel_ m with
  | None => GetRedis2 want dbn m
  | Some s => get_with (make_sentinel s (if want then MASTER else SLAVE)) want dbn m
  end.

(** [GiveBack]: a connection that is not valid is replaced, always by one to
    the master. *)
Definition GiveBack (r : RedisPtr) (want isvalid : bool) (dbn : Z) (m : RedisMng) : res (Z * RedisMng) :=
  c ← config m;
  let idx := if dbn =? -1 then db c else dbn in
  if (16 <? idx) || (idx <? 0) then Ok (-1, m)
  else
    let '(r, m) :=
      if isvalid then (r, m)
      else
        let '(r, m) := match sentinel_ m with
                       | Some s => make_sentinel s MASTER idx c m
                       | None => make_direct false idx c m
                       end in (Some r, m) in
    '(p, m) ← GetRedisPool idx m;
    Ok (0, set_pool idx (mkPool (totalsize p) (usesize p - 1) (idlesize p + 1)
                           (redis_queue p ++ [Some (mkReal want r)])) m).

(** ** [RedisMngProxy]: takes a connection, gives it back when it dies *)
Record RedisMngProxy : Type := mkProxy { isvalid_ : bool; master_ : bool; db_ : Z; ptr_ : RedisPtr }.

Definition Proxy_new (want : bool) (dbn : Z) (m : RedisMng) : res (RedisMngProxy * RedisMng) :=
  '(r, m) ← GetRedis want dbn m;
  Ok (mkProxy true want dbn r, m).

Definition SetInvalid (p : RedisMngProxy) : RedisMngProxy := mkProxy false (master_ p) (db_ p) (ptr_ p).

Definition Proxy_delete (p : RedisMngProxy) (m : RedisMng) : res RedisMng :=
  let valid := match ptr_ p with None => false | Some _ => isvalid_ p end in
  '(_, m) ← GiveBack (ptr_ p) (master_ p) valid (db_ p) m;
  Ok m.

Definition is_null (p : RedisMngProxy) : bool := match ptr_ p with None => true | Some _ => false end.

(** ** Counting *)

(** The pool of database [idx]. *)
Definition pool_at (idx : Z) (m : RedisMng) : option RedisPool := mjoin (redis_conn_pool_ m !! Z.to_nat idx).

Definition connected (e : option RealRedis) : Prop := exists b r, e = Some (mkReal b (Some r)).

(** No connection of the role. *)
Definition without (want : bool) (queue : list (option RealRedis)) : Prop := Forall (fun e => forall r, e <> Some (mkReal want r)) queue.

Lemma scan_spec want queue : forall seen total use idle, Forall connected queue ->
  match scan want seen queue total use idle with
  | (Some r, p) => exists q1 q2, queue = q1 ++ Some (mkReal want (Some r)) :: q2 /\ without want q1 /\
      p = mkPool total (use + 1) (idle - 1) (seen ++ q1 ++ q2)
  | (None, p) => p = mkPool total use idle (seen ++ queue) /\ without want queue
  end.
Proof.
  induction queue as [|e queue IH]; intros seen total use idle Hc; cbn [scan].
  - rewrite app_nil_r. split; [done | constructor].
  - inversion Hc as [|? ? (b & r & ->) Hq]; subst. destruct (Bool.eqb b want) eqn:Eb.
    + apply Bool.eqb_prop in Eb as ->. exists [], queue. split; [done |]. split; [constructor | done].
    + assert (forall r', Some (mkReal b (Some r)) <> Some (mkReal want r')) as Hne
        by (intros r' [= -> _]; by rewrite Bool.eqb_reflx in Eb).
      specialize (IH (seen ++ [Some (mkReal b (Some r))]) total use idle Hq).
      destruct (scan want _ queue total use idle) as [[r'|] p].
      * destruct IH as (q1 & q2 & -> & Hw & ->). exists (Some (mkReal b (Some r)) :: q1), q2. rewrite <- app_assoc.
        split; [done |]. split; [by constructor | done].
      * destruct IH as [-> Hf]. rewrite <- app_assoc. split; [done |]. by constructor.
Qed.

Lemma pool_at_set idx p m : 0 <= idx < Z.of_nat (length (redis_conn_pool_ m)) -> pool_at idx (set_pool idx p m) = Some p.
Proof. intros Hi. unfold pool_at, set_pool. cbn. rewrite list_lookup_insert_eq by lia. done. Qed.

Lemma GetRedisPool_at idx m p : pool_at idx m = Some p -> GetRedisPool idx m = Ok (p, m).
Proof.
  unfold pool_at, GetRedisPool, at_index. destruct (redis_conn_pool_ m !! Z.to_nat idx) as [[q|]|]; intros [= ->]. done.
Qed.

Lemma pool_at_range idx m p : 0 <= idx -> pool_at idx m = Some p -> 0 <= idx < Z.of_nat (length (redis_conn_pool_ m)).
Proof.
  unfold pool_at. intros Hi Hp. destruct (redis_conn_pool_ m !! Z.to_nat idx) eqn:E; [| done].
  apply lookup_lt_Some in E. lia.
Qed.
