(* ===== verification/RedisProps.v ===== *)
(** * Redis connection pools: the counters and the limit *)
From S2P Require Import Prelude CStr StdString RedisMng.
Open Scope Z_scope.

Section Pools.
(** The configuration, and the database in use. *)
Context (c : RedisConfig) (idx : Z).
Hypothesis idx_range : 0 <= idx < 16.

Hypothesis size_fits : - 2 ^ 31 <= pool_size c * 5 < 2 ^ 31.

Definition limit : Z := pool_size c * 5.

(** A pool when users hold [out] connections, null was given back [nulls] times,
    and the queue had the length [mark] when a connection was last made. *)
Record balanced (out nulls mark : Z) (p : RedisPool) : Prop := {
  bal_use : usesize p = out - nulls;
  bal_total : totalsize p = out + Z.of_nat (length (redis_queue p)) - nulls;
  bal_limit : totalsize p <= Z.max 0 limit;
  bal_idle : idlesize p = Z.of_nat (length (redis_queue p)) - mark;
  bal_conn : Forall connected (redis_queue p) }.

Lemma no_default : (idx =? -1) = false.
Proof. apply Z.eqb_neq. lia. Qed.
Lemma in_range : (16 <? idx) || (idx <? 0) = false.
Proof. apply orb_false_iff. split; apply Z.ltb_ge; lia. Qed.

(** [make] gives a connection and only takes an identifier. *)
Definition maker (make : Z -> RedisConfig -> RedisMng -> Redis * RedisMng) : Prop :=
  forall m, redis_config_ (make idx c m).2 = redis_config_ m /\
    redis_conn_pool_ (make idx c m).2 = redis_conn_pool_ m /\ sentinel_ (make idx c m).2 = sentinel_ m /\
    next_id (make idx c m).2 = Pos.succ (next_id m).

Lemma maker_direct k : maker (make_direct k).
Proof. done. Qed.
Lemma maker_sentinel s role : maker (make_sentinel s role).
Proof. done. Qed.

(** What a call to [GetRedis] does to the pool: it answers the connection of the
    role that has been idle longest; makes one when there is none and the total is
    below the limit ([made]); or answers null. *)
Definition got (want : bool) (r : RedisPtr) (made : bool) (p' p : RedisPool) : Prop :=
  match r with
  | Some r =>
      if made then without want (redis_queue p) /\ totalsize p < limit /\
        p' = mkPool (totalsize p + 1) (usesize p + 1) 0 (redis_queue p)
      else exists q1 q2, redis_queue p = q1 ++ Some (mkReal want (Some r)) :: q2 /\ without want q1 /\
        p' = mkPool (totalsize p) (usesize p + 1) (idlesize p - 1) (q1 ++ q2)
  | None => made = false /\ p' = p /\ limit <= totalsize p /\ without want (redis_queue p)
  end.

Lemma get_with_spec make want m p : maker make ->
  redis_config_ m = Some c -> pool_at idx m = Some p -> Forall connected (redis_queue p) ->
  exists r m' p', get_with make want idx m = Ok (r, m') /\ redis_config_ m' = Some c /\ sentinel_ m' = sentinel_ m /\ pool_at idx m' = Some p' /\ got want r (bool_decide (next_id m' <> next_id m)) p' p.
Proof.
  intros Hmk Hc Hp Hq. unfold get_with, config. rewrite Hc. cbn [mbind res_bind].
  rewrite no_default, in_range. rewrite (GetRedisPool_at idx m p Hp). cbn [mbind res_bind].
  pose proof (pool_at_range idx m p (proj1 idx_range) Hp) as Hr.
  pose proof (scan_spec want (redis_queue p) [] (totalsize p) (usesize p) (idlesize p) Hq) as Hs.
  destruct (scan want [] (redis_queue p) _ _ _) as [[r|] p1].
  - destruct Hs as (q1 & q2 & Eq & Hw & ->). eexists (Some r), _, _. split; [done |]. split; [done |]. split; [done |].
    split; [by apply pool_at_set |]. cbn [set_pool next_id]. rewrite bool_decide_eq_false_2 by auto. by exists q1, q2.
  - destruct Hs as [-> Hno]. cbn [app totalsize usesize idlesize redis_queue]. fold limit.
    rewrite (proj2 (Z.leb_le _ _)), (proj2 (Z.ltb_lt limit _)) by (unfold limit; lia). cbn [andb negb].
    destruct (Z.leb_spec limit (totalsize p)).
    + eexists None, _, _. split; [done |]. split; [done |]. split; [done |]. split; [by apply pool_at_set |].
      cbn [set_pool next_id]. rewrite bool_decide_eq_false_2 by auto. split; [done |]. split; [by destruct p | done].
    + destruct (Hmk m) as (H1 & H2 & H3 & H4). destruct (make idx c m) as [r m1]. cbn [snd] in *.
      eexists (Some r), _, _. split; [done |]. split; [cbn; by rewrite H1 |]. split; [done |].
      split; [apply pool_at_set; by rewrite H2 |]. cbn [set_pool next_id]. rewrite H4, bool_decide_eq_true_2 by lia. done.
Qed.


Lemma GetRedis_spec want m p :
  redis_config_ m = Some c -> pool_at idx m = Some p -> Forall connected (redis_queue p) ->
  exists r m' p', GetRedis want idx m = Ok (r, m') /\ redis_config_ m' = Some c /\ sentinel_ m' = sentinel_ m /\
    pool_at idx m' = Some p' /\ got want r (bool_decide (next_id m' <> next_id m)) p' p.
Proof.
  intros Hc Hp Hq. unfold GetRedis, GetRedis2.
  destruct (sentinel_ m) eqn:Es; rewrite <- Es; by apply (get_with_spec _ want m p).
Qed.

Ltac pool_rw :=
  match goal with H : pool_at _ _ = Some ?p |- context [GetRedisPool ?i ?m] => rewrite (GetRedisPool_at i m p H) end.

(** A connection given back, or made to replace a broken or null one. *)
Lemma GiveBack_spec r want valid m p :
  redis_config_ m = Some c -> pool_at idx m = Some p ->
  exists r' m', GiveBack r want valid idx m = Ok (0, m') /\ redis_config_ m' = Some c /\ sentinel_ m' = sentinel_ m /\
    pool_at idx m' = Some (mkPool (totalsize p) (usesize p - 1) (idlesize p + 1) (redis_queue p ++ [Some (mkReal want r')])) /\
    (r' = if valid then r else r') /\ (valid = false -> is_Some r').
Proof.
  intros Hc Hp. unfold GiveBack, config. rewrite Hc. cbn [mbind res_bind]. rewrite no_default, in_range.
  pose proof (pool_at_range idx m p (proj1 idx_range) Hp) as Hr.
  destruct valid; [| destruct (sentinel_ m) eqn:Es].
  - rewrite (GetRedisPool_at idx m p Hp). cbn [mbind res_bind]. eexists _, _. split_and!; try done. by apply pool_at_set.
  - unfold make_sentinel. pool_rw. cbn [mbind res_bind].
    eexists _, _. split_and!; try done. by apply pool_at_set.
  - unfold make_direct. pool_rw. cbn [mbind res_bind].
    eexists _, _. split_and!; try done. by apply pool_at_set.
Qed.










(** The limit does not hold for the proxy: on a pool at its limit without
    an idle connection of the role the proxy gets null, and giving the null back
    puts a new connection in the queue without counting it, so that the next
    [GetRedis] of the role succeeds, one above the limit. *)
Theorem redis_proxy_exceeds m p out n k want :
  redis_config_ m = Some c -> pool_at idx m = Some p -> balanced out n k p -> limit <= totalsize p -> without want (redis_queue p) ->
  exists proxy m1 m2 p2 r m3, Proxy_new want idx m = Ok (proxy, m1) /\ is_null proxy = true /\
    Proxy_delete proxy m1 = Ok m2 /\ pool_at idx m2 = Some p2 /\
    totalsize p2 = totalsize p /\ length (redis_queue p2) = S (length (redis_queue p)) /\
    GetRedis want idx m2 = Ok (Some r, m3).
Proof.
  intros Hc Hp Hb Hl Hno. destruct (GetRedis_spec want m p Hc Hp (bal_conn _ _ _ _ Hb)) as (r & m1 & p1 & E & Hc1 & Hs1 & Hp1 & Hg).
  assert (r = None /\ p1 = p) as [-> ->].
  { unfold got in Hg. destruct r as [r|]; [exfalso | by destruct Hg as (_ & -> & _)]. destruct (bool_decide _).
    - destruct Hg as (_ & Hlt & _). lia.
    - destruct Hg as (q1 & q2 & Eq & _). unfold without in Hno. rewrite Eq in Hno. apply Forall_app in Hno as [_ [Hno _]%Forall_cons].
      by apply (Hno (Some r)). }
  destruct (GiveBack_spec None want false m1 p Hc1 Hp1) as (r' & m2 & E2 & Hc2 & _ & Hp2 & _ & Hv).
  destruct (Hv eq_refl) as [x ->].
  destruct (GetRedis_spec want m2 _ Hc2 Hp2) as (r3 & m3 & p3 & E3 & _ & _ & _ & Hg3).
  { cbn. apply Forall_app. split; [apply Hb |]. repeat constructor. by eexists _, _. }
  destruct r3 as [r3|].
  2: { exfalso. destruct Hg3 as (_ & _ & _ & Hw). unfold without in Hw. cbn in Hw. apply Forall_app in Hw as [_ [Hw _]%Forall_cons]. by specialize (Hw (Some x)). }
  eexists (mkProxy true want idx None), m1, m2, _, r3, m3. unfold Proxy_new, Proxy_delete. rewrite E. cbn [mbind res_bind ptr_ master_ db_ isvalid_].
  rewrite E2. cbn [mbind res_bind]. split_and!; try done. cbn. rewrite length_app. cbn. lia.
Qed.
End Pools.

(** [Init] makes sixteen pools; the check lets the index 16 pass. *)
Lemma redis_index_16 sentinels c want : GetRedis want 16 (Init sentinels c RedisMng_init) = Fault Undefined.
Proof. by destruct sentinels. Qed.


(** ** Witnesses: a limit of 5 *)
Definition demo_config : RedisConfig := mkConfig (lit "127.0.0.1") 6379 [] [] 0 100 100 1.
Definition demo_mng : RedisMng := Init [] demo_config RedisMng_init.




(** Five connections in use. *)
Definition demo_full : RedisPool := mkPool 5 5 0 [].
Definition demo_full_mng : RedisMng := set_pool 3 demo_full demo_mng.

Lemma redis_proxy_exceeds_witness :
  exists proxy m1 m2 p2 r m3, Proxy_new true 3 demo_full_mng = Ok (proxy, m1) /\ is_null proxy = true /\
    Proxy_delete proxy m1 = Ok m2 /\ pool_at 3 m2 = Some p2 /\
    totalsize p2 = 5 /\ length (redis_queue p2) = 1%nat /\
    GetRedis true 3 m2 = Ok (Some r, m3).
Proof.
  apply (redis_proxy_exceeds demo_config 3 ltac:(lia) ltac:(cbn; lia) demo_full_mng demo_full 5 0 0 true).
  - reflexivity.
  - reflexivity.
  - split; [reflexivity | reflexivity | reflexivity | reflexivity | constructor].
  - reflexivity.
  - constructor.
Defined.

(** The idle count goes below the length of the queue, and below zero, when a connection of
    one role is made while one of the other is idle. *)
Example redis_idle_negative :
  match ('(a, m) ← GetRedis true 3 demo_mng; '(_, m) ← GiveBack a true true 3 m; '(_, m) ← GetRedis false 3 m; GetRedis true 3 m) with
  | Ok (_, m) => (fun p => (totalsize p, usesize p, idlesize p, length (redis_queue p))) <$> pool_at 3 m = Some (2, 2, -1, 0%nat)
  | Fault _ => False
  end.
Proof. vm_compute. reflexivity. Qed.
