(* ===== verification/EventClient.v ===== *)
(** * The TCP client: [src/src/tcp/src/event_client.cpp]

    libevent, OpenSSL and the shell behind etcdctl are third-party: every call
    into them is a value of [call], answered by the argument [handle]; [log] is
    the sequence of calls made.  A [bufferevent] made with
    [BEV_OPT_CLOSE_ON_FREE] owns its SSL object and frees it when it is freed. *)
From S2P Require Import Prelude CStr StdString StringAssist SysUtil.
From S2P Require Export Trace ConnParams.
Open Scope Z_scope.

Abbreviation bev := positive.
Abbreviation SSL := positive.

Inductive call : Type -> Type :=
  (** what every shell command would print now *)
  | Shell : call (str -> option str)
  (** the return code, and whether [result] is not null *)
  | getaddrinfo (ip port : str) : call (Z * bool)
  | SSL_CTX_new : call bool
  | SSL_CTX_load_verify_locations (path : str) : call bool
  | SSL_CTX_use_certificate_file (path : str) : call Z
  | SSL_CTX_use_PrivateKey_file (path : str) : call Z
  | SSL_CTX_check_private_key : call bool
  | SSL_new : call (option SSL)
  | bufferevent_socket_new (threadsafe : bool) : call (option bev)
  | bufferevent_openssl_socket_new (s : SSL) (threadsafe : bool) : call (option bev)
  | SetTcpNoDelay (b : bev) : call Z
  | SetKeepAlive (b : bev) : call Z
  | setcb_enable (b : bev) : call unit
  | bufferevent_socket_connect (b : bev) : call Z
  | bufferevent_free (b : bev) : call unit
  | bufferevent_write (b : bev) (data : str) : call Z
  | event_new : call bool.

(** [EventClientDataImpl] with the parameters of [EventWrapper]; [timers] are
    the reconnection timers that were added and have not fired. *)
Record EventClient : Type := mkClient {
  client_ : option bev;
  is_connected_ : bool;
  is_started_ : bool;
  ssl_ : option SSL;
  etcd_last_hosts_ : str * str;
  connection_info_ : str;
  params_ : ConnectionParams;
  use_thread_ : bool;
  timers : nat }.

Definition EventClient_new (use_thread : bool) : EventClient :=
  mkClient None false false None ([], []) [] no_params use_thread 0.

Definition set_client (b : option bev) (c : EventClient) : EventClient :=
  mkClient b (is_connected_ c) (is_started_ c) (ssl_ c) (etcd_last_hosts_ c) (connection_info_ c) (params_ c) (use_thread_ c) (timers c).
Definition set_connected (v : bool) (c : EventClient) : EventClient :=
  mkClient (client_ c) v (is_started_ c) (ssl_ c) (etcd_last_hosts_ c) (connection_info_ c) (params_ c) (use_thread_ c) (timers c).
Definition set_started (v : bool) (c : EventClient) : EventClient :=
  mkClient (client_ c) (is_connected_ c) v (ssl_ c) (etcd_last_hosts_ c) (connection_info_ c) (params_ c) (use_thread_ c) (timers c).
Definition set_ssl (s : option SSL) (c : EventClient) : EventClient :=
  mkClient (client_ c) (is_connected_ c) (is_started_ c) s (etcd_last_hosts_ c) (connection_info_ c) (params_ c) (use_thread_ c) (timers c).
Definition set_info (h : str * str) (i : str) (c : EventClient) : EventClient :=
  mkClient (client_ c) (is_connected_ c) (is_started_ c) (ssl_ c) h i (params_ c) (use_thread_ c) (timers c).
Definition setParams (p : ConnectionParams) (c : EventClient) : EventClient :=
  mkClient (client_ c) (is_connected_ c) (is_started_ c) (ssl_ c) (etcd_last_hosts_ c) (connection_info_ c) p (use_thread_ c) (timers c).
Definition set_timers (n : nat) (c : EventClient) : EventClient :=
  mkClient (client_ c) (is_connected_ c) (is_started_ c) (ssl_ c) (etcd_last_hosts_ c) (connection_info_ c) (params_ c) (use_thread_ c) n.

(** ** The methods *)
Abbreviation World := (Trace.World call EventClient).
Abbreviation C := (Trace.C call EventClient).

Section Methods.
Context {D : Type} (handle : forall T, call T -> D -> T * D).

Local Abbreviation do := (Trace.do handle).

Definition Close : C D Z :=
  c ← get;
  _ ← match client_ c with
      | Some b => _ ← do (bufferevent_free b); upd (set_client None)
      | None => mret tt
      end;
  _ ← upd (set_connected false);
  mret 0.

(** The checks of [CreateSSL]: the first that fails ends it. *)
Definition check (m : C D bool) (k : C D (option SSL)) : C D (option SSL) :=
  ok ← m; if (ok : bool) then k else mret None.

Definition CreateSSL : C D (option SSL) :=
  c ← get;
  match ssl_ c with
  | Some s => mret (Some s)
  | None =>
      check (do SSL_CTX_new)
        (if cert_verify (params_ c) then
           check (do (SSL_CTX_load_verify_locations (cert_path (params_ c) ++ lit "ca.crt")))
             (check (r ← do (SSL_CTX_use_certificate_file (cert_path (params_ c) ++ lit "client.crt")); mret (0 <? r))
               (check (r ← do (SSL_CTX_use_PrivateKey_file (cert_path (params_ c) ++ lit "client.key")); mret (0 <? r))
                 (check (do SSL_CTX_check_private_key) (do SSL_new))))
         else do SSL_new)
  end.

(** The lambda [_connect]. *)
Definition make_bufferevent : C D (option bev) :=
  c ← get;
  match ssl_ c with
  | None => do (bufferevent_socket_new (use_thread_ c))
  | Some s => do (bufferevent_openssl_socket_new s (use_thread_ c))
  end.

Definition connect_with : C D Z :=
  b ← make_bufferevent;
  _ ← upd (set_client b);
  match b with
  | None => mret (-1)
  | Some b =>
      _ ← do (SetTcpNoDelay b);
      _ ← do (SetKeepAlive b);
      _ ← do (setcb_enable b);
      r ← do (bufferevent_socket_connect b);
      if r <? 0 then
        _ ← do (bufferevent_free b);
        _ ← upd (set_client None);
        mret (-1)
      else mret 0
  end.

Definition _connect (ip port : str) : C D Z :=
  '(ret, found) ← do (getaddrinfo ip port);
  if negb (ret =? 0) || negb found then mret ret
  else
    c ← get;
    if is_ssl (params_ c) && bool_decide (ssl_ c = None) then
      s ← CreateSSL;
      _ ← upd (set_ssl s);
      match s with None => mret (-1) | Some _ => connect_with end
    else connect_with.

(** The loop over the hosts etcd names; [Some 0] is the early return. *)
Fixpoint try_hosts (many : bool) (hosts : list (str * str)) : C D (option Z) :=
  match hosts with
  | [] => mret None
  | p :: hosts =>
      c ← get;
      if many && bool_decide (etcd_last_hosts_ c = p) then try_hosts many hosts
      else
        r ← _connect p.1 p.2;
        if r =? 0 then
          _ ← upd (set_info p (lit "etcd_" ++ p.1 ++ lit ":" ++ p.2));
          mret (Some 0)
        else try_hosts many hosts
  end.

Definition connect_etcd : C D (option Z) :=
  c ← get;
  sh ← do Shell;
  '(ok, full) ← lift (get_full_endpoints_etcd sh (etcd_endpoints (params_ c)) []);
  _ ← (if (ok : bool) then upd (fun c => setParams (set_endpoints full (params_ c)) c) else mret tt);
  c ← get;
  sh ← do Shell;
  let '(ok, host) := get_master_host_from_etcd sh (etcd_endpoints (params_ c)) (hostkey (params_ c)) [] in
  if (ok : bool) then try_hosts (1 <? Z.of_nat (length host)) host else mret None.

Definition Connect : C D Z :=
  _ ← Close;
  c ← get;
  r ← (if negb (size (etcd_endpoints (params_ c)) =? 0) && negb (size (hostkey (params_ c)) =? 0)
       then connect_etcd else mret None);
  match r with
  | Some z => mret z
  | None =>
      c ← get;
      _ ← upd (set_info ([], []) (lit "default_" ++ address (params_ c) ++ lit ":" ++ port (params_ c)));
      _connect (address (params_ c)) (port (params_ c))
  end.

(** [Start]: the thread it starts runs [Connect] and then the event loop. *)
Definition Start (p : ConnectionParams) : C D Z :=
  c ← get;
  if is_started_ c then lift (Fault AssertFailed)
  else
    _ ← upd (set_started true);
    _ ← upd (setParams p);
    _ ← Connect;
    mret 0.

Definition Send (data : str) : C D bool :=
  c ← get;
  match client_ c with
  | None => mret false
  | Some b => r ← do (bufferevent_write b data); mret (r =? 0)
  end.

Definition ReConnect : C D Z :=
  ev ← do event_new;
  if (ev : bool) then _ ← upd (fun c => set_timers (S (timers c)) c); mret 0 else mret (-1).

Definition OnDisconnected : C D unit :=
  c ← get;
  if is_started_ c then _ ← ReConnect; mret tt else mret tt.

Definition OnConnected : C D unit := upd (set_connected true).

(** The reconnection timer fires. *)
Definition OnTimeout : C D unit :=
  _ ← upd (fun c => set_timers (pred (timers c)) c);
  c ← get;
  if is_connected_ c then mret tt else _ ← Connect; mret tt.

Definition has (events flag : Z) : bool := negb (Z.land events flag =? 0).

Definition OnEvent (events : Z) : C D unit :=
  if has events 16 || has events 32 || has events 1 || has events 2 then
    _ ← upd (set_connected false);
    OnDisconnected
  else if has events 128 then
    _ ← upd (set_connected true);
    OnConnected
  else mret tt.

Definition Stop : C D Z :=
  _ ← upd (set_started false);
  Close.
End Methods.
