(* ===== verification/EventClientProps.v ===== *)
(** * The TCP client: connections are freed once, and retries can stop *)
From S2P Require Import Prelude CStr StdString StringAssist SysUtil EventClient.
Open Scope Z_scope.

(** ** The connections alive after a log; [None] when one was freed twice or used
    after it was freed *)
Definition connection_effect (e : event call) : effect bev :=
  match e with
  | Event _ c a =>
      match c in call T return T -> effect bev with
      | bufferevent_socket_new _ => fun a => Makes a
      | bufferevent_openssl_socket_new _ _ => fun a => Makes a
      | bufferevent_free b => fun _ => Frees b
      | SetTcpNoDelay b => fun _ => Uses b
      | SetKeepAlive b => fun _ => Uses b
      | setcb_enable b => fun _ => Uses b
      | bufferevent_socket_connect b => fun _ => Uses b
      | bufferevent_write b _ => fun _ => Uses b
      | _ => fun _ => Quiet
      end a
  end.

Definition live : list (event call) -> option (list bev) := resources connection_effect.

Section Props.
Context {D : Type} (handle : forall T, call T -> D -> T * D).

(** ** The invariant: the connection held is the only one alive *)
Definition held (b : option bev) (n : nat) (w : World D) : Prop :=
  live (log w) = Some (option_list b) /\ client_ (self w) = b /\ timers (self w) = n.
Definition good (n : nat) (w : World D) : Prop := exists b, held b n w.

(** Between [bufferevent_socket_new] and the assignment to [client_]. *)
Definition pending (b : option bev) (n : nat) (w : World D) : Prop :=
  live (log w) = Some (option_list b) /\ timers (self w) = n.

Definition quiet {T} (c : call T) : Prop :=
  match c with
  | bufferevent_socket_new _ | bufferevent_openssl_socket_new _ _ | bufferevent_free _
  | SetTcpNoDelay _ | SetKeepAlive _ | setcb_enable _ | bufferevent_socket_connect _ | bufferevent_write _ _ => False
  | _ => True
  end.

Lemma hoare_quiet {T} (c : call T) b n : quiet c -> hoare (held b n) (do handle c) (fun _ => held b n).
Proof.
  intros Hq w (Hl & Hb & Hn). unfold do. destruct (handle T c (drv w)) as [a d].
  split; [| done]. cbn [log]. unfold live in *. rewrite resources_snoc, Hl. by destruct c.
Qed.

Lemma hoare_use {T} (c : call T) b n : (forall a, connection_effect (Event T c a) = Uses b) ->
  hoare (held (Some b) n) (do handle c) (fun _ => held (Some b) n).
Proof.
  intros Hc w (Hl & Hb & Hn). unfold do. destruct (handle T c (drv w)) as [a d].
  split; [| done]. cbn [log]. unfold live in *. rewrite resources_snoc, Hl. cbn [mbind option_bind]. rewrite Hc.
  apply apply_uses. by left.
Qed.

Lemma hoare_free b n : hoare (held (Some b) n) (_ ← do handle (bufferevent_free b); upd (set_client None)) (fun _ => held None n).
Proof.
  intros w (Hl & Hb & Hn). unfold mbind, C_bind, do, upd. destruct (handle unit (bufferevent_free b) (drv w)) as [a d].
  split; [| done]. cbn [log self]. unfold live in *. rewrite resources_snoc, Hl. apply apply_frees_only.
Qed.

Lemma Close_spec n : hoare (good n) (Close handle) (fun _ => held None n).
Proof.
  unfold Close. apply hoare_get. intros c. eapply hoare_bind with (R := fun _ => held None n).
  - destruct (client_ c) as [b|] eqn:E.
    + eapply hoare_conseq; [apply (hoare_free b n) | | done].
      intros w [(b' & Hl & Hb & Hn) <-]. rewrite Hb in E. subst b'. done.
    + apply hoare_ret. intros w [(b' & Hl & Hb & Hn) <-]. rewrite Hb in E. by subst b'.
  - intros []. eapply hoare_bind with (R := fun _ => held None n).
    + apply hoare_upd. intros w (Hl & Hb & Hn). done.
    + intros _. by apply hoare_ret.
Qed.

(** A step of [CreateSSL]. *)
Lemma hoare_check b n m k : hoare (held b n) m (fun _ => held b n) -> hoare (held b n) k (fun _ => held b n) ->
  hoare (held b n) (check m k) (fun _ => held b n).
Proof.
  intros Hm Hk. eapply hoare_bind; [exact Hm |]. intros [|]; [exact Hk | by apply hoare_ret].
Qed.

Lemma CreateSSL_spec b n : hoare (held b n) (CreateSSL handle) (fun _ => held b n).
Proof.
  unfold CreateSSL. apply hoare_get. intros c. apply hoare_drop.
  destruct (ssl_ c); [by apply hoare_ret |]. apply hoare_check; [by apply hoare_quiet |].
  destruct (cert_verify _); [| by apply hoare_quiet].
  repeat (apply hoare_check; [first [by apply hoare_quiet |
    eapply hoare_bind; [by apply hoare_quiet | intros ?; by apply hoare_ret]] |]).
  by apply hoare_quiet.
Qed.

(** What an attempt to connect leaves: a connection, or none if it failed. *)
Definition attempted (n : nat) (r : Z) (w : World D) : Prop :=
  exists b, held b n w /\ (r <> 0 -> b = None).

Lemma make_spec n : hoare (held None n) (make_bufferevent handle) (fun b => pending b n).
Proof.
  unfold make_bufferevent. apply hoare_get. intros c w [(Hl & Hb & Hn) _].
  destruct (ssl_ c) as [s|]; unfold do; destruct (handle _ _ (drv w)) as [a d0];
    (split; [cbn [log]; unfold live in *; rewrite resources_snoc, Hl; by destruct a | done]).
Qed.

Lemma connect_with_spec n : hoare (held None n) (connect_with handle) (attempted n).
Proof.
  unfold connect_with. eapply hoare_bind; [apply make_spec |]. intros b.
  eapply hoare_bind with (R := fun _ => held b n).
  { apply hoare_upd. by intros w (Hl & Hn). }
  intros _. destruct b as [b|]; [| apply hoare_ret; intros w Hw; by exists None].
  do 3 (eapply hoare_bind; [by apply (hoare_use _ b) | intros ?]).
  eapply hoare_bind; [by apply (hoare_use _ b) | intros r]. destruct (r <? 0).
  - assert (hoare (held (Some b) n) (_ ← do handle (bufferevent_free b); _ ← upd (set_client None); mret (-1)) (attempted n)) as H; [| exact H].
    intros w Hw. pose proof (hoare_free b n w Hw) as Hf. unfold mbind, C_bind, mret, C_ret in *.
    destruct (do handle (bufferevent_free b) w) as [[x|f] w1]; [| done]. unfold upd in *. by exists None.
  - apply hoare_ret. intros w Hw. exists (Some b). by split.
Qed.

Lemma _connect_spec ip pt n : hoare (held None n) (_connect handle ip pt) (attempted n).
Proof.
  unfold _connect. eapply hoare_bind; [by apply hoare_quiet |]. intros [ret found].
  destruct (_ || _); [apply hoare_ret; intros w Hw; by exists None |].
  apply hoare_get. intros c. apply hoare_drop.
  destruct (_ && _); [| apply connect_with_spec].
  eapply hoare_bind; [apply CreateSSL_spec |]. intros s.
  eapply hoare_bind with (R := fun _ => held None n); [by apply hoare_upd |]. intros _.
  destruct s; [apply connect_with_spec |]. apply hoare_ret. intros w Hw. by exists None.
Qed.

(** [None] when no host answered. *)
Definition tried (n : nat) (r : option Z) (w : World D) : Prop :=
  exists b, held b n w /\ (r <> Some 0 -> b = None /\ r = None).

Lemma try_hosts_spec many hosts n : hoare (held None n) (try_hosts handle many hosts) (tried n).
Proof.
  induction hosts as [|p hosts IH]; cbn [try_hosts]; [apply hoare_ret; intros w Hw; by exists None |].
  apply hoare_get. intros c. apply hoare_drop.
  destruct (many && _); [exact IH |]. eapply hoare_bind; [apply _connect_spec |]. intros r.
  destruct (Z.eqb_spec r 0) as [->|Hr].
  - eapply hoare_bind with (R := fun _ => good n).
    + apply hoare_upd. intros w (b & Hb & _). by exists b.
    + intros _. apply hoare_ret. intros w (b & Hb). exists b. by split.
  - eapply hoare_conseq; [exact IH | | done]. intros w (b & Hb & Hn). by rewrite Hn in Hb.
Qed.

Lemma connect_etcd_spec n : hoare (held None n) (connect_etcd handle) (tried n).
Proof.
  unfold connect_etcd. apply hoare_get. intros c. apply hoare_drop.
  eapply hoare_bind; [by apply hoare_quiet |]. intros sh.
  eapply hoare_bind with (R := fun _ => held None n).
  { intros w Hw. unfold lift. by destruct (get_full_endpoints_etcd _ _ _). }
  intros [ok full]. eapply hoare_bind with (R := fun _ => held None n).
  { destruct ok; [by apply hoare_upd | by apply hoare_ret]. }
  intros _. apply hoare_get. intros c'. apply hoare_drop.
  eapply hoare_bind; [by apply hoare_quiet |]. intros sh'.
  destruct (get_master_host_from_etcd _ _ _ _) as [[|] host]; [apply try_hosts_spec |].
  apply hoare_ret. intros w Hw. by exists None.
Qed.

Lemma Connect_spec n : hoare (good n) (Connect handle) (attempted n).
Proof.
  unfold Connect. eapply hoare_bind; [apply Close_spec |]. intros ?. apply hoare_get. intros c.
  apply hoare_drop.
  eapply hoare_bind with (R := tried n).
  { destruct (_ && _); [apply connect_etcd_spec |]. apply hoare_ret. intros w Hw. by exists None. }
  intros [z|].
  - apply hoare_ret. intros w (b & Hb & Hr). exists b. split; [done |]. intros Hz. apply Hr. congruence.
  - apply hoare_get. intros c'.
    eapply hoare_bind with (R := fun _ => held None n).
    + apply hoare_upd. intros w [(b & Hb & Hr) _]. destruct Hr as [-> _]; [done |]. done.
    + intros _. apply _connect_spec.
Qed.

Lemma attempted_good n r w : attempted n r w -> good n w.
Proof. intros (b & Hb & _). by exists b. Qed.

(** ** Runs *)

(** What users and the event loop do with a client. *)
Inductive act : Type :=
  | AStart (p : ConnectionParams) | ASend (data : str) | AEvent (events : Z) | ATimeout | AConnect | AClose | AStop.

Definition act1 (a : act) : C D unit :=
  match a with
  | AStart p => _ ← Start handle p; mret tt
  | ASend s => _ ← Send handle s; mret tt
  | AEvent ev => OnEvent handle ev
  | ATimeout => OnTimeout handle
  | AConnect => _ ← Connect handle; mret tt
  | AClose => _ ← Close handle; mret tt
  | AStop => _ ← Stop handle; mret tt
  end.

Fixpoint acts (l : list act) : C D unit :=
  match l with
  | [] => mret tt
  | a :: l => _ ← act1 a; acts l
  end.

Definition fine (w : World D) : Prop := exists n, good n w.

Lemma hoare_fine {A} (m : C D A) (Q : A -> World D -> Prop) : (forall n, hoare (good n) m Q) -> hoare fine m Q.
Proof. intros H w [n Hw]. by apply (H n). Qed.

Lemma hoare_exit {A} P (m : C D A) (Q : A -> World D -> Prop) : hoare P m Q -> (forall a w, Q a w -> fine w) ->
  hoare P (_ ← m; mret tt) (fun _ => fine).
Proof. intros Hm HQ. eapply hoare_bind; [exact Hm |]. intros a. apply hoare_ret. intros w Hw. by apply (HQ a). Qed.

Lemma hoare_upd_fine f : (forall c, client_ (f c) = client_ c) -> hoare fine (upd f) (fun _ => fine).
Proof. intros Hf. apply hoare_upd. intros w (n & b & Hl & Hb & Hn). eexists _, b. split_and!; [done | | done]. cbn. by rewrite Hf. Qed.

Lemma attempted_fine n r w : attempted n r w -> fine w.
Proof. intros (b & Hb & _). by exists n, b. Qed.

Lemma Connect_fine : hoare fine (_ ← Connect handle; mret tt) (fun _ => fine).
Proof. eapply hoare_exit; [apply hoare_fine; intros n w Hw; pose proof (Connect_spec n w Hw) as H; destruct (Connect handle w) as [[z|] w']; [exact (attempted_fine _ _ _ H) | done] | done]. Qed.

Lemma Close_fine : hoare fine (_ ← Close handle; mret tt) (fun _ => fine).
Proof.
  eapply hoare_exit with (Q := fun _ => fine); [| done]. apply hoare_fine. intros n.
  eapply hoare_conseq; [apply (Close_spec n) | done |]. intros ? w Hw. by exists n, None.
Qed.

Lemma OnEvent_fine ev : hoare fine (OnEvent handle ev) (fun _ => fine).
Proof.
  unfold OnEvent. destruct (_ || _).
  - eapply hoare_bind; [by apply hoare_upd_fine |]. intros []. unfold OnDisconnected. apply hoare_get. intros c. apply hoare_drop.
    destruct (is_started_ c); [| by apply hoare_ret]. eapply hoare_exit with (Q := fun _ => fine); [| done].
    unfold ReConnect. eapply hoare_bind with (R := fun _ => fine).
    + intros w (n & b & Hw). pose proof (hoare_quiet event_new b n I w Hw) as H.
      destruct (do handle event_new w) as [[x|] w1]; [by exists n, b | done].
    + intros [|]; [| by apply hoare_ret]. eapply hoare_bind; [by apply hoare_upd_fine |]. intros ?. by apply hoare_ret.
  - destruct (has ev 128); [| by apply hoare_ret]. eapply hoare_bind; [by apply hoare_upd_fine |]. intros []. by apply hoare_upd_fine.
Qed.

Lemma act1_fine a : hoare fine (act1 a) (fun _ => fine).
Proof.
  destruct a as [p|s|ev| | | |]; cbn [act1].
  - eapply hoare_exit with (Q := fun _ => fine); [| done]. unfold Start. apply hoare_get. intros c. apply hoare_drop.
    destruct (is_started_ c); [done |]. do 2 (eapply hoare_bind; [by apply hoare_upd_fine | intros []]).
    eapply hoare_bind with (R := fun _ => fine).
    + apply hoare_fine. intros n. eapply hoare_conseq; [apply (Connect_spec n) | done | apply attempted_fine].
    + intros ?. by apply hoare_ret.
  - eapply hoare_exit with (Q := fun _ => fine); [| done]. unfold Send. apply hoare_get. intros c.
    destruct (client_ c) as [b|] eqn:E; [| apply hoare_drop; by apply hoare_ret].
    eapply hoare_bind with (R := fun _ => fine); [| intros ?; by apply hoare_ret].
    intros w [(n & b' & Hw) <-]. assert (b' = Some b) as -> by (destruct Hw as (_ & Hb & _); congruence).
    pose proof (hoare_use (bufferevent_write b s) b n (fun _ => eq_refl) w Hw) as H.
    destruct (do handle (bufferevent_write b s) w) as [[x|] w1]; [by exists n, (Some b) | done].
  - apply OnEvent_fine.
  - unfold OnTimeout. eapply hoare_bind; [by apply hoare_upd_fine |]. intros []. apply hoare_get. intros c. apply hoare_drop.
    destruct (is_connected_ c); [by apply hoare_ret | apply Connect_fine].
  - apply Connect_fine.
  - apply Close_fine.
  - eapply hoare_exit with (Q := fun _ => fine); [| done]. unfold Stop. eapply hoare_bind; [by apply hoare_upd_fine |].
    intros []. apply hoare_fine. intros n. eapply hoare_conseq; [apply (Close_spec n) | done |]. intros ? w Hw. by exists n, None.
Qed.

Lemma acts_fine l : hoare fine (acts l) (fun _ => fine).
Proof.
  induction l as [|a l IH]; cbn [acts]; [by apply hoare_ret |].
  eapply hoare_bind; [apply act1_fine |]. intros []. exact IH.
Qed.

Definition start_world (use_thread : bool) (d : D) : World D := mkWorld (EventClient_new use_thread) d [].

(** C22: whatever is called and whatever libevent, OpenSSL and etcd answer, no
    [bufferevent] is used after it was freed, none is freed twice, and the only
    one alive is the one the client holds, none when it holds none. *)
Theorem client_resources use_thread d l w :
  acts l (start_world use_thread d) = (Ok tt, w) -> live (log w) = Some (option_list (client_ (self w))).
Proof.
  intros E. assert (fine (start_world use_thread d)) as H0 by by exists 0%nat, None.
  pose proof (acts_fine l _ H0) as H. rewrite E in H. destruct H as (n & b & Hl & Hb & _). by rewrite Hb.
Qed.

(** What the event loop can call: the event callback of the connection it has,
    the timer if one is pending. *)
Inductive callback : World D -> World D -> Prop :=
  | cb_event b ev w w' : client_ (self w) = Some b -> OnEvent handle ev w = (Ok tt, w') -> callback w w'
  | cb_timer w w' : (0 < timers (self w))%nat -> OnTimeout handle w = (Ok tt, w') -> callback w w'.

(** The state in which the last timer's [Connect] starts. *)
Definition fired (w : World D) : World D := mkWorld (set_timers (pred (timers (self w))) (self w)) (drv w) (log w).

(** Retrying stops for good when a reconnection fails at once (no address,
    no SSL object, no socket): when the only pending timer fires and [Connect]
    returns an error, no connection and no timer are left, and the event loop
    has nothing to call any more. *)
Theorem client_gives_up use_thread d l w z w' :
  acts l (start_world use_thread d) = (Ok tt, w) ->
  timers (self w) = 1%nat -> is_connected_ (self w) = false ->
  Connect handle (fired w) = (Ok z, w') -> z <> 0 ->
  OnTimeout handle w = (Ok tt, w') /\ client_ (self w') = None /\ forall w'', ~ callback w' w''.
Proof.
  intros E Ht Hc Ec Hz. assert (fine (start_world use_thread d)) as H0 by by exists 0%nat, None.
  pose proof (acts_fine l _ H0) as H. rewrite E in H. destruct H as (n & b & Hl & Hb & Hn).
  assert (good 0 (fired w)) as Hg by (exists b; split_and!; [done | done | cbn; by rewrite Ht]).
  pose proof (Connect_spec 0 _ Hg) as Ha. rewrite Ec in Ha. destruct Ha as (b' & (_ & Hb' & Ht') & Hn').
  rewrite (Hn' Hz) in Hb'. split_and!.
  - unfold OnTimeout, mbind, C_bind, upd, get. fold (fired w). cbn [self is_connected_ fired set_timers]. rewrite Hc.
    change (mkWorld (set_timers (pred (timers (self w))) (self w)) (drv w) (log w)) with (fired w). by rewrite Ec.
  - done.
  - intros w'' Hcb. destruct Hcb as [b0 ev w1 w2 Hb0 _|w1 w2 Ht0 _]; [congruence | lia].
Qed.
End Props.

(** ** Witnesses: the address resolves once, then no more *)
Definition demo_handle (T : Type) (c : call T) (d : nat) : T * nat :=
  match c in call T return T * nat with
  | Shell => (fun _ => None, d)
  | getaddrinfo _ _ => (if (d =? 0)%nat then (0, true) else (-2, false), S d)
  | SSL_CTX_new => (true, d)
  | SSL_CTX_load_verify_locations _ => (true, d)
  | SSL_CTX_use_certificate_file _ => (1, d)
  | SSL_CTX_use_PrivateKey_file _ => (1, d)
  | SSL_CTX_check_private_key => (true, d)
  | SSL_new => (Some 1%positive, d)
  | bufferevent_socket_new _ => (Some 7%positive, d)
  | bufferevent_openssl_socket_new _ _ => (Some 7%positive, d)
  | SetTcpNoDelay _ => (0, d)
  | SetKeepAlive _ => (0, d)
  | setcb_enable _ => (tt, d)
  | bufferevent_socket_connect _ => (0, d)
  | bufferevent_free _ => (tt, d)
  | bufferevent_write _ _ => (0, d)
  | event_new => (true, d)
  end.

Definition demo_params : ConnectionParams := mkParams (lit "10.0.0.1") (lit "8888") [] [] [] [] [] false false (lit "server/").
Definition demo_acts : list act := [AStart demo_params; AEvent 128; ASend (lit "x"); AEvent 16].
Definition demo_end : World nat := (acts demo_handle demo_acts (start_world false 0%nat)).2.

Lemma client_resources_witness : live (log demo_end) = Some (option_list (client_ (self demo_end))).
Proof. apply (client_resources demo_handle false 0%nat demo_acts demo_end). vm_compute. reflexivity. Defined.

Lemma client_gives_up_witness :
  OnTimeout demo_handle demo_end = (Ok tt, (Connect demo_handle (fired demo_end)).2) /\
  client_ (self (Connect demo_handle (fired demo_end)).2) = None /\
  forall w'', ~ callback demo_handle (Connect demo_handle (fired demo_end)).2 w''.
Proof.
  apply (client_gives_up demo_handle false 0%nat demo_acts demo_end (-2)).
  - vm_compute. reflexivity.
  - vm_compute. reflexivity.
  - vm_compute. reflexivity.
  - vm_compute. reflexivity.
  - discriminate.
Defined.

(** A second SSL connection is made from the object the first one freed. *)
Definition ssl_params : ConnectionParams := mkParams (lit "10.0.0.1") (lit "8888") [] [] [] [] [] true false (lit "server/").
Definition ssl_handle (T : Type) (c : call T) (d : nat) : T * nat :=
  match c in call T return T * nat with
  | getaddrinfo _ _ => ((0, true), d)
  | c => demo_handle _ c d
  end.

Lemma ssl_used_after_free :
  let w := (acts ssl_handle [AStart ssl_params; AEvent 16; ATimeout] (start_world false 0%nat)).2 in
  exists l1 l2 l3,
    log w = l1 ++ [Event _ (bufferevent_openssl_socket_new 1 false) (Some 7%positive)]
      ++ l2 ++ [Event _ (bufferevent_free 7) tt]
      ++ l3 ++ [Event _ (bufferevent_openssl_socket_new 1 false) (Some 7%positive)]
      ++ [Event _ (SetTcpNoDelay 7) 0; Event _ (SetKeepAlive 7) 0; Event _ (setcb_enable 7) tt;
          Event _ (bufferevent_socket_connect 7) 0].
Proof.
  eexists [Event _ (getaddrinfo (lit "10.0.0.1") (lit "8888")) (0, true); Event _ SSL_CTX_new true; Event _ SSL_new (Some 1%positive)],
    [Event _ (SetTcpNoDelay 7) 0; Event _ (SetKeepAlive 7) 0; Event _ (setcb_enable 7) tt;
     Event _ (bufferevent_socket_connect 7) 0; Event _ event_new true],
    [Event _ (getaddrinfo (lit "10.0.0.1") (lit "8888")) (0, true)].
  vm_compute. reflexivity.
Qed.
