(* ===== verification/EventServer.v ===== *)
(** * The TCP server: [src/src/tcp/src/event_server.cpp], and the event loop of
    [src/src/tcp/src/event_wrapper.cpp]

    libevent, OpenSSL and the shell behind etcdctl are third-party: every call
    into them is a value of [call], answered by the argument [handle].  The
    virtual [OnAccept], which a derived class overrides, is an argument of the
    callback that calls it: a program over the same server, which may call
    [Close]. *)
From S2P Require Import Prelude CStr StdString StringAssist SysUtil Trace ConnParams.
Open Scope Z_scope.

Abbreviation bev := positive.
Abbreviation SSL := positive.
Abbreviation listener := positive.

Inductive call : Type -> Type :=
  (** what every shell command would print now *)
  | Shell : call (str -> option str)
  (** the return code, and whether [result] is not null *)
  | getaddrinfo (ip port : str) : call (Z * bool)
  | evconnlistener_new_bind : call (option listener)
  | evconnlistener_free (l : listener) : call unit
  | SSL_CTX_new : call bool
  | SSL_CTX_set_verify (need_cert : bool) : call unit
  | SSL_CTX_load_verify_locations (path : str) : call bool
  | SSL_CTX_use_certificate_file (path : str) : call Z
  | SSL_CTX_use_PrivateKey_file (path : str) : call Z
  | SSL_CTX_check_private_key : call bool
  | SSL_new : call (option SSL)
  | bufferevent_socket_new (fd : Z) (threadsafe : bool) : call (option bev)
  | bufferevent_openssl_socket_new (fd : Z) (s : option SSL) (threadsafe : bool) : call (option bev)
  | SetTcpNoDelay (b : bev) : call Z
  | bufferevent_setcb (b : bev) : call unit
  | bufferevent_enable (b : bev) : call Z
  | bufferevent_disable (b : bev) : call Z
  | bufferevent_openssl_get_ssl (b : bev) : call (option SSL)
  | SSL_set_shutdown (s : SSL) : call unit
  | SSL_shutdown (s : SSL) : call Z
  | bufferevent_free (b : bev) : call unit
  (** what a derived class calls on a connection and its input buffer *)
  | evbuffer_get_length (b : bev) : call Z
  | evbuffer_pullup (b : bev) (n : nat) : call (option str)
  | evbuffer_remove (b : bev) (n : Z) : call str
  | evbuffer_drain (b : bev) (n : Z) : call unit
  | bufferevent_write (b : bev) (d : str) : call unit
  | time : call Z.

(** [EventServerDataImpl] with what it uses of [EventWrapperDataImpl]. *)
Record EventServer : Type := mkServer {
  listener_ : option listener;
  params_ : ConnectionParams;
  use_thread_ : bool }.

Definition EventServer_new (use_thread : bool) : EventServer := mkServer None no_params use_thread.

Definition set_listener (l : option listener) (s : EventServer) : EventServer :=
  mkServer l (params_ s) (use_thread_ s).
Definition setParams (p : ConnectionParams) (s : EventServer) : EventServer :=
  mkServer (listener_ s) p (use_thread_ s).

Abbreviation World := (Trace.World call EventServer).
Abbreviation C := (Trace.C call EventServer).

Section Methods.
Context {D : Type} (handle : forall T, call T -> D -> T * D).
Local Abbreviation do := (Trace.do handle).

(** A check of [CreateSSL] that returns null when it fails. *)
Definition check (m : C D bool) (k : C D (option SSL)) : C D (option SSL) :=
  ok ← m; if (ok : bool) then k else mret None.

Definition CreateSSL : C D (option SSL) :=
  c ← get;
  let path := cert_path (params_ c) in
  check (do SSL_CTX_new)
    (_ ← do (SSL_CTX_set_verify (cert_verify (params_ c)));
     check (do (SSL_CTX_load_verify_locations (path ++ lit "ca.crt")))
      (check (r ← do (SSL_CTX_use_certificate_file (path ++ lit "server.crt")); mret (0 <? r))
        (check (r ← do (SSL_CTX_use_PrivateKey_file (path ++ lit "server.key")); mret (0 <? r))
          (check (do SSL_CTX_check_private_key) (do SSL_new))))).

(** libevent has accepted the socket [fd]. *)
Definition ListenerCallback (OnAccept : bev -> Z -> C D unit) (fd : Z) : C D unit :=
  c ← get;
  b ← (if is_ssl (params_ c) then
         s ← CreateSSL;
         do (bufferevent_openssl_socket_new fd s (use_thread_ c))
       else do (bufferevent_socket_new fd (use_thread_ c)));
  match b with
  | None => mret tt
  | Some b =>
      _ ← do (SetTcpNoDelay b);
      _ ← OnAccept b fd;
      _ ← do (bufferevent_setcb b);
      _ ← do (bufferevent_enable b);
      mret tt
  end.

(** Registration of the address with etcd. *)
Definition register : C D unit :=
  c ← get;
  sh ← do Shell;
  '(ok, full) ← lift (get_full_endpoints_etcd sh (etcd_endpoints (params_ c)) []);
  _ ← (if (ok : bool) then upd (fun c => setParams (set_endpoints full (params_ c)) c) else mret tt);
  c ← get;
  sh ← do Shell;
  let hostvalue := etcd_address (params_ c) ++ lit ":" ++ etcd_port (params_ c) in
  let _ := set_key_to_etcd sh (etcd_endpoints (params_ c)) (hostkey (params_ c)) hostvalue in
  mret tt.

Definition Start (p : ConnectionParams) : C D Z :=
  if size (address p) =? 0 then mret 0
  else
    _ ← upd (setParams p);
    c ← get;
    match listener_ c with
    | Some _ => mret (-1)
    | None =>
        _ ← (if negb (size (etcd_endpoints (params_ c)) =? 0) && negb (size (hostkey (params_ c)) =? 0)
             then register else mret tt);
        '(ret, found) ← do (getaddrinfo (address (params_ c)) (port (params_ c)));
        if negb (ret =? 0) || negb found then mret (-1)
        else
          l ← do evconnlistener_new_bind;
          _ ← upd (set_listener l);
          match l with
          | None => lift (Fault (Exited (-1)))
          | Some _ => mret 0
          end
    end.

Definition Close (b : bev) : C D Z :=
  _ ← do (bufferevent_disable b);
  c ← get;
  _ ← (if is_ssl (params_ c) then
         s ← do (bufferevent_openssl_get_ssl b);
         match s with
         | Some s => _ ← do (SSL_set_shutdown s); _ ← do (SSL_shutdown s); mret tt
         | None => mret tt
         end
       else mret tt);
  _ ← do (bufferevent_free b);
  mret 0.

(** [~EventServer] *)
Definition delete : C D unit :=
  c ← get;
  match listener_ c with Some l => do (evconnlistener_free l) | None => mret tt end.
End Methods.

(** ** The event loop: [EventWrapper] *)

(** [freed]: [event_base_free] was called; [exiting]: [event_base_loopexit]. *)
Record EventWrapper : Type := mkWrapper {
  is_running_ : bool;
  event_base_ : bool;  (** not null *)
  default_event_ : bool;  (** not null, and added *)
  freed : bool;
  exiting : bool;
  loops : nat }.  (** calls of [OnLoop] *)

(** [event_base_new] may fail. *)
Definition EventWrapper_new (base : bool) : EventWrapper := mkWrapper true base false false false 0.

Definition wrapper_Stop (w : EventWrapper) : EventWrapper :=
  mkWrapper false (event_base_ w) (default_event_ w) (freed w) (exiting w) (loops w).

(** [once]: [event_base_loopexit] had memory for its event; its result is not
    looked at. *)
Definition OnExit (once : bool) (w : EventWrapper) : EventWrapper :=
  if is_running_ w then w
  else mkWrapper (is_running_ w) (event_base_ w) false (freed w) (once || exiting w) (loops w).

(** [TimeoutCallback]; the virtual [OnLoop] may call [Stop]. *)
Definition TimeoutCallback (stops once : bool) (w : EventWrapper) : EventWrapper :=
  let w := mkWrapper (is_running_ w) (event_base_ w) (default_event_ w) (freed w) (exiting w) (S (loops w)) in
  OnExit once (if stops then wrapper_Stop w else w).

(** What a turn of libevent's loop runs: the timer's callback, if it was not
    deleted, or anything else, a callback of a connection or another thread, that
    may call [Stop]. *)
Inductive tick : Type := Timer (stops once : bool) | Other (stops : bool).

Definition run_tick (w : EventWrapper) (t : tick) : EventWrapper :=
  match t with
  | Timer s once => if default_event_ w then TimeoutCallback s once w else w
  | Other s => if s then wrapper_Stop w else w
  end.

(** A turn: the callbacks it finds active, or the wait for events failed. *)
Inductive turn : Type := Turn (active : list tick) | Failed.

(** [event_base_loop]: it looks at the request to end, which the event of
    [event_base_loopexit] made in the turn it was called in, and for events that
    are left, before every turn; [others]: there are other events, a listener or a
    connection.  [None]: the turns are over and it still waits. *)
Fixpoint event_base_dispatch (others : bool) (turns : list turn) (w : EventWrapper) : option EventWrapper :=
  if exiting w || negb (default_event_ w || others) then Some w
  else
    match turns with
    | [] => None
    | Failed :: _ => Some w
    | Turn active :: turns => event_base_dispatch others turns (fold_left run_tick active w)
    end.

(** [event_new] may fail. *)
Definition Run (event_ok others : bool) (turns : list turn) (w : EventWrapper) : res (option EventWrapper) :=
  if negb (event_base_ w) then Ok (Some w)
  else if freed w then Fault Undefined
  else
    let w := mkWrapper (is_running_ w) (event_base_ w) event_ok (freed w) (exiting w) (loops w) in
    match event_base_dispatch others turns w with
    | None => Ok None
    | Some w => Ok (Some (mkWrapper (is_running_ w) (event_base_ w) (default_event_ w) true (exiting w) (loops w)))
    end.
