(* ===== verification/LinkerCalls.v ===== *)
(** * The linker server over libevent's calls: [XTcpServer] of [src/src/linker/l1]

    The callbacks [XTcpServer] overrides, as programs over the calls of
    [EventServer]: which connections they use and close.  What they compute is
    [LinkerServer]. *)
From S2P Require Import Prelude CStr StdString Bytes QtpMsg Server LinkerServer Trace ConnParams EventServer.
Open Scope Z_scope.

Section Callbacks.
Context {D : Type} (handle : forall T, call T -> D -> T * D).
Local Abbreviation do := (Trace.do handle).

(** It prints the address and counts the connection. *)
Definition linker_OnAccept (b : bev) (fd : Z) : C D unit := mret tt.

Definition linker_OnEvent (b : bev) (events : Z) : C D unit :=
  if broken events then _ ← Close handle b; mret tt else mret tt.

(** [case kMtHeartBeat] *)
Definition linker_answer (b : bev) (head : MSG_HEAD) : C D unit :=
  _ ← do (evbuffer_drain b (datalen head));
  t ← do time;
  _ ← do (bufferevent_write b (head_bytes (heartbeat_reply head)));
  do (bufferevent_write b (request_id_bytes (server_time t))).

(** The [switch] over the message type. *)
Definition linker_frame (b : bev) (head : MSG_HEAD) : C D unit :=
  if msgtype head =? kMtHeartBeat then linker_answer b head
  else if msgtype head =? kMtSubscribe then mret tt
  else if msgtype head =? kMtUnsubscribe then mret tt
  else do (evbuffer_drain b (datalen head)).

(** The options of a frame; [opt_req_id] is read from the first twelve bytes. *)
Definition linker_options (b : bev) (head : MSG_HEAD) : C D unit :=
  if negb (optslen head =? 0) then
    _ ← do (evbuffer_remove b (optslen head));
    if optslen head <? Z.of_nat request_id_size then lift (Fault Undefined) else mret tt
  else mret tt.

Fixpoint linker_OnRead (fuel : nat) (b : bev) : C D unit :=
  match fuel with
  | O => lift (Fault OutOfFuel)
  | S fuel =>
      len ← do (evbuffer_get_length b);
      if len <? Z.of_nat MSG_HEAD_SIZE then mret tt
      else
        headp ← do (evbuffer_pullup b MSG_HEAD_SIZE);
        match headp with
        | None => lift (Fault Undefined)
        | Some p =>
            let msg_total_len :=
              Z.of_nat MSG_HEAD_SIZE + optslen (head_of_bytes p) + datalen (head_of_bytes p) in
            if len <? msg_total_len then mret tt
            else
              hb ← do (evbuffer_remove b (Z.of_nat MSG_HEAD_SIZE));
              let head := head_of_bytes hb in
              if version head =? 1 then _ ← Close handle b; mret tt
              else
                _ ← linker_options b head;
                _ ← linker_frame b head;
                linker_OnRead fuel b
        end
  end.
End Callbacks.
