(* ===== verification/EventServerProps.v ===== *)
(** * The TCP server: what it accepts, what it frees, when its loop ends *)
From S2P Require Import Prelude CStr StdString StringAssist SysUtil Bytes QtpMsg Server LinkerServer Trace ConnParams EventServer LinkerCalls.
Open Scope Z_scope.

(** ** The connections and the listeners alive after a log; [None] when one was
    freed twice or used after it was freed *)
Definition connection_effect (e : event call) : effect bev :=
  match e with
  | Event T c a =>
      match c in call T return T -> effect bev with
      | bufferevent_socket_new _ _ => fun a => Makes a
      | bufferevent_openssl_socket_new _ _ _ => fun a => Makes a
      | bufferevent_free b => fun _ => Frees b
      | SetTcpNoDelay b => fun _ => Uses b
      | bufferevent_setcb b => fun _ => Uses b
      | bufferevent_enable b => fun _ => Uses b
      | bufferevent_disable b => fun _ => Uses b
      | bufferevent_openssl_get_ssl b => fun _ => Uses b
      | evbuffer_get_length b => fun _ => Uses b
      | evbuffer_pullup b _ => fun _ => Uses b
      | evbuffer_remove b _ => fun _ => Uses b
      | evbuffer_drain b _ => fun _ => Uses b
      | bufferevent_write b _ => fun _ => Uses b
      | _ => fun _ => Quiet
      end a
  end.
Definition listener_effect (e : event call) : effect listener :=
  match e with
  | Event T c a =>
      match c in call T return T -> effect listener with
      | evconnlistener_new_bind => fun a => Makes a
      | evconnlistener_free x => fun _ => Frees x
      | _ => fun _ => Quiet
      end a
  end.
Definition live : list (event call) -> option (list bev) := resources connection_effect.
Definition live_listeners : list (event call) -> option (list listener) := resources listener_effect.

Section Props.
Context {D : Type} (handle : forall T, call T -> D -> T * D).
Local Abbreviation world := (World D).

(** The connections are [bs], the only listener is the one the server holds. *)
Definition held (bs : list bev) (w : world) : Prop :=
  live (log w) = Some bs /\ live_listeners (log w) = Some (option_list (listener_ (self w))).

Definition quiet {T} (c : call T) : Prop :=
  forall a, connection_effect (Event T c a) = Quiet /\ listener_effect (Event T c a) = Quiet.

(** One more call, and what it does to the connections. *)
Lemma held_call {T} (c : call T) a d bs bs' w : held bs w -> listener_effect (Event T c a) = Quiet ->
  apply_effect bs (connection_effect (Event T c a)) = Some bs' ->
  held bs' (mkWorld (self w) d (log w ++ [Event T c a])).
Proof.
  intros [Hb Hl] Hq He. unfold held, live, live_listeners in *. cbn [log self].
  by rewrite !resources_snoc, Hb, Hl; cbn [mbind option_bind]; rewrite Hq, He.
Qed.

Lemma srv_quiet {T} (c : call T) bs : quiet c -> hoare (held bs) (do handle c) (fun _ => held bs).
Proof.
  intros Hq. apply hoare_do. intros w a d Hw _. destruct (Hq a) as [H1 H2]. apply (held_call _ _ _ bs); [done | done | by rewrite H1].
Qed.

Lemma srv_use {T} (c : call T) b bs : (forall a, connection_effect (Event T c a) = Uses b /\ listener_effect (Event T c a) = Quiet) -> b ∈ bs ->
  hoare (held bs) (do handle c) (fun _ => held bs).
Proof.
  intros Hc Hb. apply hoare_do. intros w a d Hw _. destruct (Hc a) as [H1 H2].
  apply (held_call _ _ _ bs); [done | done | rewrite H1; by apply apply_uses].
Qed.

Lemma srv_check_live bs m k : hoare (held bs) m (fun _ => held bs) -> hoare (held bs) k (fun _ => held bs) ->
  hoare (held bs) (check m k) (fun _ => held bs).
Proof. intros Hm Hk. eapply hoare_bind; [exact Hm |]. intros [|]; [exact Hk | by apply hoare_ret]. Qed.

Ltac quiet_call := by apply srv_quiet.

Lemma CreateSSL_live bs : hoare (held bs) (CreateSSL handle) (fun _ => held bs).
Proof.
  unfold CreateSSL. apply hoare_get. intros c. apply hoare_drop. apply srv_check_live; [quiet_call |].
  eapply hoare_bind; [quiet_call |]. intros [].
  repeat (apply srv_check_live; [first [quiet_call | eapply hoare_bind; [quiet_call | intros ?; by apply hoare_ret]] |]).
  quiet_call.
Qed.

Lemma ListenerCallback_live OnAccept fd bs :
  (forall b, hoare (held (b :: bs)) (OnAccept b fd) (fun _ => held (b :: bs))) ->
  hoare (held bs) (ListenerCallback handle OnAccept fd) (fun _ w => exists b, held (option_list b ++ bs) w).
Proof.
  intros Hacc. unfold ListenerCallback. apply hoare_get. intros c. apply hoare_drop.
  eapply hoare_bind with (R := fun b => held (option_list b ++ bs)).
  - assert (forall T (c : call T) (f : T -> option bev), (forall a, connection_effect (Event T c a) = Makes (f a) /\ listener_effect (Event T c a) = Quiet) ->
      hoare (held bs) (do handle c) (fun a => held (option_list (f a) ++ bs))) as Hnew.
    { intros T c' f Hc. apply hoare_do. intros w a d Hw _. destruct (Hc a) as [H1 H2]. apply (held_call _ _ _ bs); [done | done | by rewrite H1]. }
    destruct (is_ssl _); [eapply hoare_bind; [apply CreateSSL_live | intros s] |]; by apply (Hnew _ _ id).
  - intros [b|]; [| apply hoare_ret; intros w Hw; by exists None].
    eapply hoare_bind; [apply (srv_use _ b); [done | by left] | intros ?]. eapply hoare_bind; [apply Hacc | intros []].
    do 2 (eapply hoare_bind; [apply (srv_use _ b); [done | by left] | intros ?]).
    apply hoare_ret. intros w Hw. by exists (Some b).
Qed.

Lemma Close_live b bs : b ∈ bs ->
  hoare (held bs) (Close handle b) (fun r w => r = 0 /\ exists bs', bs ≡ₚ b :: bs' /\ held bs' w).
Proof.
  intros Hb. unfold Close. eapply hoare_bind; [by apply (srv_use _ b) |]. intros ?.
  apply hoare_get. intros c. apply hoare_drop. eapply hoare_bind with (R := fun _ => held bs).
  - destruct (is_ssl _); [| by apply hoare_ret]. eapply hoare_bind; [by apply (srv_use _ b) |]. intros [s|]; [| by apply hoare_ret].
    eapply hoare_bind; [quiet_call |]. intros []. eapply hoare_bind; [quiet_call |]. intros ?. by apply hoare_ret.
  - intros []. destruct (apply_frees b bs Hb) as (bs' & E & Hp).
    eapply hoare_bind with (R := fun _ w => held bs' w).
    + apply hoare_do. intros w x d Hw _. by apply (held_call _ _ _ bs).
    + intros ?. apply hoare_ret. eauto.
Qed.

Lemma register_live bs : hoare (fun w => held bs w /\ listener_ (self w) = None) (register handle)
  (fun _ w => held bs w /\ listener_ (self w) = None).
Proof.
  assert (forall T (c : call T), quiet c -> hoare (fun w => held bs w /\ listener_ (self w) = None) (do handle c)
    (fun _ w => held bs w /\ listener_ (self w) = None)) as Hq.
  { intros T c Hq. apply hoare_do. intros w a d [Hw Hl] _. destruct (Hq a) as [H1 H2].
    split; [apply (held_call _ _ _ bs); [done | done | by rewrite H1] | done]. }
  unfold register. apply hoare_get. intros c. apply hoare_drop.
  eapply hoare_bind; [by apply Hq |]. intros sh. eapply hoare_bind; [apply hoare_lift; intros a w _ Hw; exact Hw |].
  intros [ok full]. eapply hoare_bind with (R := fun _ w => held bs w /\ listener_ (self w) = None).
  { destruct ok; [apply hoare_upd | apply hoare_ret]; by intros w Hw. }
  intros []. apply hoare_get. intros c'. apply hoare_drop. eapply hoare_bind; [by apply Hq |]. intros sh'.
  apply hoare_ret. done.
Qed.

Lemma Start_live p bs : hoare (held bs) (Start handle p)
  (fun r w => held bs w /\ (r = 0 -> size (address p) = 0 \/ listener_ (self w) <> None)).
Proof.
  unfold Start. destruct (Z.eqb_spec (size (address p)) 0) as [E|E]; [apply hoare_ret; by auto |].
  eapply hoare_bind with (R := fun _ => held bs); [by apply hoare_upd |]. intros [].
  apply hoare_get. intros c. destruct (listener_ c) as [l|] eqn:El.
  { apply hoare_ret. intros w [Hw <-]. split; [done |]. discriminate. }
  set (P := fun w : world => held bs w /\ listener_ (self w) = None).
  eapply hoare_bind with (R := fun _ => P).
  { destruct (_ && _).
    - eapply hoare_conseq; [apply (register_live bs) | | done]. intros w [Hw <-]. by split.
    - apply hoare_ret. intros w [Hw <-]. by split. }
  intros []. eapply hoare_bind with (R := fun _ => P).
  { apply hoare_do. intros w a d [Hw Hl] _. split; [by apply (held_call _ _ _ bs) | done]. }
  intros [ret found]. destruct (_ || _); [apply hoare_ret; intros w [Hw _]; by split |].
  intros w [Hw Hl]. unfold mbind, C_bind, do. destruct (handle _ evconnlistener_new_bind (drv w)) as [l d]. unfold upd, lift.
  cbn [self log drv]. destruct l as [l|]; [| done]. unfold mret, C_ret. split; [| by right].
  destruct Hw as [Hb Hls]. unfold held, live, live_listeners in *. cbn [log self listener_].
  rewrite !resources_snoc, Hb, Hls, Hl. done.
Qed.

(** ** The linker server *)

(** [b] was closed, or nothing was. *)
Definition maybe_closed (b : bev) (bs bs' : list bev) : Prop := bs' = bs \/ bs ≡ₚ b :: bs'.

Lemma linker_OnEvent_live b events bs : b ∈ bs ->
  hoare (held bs) (linker_OnEvent handle b events)
    (fun _ w => exists bs', (if broken events then bs ≡ₚ b :: bs' else bs' = bs) /\ held bs' w).
Proof.
  intros Hb. unfold linker_OnEvent. destruct (broken events); [| apply hoare_ret; eauto].
  eapply hoare_bind; [by apply Close_live |]. intros z. apply hoare_ret. by intros w (_ & bs' & ? & ?); eauto.
Qed.

Ltac uses b := apply (srv_use _ b); [done | done].

Lemma linker_frame_live b h bs : b ∈ bs -> hoare (held bs) (linker_frame handle b h) (fun _ => held bs).
Proof.
  intros Hb. unfold linker_frame, linker_answer. repeat case_match; [| by apply hoare_ret | by apply hoare_ret | by uses b].
  eapply hoare_bind; [uses b |]. intros ?. eapply hoare_bind; [quiet_call |]. intros t.
  eapply hoare_bind; [uses b |]. intros ?. uses b.
Qed.

Lemma linker_options_live b h bs : b ∈ bs -> hoare (held bs) (linker_options handle b h) (fun _ => held bs).
Proof.
  intros Hb. unfold linker_options. destruct (negb _); [| by apply hoare_ret].
  eapply hoare_bind; [uses b |]. intros ?. destruct (_ <? _); [| by apply hoare_ret]. by apply hoare_lift.
Qed.

Lemma linker_OnRead_live fuel b bs : b ∈ bs ->
  hoare (held bs) (linker_OnRead handle fuel b) (fun _ w => exists bs', maybe_closed b bs bs' /\ held bs' w).
Proof.
  intros Hb. assert (forall w : world, held bs w -> exists bs', maybe_closed b bs bs' /\ held bs' w) as Hsame
    by (intros w Hw; exists bs; split; [by left | done]).
  induction fuel as [|fuel IH]; cbn [linker_OnRead]; [by apply hoare_lift |].
  eapply hoare_bind; [uses b |]. intros len. destruct (_ <? _); [by apply hoare_ret |].
  eapply hoare_bind; [uses b |]. intros [p|]; [| by apply hoare_lift]. cbv zeta.
  destruct (_ <? _); [by apply hoare_ret |]. eapply hoare_bind; [uses b |]. intros hb.
  destruct (_ =? 1).
  - eapply hoare_bind; [by apply Close_live |]. intros z. apply hoare_ret. intros w (_ & bs' & ? & ?).
    exists bs'. split; [by right | done].
  - eapply hoare_bind; [by apply linker_options_live |]. intros []. eapply hoare_bind; [by apply linker_frame_live |].
    by intros [].
Qed.

(** Runs of an [XTcpServer]: it is started, again perhaps, sockets are accepted,
    libevent reports events and input of connections that it has not freed. *)
Inductive server_run (use_thread : bool) (d : D) : world -> Prop :=
  | srv_new : server_run use_thread d (mkWorld (EventServer_new use_thread) d [])
  | srv_start w p z w' : server_run use_thread d w -> Start handle p w = (Ok z, w') -> server_run use_thread d w'
  | srv_accept w fd w' : server_run use_thread d w -> ListenerCallback handle linker_OnAccept fd w = (Ok tt, w') ->
      server_run use_thread d w'
  | srv_event w b bs events w' : server_run use_thread d w -> live (log w) = Some bs -> b ∈ bs ->
      linker_OnEvent handle b events w = (Ok tt, w') -> server_run use_thread d w'
  | srv_read w b bs fuel w' : server_run use_thread d w -> live (log w) = Some bs -> b ∈ bs ->
      linker_OnRead handle fuel b w = (Ok tt, w') -> server_run use_thread d w'.

Lemma server_run_held use_thread d w : server_run use_thread d w -> exists bs, held bs w.
Proof.
  induction 1 as [|w p z w' _ [bs IH] E|w fd w' _ [bs IH] E|w b bs' ev w' _ [bs IH] Hl Hb E|w b bs' n w' _ [bs IH] Hl Hb E].
  - by exists [].
  - pose proof (Start_live p bs w IH) as H. rewrite E in H. exists bs. apply H.
  - assert (forall b, hoare (held (b :: bs)) (linker_OnAccept b fd) (fun _ => held (b :: bs))) as Ha by (intros b; by apply hoare_ret).
    pose proof (ListenerCallback_live _ fd bs Ha w IH) as H. rewrite E in H. destruct H as [b H]. eauto.
  - destruct IH as [IHb IHl]. rewrite IHb in Hl. injection Hl as ->.
    pose proof (linker_OnEvent_live b ev bs' Hb w (conj IHb IHl)) as H. rewrite E in H. destruct H as (bs1 & _ & H). eauto.
  - destruct IH as [IHb IHl]. rewrite IHb in Hl. injection Hl as ->.
    pose proof (linker_OnRead_live n b bs' Hb w (conj IHb IHl)) as H. rewrite E in H. destruct H as (bs1 & _ & H). eauto.
Qed.

(** C23: however the linker server is used, whatever libevent, OpenSSL and etcd
    answer and whatever the clients send: its callbacks never use a connection
    after they have freed it and never free one twice; a broken connection is
    freed at once, one that reports anything else is kept, and reading from one
    frees that one or none.  There is never a second listener, also when the
    server is started again, the destructor frees the one there is, and a start
    that returns 0 with an address leaves it listening. *)
Theorem server_resources use_thread d w :
  server_run use_thread d w ->
  (exists bs, live (log w) = Some bs /\ forall b, b ∈ bs ->
     (forall events w', linker_OnEvent handle b events w = (Ok tt, w') ->
        exists bs', live (log w') = Some bs' /\ if broken events then bs ≡ₚ b :: bs' else bs' = bs) /\
     (forall fuel w', linker_OnRead handle fuel b w = (Ok tt, w') ->
        exists bs', live (log w') = Some bs' /\ maybe_closed b bs bs')) /\
  live_listeners (log w) = Some (option_list (listener_ (self w))) /\
  (forall w', delete handle w = (Ok tt, w') -> live_listeners (log w') = Some []) /\
  (forall p w', Start handle p w = (Ok 0, w') -> size (address p) <> 0 ->
     exists l, live_listeners (log w') = Some [l]).
Proof.
  intros [bs Hw]%server_run_held. pose proof Hw as [Hb Hl]. split_and!; [| done | |].
  - exists bs. split; [done |]. intros b Hin. split.
    + intros ev w' E. pose proof (linker_OnEvent_live b ev bs Hin w Hw) as H. rewrite E in H.
      destruct H as (bs' & H & [H1 _]). eauto.
    + intros n w' E. pose proof (linker_OnRead_live n b bs Hin w Hw) as H. rewrite E in H.
      destruct H as (bs' & H & [H1 _]). eauto.
  - intros w'. unfold delete, mbind, C_bind, get. destruct (listener_ (self w)) as [l|] eqn:El.
    + unfold do. destruct (handle _ (evconnlistener_free l) (drv w)) as [a d']. intros [= Ha <-].
      cbn [log]. unfold live_listeners in *. rewrite resources_snoc, Hl. cbn. by rewrite decide_True by done.
    + unfold mret, C_ret. intros [= <-]. by rewrite Hl.
  - intros p w' E Ha. pose proof (Start_live p bs w (conj Hb Hl)) as H. rewrite E in H. destruct H as [[_ H] [H0|H0]]; [done | done |].
    destruct (listener_ (self w')) as [l|] eqn:El; [| done]. exists l. by rewrite H.
Qed.

(** ** Accepting a connection *)

(** The set-up of a TLS object: only calls into OpenSSL. *)
Definition tls_call (e : event call) : Prop :=
  match e with
  | Event _ c _ =>
      match c with
      | SSL_CTX_new | SSL_CTX_set_verify _ | SSL_CTX_load_verify_locations _ | SSL_CTX_use_certificate_file _
      | SSL_CTX_use_PrivateKey_file _ | SSL_CTX_check_private_key | SSL_new => True
      | _ => False
      end
  end.

(** A call of the set-up that failed. *)
Definition tls_failed (e : event call) : Prop :=
  match e with
  | Event T c a =>
      match c in call T return T -> Prop with
      | SSL_CTX_new => fun a => a = false
      | SSL_CTX_load_verify_locations _ => fun a => a = false
      | SSL_CTX_use_certificate_file _ => fun a => a <= 0
      | SSL_CTX_use_PrivateKey_file _ => fun a => a <= 0
      | SSL_CTX_check_private_key => fun a => a = false
      | SSL_new => fun a => a = None
      | _ => fun _ => False
      end a
  end.

(** [m] only makes calls of the set-up, and its answer is null exactly when one failed. *)
Definition sets_up (m : C D (option SSL)) : Prop :=
  forall w, exists s w' pre, m w = (Ok s, w') /\ self w' = self w /\ log w' = log w ++ pre /\
    Forall tls_call pre /\ (s = None <-> Exists tls_failed pre).

Lemma sets_up_check {T} (c : call T) (good : T -> bool) k :
  (forall a, tls_call (Event T c a)) -> (forall a, good a = false <-> tls_failed (Event T c a)) ->
  sets_up k -> sets_up (check (a ← do handle c; mret (good a)) k).
Proof.
  intros Hc Hg Hk w. unfold check, mbind, C_bind, mret, C_ret, do. destruct (handle T c (drv w)) as [a d].
  specialize (Hg a). destruct (good a).
  - destruct (Hk (mkWorld (self w) d (log w ++ [Event T c a]))) as (s & w' & pre & -> & Hs & Hl & Hp & He).
    exists s, w', (Event T c a :: pre). split_and!; [done | done | by rewrite Hl; cbn [log]; rewrite <- app_assoc | by constructor |].
    rewrite He. split; [by right |]. intros [H|H]%Exists_cons; [| done]. by apply Hg in H.
  - eexists None, _, [Event T c a]. split_and!; [done | done | done | by constructor |].
    split; [| done]. intros _. left. by apply Hg.
Qed.

Lemma sets_up_seq {T} (c : call T) k : (forall a, tls_call (Event T c a)) -> (forall a, ~ tls_failed (Event T c a)) ->
  sets_up k -> sets_up (_ ← do handle c; k).
Proof.
  intros Hc Hg Hk w. unfold mbind, C_bind, do. destruct (handle T c (drv w)) as [a d].
  destruct (Hk (mkWorld (self w) d (log w ++ [Event T c a]))) as (s & w' & pre & -> & Hs & Hl & Hp & He).
  exists s, w', (Event T c a :: pre). split_and!; [done | done | by rewrite Hl; cbn [log]; rewrite <- app_assoc | by constructor |].
  rewrite He. split; [by right |]. intros [H|H]%Exists_cons; [| done]. by destruct (Hg a).
Qed.

Lemma check_plain (m : C D bool) k : sets_up (check (a ← m; mret a) k) -> sets_up (check m k).
Proof.
  intros H w. destruct (H w) as (s & w' & pre & E & Hrest). exists s, w', pre. split; [| done]. rewrite <- E.
  unfold check, mbind, C_bind, mret, C_ret. by destruct (m w) as [[a|] w1].
Qed.

Lemma CreateSSL_sets_up : sets_up (CreateSSL handle).
Proof.
  intros w. change (exists s w' pre, (CreateSSL handle) w = (Ok s, w') /\ self w' = self w /\ log w' = log w ++ pre /\
    Forall tls_call pre /\ (s = None <-> Exists tls_failed pre)).
  unfold CreateSSL. unfold mbind at 1, C_bind at 1, get. cbv beta iota zeta.
  match goal with |- exists s w' pre, ?m w = _ /\ _ => assert (sets_up m) as H; [| exact (H w)] end.
  apply check_plain, (sets_up_check _ id); [done | done |]. apply sets_up_seq; [done | intros a H; exact H |].
  apply check_plain, (sets_up_check _ id); [done | done |].
  apply (sets_up_check _ (Z.ltb 0)); [done | intros a; apply Z.ltb_ge |].
  apply (sets_up_check _ (Z.ltb 0)); [done | intros a; apply Z.ltb_ge |].
  apply check_plain, (sets_up_check _ id); [done | done |].
  intros w1. unfold do. destruct (handle _ SSL_new (drv w1)) as [a d].
  eexists a, _, [Event _ SSL_new a]. split_and!; [done | done | done | by constructor |].
  cbn [tls_failed]. split; [intros ->; by left | intros [H|H%Exists_nil]%Exists_cons; done].
Qed.

(** What is done with the new connection, in order. *)
Definition set_up_calls (b : option bev) (z1 z2 : Z) : list (event call) :=
  match b with
  | None => []
  | Some b => [Event _ (SetTcpNoDelay b) z1; Event _ (bufferevent_setcb b) tt;
               Event _ (bufferevent_enable b) z2]
  end.

Lemma set_up_spec fd b (w : world) : exists w' z1 z2,
  (match b with
   | None => mret tt
   | Some b =>
       _ ← do handle (SetTcpNoDelay b);
       _ ← linker_OnAccept b fd;
       _ ← do handle (bufferevent_setcb b);
       _ ← do handle (bufferevent_enable b);
       mret tt
   end : C D unit) w = (Ok tt, w') /\ self w' = self w /\ log w' = log w ++ set_up_calls b z1 z2.
Proof.
  destruct b as [b|]; [| exists w, 0, 0; by rewrite app_nil_r].
  unfold mbind, C_bind, linker_OnAccept, mret, C_ret, do. destruct (handle _ (SetTcpNoDelay b) (drv w)) as [z1 d1]. cbn [drv self log].
  destruct (handle _ (bufferevent_setcb b) d1) as [[] d3]. cbn [drv self log].
  destruct (handle _ (bufferevent_enable b) d3) as [z2 d4]. cbn [drv self log].
  eexists _, z1, z2. split; [done |]. cbn [self log set_up_calls]. by rewrite <- !app_assoc.
Qed.

(** A socket that libevent accepts becomes one connection, over TLS exactly
    when the parameters say so; its callbacks are set before it is enabled; nothing is done when it could not be
    made.  When the set-up of TLS fails, libevent gets a null TLS object. *)
Theorem accept_spec fd (w : world) :
  exists w' b z1 z2, ListenerCallback handle linker_OnAccept fd w = (Ok tt, w') /\ self w' = self w /\
  if is_ssl (params_ (self w)) then
    exists pre s, Forall tls_call pre /\ (s = None <-> Exists tls_failed pre) /\
      log w' = log w ++ pre ++ [Event _ (bufferevent_openssl_socket_new fd s (use_thread_ (self w))) b]
        ++ set_up_calls b z1 z2
  else log w' = log w ++ [Event _ (bufferevent_socket_new fd (use_thread_ (self w))) b] ++ set_up_calls b z1 z2.
Proof.
  unfold ListenerCallback, mbind, C_bind, get, do. cbv beta iota zeta. destruct (is_ssl (params_ (self w))).
  - destruct (CreateSSL_sets_up w) as (s & w1 & pre & E & Hs & Hl & Hp & He). rewrite E.
    destruct (handle _ (bufferevent_openssl_socket_new fd s (use_thread_ (self w))) (drv w1)) as [b d].
    destruct (set_up_spec fd b (mkWorld (self w1) d (log w1 ++ [Event _ (bufferevent_openssl_socket_new fd s (use_thread_ (self w))) b])))
      as (w2 & z1 & z2 & E2 & Hs2 & Hl2).
    exists w2, b, z1, z2. split; [exact E2 |]. split; [by rewrite Hs2 |]. exists pre, s. split_and!; [done | done |].
    rewrite Hl2. cbn [log]. by rewrite Hl, <- !app_assoc.
  - destruct (handle _ (bufferevent_socket_new fd (use_thread_ (self w))) (drv w)) as [b d].
    destruct (set_up_spec fd b (mkWorld (self w) d (log w ++ [Event _ (bufferevent_socket_new fd (use_thread_ (self w))) b])))
      as (w2 & z1 & z2 & E2 & Hs2 & Hl2).
    exists w2, b, z1, z2. split; [exact E2 |]. split; [by rewrite Hs2 |]. rewrite Hl2. cbn [log]. by rewrite <- !app_assoc.
Qed.

(** A second [Start] is refused, but only after it has replaced the parameters:
    from then on connections are accepted with them. *)
Theorem start_again p w l : listener_ (self w) = Some l -> size (address p) <> 0 ->
  Start handle p w = (Ok (-1), mkWorld (setParams p (self w)) (drv w) (log w)).
Proof.
  intros Hl Ha. unfold Start. rewrite (proj2 (Z.eqb_neq _ _) Ha). unfold mbind, C_bind, upd, get, mret, C_ret.
  cbv beta iota zeta. change (listener_ (self (mkWorld (setParams p (self w)) (drv w) (log w)))) with (listener_ (self w)).
  by rewrite Hl.
Qed.

(** Without an address [Start] reports success and listens to nothing. *)
Theorem start_without_address p w : size (address p) = 0 -> Start handle p w = (Ok 0, w).
Proof. intros Ha. unfold Start. by rewrite Ha. Qed.
End Props.

(** ** The event loop *)
Definition stops (t : tick) : bool := match t with Timer s _ => s | Other s => s end.
Definition is_timer (t : tick) : bool := match t with Timer _ _ => true | Other _ => false end.
Definition timers (l : list tick) : nat := length (filter (fun t => is_timer t = true) l).

(** The loop has run [n] times and still waits; it was told to end. *)
Definition waiting (running : bool) (n : nat) : EventWrapper := mkWrapper running true true false false n.
Definition ended (n : nat) : EventWrapper := mkWrapper false true false false true n.

Lemma ticks_no_stop l n : Forall (fun t => stops t = false) l ->
  fold_left run_tick l (waiting true n) = waiting true (timers l + n).
Proof.
  revert n. induction l as [|t l IH]; intros n Hl; [done |]. apply Forall_cons in Hl as [Ht Hl].
  destruct t as [s o|s]; simpl in Ht; subst s; cbn [fold_left run_tick].
  - change (default_event_ (waiting true n)) with true. cbv iota.
    change (TimeoutCallback false o (waiting true n)) with (waiting true (S n)). rewrite IH by done.
    f_equal. unfold timers. rewrite filter_cons_True by done. cbn [length]. lia.
  - by rewrite IH.
Qed.

Lemma ticks_no_timer l running n : Forall (fun t => is_timer t = false) l ->
  fold_left run_tick l (waiting running n) = waiting (running && negb (existsb stops l)) n.
Proof.
  intros Hl. revert running. induction Hl as [|t l Ht _ IH]; intros running; [by rewrite andb_true_r |].
  destruct t as [s o|[]]; [done | |]; cbn [fold_left run_tick existsb stops orb negb].
  - change (wrapper_Stop (waiting running n)) with (waiting false n). rewrite IH. by rewrite andb_false_r.
  - apply IH.
Qed.

(** Once the loop was told to end, nothing in that turn changes that. *)
Lemma ticks_ended l n : fold_left run_tick l (ended n) = ended n.
Proof. induction l as [|[s o|[]] l IH]; [done | | |]; exact IH. Qed.

Lemma tick_timer s running n : s = true \/ running = false -> run_tick (waiting running n) (Timer s true) = ended (S n).
Proof. intros Hs. by destruct s, running; destruct Hs. Qed.

Lemma loop_waits others l rest running n :
  event_base_dispatch others (Turn l :: rest) (waiting running n) =
  event_base_dispatch others rest (fold_left run_tick l (waiting running n)).
Proof. done. Qed.

Lemma loop_ended others rest n : event_base_dispatch others rest (ended n) = Some (ended n).
Proof. by destruct rest as [|[] ?]. Qed.

Lemma loop_no_stop others ls rest n : Forall (Forall (fun t => stops t = false)) ls ->
  event_base_dispatch others (map Turn ls ++ rest) (waiting true n) =
  event_base_dispatch others rest (waiting true (timers (concat ls) + n)).
Proof.
  revert n. induction ls as [|l ls IH]; intros n Hl; [done |]. apply Forall_cons in Hl as [Ht Hl]. cbn [map app].
  rewrite loop_waits, ticks_no_stop, IH by done. do 2 f_equal. unfold timers. cbn [concat]. rewrite filter_app, length_app. lia.
Qed.

Lemma loop_no_timer others ls rest running n : Forall (Forall (fun t => is_timer t = false)) ls ->
  event_base_dispatch others (map Turn ls ++ rest) (waiting running n) =
  event_base_dispatch others rest (waiting (running && negb (existsb stops (concat ls))) n).
Proof.
  intros Hl. revert running. induction Hl as [|l ls Ht _ IH]; intros running; [by rewrite andb_true_r |]. cbn [map app concat].
  rewrite loop_waits, ticks_no_timer, IH by done. by rewrite existsb_app, negb_orb, andb_assoc.
Qed.

Lemma Run_waits others ls : Forall (Forall (fun t => stops t = false)) ls ->
  Run true others (map Turn ls) (EventWrapper_new true) = Ok None.
Proof.
  intros Hl. unfold Run. cbn [EventWrapper_new event_base_ freed negb is_running_ exiting loops].
  change (mkWrapper true true true false false 0) with (waiting true 0).
  by rewrite <- (app_nil_r (map Turn ls)), loop_no_stop.
Qed.

(** C39: [Run] goes on as long as nobody calls [Stop] and libevent can wait for
    events.  It returns after the turn of the loop with the first callback of the
    timer in or after which [Stop] was called, whatever else runs in that turn,
    after [OnLoop] ran once for every callback of the timer before; the event base
    is freed then, and running the same object again uses it after it was freed.
    When the wait fails, [Run] returns at once, and nobody is told. *)
Theorem run_until_stop others before between pre s post rest :
  Forall (Forall (fun t => stops t = false)) before ->
  Forall (Forall (fun t => is_timer t = false)) between -> Forall (fun t => is_timer t = false) pre ->
  let freed_after w n running := loops w = n /\ is_running_ w = running /\ freed w = true /\
     forall ok others' turns, Run ok others' turns w = Fault Undefined in
  Run true others (map Turn before) (EventWrapper_new true) = Ok None /\
  (s = true \/ existsb stops (concat between ++ pre) = true ->
   exists w, Run true others (map Turn before ++ map Turn between ++ Turn (pre ++ Timer s true :: post) :: rest)
                 (EventWrapper_new true) = Ok (Some w) /\ freed_after w (S (timers (concat before))) false) /\
  (exists w, Run true others (map Turn before ++ Failed :: rest) (EventWrapper_new true) = Ok (Some w) /\
     freed_after w (timers (concat before)) true).
Proof.
  intros Hb Ht Hp. cbv zeta. split; [by apply Run_waits |]. unfold Run. cbn [EventWrapper_new event_base_ freed negb is_running_ exiting loops].
  change (mkWrapper true true true false false 0) with (waiting true 0). split_and!.
  - intros Hs. rewrite loop_no_stop, loop_no_timer, loop_waits, fold_left_app, ticks_no_timer, Nat.add_0_r by done.
    cbn [fold_left]. rewrite tick_timer, ticks_ended, loop_ended; [by eexists |].
    destruct Hs as [Hs|Hs]; [by left | right]. rewrite existsb_app in Hs. by destruct (existsb _ _), (existsb stops pre).
  - rewrite loop_no_stop, Nat.add_0_r by done. by eexists.
Qed.

(** ** Witnesses *)
Definition demo_handle (T : Type) (c : call T) (d : nat) : T * nat :=
  match c in call T return T * nat with
  | Shell => (fun _ => None, d)
  | getaddrinfo _ _ => ((0, true), d)
  | evconnlistener_new_bind => (Some 1%positive, d)
  | evconnlistener_free _ => (tt, d)
  | SSL_CTX_new => (true, d)
  | SSL_CTX_set_verify _ => (tt, d)
  | SSL_CTX_load_verify_locations _ => (false, d)
  | SSL_CTX_use_certificate_file _ => (1, d)
  | SSL_CTX_use_PrivateKey_file _ => (1, d)
  | SSL_CTX_check_private_key => (true, d)
  | SSL_new => (Some 1%positive, d)
  | bufferevent_socket_new _ _ => (Some (Pos.of_succ_nat d), S d)
  | bufferevent_openssl_socket_new _ _ _ => (None, d)
  | SetTcpNoDelay _ => (0, d)
  | bufferevent_setcb _ => (tt, d)
  | bufferevent_enable _ => (0, d)
  | bufferevent_disable _ => (0, d)
  | bufferevent_openssl_get_ssl _ => (None, d)
  | SSL_set_shutdown _ => (tt, d)
  | SSL_shutdown _ => (0, d)
  | bufferevent_free _ => (tt, d)
  | evbuffer_get_length _ => (16, d)
  | evbuffer_pullup _ _ => (Some (head_bytes (mkHead 1 0 101 0 0 0)), d)
  | evbuffer_remove _ _ => (head_bytes (mkHead 1 0 101 0 0 0), d)
  | evbuffer_drain _ _ => (tt, d)
  | bufferevent_write _ _ => (tt, d)
  | time => (0, d)
  end.

Definition demo_params : ConnectionParams := mkParams (lit "10.0.0.1") (lit "8888") [] [] [] [] [] false false (lit "server/").
Definition demo_new : World nat := mkWorld (EventServer_new false) 0%nat [].
Definition demo_started : World nat := (Start demo_handle demo_params demo_new).2.
Definition demo_two : World nat := (ListenerCallback demo_handle linker_OnAccept 6 (ListenerCallback demo_handle linker_OnAccept 5 demo_started).2).2.
Definition demo_broken : World nat := (linker_OnEvent demo_handle 1 32 demo_two).2.
Definition demo_end : World nat := (linker_OnRead demo_handle 1 2 demo_broken).2.

(** A server that accepted two connections, of which the first breaks and the
    second sends a frame of version 1. *)
Lemma server_resources_witness :
  (live (log demo_broken) = Some [2%positive] /\ exists bs, live (log demo_end) = Some bs /\ maybe_closed 2%positive [2%positive] bs) /\
  live (log demo_end) = Some [] /\ live_listeners (log demo_end) = Some (option_list (listener_ (self demo_end))).
Proof.
  assert (server_run demo_handle false 0%nat demo_started) as H0
    by (apply (srv_start _ _ _ demo_new demo_params 0); [apply srv_new | vm_compute; reflexivity]).
  assert (server_run demo_handle false 0%nat demo_two) as H2.
  { apply (srv_accept _ _ _ (ListenerCallback demo_handle linker_OnAccept 5 demo_started).2 6); [| vm_compute; reflexivity].
    apply (srv_accept _ _ _ demo_started 5); [exact H0 | vm_compute; reflexivity]. }
  assert (server_run demo_handle false 0%nat demo_broken) as H3
    by (apply (srv_event _ _ _ demo_two 1 [2; 1]%positive 32); [exact H2 | vm_compute; reflexivity | set_solver | vm_compute; reflexivity]).
  assert (server_run demo_handle false 0%nat demo_end) as H4
    by (apply (srv_read _ _ _ demo_broken 2 [2]%positive 1); [exact H3 | vm_compute; reflexivity | set_solver | vm_compute; reflexivity]).
  assert (live (log demo_broken) = Some [2%positive]) as Hl by (vm_compute; reflexivity).
  destruct (server_resources demo_handle false 0%nat demo_broken H3) as ((bs & E & Hbs) & _).
  rewrite Hl in E. injection E as <-. split; [split; [exact Hl |] |].
  - apply (proj2 (Hbs 2%positive ltac:(set_solver)) 1%nat). vm_compute. reflexivity.
  - split; [vm_compute; reflexivity |]. apply (proj1 (proj2 (server_resources demo_handle false 0%nat demo_end H4))).
Defined.

(** A derived class whose [OnAccept] closes the connection: the callback of the
    listener goes on to use it after it was freed. *)
Example accept_must_not_close :
  live (log (ListenerCallback demo_handle (fun b _ => _ ← Close demo_handle b; mret tt) 5 demo_started).2) = None.
Proof. vm_compute. reflexivity. Qed.

Lemma run_until_stop_witness : exists w,
  Run true true [Turn [Timer false true; Other false]; Turn [Timer false true]; Turn [Other true];
                 Turn [Timer false true; Other false]; Failed] (EventWrapper_new true) = Ok (Some w) /\
  loops w = 3%nat.
Proof.
  destruct (run_until_stop true [[Timer false true; Other false]; [Timer false true]] [[Other true]] [] false [Other false] [Failed])
    as (_ & H & _); [by repeat constructor | by repeat constructor | done |].
  destruct (H (or_intror eq_refl)) as (w & E & Hl & _). exists w. split; [exact E | exact Hl].
Defined.
