(* ===== verification/EventCallbacks.v ===== *)
(** * Callbacks and socket options: the static functions of
    [src/src/tcp/src/event_wrapper.cpp]

    The virtual functions a derived class overrides, libevent and the kernel are
    calls; the object is the parameters of the wrapper. *)
From S2P Require Import Prelude CStr Trace ConnParams Server.
Open Scope Z_scope.

Abbreviation bev := positive.

(** Options of a socket, with their levels. *)
Inductive sockopt : Type := TCP_NODELAY | SO_KEEPALIVE | TCP_KEEPIDLE | TCP_KEEPINTVL | TCP_KEEPCNT.

Inductive call : Type -> Type :=
  | OnRead (b : bev) : call unit
  | OnWrite (b : bev) : call unit
  | OnEvent (b : bev) (events : Z) : call unit
  | bufferevent_get_openssl_error (b : bev) : call Z
  | bufferevent_getfd (b : bev) : call Z
  | setsockopt (fd : Z) (o : sockopt) (value : Z) : call Z.

Abbreviation World := (Trace.World call ConnectionParams).
Abbreviation C := (Trace.C call ConnectionParams).

Section Callbacks.
Context {D : Type} (handle : forall T, call T -> D -> T * D).
Local Abbreviation do := (Trace.do handle).

Definition ReadCallback (b : bev) : C D unit := do (OnRead b).
Definition WriteCallback (b : bev) : C D unit := do (OnWrite b).

(** The loop over OpenSSL's errors. *)
Fixpoint drain_errors (fuel : nat) (b : bev) : C D unit :=
  match fuel with
  | O => lift (Fault OutOfFuel)
  | S fuel =>
      p ← get;
      if is_ssl p then
        oslerr ← do (bufferevent_get_openssl_error b);
        if oslerr =? 0 then mret tt else drain_errors fuel b
      else mret tt
  end.

Definition EventCallback (fuel : nat) (b : bev) (events : Z) : C D unit :=
  _ ← (if broken events then drain_errors fuel b else mret tt);
  do (OnEvent b events).

Definition SetTcpNoDelay (b : bev) : C D Z :=
  fd ← do (bufferevent_getfd b); do (setsockopt fd TCP_NODELAY 1).

(** The results of the four calls are not looked at. *)
Definition SetKeepAlive (b : bev) (keepAlive keepIdle keepInterval keepCount : Z) : C D Z :=
  fd ← do (bufferevent_getfd b);
  _ ← do (setsockopt fd SO_KEEPALIVE keepAlive);
  _ ← do (setsockopt fd TCP_KEEPIDLE keepIdle);
  _ ← do (setsockopt fd TCP_KEEPINTVL keepInterval);
  _ ← do (setsockopt fd TCP_KEEPCNT keepCount);
  mret 0.
End Callbacks.

(** ** The errors of a connection are a queue *)
Section Errors.
Context {D : Type} (handle : forall T, call T -> D -> T * D) (errors : D -> list Z).
Context (next_error : forall b d, (handle _ (bufferevent_get_openssl_error b) d).1 = default 0 (head (errors d)) /\
  errors (handle _ (bufferevent_get_openssl_error b) d).2 = tail (errors d)).
Context (nonzero : forall d, Forall (fun e => e <> 0) (errors d)).

(** One call for every error, and one that answers 0. *)
Definition error_calls (b : bev) (es : list Z) : list (event call) :=
  map (fun e => Event _ (bufferevent_get_openssl_error b) e) (es ++ [0]).

Lemma drain_errors_spec b fuel : forall (w : World D), is_ssl (self w) = true -> (length (errors (drv w)) < fuel)%nat ->
  exists w', drain_errors handle fuel b w = (Ok tt, w') /\ self w' = self w /\ errors (drv w') = [] /\
    log w' = log w ++ error_calls b (errors (drv w)).
Proof.
  induction fuel as [|fuel IH]; intros w Hs Hf; [lia |]. cbn [drain_errors]. unfold mbind, C_bind, get, do. rewrite Hs.
  destruct (next_error b (drv w)) as [H1 H2]. pose proof (nonzero (drv w)) as Hz.
  destruct (handle _ (bufferevent_get_openssl_error b) (drv w)) as [e d]. cbn [fst snd] in H1, H2. subst e.
  destruct (errors (drv w)) as [|e es]; cbn [head tail] in *.
  - eexists. split; [reflexivity |]. by split_and!.
  - apply Forall_cons in Hz as [Hz _]. change (default 0 (Some e)) with e. rewrite (proj2 (Z.eqb_neq e 0)) by done.
    destruct (IH (mkWorld (self w) d (log w ++ [Event Z (bufferevent_get_openssl_error b) e]))) as (w' & E & Hs' & He & Hl);
      [done | cbn [drv]; rewrite H2; cbn [length] in Hf; lia |].
    exists w'. split; [exact E |]. split; [done |]. split; [done |]. rewrite Hl. cbn [drv log]. rewrite H2.
    by rewrite <- app_assoc.
Qed.
End Errors.

(** An event is handed to the object once and as it came; on a TLS
    connection whose event is an error the errors of OpenSSL are taken out first,
    to the last, and on others none is. *)
Theorem EventCallback_spec {D} (handle : forall T, call T -> D -> T * D) (errors : D -> list Z) b events fuel (w : World D) :
  (forall b d, (handle _ (bufferevent_get_openssl_error b) d).1 = default 0 (head (errors d)) /\
     errors (handle _ (bufferevent_get_openssl_error b) d).2 = tail (errors d)) ->
  (forall d, Forall (fun e => e <> 0) (errors d)) ->
  (length (errors (drv w)) < fuel)%nat ->
  exists w', EventCallback handle fuel b events w = (Ok tt, w') /\
    log w' = log w ++ (if broken events && is_ssl (self w) then error_calls b (errors (drv w)) else [])
                   ++ [Event _ (OnEvent b events) tt].
Proof.
  intros Hn Hz Hf. unfold EventCallback.
  assert (exists w1, (if broken events then drain_errors handle fuel b else mret tt) w = (Ok tt, w1) /\
    log w1 = log w ++ (if broken events && is_ssl (self w) then error_calls b (errors (drv w)) else [])) as (w1 & E & Hl).
  { destruct (broken events); cbn [andb]; [| exists w; by rewrite app_nil_r].
    destruct (is_ssl (self w)) eqn:Es.
    - destruct (drain_errors_spec handle errors Hn Hz b fuel w Es Hf) as (w1 & E & _ & _ & Hl). by exists w1.
    - exists w. rewrite app_nil_r. split; [| done]. destruct fuel as [|fuel]; [lia |]. cbn [drain_errors].
      unfold mbind, C_bind, get. by rewrite Es. }
  unfold mbind, C_bind. rewrite E. unfold do. destruct (handle unit (OnEvent b events) (drv w1)) as [[] d].
  eexists. split; [reflexivity |]. cbn [log]. by rewrite Hl, app_assoc.
Qed.

(** A queue of errors. *)
Definition error_queue (T : Type) (c : call T) : list Z -> T * list Z :=
  match c in call T return list Z -> T * list Z with
  | OnRead _ => fun d => (tt, d)
  | OnWrite _ => fun d => (tt, d)
  | OnEvent _ _ => fun d => (tt, d)
  | bufferevent_get_openssl_error _ => fun d => (default 0 (head (filter (fun e => e <> 0) d)), tail (filter (fun e => e <> 0) d))
  | bufferevent_getfd _ => fun d => (5, d)
  | setsockopt _ _ _ => fun d => (0, d)
  end.

Definition tls_params : ConnectionParams := mkParams [] [] [] [] [] [] [] true false [].

Lemma EventCallback_spec_witness : exists w',
  EventCallback error_queue 3 1 BEV_EVENT_ERROR (mkWorld tls_params [17; 19] []) = (Ok tt, w') /\
  log w' = error_calls 1 [17; 19] ++ [Event _ (OnEvent 1 BEV_EVENT_ERROR) tt].
Proof.
  destruct (EventCallback_spec error_queue (filter (fun e => e <> 0)) 1 BEV_EVENT_ERROR 3 (mkWorld tls_params [17; 19] []))
    as (w' & E & Hl).
  - intros b d. split; [done |]. cbn [error_queue snd]. apply filter_all. intros x Hx.
    assert (x ∈ filter (fun e => e <> 0) d) as H by (destruct (filter _ d); [by apply elem_of_nil in Hx | by right]).
    by apply list_elem_of_filter in H as [? _].
  - intros d. apply Forall_forall. intros x Hx%list_elem_of_filter. apply Hx.
  - vm_compute. lia.
  - exists w'. split; [exact E |]. rewrite Hl. vm_compute. reflexivity.
Defined.
