(* ===== verification/SpinLock.v ===== *)
(** * Spin locks: [src/src/utils/spin_lock.h]

    Threads run a program of critical sections; every atomic operation on the
    flag is one step, so runs are interleavings of the threads' steps. *)
From S2P Require Import Prelude.

(** Where a thread is: outside, in the loop of [lock], inside, about to clear
    the flag in [unlock]. *)
Inductive pc : Type := Outside | Spinning | Inside | Leaving.

#[export] Instance pc_eq_dec : EqDecision pc.
Proof. solve_decision. Defined.

Record SpinLock : Type := mkLock { flag_ : bool; threads : gmap positive pc }.

(** [flag_.test_and_set()]: the old value, and the flag set. *)
Definition test_and_set (s : SpinLock) : bool * SpinLock := (flag_ s, mkLock true (threads s)).
Definition clear (s : SpinLock) : SpinLock := mkLock false (threads s).
Definition goto (t : positive) (p : pc) (s : SpinLock) : SpinLock := mkLock (flag_ s) (<[t := p]> (threads s)).

(** One step of the thread [t]. *)
Inductive step (t : positive) : SpinLock -> SpinLock -> Prop :=
  | step_lock s : threads s !! t = Some Outside -> step t s (goto t Spinning s)
  | step_spin s : threads s !! t = Some Spinning -> (test_and_set s).1 = true -> step t s (test_and_set s).2
  | step_acquire s : threads s !! t = Some Spinning -> (test_and_set s).1 = false ->
      step t s (goto t Inside (test_and_set s).2)
  | step_work s : threads s !! t = Some Inside -> step t s (goto t Leaving s)
  | step_unlock s : threads s !! t = Some Leaving -> step t s (goto t Outside (clear s)).

Definition steps (s s' : SpinLock) : Prop := exists t, step t s s'.

(** [ATOMIC_FLAG_INIT], and threads outside. *)
Definition start (ts : gset positive) : SpinLock := mkLock false (gset_to_gmap Outside ts).

Definition holds (s : SpinLock) (t : positive) : Prop :=
  threads s !! t = Some Inside \/ threads s !! t = Some Leaving.

(** The flag is set exactly while some thread holds the lock, and only one does. *)
Definition lock_ok (s : SpinLock) : Prop :=
  (flag_ s = false -> forall t, ~ holds s t) /\
  (flag_ s = true -> exists t, holds s t) /\
  (forall t u, holds s t -> holds s u -> t = u).

Lemma holds_goto s t p u : holds (goto t p s) u <-> if decide (u = t) then p = Inside \/ p = Leaving else holds s u.
Proof.
  unfold holds, goto. cbn [threads]. destruct (decide (u = t)) as [->|Hne].
  - rewrite lookup_insert_eq. naive_solver.
  - by rewrite lookup_insert_ne.
Qed.

Lemma step_ok t s s' : step t s s' -> lock_ok s -> lock_ok s'.
Proof.
  intros Hs (Hf & Ht & Hu). unfold lock_ok.
  destruct Hs as [s Hp|s Hp Hb|s Hp Hb|s Hp|s Hp]; cbn [test_and_set clear goto flag_ fst snd] in *.
  - split_and!.
    + intros E u Hh%holds_goto. case_decide; [by destruct Hh | by apply (Hf E u)].
    + intros E. destruct (Ht E) as [u Hh]. exists u. apply holds_goto. case_decide; [subst | done].
      destruct Hh as [Hh|Hh]; congruence.
    + intros a b Ha%holds_goto Hb%holds_goto. repeat case_decide; subst; try done; try (by destruct Ha); try (by destruct Hb); by apply Hu.
  - split_and!; [done | by intros _; destruct (Ht Hb) as [u Hh]; exists u | exact Hu].
  - assert (forall u, holds (goto t Inside (mkLock true (threads s))) u -> u = t) as Hone.
    { intros u Hh%holds_goto. case_decide; [done |]. by destruct (Hf Hb u). }
    split_and!; [done | | intros a b Ha%Hone Hb'%Hone; congruence].
    intros _. exists t. apply holds_goto. rewrite decide_True by done. by left.
  - assert (holds s t) as Hh by by left.
    split_and!.
    + intros E u _. by apply (Hf E t).
    + intros _. exists t. apply holds_goto. rewrite decide_True by done. by right.
    + intros a b Ha%holds_goto Hb%holds_goto. repeat case_decide; subst; try done; by apply Hu.
  - assert (holds s t) as Hh by by right.
    assert (forall u, ~ holds (goto t Outside (mkLock false (threads s))) u) as Hnone.
    { intros u Hh'%holds_goto. case_decide as Hne; [by destruct Hh' |]. apply Hne. by apply (Hu u t). }
    split_and!; [intros _; exact Hnone | done | intros a b Ha; by destruct (Hnone a)].
Qed.

Lemma start_ok ts : lock_ok (start ts).
Proof.
  assert (forall t, ~ holds (start ts) t) as Hn.
  { intros t. unfold holds, start. cbn [threads]. rewrite lookup_gset_to_gmap.
    unfold guard. case_match; cbn; naive_solver. }
  split_and!; [by intros _ | done |]. intros t u Ht. by destruct (Hn t).
Qed.

(** In every interleaving of any number of threads at most one is between
    [lock] and [unlock], and the flag is set exactly when one is; so a thread
    that spins gets the lock with its next step once the holder has left. *)
Theorem mutual_exclusion ts s :
  rtc steps (start ts) s ->
  (forall t u, holds s t -> holds s u -> t = u) /\
  (flag_ s = true <-> exists t, holds s t) /\
  (forall t, threads s !! t = Some Spinning -> (forall u, ~ holds s u) -> exists s', step t s s' /\ holds s' t).
Proof.
  intros Hr. assert (lock_ok s) as (Hf & Ht & Hu).
  { generalize (start_ok ts). induction Hr as [|x y z [t Hs] _ IH]; [done |].
    intros Hx. by apply IH, (step_ok t x). }
  split_and!; [exact Hu | |].
  - split; [exact Ht |]. intros [t Hh]. destruct (flag_ s) eqn:E; [done |]. by destruct (Hf eq_refl t).
  - intros t Hp Hn. destruct (flag_ s) eqn:E; [destruct (Ht eq_refl) as [u Hh]; by destruct (Hn u) |].
    eexists. split; [by apply step_acquire |]. apply holds_goto. rewrite decide_True by done. by left.
Qed.

Lemma mutual_exclusion_witness :
  exists s, threads s !! 1%positive = Some Leaving /\ threads s !! 2%positive = Some Spinning /\
    (forall t u, holds s t -> holds s u -> t = u).
Proof.
  exists (mkLock true {[ 1%positive := Leaving; 2%positive := Spinning ]}).
  split_and!; [reflexivity | reflexivity |]. refine (proj1 (mutual_exclusion {[ 1%positive; 2%positive ]} _ _)).
  apply rtc_l with (mkLock false {[ 1%positive := Spinning; 2%positive := Outside ]}); [exists 1%positive; exact (step_lock 1 (mkLock false {[ 1%positive := Outside; 2%positive := Outside ]}) eq_refl) |].
  apply rtc_l with (mkLock false {[ 1%positive := Spinning; 2%positive := Spinning ]}); [exists 2%positive; exact (step_lock 2 (mkLock false {[ 1%positive := Spinning; 2%positive := Outside ]}) eq_refl) |].
  apply rtc_l with (mkLock true {[ 1%positive := Inside; 2%positive := Spinning ]}); [exists 1%positive; exact (step_acquire 1 (mkLock false {[ 1%positive := Spinning; 2%positive := Spinning ]}) eq_refl eq_refl) |].
  apply rtc_l with (mkLock true {[ 1%positive := Inside; 2%positive := Spinning ]}); [exists 2%positive; exact (step_spin 2 (mkLock true {[ 1%positive := Inside; 2%positive := Spinning ]}) eq_refl eq_refl) |].
  apply rtc_once. exists 1%positive. exact (step_work 1 (mkLock true {[ 1%positive := Inside; 2%positive := Spinning ]}) eq_refl).
Defined.
