(* ===== verification/Log.v ===== *)
(** * Logging: [src/src/zlog/src/ztp_log.cc], [zlog/zlog/ztp_log.h], [use_mysql/slog.cpp]

    [spdlog] is a library: a class of calls on its registry of loggers and its
    thread pool ([SpdLog]), with what its documentation says of them
    ([SpdLogLaws]).  A [Logger] says what it was made with; patterns and the text
    of messages are left out.  The mutex of [setup_log_system] makes it one step. *)
From S2P Require Import Prelude CStr StdString StringAssist SysUtil.
Open Scope Z_scope.

(** [pool] is the thread pool of an asynchronous logger, [handler] says that the
    error handler of the program was given to it. *)
Record Logger : Type := mkLogger {
  logger_name : str; console : bool; file : option str; pool : option nat; level : Z; handler : bool }.

(** [daily_file_sink] answers [false] and [register_logger] [None] for an
    [spdlog_ex]. *)
Class SpdLog (R : Type) := {
  init_thread_pool : R -> Z -> Z -> R;
  thread_pool : R -> option nat;
  set_error_handler : R -> R;
  flush_every : R -> Z -> R;
  get_logger : R -> str -> option Logger;
  daily_file_sink : R -> str -> R * bool;
  register_logger : R -> Logger -> option R;
  drop_all : R -> R
}.

Definition set_handler (l : Logger) : Logger :=
  mkLogger (logger_name l) (console l) (file l) (pool l) (level l) true.

Class SpdLogLaws (R : Type) `{SpdLog R} := {
  pool_init r q n : is_Some (thread_pool (init_thread_pool r q n));
  get_init r q n x : get_logger (init_thread_pool r q n) x = get_logger r x;
  pool_handler r : thread_pool (set_error_handler r) = thread_pool r;
  get_handler r x : get_logger (set_error_handler r) x = set_handler <$> get_logger r x;
  pool_flush r s : thread_pool (flush_every r s) = thread_pool r;
  get_flush r s x : get_logger (flush_every r s) x = get_logger r x;
  pool_sink r p : thread_pool (daily_file_sink r p).1 = thread_pool r;
  get_sink r p x : get_logger (daily_file_sink r p).1 x = get_logger r x;
  register_none r l : register_logger r l = None <-> is_Some (get_logger r (logger_name l));
  pool_register r l r' : register_logger r l = Some r' -> thread_pool r' = thread_pool r;
  get_register r l r' x : register_logger r l = Some r' ->
    get_logger r' x = if decide (x = logger_name l) then Some l else get_logger r x;
  pool_drop r : thread_pool (drop_all r) = thread_pool r;
  get_drop r x : get_logger (drop_all r) x = None
}.

Definition BASE_LOGGER_NAME : str := lit "base".

Section Log.
Context {R FS : Type} `{SpdLog R} (access : FS -> str -> bool) (mkdir : FS -> str -> FS * bool).

(** [inited] is the static variable of [setup_log_system]. *)
Record LogSys : Type := mkLogSys { inited : bool; spd : R; disk : FS }.

Definition shutdown_log_system (s : LogSys) : LogSys := mkLogSys (inited s) (drop_all (spd s)) (disk s).

Definition init_once (s : LogSys) : LogSys :=
  if inited s then s
  else mkLogSys true (flush_every (set_error_handler (init_thread_pool (spd s) 81920 2)) 2) (disk s).

Definition log_path (dir filename : str) : str := dir ++ lit "/" ++ filename ++ lit ".log".

Definition setup_log_system (dir filename : str) (loglevel : Z) (loggername : str) (show_console : bool)
    (s : LogSys) : res LogSys :=
  let s := init_once s in
  match get_logger (spd s) loggername with
  | Some _ => Ok s
  | None =>
      '(fs, made) ← CreateDir access mkdir (Util.c_str dir) (disk s);
      if negb (made =? 0) then Ok (mkLogSys (inited s) (spd s) fs)
      else
        let path := log_path dir filename in
        let '(r, opened) := daily_file_sink (spd s) path in
        let s := mkLogSys (inited s) r fs in
        if negb opened then Ok s
        else
          let combined_logger := mkLogger loggername show_console (Some path) (thread_pool r) loglevel false in
          match register_logger r combined_logger with
          | None => Ok s
          | Some r => Ok (mkLogSys (inited s) r fs)
          end
  end.

(** [LoG]: no logger, below its level, handed to its sinks, or lost because its
    thread pool is gone. *)
Variant outcome : Type := Silent | Below (l : Logger) | Written (l : Logger) | Lost (l : Logger).

Definition LoG (loggername : str) (lvl : Z) (s : LogSys) : outcome :=
  match get_logger (spd s) loggername with
  | None => Silent
  | Some p =>
      if lvl <? level p then Below p
      else match pool p with
           | None => Written p
           | Some _ => if bool_decide (thread_pool (spd s) = pool p) then Written p else Lost p
           end
  end.

(** [SlogInit] of [use_mysql/slog.cpp]: [get(name)->set_pattern(...)]. *)
Definition deref (loggername : str) (s : LogSys) : res LogSys :=
  match get_logger (spd s) loggername with Some _ => Ok s | None => Fault Undefined end.

Definition BASE_DATA_LOGGER_NAME : str := lit "transfer_cfetsmysql".

Definition SlogInit (dir : str) (level : Z) (s : LogSys) : res LogSys :=
  s ← setup_log_system dir BASE_LOGGER_NAME level BASE_LOGGER_NAME true s;
  s ← deref BASE_LOGGER_NAME s;
  s ← setup_log_system dir BASE_DATA_LOGGER_NAME level BASE_DATA_LOGGER_NAME true s;
  deref BASE_DATA_LOGGER_NAME s.

(** What threads do, in the order the locks give. *)
Variant op : Type :=
  | Setup (dir filename : str) (loglevel : Z) (loggername : str) (show_console : bool)
  | Log (loggername : str) (lvl : Z)
  | Shutdown.

Definition step (o : op) (s : LogSys) : res (LogSys * list outcome) :=
  match o with
  | Setup d f lv n c => s ← setup_log_system d f lv n c s; Ok (s, [])
  | Log n lvl => Ok (s, [LoG n lvl s])
  | Shutdown => Ok (shutdown_log_system s, [])
  end.

Fixpoint steps (os : list op) (s : LogSys) : res (LogSys * list outcome) :=
  match os with
  | [] => Ok (s, [])
  | o :: os =>
      '(s, l) ← step o s;
      '(s, l') ← steps os s;
      Ok (s, l ++ l')
  end.
End Log.
Arguments LogSys : clear implicits.
Arguments mkLogSys {R FS} _ _ _.
Arguments inited {R FS} _.
Arguments spd {R FS} _.
Arguments disk {R FS} _.
