(* ===== verification/LogProps.v ===== *)
(** * Logging: the first set-up of a name decides, no message is lost *)
From S2P Require Import Prelude CStr StdString StringAssist SysUtil Log.
Open Scope Z_scope.

Section Props.
Context {R FS : Type} `{SpdLogLaws R} (access : FS -> str -> bool) (mkdir : FS -> str -> FS * bool).
Notation setup := (setup_log_system access mkdir).
Notation steps := (steps access mkdir).
Notation LogSys := (LogSys R FS).

(** What the one-time initialisation does to the loggers there are. *)
Definition after_init (s : LogSys) (l : Logger) : Logger := if inited s then l else set_handler l.

Lemma init_once_get (s : LogSys) x : get_logger (spd (init_once s)) x = after_init s <$> get_logger (spd s) x.
Proof.
  unfold init_once, after_init. destruct (inited s); cbn [spd].
  - by destruct (get_logger (spd s) x).
  - by rewrite get_flush, get_handler, get_init.
Qed.

Lemma init_once_inited (s : LogSys) : inited (init_once s) = true.
Proof. unfold init_once. by destruct (inited s) eqn:E. Qed.

Lemma init_once_disk (s : LogSys) : disk (init_once s) = disk s.
Proof. unfold init_once. by destruct (inited s). Qed.

Definition made_logger (dir filename : str) (loglevel : Z) (loggername : str) (show_console : bool) (s : LogSys) : Logger :=
  mkLogger loggername show_console (Some (log_path dir filename)) (thread_pool (spd s)) loglevel false.

(** The result of a call, by the state of the registry. *)
Lemma setup_result d f lv n c s s' :
  setup d f lv n c s = Ok s' ->
  inited s' = true /\ thread_pool (spd s') = thread_pool (spd (init_once s)) /\
  (forall x, x <> n -> get_logger (spd s') x = after_init s <$> get_logger (spd s) x) /\
  match get_logger (spd s) n with
  | Some l => get_logger (spd s') n = Some (after_init s l) /\ disk s' = disk s
  | None => exists r, CreateDir access mkdir (Util.c_str d) (disk s) = Ok (disk s', r) /\
      (get_logger (spd s') n = None \/
       get_logger (spd s') n = Some (made_logger d f lv n c s') /\ r = 0)
  end.
Proof.
  pose proof (init_once_get s) as Hg. pose proof (init_once_inited s) as Hi.
  unfold setup_log_system. rewrite Hg, (init_once_disk s).
  destruct (get_logger (spd s) n) as [l|] eqn:El; cbn [fmap option_fmap option_map].
  { intros [= <-]. by rewrite Hg, El, init_once_disk. }
  destruct (CreateDir _ _ _ _) as [[fs r]|] eqn:Ed; [| done]. cbn [mbind res_bind].
  destruct (r =? 0) eqn:Er; cbn [negb].
  2: { intros [= <-]. cbn [inited spd disk]. split_and!; [done | done | by intros; apply Hg |].
       exists r. split; [done |]. left. by rewrite Hg, El. }
  apply Z.eqb_eq in Er as ->. set (p := log_path d f).
  pose proof (pool_sink (spd (init_once s)) p) as Hps. pose proof (get_sink (spd (init_once s)) p) as Hgs.
  destruct (daily_file_sink (spd (init_once s)) p) as [r1 [|]]; cbn [fst negb] in *.
  2: { intros [= <-]. cbn [inited spd disk]. split_and!; [done | done | by intros; rewrite Hgs |].
       exists 0. split; [done |]. left. by rewrite Hgs, Hg, El. }
  destruct (register_logger r1 _) as [r2|] eqn:Er2; intros [= <-]; cbn [inited spd disk].
  - assert (thread_pool r2 = thread_pool r1) as Ep by (by eapply pool_register). split_and!; [done | congruence | |].
    + intros x Hx. erewrite get_register by exact Er2. cbn [logger_name]. by rewrite decide_False, Hgs.
    + exists 0. split; [done |]. right. split; [| done]. erewrite get_register by exact Er2. cbn [logger_name].
      rewrite decide_True by done. unfold made_logger. cbn [spd]. by rewrite Ep.
  - exfalso. apply register_none in Er2 as [l El2]. cbn [logger_name] in El2. by rewrite Hgs, Hg, El in El2.
Qed.

(** A name [CreateDir] has room for is enough for the call to return. *)
Lemma setup_returns d f lv n c s :
  is_Some (get_logger (spd s) n) \/ dir_fits (Util.c_str d) = true -> exists s', setup d f lv n c s = Ok s'.
Proof.
  intros Hd. unfold setup_log_system. rewrite init_once_get, init_once_disk.
  destruct (get_logger (spd s) n) as [l|]; cbn [fmap option_fmap option_map]; [eauto |].
  pose proof (CreateDir_returns access mkdir (Util.c_str d) (disk s)) as Hr.
  destruct Hd as [[? ?]|Hd]; [done |]. rewrite Hd in Hr. destruct Hr as (fs & r & -> & _). cbn [mbind res_bind].
  destruct (negb (r =? 0)); [eauto |]. destruct (daily_file_sink _ _) as [r1 []]; cbn [negb]; [| eauto].
  destruct (register_logger _ _); eauto.
Qed.

(** *** The invariant: loggers write through the one pool that is ever made *)
Definition log_inv (s : LogSys) : Prop :=
  (inited s = true -> is_Some (thread_pool (spd s))) /\
  forall n l, get_logger (spd s) n = Some l ->
    pool l = None \/ inited s = true /\ pool l = thread_pool (spd s).

Lemma init_once_pool (s : LogSys) : log_inv s ->
  is_Some (thread_pool (spd (init_once s))) /\ (inited s = true -> thread_pool (spd (init_once s)) = thread_pool (spd s)).
Proof.
  intros [Hp _]. unfold init_once. destruct (inited s); [split; auto |]. cbn [spd].
  rewrite pool_flush, pool_handler. split; [apply pool_init | done].
Qed.

Lemma after_init_pool (s : LogSys) l : pool (after_init s l) = pool l.
Proof. unfold after_init. by destruct (inited s). Qed.

Lemma setup_inv d f lv n c s s' : log_inv s -> setup d f lv n c s = Ok s' -> log_inv s'.
Proof.
  intros Hs E. destruct (setup_result _ _ _ _ _ _ _ E) as (Hi & Hp & Hother & Hn).
  destruct (init_once_pool s Hs) as [Hp1 Hp2]. split; [by rewrite Hp |].
  assert (forall x l, after_init s <$> get_logger (spd s) x = Some l ->
    pool l = None \/ inited s' = true /\ pool l = thread_pool (spd s')) as Hold.
  { intros x l (l0 & El & ->)%fmap_Some. rewrite after_init_pool.
    destruct (proj2 Hs x l0 El) as [Hl|[Hi0 Hl]]; [by left | right]. split; [done |]. rewrite Hp, Hp2; done. }
  intros x l El. destruct (decide (x = n)) as [->|Hne].
  - destruct (get_logger (spd s) n) as [l0|] eqn:El0.
    + apply (Hold n). by rewrite El0, <- El, (proj1 Hn).
    + destruct Hn as (r & _ & [Hn|[Hn _]]); [congruence |]. rewrite Hn in El. injection El as <-. by right.
  - apply (Hold x). by rewrite <- Hother.
Qed.

Lemma shutdown_inv (s : LogSys) : log_inv s -> log_inv (shutdown_log_system s).
Proof.
  intros [Hp _]. split; cbn [shutdown_log_system inited spd]; [by rewrite pool_drop |].
  intros n l. by rewrite get_drop.
Qed.

Lemma step_inv o s s' l : log_inv s -> step access mkdir o s = Ok (s', l) -> log_inv s'.
Proof.
  intros Hs. destruct o as [d f lv n c|n lvl|]; cbn [step].
  - destruct (setup d f lv n c s) as [s1|] eqn:E; [| done]. intros [= <- _]. by eapply setup_inv.
  - by intros [= <- _].
  - intros [= <- _]. by apply shutdown_inv.
Qed.

Lemma LoG_result n lvl (s : LogSys) : log_inv s ->
  LoG n lvl s = match get_logger (spd s) n with
                | None => Silent
                | Some l => if lvl <? level l then Below l else Written l
                end.
Proof.
  intros [_ Hl]. unfold LoG. destruct (get_logger (spd s) n) as [l|] eqn:E; [| done].
  destruct (lvl <? level l); [done |]. destruct (pool l) as [p|] eqn:Ep; [| done].
  destruct (Hl n l E) as [Hp|[_ Hp]]; [congruence |]. by rewrite bool_decide_eq_true_2 by congruence.
Qed.

Lemma step_not_lost o s s' l l' : log_inv s -> step access mkdir o s = Ok (s', l) -> Lost l' ∉ l.
Proof.
  intros Hs. destruct o as [d f lv n c|n lvl|]; cbn [step].
  - destruct (setup d f lv n c s); [| done]. intros [= _ <-]. apply not_elem_of_nil.
  - intros [= _ <-]. rewrite (LoG_result n lvl s Hs), list_elem_of_singleton. by repeat case_match.
  - intros [= _ <-]. apply not_elem_of_nil.
Qed.

Lemma steps_inv os : forall s s' l,
  log_inv s -> steps os s = Ok (s', l) -> log_inv s' /\ forall l', Lost l' ∉ l.
Proof.
  induction os as [|o os IH]; intros s s' l Hs; cbn [Log.steps].
  { intros [= <- <-]. split; [done | intros; apply not_elem_of_nil]. }
  destruct (step access mkdir o s) as [[s1 l1]|] eqn:E1; [| done]. cbn [mbind res_bind].
  destruct (steps os s1) as [[s2 l2]|] eqn:E2; [| done]. intros [= <- <-].
  destruct (IH s1 s2 l2 (step_inv _ _ _ _ Hs E1) E2) as [Hs2 Hl2]. split; [done |].
  intros l'. rewrite elem_of_app. intros [Hl|Hl]; [by apply (step_not_lost _ _ _ _ l' Hs E1) | by apply (Hl2 l')].
Qed.

(** *** A logger stays until the shutdown *)
Lemma steps_keep os : forall s s' l n x,
  steps os s = Ok (s', l) -> Shutdown ∉ os -> inited s = true -> get_logger (spd s) n = Some x ->
  inited s' = true /\ get_logger (spd s') n = Some x /\ thread_pool (spd s') = thread_pool (spd s).
Proof.
  induction os as [|o os IH]; intros s s' l n x; cbn [Log.steps]; [by intros [= <- _] |].
  destruct (step access mkdir o s) as [[s1 l1]|] eqn:E1; [| done]. cbn [mbind res_bind].
  destruct (steps os s1) as [[s2 l2]|] eqn:E2; [| done]. intros [= <- _] [Ho Hos]%not_elem_of_cons Hi Hx.
  assert (inited s1 = true /\ get_logger (spd s1) n = Some x /\ thread_pool (spd s1) = thread_pool (spd s)) as (H1 & H2 & H3).
  { destruct o as [d f lv m c|m lvl|]; cbn [step] in E1; [| by injection E1 as <- _ | done].
    destruct (setup d f lv m c s) as [s3|] eqn:E3; [| done]. injection E1 as <- _.
    destruct (setup_result _ _ _ _ _ _ _ E3) as (Hi3 & Hp3 & Hother & Hm).
    unfold init_once, after_init in *. rewrite Hi in *. split_and!; [done | | done].
    destruct (decide (n = m)) as [<-|Hne]; [by rewrite Hx in Hm; apply Hm |].
    rewrite Hother by done. by rewrite Hx. }
  destruct (IH s1 s2 l2 n x E2 Hos H1 H2) as (? & ? & ?). split_and!; congruence.
Qed.

(** ** Properties *)

(** C28: the first successful set-up of a logger decides where its messages go,
    until the shutdown: whatever is set up later in any order, under that name or
    others, a message of that name that reaches the level of the first set-up is
    written through the logger it made (its file, its console), a lower one is
    dropped, and none is lost for want of a thread pool. *)
Theorem first_setup_decides d f lv n c os s s1 s2 outs :
  log_inv s -> get_logger (spd s) n = None ->
  setup d f lv n c s = Ok s1 -> get_logger (spd s1) n <> None ->
  steps os s1 = Ok (s2, outs) -> Shutdown ∉ os ->
  let l := made_logger d f lv n c s1 in
  (forall lvl, LoG n lvl s2 = if lvl <? lv then Below l else Written l) /\ (forall l', Lost l' ∉ outs).
Proof.
  intros Hs Hn Es Hsome Eos Hos l. pose proof (setup_inv _ _ _ _ _ _ _ Hs Es) as Hs1.
  destruct (setup_result _ _ _ _ _ _ _ Es) as (Hi & _ & _ & Hr). rewrite Hn in Hr.
  destruct Hr as (r & _ & [Hr|[Hr _]]); [done |].
  destruct (steps_inv os s1 s2 outs Hs1 Eos) as [Hs2 Hout]. split; [| done]. intros lvl.
  destruct (steps_keep os s1 s2 outs n _ Eos Hos Hi Hr) as (_ & Hg & _).
  by rewrite (LoG_result n lvl s2 Hs2), Hg.
Qed.

(** [setup_log_system], on every branch: a name that is registered is left alone;
    otherwise the directory is made and the logger registered, or, when a
    directory or the file cannot be made, the name stays free; the other loggers
    are not touched; a directory whose name does not fit is undefined
    behaviour. *)
Theorem setup_log_system_spec d f lv n c s :
  (forall fs p fs', mkdir fs p = (fs', true) -> access fs' p = true) ->
  (forall fs p q, access fs q = true -> access (mkdir fs p).1 q = true) ->
  let dir := Util.c_str d in
  if decide (get_logger (spd s) n <> None \/ dir_fits dir = true) then
    exists s', setup d f lv n c s = Ok s' /\ inited s' = true /\
      (forall x, x <> n -> get_logger (spd s') x = after_init s <$> get_logger (spd s) x) /\
      match get_logger (spd s) n with
      | Some l => get_logger (spd s') n = Some (after_init s l) /\ disk s' = disk s
      | None => get_logger (spd s') n = None \/
          get_logger (spd s') n = Some (made_logger d f lv n c s') /\
          forall p rest, dir = p ++ rest -> p <> [] -> last p <> Some "/"%char ->
            rest = [] \/ head rest = Some "/"%char -> access (disk s') p = true
      end
  else setup d f lv n c s = Fault Undefined.
Proof.
  intros Hm Hk dir. case_decide as Hd.
  - destruct (setup_returns d f lv n c s) as [s' E].
    { destruct Hd as [Hd|Hd]; [left; by destruct (get_logger _ _) | by right]. }
    exists s'. destruct (setup_result _ _ _ _ _ _ _ E) as (Hi & _ & Ho & Hr). split_and!; [done.. |].
    destruct (get_logger (spd s) n); [done |]. destruct Hr as (r & Ed & [Hr|[Hr ->]]); [by left | right].
    split; [done |]. by apply (CreateDir_exists access mkdir Hm Hk dir (disk s)).
  - assert (get_logger (spd s) n = None /\ dir_fits dir <> true) as [Hd1 Hd2]
      by (split; [destruct (get_logger (spd s) n); [by destruct Hd; left | done] | intros ?; by destruct Hd; right]).
    unfold setup_log_system. rewrite init_once_get, init_once_disk.
    rewrite Hd1. cbn [fmap option_fmap option_map].
    pose proof (CreateDir_returns access mkdir dir (disk s)) as Hr.
    apply not_true_iff_false in Hd2. rewrite Hd2 in Hr. fold dir. by rewrite Hr.
Qed.

(** A logger made here never has the error handler that [setup_log_system]
    installs: the handler goes to the loggers registered at that time, and there
    are none. *)
Lemma handler_never_set d f lv n c s s' l :
  get_logger (spd s) n = None -> setup d f lv n c s = Ok s' -> get_logger (spd s') n = Some l -> handler l = false.
Proof.
  intros Hn E Hl. destruct (setup_result _ _ _ _ _ _ _ E) as (_ & _ & _ & Hr). rewrite Hn in Hr.
  destruct Hr as (r & _ & [Hr|[Hr _]]); [congruence |]. rewrite Hl in Hr. by injection Hr as ->.
Qed.

(** [SlogInit] uses the loggers it has set up without a test: where either could
    not be made it dereferences a null pointer. *)
Theorem SlogInit_null d lv s s1 :
  setup d BASE_LOGGER_NAME lv BASE_LOGGER_NAME true s = Ok s1 ->
  get_logger (spd s1) BASE_LOGGER_NAME = None -> SlogInit access mkdir d lv s = Fault Undefined.
Proof. intros E Hn. unfold SlogInit. rewrite E. cbn [mbind res_bind]. unfold deref. by rewrite Hn. Qed.
End Props.

(** ** A registry *)
Record Registry : Type := mkRegistry { loggers : gmap str Logger; pools : nat; unwritable : list str }.

#[export] Instance Registry_SpdLog : SpdLog Registry := {
  init_thread_pool r _ _ := mkRegistry (loggers r) (S (pools r)) (unwritable r);
  thread_pool r := match pools r with O => None | S k => Some k end;
  set_error_handler r := mkRegistry (set_handler <$> loggers r) (pools r) (unwritable r);
  flush_every r _ := r;
  get_logger r x := loggers r !! x;
  daily_file_sink r p := (r, negb (bool_decide (p ∈ unwritable r)));
  register_logger r l := match loggers r !! logger_name l with
                         | Some _ => None
                         | None => Some (mkRegistry (<[logger_name l := l]> (loggers r)) (pools r) (unwritable r))
                         end;
  drop_all r := mkRegistry ∅ (pools r) (unwritable r)
}.

#[export] Instance Registry_laws : SpdLogLaws Registry.
Proof.
  constructor; cbn; try done; intros.
  - by rewrite lookup_fmap.
  - destruct (loggers r !! logger_name l); split; [eauto | done | done | by intros [? ?]].
  - destruct (loggers r !! logger_name l); [done |]. by simplify_eq/=.
  - destruct (loggers r !! logger_name l); [done |]. simplify_eq/=.
    case_decide; [subst; by rewrite lookup_insert_eq | by rewrite lookup_insert_ne].
Qed.

Definition any_access (_ : unit) (_ : str) : bool := true.
Definition no_mkdir (fs : unit) (_ : str) : unit * bool := (fs, false).
Definition log_start : LogSys Registry unit := mkLogSys false (mkRegistry ∅ 0 [lit "logs/bad.log"]) ().
Definition set_up_once : LogSys Registry unit :=
  from_ok log_start (setup_log_system any_access no_mkdir (lit "logs") (lit "a") 2 (lit "base") false log_start).

Lemma log_start_inv : log_inv log_start.
Proof. split; [done |]. intros n l. cbn. by rewrite lookup_empty. Qed.

Lemma first_setup_decides_witness :
  exists s2 outs,
    steps any_access no_mkdir [Setup (lit "other") (lit "b") 0 (lit "base") true; Log (lit "base") 1;
      Setup (lit "logs") (lit "bad") 0 (lit "data") true; Log (lit "data") 5] set_up_once = Ok (s2, outs) /\
    (forall lvl, LoG (lit "base") lvl s2 =
       if lvl <? 2 then Below (mkLogger (lit "base") false (Some (lit "logs/a.log")) (Some 0%nat) 2 false)
       else Written (mkLogger (lit "base") false (Some (lit "logs/a.log")) (Some 0%nat) 2 false)) /\
    forall l', Lost l' ∉ outs.
Proof.
  destruct (steps any_access no_mkdir [Setup (lit "other") (lit "b") 0 (lit "base") true; Log (lit "base") 1;
      Setup (lit "logs") (lit "bad") 0 (lit "data") true; Log (lit "data") 5] set_up_once) as [[s2 outs]|] eqn:E;
    [| vm_compute in E; discriminate E].
  exists s2, outs. split; [done |].
  eapply (first_setup_decides any_access no_mkdir (lit "logs") (lit "a") 2 (lit "base") false _ log_start set_up_once s2 outs log_start_inv);
    [reflexivity | vm_compute; reflexivity | vm_compute; discriminate | exact E |].
  rewrite !not_elem_of_cons. split_and!; try done. apply not_elem_of_nil.
Defined.

Lemma SlogInit_null_witness :
  SlogInit any_access no_mkdir (lit "logs") 0 (mkLogSys false (mkRegistry ∅ 0 [lit "logs/base.log"]) ()) = Fault Undefined.
Proof.
  destruct (setup_log_system any_access no_mkdir (lit "logs") BASE_LOGGER_NAME 0 BASE_LOGGER_NAME true
    (mkLogSys false (mkRegistry ∅ 0 [lit "logs/base.log"]) ())) as [s1|] eqn:E; [| vm_compute in E; discriminate E].
  apply (SlogInit_null any_access no_mkdir _ _ _ s1 E). vm_compute in E. injection E as <-. reflexivity.
Defined.

Lemma setup_log_system_spec_witness :
  exists s', setup_log_system any_access (fun fs _ => (fs, true)) (lit "logs") (lit "a") 2 (lit "base") false log_start = Ok s' /\
    inited s' = true.
Proof.
  pose proof (setup_log_system_spec any_access (fun fs _ => (fs, true)) (lit "logs") (lit "a") 2 (lit "base") false log_start
    (fun _ _ _ _ => eq_refl) (fun _ _ _ _ => eq_refl)) as Hs.
  cbv zeta in Hs. rewrite decide_True in Hs by (right; vm_compute; reflexivity).
  destruct Hs as (s' & E & Hi & _). exists s'. by split.
Defined.
