(* ===== verification/Samples.v ===== *)
(** * Small programs and headers

    [ZeroCopy] is [src/src/file_test/zero_copy.cpp], [ZkFind]
    [src/src/zk_test/zkfind.cpp], [StopWatch] [src/src/include/stopwatch.h],
    [LhException] [src/src/utils/lh_exception.h].  The kernel and ZooKeeper are
    handlers of typed calls; what is only printed is left out. *)
From S2P Require Import Prelude CStr StdString StringAssist SysUtil Trace Log LogProps.
Open Scope Z_scope.

(** ** Copying a file with [sendfile] *)
Module ZeroCopy.

(** [fstat] answers [st_size]; [None] is [-1]. *)
Inductive call : Type -> Type :=
  | open_input (path : str) : call Z
  | open_output (path : str) : call Z
  | fstat (fd : Z) : call (option Z)
  | sendfile (out_fd in_fd offset count : Z) : call Z
  | close (fd : Z) : call Z.

Section Program.
Context {R FS D : Type} `{SpdLog R} (access : FS -> str -> bool) (mkdir : FS -> str -> FS * bool).
Context (handle : forall T, call T -> D -> T * D).
Local Abbreviation do := (Trace.do handle).
Local Abbreviation C := (Trace.C call (LogSys R FS) D).

Definition LOGGER_NAME : str := lit "zerocopy".

Definition set_up (name : str) : C unit :=
  s ← get;
  s ← lift (setup_log_system access mkdir (lit "./logs") name 0 name false s);
  upd (fun _ => s).

Definition main : C Z :=
  _ ← set_up LOGGER_NAME;
  _ ← set_up BASE_LOGGER_NAME;
  inputFd ← do (open_input (lit "input.txt"));
  if inputFd =? -1 then mret 1
  else
    statBuf ← do (fstat inputFd);
    match statBuf with
    | None => _ ← do (close inputFd); mret 1
    | Some st_size =>
        outputFd ← do (open_output (lit "output.txt"));
        if outputFd =? -1 then _ ← do (close inputFd); mret 1
        else
          sentBytes ← do (sendfile outputFd inputFd 0 st_size);
          if sentBytes =? -1 then
            _ ← do (close inputFd);
            _ ← do (close outputFd);
            mret 1
          else
            _ ← do (close inputFd);
            _ ← do (close outputFd);
            mret 0
    end.
End Program.

(** The descriptors open after a log; [pick] says which of the two that
    [sendfile] uses is looked at. *)
Definition fd_effect (pick : Z -> Z -> Z) (e : event call) : effect Z :=
  match e with
  | Event T c a =>
      match c in call T return T -> effect Z with
      | open_input _ => fun a => Makes (if a =? -1 then None else Some a)
      | open_output _ => fun a => Makes (if a =? -1 then None else Some a)
      | fstat fd => fun _ => Uses fd
      | sendfile o i _ _ => fun _ => Uses (pick o i)
      | close fd => fun _ => Frees fd
      end a
  end.
End ZeroCopy.

(** ** A service that registers itself with ZooKeeper *)
Module ZkFind.

Abbreviation zhandle := positive.

Inductive call : Type -> Type :=
  | zookeeper_init (host : str) : call (option zhandle)
  | zoo_create (zh : zhandle) (path : str) (ephemeral : bool) : call Z
  | zoo_awget_children (zh : zhandle) (path : str) : call Z
  | zoo_get_children (zh : zhandle) (path : str) (watch : Z) : call (Z * list str)
  | zookeeper_close (zh : zhandle) : call Z.

(** The global [zh], and the instances the watcher has printed. *)
Record Service : Type := mkService { zh : option zhandle; printed : list (list str) }.

Definition ZOK : Z := 0.
Definition ZOO_CHILD_EVENT : Z := 4.
Definition serviceInstancePath : str :=
  lit "/services/" ++ lit "my-service" ++ lit "-" ++ lit "192.168.1.100" ++ lit ":" ++ lit "8080".

Section Program.
Context {D : Type} (handle : forall T, call T -> D -> T * D).
Local Abbreviation do := (Trace.do handle).
Local Abbreviation C := (Trace.C call Service D).

Definition serviceWatcher (type : Z) (path : str) : C unit :=
  if type =? ZOO_CHILD_EVENT then
    s ← get;
    match zh s with
    | None => lift (Fault Undefined)
    | Some h =>
        '(rc, nodes) ← do (zoo_get_children h path 1);
        if rc =? ZOK then upd (fun s => mkService (zh s) (printed s ++ [nodes])) else mret tt
    end
  else mret tt.

Definition watchServices (h : zhandle) (basePath : str) : C unit :=
  _ ← do (zoo_awget_children h basePath);
  mret tt.

Definition main : C Z :=
  h ← do (zookeeper_init (lit "localhost:2181"));
  _ ← upd (fun s => mkService h (printed s));
  match h with
  | None => mret (-1)
  | Some h =>
      rc ← do (zoo_create h serviceInstancePath true);
      if negb (rc =? ZOK) then mret (-1)
      else
        _ ← watchServices h (lit "/services");
        _ ← do (zookeeper_close h);
        mret 0
  end.
End Program.

(** The sessions open after a log. *)
Definition zh_effect (e : event call) : effect zhandle :=
  match e with
  | Event T c a =>
      match c in call T return T -> effect zhandle with
      | zookeeper_init _ => fun a => Makes a
      | zoo_create h _ _ => fun _ => Uses h
      | zoo_awget_children h _ => fun _ => Uses h
      | zoo_get_children h _ _ => fun _ => Uses h
      | zookeeper_close h => fun _ => Frees h
      end a
  end.
End ZkFind.

(** ** The stop watch *)
Module StopWatch.

(** [_begin], in nanoseconds of the clock; the time now is an argument. *)
Record StopWatch : Type := mkStopWatch { _begin : Z }.
Definition StopWatch_new (now : Z) : StopWatch := mkStopWatch now.
Definition reset (now : Z) (w : StopWatch) : StopWatch := mkStopWatch now.
Definition restart (now : Z) (w : StopWatch) : StopWatch := mkStopWatch now.

(** [duration_cast] to a coarser unit truncates towards zero; the difference of
    two time points must fit. *)
Definition since (now : Z) (w : StopWatch) : res Z :=
  let d := now - _begin w in
  if (- 2 ^ 63 <=? d) && (d <? 2 ^ 63) then Ok d else Fault Undefined.
Definition duration_cast (unit d : Z) : Z := Z.quot d unit.

Definition elapsed (now : Z) (w : StopWatch) : res Z := d ← since now w; Ok (duration_cast 1000000 d).
Definition elapsed_micro (now : Z) (w : StopWatch) : res Z := d ← since now w; Ok (duration_cast 1000 d).
Definition elapsed_nano (now : Z) (w : StopWatch) : res Z := d ← since now w; Ok (duration_cast 1 d).
Definition elapsed_seconds (now : Z) (w : StopWatch) : res Z := d ← since now w; Ok (duration_cast 1000000000 d).
Definition elapsed_minutes (now : Z) (w : StopWatch) : res Z := d ← since now w; Ok (duration_cast 60000000000 d).
Definition elapsed_hours (now : Z) (w : StopWatch) : res Z := d ← since now w; Ok (duration_cast 3600000000000 d).
End StopWatch.

(** ** The exception class *)
Module LhException.
Record lh_exception : Type := mkException { message_ : str }.
Definition lh_exception_new : lh_exception := mkException [].
Definition lh_exception_of (message : str) : lh_exception := mkException message.
Definition what (e : lh_exception) : str :=
  if decide (message_ e = []) then lit "default exception." else Util.c_str (message_ e).
End LhException.

(** * What they do *)

Module ZeroCopyProps.
Import ZeroCopy.
Section Props.
Context {R FS D : Type} `{SpdLogLaws R} (access : FS -> str -> bool) (mkdir : FS -> str -> FS * bool).
Context (handle : forall T, call T -> D -> T * D).

(** The two set-ups of the log return and make no call. *)
Lemma set_up_returns name (w : World call (LogSys R FS) D) :
  exists s, set_up access mkdir name w = (Ok tt, mkWorld s (drv w) (log w)).
Proof.
  unfold set_up, get, lift, upd, mbind, C_bind. cbn [self drv log].
  destruct (setup_returns access mkdir (lit "./logs") name 0 name false (self w)) as [s' E]; [by right |].
  rewrite E. cbn [self drv log]. by exists s'.
Qed.

(** The calls of a run, by the answers of the kernel. *)
Definition calls_of (fd : Z) (size : option Z) (fd2 sent : Z) (c1 c2 : Z) : list (event call) :=
  let opened := Event Z (open_input (lit "input.txt")) fd in
  if fd =? -1 then [opened]
  else
    let stat := Event _ (fstat fd) size in
    match size with
    | None => [opened; stat; Event Z (close fd) c1]
    | Some n =>
        let created := Event Z (open_output (lit "output.txt")) fd2 in
        if fd2 =? -1 then [opened; stat; created; Event Z (close fd) c1]
        else [opened; stat; created; Event Z (sendfile fd2 fd 0 n) sent; Event Z (close fd) c1; Event Z (close fd2) c2]
    end.
Definition status_of (fd : Z) (size : option Z) (fd2 sent : Z) : Z :=
  if (fd =? -1) || bool_decide (size = None) || (fd2 =? -1) || (sent =? -1) then 1 else 0.

Lemma main_calls (w : World call (LogSys R FS) D) :
  exists fd size fd2 sent c1 c2 w',
    main access mkdir handle w = (Ok (status_of fd size fd2 sent), w') /\
    log w' = log w ++ calls_of fd size fd2 sent c1 c2 /\
    (status_of fd size fd2 sent = 0 -> forall n, size = Some n ->
       exists d, sent = (handle Z (sendfile fd2 fd 0 n) d).1).
Proof.
  unfold main. cbv [mbind C_bind]. destruct (set_up_returns LOGGER_NAME w) as [s1 ->].
  destruct (set_up_returns BASE_LOGGER_NAME (mkWorld s1 (drv w) (log w))) as [s2 ->]. cbn [self drv log].
  unfold do, mret, C_ret, status_of, calls_of. cbn [self drv log].
  destruct (handle Z (open_input _) _) as [fd d1]. destruct (fd =? -1) eqn:E1.
  { exists fd, None, 0, 0, 0, 0. eexists. by rewrite E1. }
  cbn [self drv log]. destruct (handle _ (fstat fd) d1) as [size d2]. destruct size as [n|]; cbn [self drv log].
  2: { destruct (handle _ (close fd) d2) as [c1 d3]. exists fd, None, 0, 0, c1, 0. eexists. rewrite E1. cbn [log].
       by rewrite <- !app_assoc. }
  destruct (handle _ (open_output _) d2) as [fd2 d3]. destruct (fd2 =? -1) eqn:E2; cbn [self drv log].
  { destruct (handle _ (close fd) d3) as [c1 d4]. exists fd, (Some n), fd2, 0, c1, 0. eexists. rewrite E1, E2. cbn [log].
    by rewrite <- !app_assoc. }
  destruct (handle _ (sendfile fd2 fd 0 n) d3) as [sent d4] eqn:Es. destruct (sent =? -1) eqn:E3; cbn [self drv log];
    destruct (handle _ (close fd) _) as [c1 d5]; destruct (handle _ (close fd2) _) as [c2 d6];
    exists fd, (Some n), fd2, sent, c1, c2; eexists; rewrite E1, E2, E3; cbn [log]; rewrite <- !app_assoc;
    (split_and!; [done | done |]); intros _ n' [= <-]; exists d3; by rewrite Es.
Qed.

(** The program closes each descriptor it opened, once and after its last use,
    whatever fails, and answers 1 when something did.  It answers 0 when
    [sendfile] did not fail, without a look at how much was sent: Linux sends at
    most 2147479552 bytes in a call, so the end of a longer file is missing. *)
Theorem zero_copy_spec pick (w : World call (LogSys R FS) D) :
  (forall o i, pick o i = o \/ pick o i = i) ->
  (forall o i n d, (handle _ (sendfile o i 0 n) d).1 <= 2147479552) -> log w = [] ->
  exists r w', main access mkdir handle w = (Ok r, w') /\
    resources (fd_effect pick) (log w') = Some [] /\ (r = 0 \/ r = 1) /\
    (r = 0 -> exists fd n fd2 sent, Event _ (fstat fd) (Some n) ∈ log w' /\
       Event Z (sendfile fd2 fd 0 n) sent ∈ log w' /\ (2147479552 < n -> sent < n)).
Proof.
  intros Hpick Hmax Hl. destruct (main_calls w) as (fd & size & fd2 & sent & c1 & c2 & w' & E & Hlog & Hs).
  rewrite Hl in Hlog. cbn [app] in Hlog. eexists _, w'. split; [exact E |]. rewrite Hlog.
  unfold calls_of, status_of in *. destruct (fd =? -1) eqn:E1.
  { split_and!; [cbn; by rewrite E1 | by right | done]. }
  destruct size as [n|].
  2: { split_and!; [| by right | done]. cbn. rewrite E1. cbn. rewrite bool_decide_eq_true_2 by set_solver. cbn. by rewrite decide_True. }
  destruct (fd2 =? -1) eqn:E2.
  { split_and!; [| by right | done]. cbn. rewrite E1, E2. cbn. rewrite bool_decide_eq_true_2 by set_solver. cbn. by rewrite decide_True. }
  rewrite bool_decide_eq_false_2 in * by done. cbn [orb] in *. split_and!.
  - cbn. rewrite E1, E2. cbn. rewrite bool_decide_eq_true_2 by set_solver. cbn.
    rewrite bool_decide_eq_true_2 by (destruct (Hpick fd2 fd) as [->| ->]; set_solver). cbn.
    destruct (decide (fd = fd2)) as [->|]; cbn; repeat (rewrite decide_True by done; cbn); done.
  - destruct (sent =? -1); auto.
  - intros Hr. exists fd, n, fd2, sent. split_and!; [set_solver | set_solver |]. intros Hn.
    destruct (Hs Hr n eq_refl) as [d ->]. specialize (Hmax fd2 fd n d). lia.
Qed.
End Props.

(** A kernel: an input of three gigabytes, two descriptors. *)
Definition big_file (T : Type) (c : call T) (d : unit) : T * unit :=
  (match c in call T return T with
   | open_input _ => 3
   | open_output _ => 4
   | fstat _ => Some 3000000000
   | sendfile _ _ _ n => Z.min n 2147479552
   | close _ => 0
   end, d).

Lemma zero_copy_spec_witness :
  exists r w', main any_access (fun fs _ => (fs, true)) big_file (mkWorld log_start tt []) = (Ok r, w') /\
    resources (fd_effect (fun o _ => o)) (log w') = Some [].
Proof.
  destruct (zero_copy_spec any_access (fun fs _ => (fs, true)) big_file (fun o _ => o) (mkWorld log_start tt [])
    ltac:(by left) ltac:(intros; cbn; lia) eq_refl) as (r & w' & E & Hr & _).
  exists r, w'. by split.
Defined.

(** It answers 0 for that file, having sent two of the three. *)
Example big_file_cut :
  (main any_access (fun fs _ => (fs, true)) big_file (mkWorld log_start tt [])).1 = Ok 0.
Proof. vm_compute. reflexivity. Qed.
End ZeroCopyProps.

Module ZkFindProps.
Import ZkFind.
Section Props.
Context {D : Type} (handle : forall T, call T -> D -> T * D).

(** The service registers an ephemeral node under its address; it answers 0 with
    its session closed, and -1 with no session when there is none to be had, or
    with its session still open when the node could not be created. *)
Theorem zkfind_main (w : World call Service D) :
  log w = [] ->
  exists r w', main handle w = (Ok r, w') /\
    (r = 0 /\ resources zh_effect (log w') = Some [] /\
       (exists h, Event Z (zoo_create h (lit "/services/my-service-192.168.1.100:8080") true) ZOK ∈ log w') \/
     r = -1 /\ (resources zh_effect (log w') = Some [] \/
       exists h rc, rc <> ZOK /\ Event Z (zoo_create h serviceInstancePath true) rc ∈ log w' /\
         resources zh_effect (log w') = Some [h])).
Proof.
  intros Hl. unfold main, watchServices, do, upd, mret, C_ret. cbv [mbind C_bind]. rewrite Hl. cbn [self drv log app].
  destruct (handle _ (zookeeper_init _) _) as [[h|] d1]; cbn [self drv log app].
  2: { eexists _, _. split; [done |]. right. split; [done | by left]. }
  destruct (handle _ (zoo_create h _ _) d1) as [rc d2]. destruct (rc =? ZOK) eqn:E; cbn [negb self drv log app].
  - apply Z.eqb_eq in E as ->. destruct (handle _ (zoo_awget_children h _) d2) as [rc2 d3]. cbn [self drv log app].
    destruct (handle _ (zookeeper_close h) d3) as [rc3 d4]. eexists _, _. split; [done |]. left. split; [done |]. split.
    + cbn. rewrite !bool_decide_eq_true_2 by set_solver. cbn. rewrite bool_decide_eq_true_2 by set_solver. cbn. by rewrite decide_True.
    + exists h. change serviceInstancePath with (lit "/services/my-service-192.168.1.100:8080"). set_solver.
  - apply Z.eqb_neq in E. eexists _, _. split; [done |]. right. split; [done |]. right. exists h, rc. split_and!; [done | set_solver |].
    cbn. by rewrite bool_decide_eq_true_2 by set_solver.
Qed.
End Props.

Lemma zkfind_main_witness :
  exists r w', main (fun T c (d : unit) => (match c in call T return T with
    | zookeeper_init _ => Some 1%positive | zoo_create _ _ _ => -4 | zoo_awget_children _ _ => 0
    | zoo_get_children _ _ _ => (0, []) | zookeeper_close _ => 0 end, d)) (mkWorld (mkService None []) tt []) = (Ok r, w').
Proof.
  destruct (zkfind_main (fun T c (d : unit) => (match c in call T return T with
    | zookeeper_init _ => Some 1%positive | zoo_create _ _ _ => -4 | zoo_awget_children _ _ => 0
    | zoo_get_children _ _ _ => (0, []) | zookeeper_close _ => 0 end, d)) (mkWorld (mkService None []) tt []) eq_refl)
    as (r & w' & E & _). by exists r, w'.
Defined.
End ZkFindProps.

Module StopWatchProps.
Import StopWatch.

(** The units agree: each reading is the finer one cut down to whole units, and
    all are undefined together when the difference does not fit in 64 bits. *)
Theorem stopwatch_units now w :
  match elapsed_nano now w with
  | Ok ns =>
      ns = now - _begin w /\ - 2 ^ 63 <= ns < 2 ^ 63 /\
      elapsed_micro now w = Ok (Z.quot ns 1000) /\
      (forall us, elapsed_micro now w = Ok us -> elapsed now w = Ok (Z.quot us 1000)) /\
      (forall ms, elapsed now w = Ok ms -> elapsed_seconds now w = Ok (Z.quot ms 1000)) /\
      (forall s, elapsed_seconds now w = Ok s -> elapsed_minutes now w = Ok (Z.quot s 60)) /\
      (forall m, elapsed_minutes now w = Ok m -> elapsed_hours now w = Ok (Z.quot m 60))
  | Fault f =>
      f = Undefined /\ ~ (- 2 ^ 63 <= now - _begin w < 2 ^ 63) /\
      elapsed_micro now w = Fault f /\ elapsed now w = Fault f /\ elapsed_seconds now w = Fault f /\
      elapsed_minutes now w = Fault f /\ elapsed_hours now w = Fault f
  end.
Proof.
  unfold elapsed_nano, elapsed_micro, elapsed, elapsed_seconds, elapsed_minutes, elapsed_hours, since, duration_cast.
  set (d := now - _begin w). destruct (_ && _) eqn:E; cbn [mbind res_bind].
  - apply andb_true_iff in E as [E1%Z.leb_le E2%Z.ltb_lt]. rewrite Z.quot_1_r.
    split_and!; try done; intros ? [= <-]; by rewrite Z.quot_quot.
  - apply andb_false_iff in E. split_and!; try done. destruct E as [E%Z.leb_gt|E%Z.ltb_ge]; lia.
Qed.
End StopWatchProps.
