(* ===== verification/LinkerMain.v ===== *)
(** * The server programs: [src/src/linker/l1/ev_server.cpp] and [src/src/linker/l2/main.cpp]

    The options, the log, the listener and the event loop, put together; the
    handlers of messages are Server and LinkerServer, the timers' threads
    TimerMan.  [getopt] is the C library's, for the options [vc:]. *)
From S2P Require Import Prelude CStr StdString StringAssist SysUtil Trace ConnParams Log LogProps EventServer EventServerProps.
Open Scope Z_scope.

(** ** Options *)

(** The letters of one argument: the options, and whether the last one waits for
    its value in the next argument. *)
Fixpoint cluster (cs : str) : list (ascii * str) * bool :=
  match cs with
  | [] => ([], false)
  | c :: cs' =>
      if bool_decide (c = "c"%char) then match cs' with [] => ([], true) | _ => ([(c, cs')], false) end
      else
        let '(l, wait) := cluster cs' in
        ((if bool_decide (c = "v"%char) then (c, []) else ("?"%char, [])) :: l, wait)
  end.

Fixpoint getopt (argv : list str) : list (ascii * str) :=
  match argv with
  | [] => []
  | a :: rest =>
      if decide (a = lit "--") then []
      else
        match a with
        | d :: c :: cs =>
            if bool_decide (d = "-"%char) then
              match cluster (c :: cs) with
              | (l, false) => l ++ getopt rest
              | (l, true) =>
                  match rest with
                  | [] => l ++ [("?"%char, [])]
                  | arg :: rest' => l ++ ("c"%char, arg) :: getopt rest'
                  end
              end
            else getopt rest
        | _ => getopt rest
        end
  end.

(** The loop of [main]: [-v] prints the version and exits. *)
Fixpoint read_options (l : list (ascii * str)) (config_file : str) : res str :=
  match l with
  | [] => Ok config_file
  | (result, optarg) :: l =>
      if bool_decide (result = "c"%char) then read_options l optarg
      else if bool_decide (result = "v"%char) then Fault (Exited 0)
      else read_options l config_file
  end.

Definition conn_params : ConnectionParams :=
  mkParams (lit "172.17.0.4") (lit "8888") [] [] [] [] [] false false (lit "server/").

(** ** The programs

    [None]: the event loop is still running after the [turns]. *)
Section Mains.
Context {R FS D : Type} `{SpdLog R} (access : FS -> str -> bool) (mkdir : FS -> str -> FS * bool).
Context (handle : forall T, call T -> D -> T * D).
(** What [event_base_new] and [event_new] answer, and what happens while the loop runs. *)
Context (base event_ok : bool) (turns : list turn).
Local Abbreviation C := (EventServer.C D).

Definition serve : C (option Z) :=
  _ ← Start handle conn_params;
  c ← get;
  r ← lift (Run event_ok (bool_decide (listener_ c <> None)) turns (EventWrapper_new base));
  mret ((fun _ => 0) <$> r).

Definition ev_server_main : C (option Z) := serve.

(** [SignalServer::Init] answers true. *)
Definition l2_main (argv : list str) (s : LogSys R FS) : C (option Z) :=
  config_file ← lift (read_options (getopt argv) (lit "config.json"));
  s ← lift (setup_log_system access mkdir (lit "./logs") BASE_LOGGER_NAME 0 BASE_LOGGER_NAME false s);
  serve.
End Mains.

(** ** What the options are worth *)

(** The letters of [getopt], the version first: it ends the program. *)
Definition asks_version (l : list (ascii * str)) : bool := existsb (fun o => bool_decide (o.1 = "v"%char)) l.
Definition last_config (l : list (ascii * str)) (d : str) : str :=
  from_option snd d (last (filter (fun o => o.1 = "c"%char) l)).

Lemma read_options_spec l : forall d,
  read_options l d = if asks_version l then Fault (Exited 0) else Ok (last_config l d).
Proof.
  unfold asks_version. induction l as [|[r a] l IH]; intros d; cbn [read_options existsb]; [done |]. cbn [fst].
  destruct (bool_decide (r = "c"%char)) eqn:Ec.
  - apply bool_decide_eq_true_1 in Ec as ->. cbn. rewrite IH. destruct (existsb _ l); [done |].
    unfold last_config. rewrite filter_cons, decide_True by done. rewrite last_cons.
    by destruct (last _) as [[? ?]|].
  - apply bool_decide_eq_false_1 in Ec. destruct (bool_decide (r = "v"%char)) eqn:Ev; [done |]. cbn [orb].
    rewrite IH. destruct (existsb _ l); [done |]. unfold last_config. by rewrite filter_cons, decide_False.
Qed.

(** Both ways to write the option, after arguments that are no options. *)
Definition plain (a : str) : Prop := head a <> Some "-"%char.

Lemma getopt_plain l rest : Forall plain l -> getopt (l ++ rest) = getopt rest.
Proof.
  induction 1 as [|a l Ha _ IH]; [done |]. cbn [app getopt]. rewrite decide_False by (by intros ->).
  destruct a as [|d [|c cs]]; [done.. |]. rewrite bool_decide_eq_false_2; [done |]. intros ->. by apply Ha.
Qed.

Lemma getopt_config l f rest : Forall plain l ->
  getopt (l ++ lit "-c" :: f :: rest) = ("c"%char, f) :: getopt rest /\
  (f <> [] -> getopt (l ++ (lit "-c" ++ f) :: rest) = ("c"%char, f) :: getopt rest).
Proof.
  intros Hl. rewrite !getopt_plain by done. split; [done |]. destruct f as [|x f]; [done |]. intros _.
  cbn [getopt lit app]. rewrite decide_False by done. done.
Qed.

(** ** What the programs do *)
Section Props.
Context {R FS D : Type} `{SpdLogLaws R} (access : FS -> str -> bool) (mkdir : FS -> str -> FS * bool).
Context (handle : forall T, call T -> D -> T * D).
Local Abbreviation start := (mkWorld (EventServer_new false)).

(** The listener of the program, by what the resolver and libevent answer; no
    etcd is asked. *)
Lemma start_result d :
  let w := start d [] in
  exists w', match Start handle conn_params w with
    | (Ok r, w1) => w1 = w' /\ (r = 0 <-> listener_ (self w') <> None) /\ (r = 0 \/ r = -1)
    | (Fault f, w1) => w1 = w' /\ f = Exited (-1) /\ listener_ (self w') = None
    end.
Proof.
  intros w. unfold Start, w, upd, get, mret, C_ret, lift, do. cbv [mbind C_bind]. cbn [self drv log EventServer_new setParams listener_ params_].
  change (size (address conn_params) =? 0) with false. cbv iota.
  change (negb (size (etcd_endpoints conn_params) =? 0) && negb (size (hostkey conn_params) =? 0)) with false. cbv iota.
  cbn [self drv log]. change (listener_ (EventServer_new false)) with (@None listener). cbv iota beta. cbn [self drv log].
  destruct (handle _ (getaddrinfo (address conn_params) (port conn_params)) d) as [[ret found] d1]. cbn [self drv log].
  destruct (negb (ret =? 0) || negb found).
  - eexists. split; [done |]. cbn [self listener_]. split; [| by right]. split; [done |]. by intros [].
  - cbn. destruct (handle _ evconnlistener_new_bind d1) as [[l|] d2]; cbn; eexists; (split; [done |]).
    + split; [by split | by left].
    + done.
Qed.

(** The server programs: [-v] exits with 0 before anything is set up, and the
    configuration file named on the command line changes nothing; when the
    listener cannot be made the program exits with -1, but when the address does
    not resolve it goes on without a listener, and as nothing calls [Stop] neither
    program ever returns. *)
Theorem l2_main_spec argv d s ls (turns := map Turn ls) :
  Forall (Forall (fun t => stops t = false)) ls ->
  let r := l2_main access mkdir handle true true turns argv s (start d []) in
  let r1 := ev_server_main handle true true turns (start d []) in
  (if asks_version (getopt argv) then r = (Fault (Exited 0), start d []) else r = r1) /\
  (r1.1 = Ok None \/ r1.1 = Fault (Exited (-1)) /\ listener_ (self r1.2) = None).
Proof.
  intros Ht r r1. split.
  - unfold r, l2_main, lift. cbv [mbind C_bind]. rewrite read_options_spec.
    destruct (asks_version (getopt argv)); [done |].
    destruct (setup_returns access mkdir (lit "./logs") BASE_LOGGER_NAME 0 BASE_LOGGER_NAME false s) as [s' ->]; [by right |].
    done.
  - unfold r1, ev_server_main, serve, get, lift. cbv [mbind C_bind].
    destruct (start_result d) as [w' Hs]. destruct (Start handle conn_params _) as [[r0|f] w1].
    + destruct Hs as (-> & _). left. set (o := bool_decide _).
      unfold turns. by rewrite (Run_waits o ls).
    + destruct Hs as (-> & -> & Hl). by right.
Qed.
End Props.

(** ** Witness: a configuration file on the command line and an event loop at work *)
Lemma l2_main_spec_witness :
  let w := mkWorld (EventServer_new false) 0%nat [] in
  l2_main any_access no_mkdir demo_handle true true [Turn [Timer false true; Other false]] [lit "-c"; lit "other.json"] log_start w =
    ev_server_main demo_handle true true [Turn [Timer false true; Other false]] w /\
  l2_main any_access no_mkdir demo_handle true true [Turn [Timer false true; Other false]] [lit "x"; lit "-cother.json"; lit "-v"] log_start w =
    (Fault (Exited 0), w).
Proof.
  split.
  - apply (l2_main_spec any_access no_mkdir demo_handle [lit "-c"; lit "other.json"] 0%nat log_start [[Timer false true; Other false]]).
    by repeat constructor.
  - apply (l2_main_spec any_access no_mkdir demo_handle [lit "x"; lit "-cother.json"; lit "-v"] 0%nat log_start [[Timer false true; Other false]]).
    by repeat constructor.
Defined.
