(* ===== verification/Cmdline.v ===== *)
(** * The command-line parser: [src/src/include/cmdline.h]

    The class [cmdline::parser] with its options and readers.  An option holds a
    value of its type: [value] is the sum of the types [std::string] and [int], and
    the class [OptionType] what the templates use of a type.  A reader is a function
    that answers a value or throws.  [options] is the [std::map] (walked in the
    order of the names), and [ordered], which holds pointers to the same
    objects, lists their names.  The arguments of [main] are a list of strings.
    The outcome of [check] is the exit code and the text for [std::cerr], if it
    exits. *)
From S2P Require Import Prelude CStr StdString StringAssist SysUtil.
Open Scope Z_scope.

Definition quote : ascii := chr 34.
Definition backslash : ascii := chr 92.
Definition newline : ascii := chr 10.
Definition NUL : ascii := chr 0.

Module cmdline.

(** ** Types and readers *)
Inductive value : Type := StringValue (s : str) | IntValue (z : Z).

Class OptionType (T : Type) := {
  lexical_cast : str -> res T;
  leb : T -> T -> bool;
  to_value : T -> value;
  of_value : value -> option T
}.

(** [ss >> ret && ss.eof()] on an [int]: blanks, a sign, digits and nothing else,
    in the range of the type; a [std::bad_cast] otherwise. *)
Definition int_cast (arg : str) : res Z :=
  match scan_int arg with
  | Some (n, []) => if (- 2 ^ 31 <=? n) && (n <? 2 ^ 31) then Ok n else Fault Thrown
  | _ => Fault Thrown
  end.

#[global] Instance string_type : OptionType str := {
  lexical_cast s := Ok s;
  leb := str_leb;
  to_value := StringValue;
  of_value v := match v with StringValue s => Some s | _ => None end
}.

#[global] Instance int_type : OptionType Z := {
  lexical_cast := int_cast;
  leb := Z.leb;
  to_value := IntValue;
  of_value v := match v with IntValue z => Some z | _ => None end
}.

Definition readable_typename (v : value) : str :=
  match v with StringValue _ => lit "string" | IntValue _ => lit "int" end.
Definition default_value (v : value) : str :=
  match v with StringValue s => s | IntValue z => show_int z end.

Section Readers.
Context {T : Type} `{OptionType T}.

Definition default_reader (s : str) : res T := lexical_cast s.

Definition range_reader (low high : T) (s : str) : res T :=
  ret ← default_reader s;
  if negb (leb low ret && leb ret high) then Fault Thrown else Ok ret.

Definition oneof_add (alt : list T) (v : T) : list T := alt ++ [v].
Definition oneof (alts : list T) : list T := foldl oneof_add [] alts.
Definition oneof_reader `{EqDecision T} (alt : list T) (s : str) : res T :=
  ret ← default_reader s;
  if decide (ret ∈ alt) then Ok ret else Fault Thrown.
End Readers.

(** ** Options *)
Inductive option_base : Type :=
  | option_without_value (nam : str) (snam : ascii) (desc : str) (has : bool)
  | option_with_value (nam : str) (snam : ascii) (need : bool) (desc : str) (has : bool)
      (def actual : value) (reader : str -> res value).

Definition has_value (o : option_base) : bool :=
  match o with option_without_value _ _ _ _ => false | _ => true end.

(** [set()] and [set(value)]: the answer, and the option after it.  The
    exception of a reader is caught. *)
Definition set (o : option_base) : bool * option_base :=
  match o with
  | option_without_value nam snam desc _ => (true, option_without_value nam snam desc true)
  | _ => (false, o)
  end.

Definition set_to (v : str) (o : option_base) : res (bool * option_base) :=
  match o with
  | option_without_value _ _ _ _ => Ok (false, o)
  | option_with_value nam snam need desc has def actual reader =>
      match reader v with
      | Ok x => Ok (true, option_with_value nam snam need desc true def x reader)
      | Fault Thrown => Ok (false, o)
      | Fault f => Fault f
      end
  end.

Definition has_set (o : option_base) : bool :=
  match o with option_without_value _ _ _ has => has | option_with_value _ _ _ _ has _ _ _ => has end.

Definition valid (o : option_base) : bool :=
  match o with
  | option_without_value _ _ _ _ => true
  | option_with_value _ _ need _ has _ _ _ => if need && negb has then false else true
  end.

Definition must (o : option_base) : bool :=
  match o with option_without_value _ _ _ _ => false | option_with_value _ _ need _ _ _ _ _ => need end.

Definition name (o : option_base) : str :=
  match o with option_without_value nam _ _ _ => nam | option_with_value nam _ _ _ _ _ _ _ => nam end.

Definition short_name (o : option_base) : ascii :=
  match o with option_without_value _ snam _ _ => snam | option_with_value _ snam _ _ _ _ _ _ => snam end.

Definition description (o : option_base) : str :=
  match o with option_without_value _ _ desc _ => desc | option_with_value _ _ _ desc _ _ _ _ => desc end.

Definition short_description (o : option_base) : str :=
  match o with
  | option_without_value nam _ _ _ => lit "--" ++ nam
  | option_with_value nam _ _ _ _ def _ _ => lit "--" ++ nam ++ lit "=" ++ readable_typename def
  end.

Definition full_description (need : bool) (def : value) (desc : str) : str :=
  desc ++ lit " (" ++ readable_typename def ++
  (if need then [] else lit " [=" ++ default_value def ++ lit "]") ++ lit ")".

(** ** The parser *)
Record parser : Type := mkParser {
  options : gmap str option_base;
  ordered : list str;
  ftr : str;
  prog_name : str;
  others : list str;
  errors : list str
}.

Definition new_parser : parser := mkParser ∅ [] [] [] [] [].

Definition push_error (e : str) (p : parser) : parser :=
  mkParser (options p) (ordered p) (ftr p) (prog_name p) (others p) (errors p ++ [e]).
Definition push_other (s : str) (p : parser) : parser :=
  mkParser (options p) (ordered p) (ftr p) (prog_name p) (others p ++ [s]) (errors p).
Definition put (n : str) (o : option_base) (p : parser) : parser :=
  mkParser (<[n := o]> (options p)) (ordered p) (ftr p) (prog_name p) (others p) (errors p).

(** [add], of an option made by its constructor. *)
Definition add_option (n : str) (o : option_base) (p : parser) : res parser :=
  match options p !! n with
  | Some _ => Fault Thrown
  | None => Ok (mkParser (<[n := o]> (options p)) (ordered p ++ [n]) (ftr p) (prog_name p) (others p) (errors p))
  end.

Definition add (n : str) (short : ascii) (desc : str) (p : parser) : res parser :=
  add_option n (option_without_value n short desc false) p.

Definition add_reader {T} `{OptionType T} (n : str) (short : ascii) (desc : str) (need : bool) (def : T)
  (reader : str -> res T) (p : parser) : res parser :=
  add_option n (option_with_value n short need (full_description need (to_value def) desc) false
    (to_value def) (to_value def) (fun s => x ← reader s; Ok (to_value x))) p.

Definition add_value {T} `{OptionType T} (n : str) (short : ascii) (desc : str) (need : bool) (def : T)
  (p : parser) : res parser :=
  add_reader n short desc need def default_reader p.

Definition footer (f : str) (p : parser) : parser :=
  mkParser (options p) (ordered p) f (prog_name p) (others p) (errors p).
Definition set_program_name (n : str) (p : parser) : parser :=
  mkParser (options p) (ordered p) (ftr p) n (others p) (errors p).

Definition exist (n : str) (p : parser) : res bool :=
  match options p !! n with Some o => Ok (has_set o) | None => Fault Thrown end.

Definition get {T} `{OptionType T} (n : str) (p : parser) : res T :=
  match options p !! n with
  | Some (option_with_value _ _ _ _ _ _ actual _) =>
      match of_value actual with Some x => Ok x | None => Fault Thrown end
  | _ => Fault Thrown
  end.

Definition rest (p : parser) : list str := others p.

(** ** Setting options *)
Definition set_option (n : str) (p : parser) : parser :=
  match options p !! n with
  | None => push_error (lit "undefined option: --" ++ n) p
  | Some o =>
      let '(ok, o) := set o in
      if ok : bool then put n o p else push_error (lit "option needs value: --" ++ n) (put n o p)
  end.

Definition set_option_to (n v : str) (p : parser) : res parser :=
  match options p !! n with
  | None => Ok (push_error (lit "undefined option: --" ++ n) p)
  | Some o =>
      '(ok, o) ← set_to v o;
      Ok (if ok : bool then put n o p
          else push_error (lit "option value is invalid: --" ++ n ++ lit "=" ++ v) (put n o p))
  end.

(** ** Parsing the arguments of [main] *)

(** The options in the order of the map. *)
Definition entry_le (a b : str * option_base) : Prop := str_le a.1 b.1.
#[global] Instance entry_le_dec : RelDecision entry_le.
Proof. intros a b. unfold entry_le. apply _. Defined.
Definition entries (m : gmap str option_base) : list (str * option_base) := merge_sort entry_le (map_to_list m).

(** The short names, or the one that is ambiguous. *)
Fixpoint short_names (es : list (str * option_base)) (lookup : gmap ascii str) : ascii + gmap ascii str :=
  match es with
  | [] => inr lookup
  | (n, o) :: es =>
      if bool_decide (n = []) then short_names es lookup
      else
        let initial := short_name o in
        if bool_decide (initial = NUL) then short_names es lookup
        else match lookup !! initial with
             | Some _ => inl initial
             | None => short_names es (<[initial := n]> lookup)
             end
  end.

(** [strchr] and the two strings made of it. *)
Fixpoint cut (c : ascii) (s : str) : option (str * str) :=
  match s with
  | [] => None
  | d :: s => if decide (d = c) then Some ([], s)
              else match cut c s with Some (a, b) => Some (d :: a, b) | None => None end
  end.

Definition short_flag (lookup : gmap ascii str) (c : ascii) (p : parser) : parser :=
  match lookup !! c with
  | None => push_error (lit "undefined short option: -" ++ [c]) p
  | Some [] => push_error (lit "ambiguous short option: -" ++ [c]) p
  | Some n => set_option n p
  end.

(** The loop over [j]: the last character, and the parser after the others. *)
Fixpoint short_loop (lookup : gmap ascii str) (last : ascii) (cs : str) (p : parser) : ascii * parser :=
  match cs with
  | [] => (last, p)
  | c :: cs => short_loop lookup c cs (short_flag lookup last p)
  end.

Fixpoint parse_args (lookup : gmap ascii str) (args : list str) (p : parser) {struct args} : res parser :=
  match args with
  | [] => Ok p
  | a :: rest =>
      if is_prefix (lit "--") a then
        match cut "="%char (drop 2 a) with
        | Some (n, v) => p ← set_option_to n v p; parse_args lookup rest p
        | None =>
            let n := drop 2 a in
            match options p !! n with
            | None => parse_args lookup rest (push_error (lit "undefined option: --" ++ n) p)
            | Some o =>
                if has_value o then
                  match rest with
                  | [] => parse_args lookup rest (push_error (lit "option needs value: --" ++ n) p)
                  | v :: rest => p ← set_option_to n v p; parse_args lookup rest p
                  end
                else parse_args lookup rest (set_option n p)
            end
        end
      else if is_prefix (lit "-") a then
        match drop 1 a with
        | [] => parse_args lookup rest p
        | c :: cs =>
            let '(last, p) := short_loop lookup c cs p in
            match lookup !! last with
            | None => parse_args lookup rest (push_error (lit "undefined short option: -" ++ [last]) p)
            | Some [] => parse_args lookup rest (push_error (lit "ambiguous short option: -" ++ [last]) p)
            | Some n =>
                match rest with
                | [] => parse_args lookup rest (set_option n p)
                | v :: rest' =>
                    match options p !! n with
                    | None => Fault Undefined
                    | Some o =>
                        if has_value o then p ← set_option_to n v p; parse_args lookup rest' p
                        else parse_args lookup rest (set_option n p)
                    end
                end
            end
        end
      else parse_args lookup rest (push_other a p)
  end.

Definition need_options (es : list (str * option_base)) (p : parser) : parser :=
  foldl (fun p e => if valid e.2 then p else push_error (lit "need option: --" ++ e.1) p) p es.

Definition parse (argv : list str) (p : parser) : res (bool * parser) :=
  let p := mkParser (options p) (ordered p) (ftr p) (prog_name p) [] [] in
  match argv with
  | [] => Ok (false, push_error (lit "argument number must be longer than 0") p)
  | argv0 :: args =>
      let p := if bool_decide (prog_name p = []) then set_program_name argv0 p else p in
      match short_names (entries (options p)) ∅ with
      | inl initial => Ok (false, push_error (lit "short option '" ++ [initial] ++ lit "' is ambiguous") p)
      | inr lookup =>
          p ← parse_args lookup args p;
          let p := need_options (entries (options p)) p in
          Ok (bool_decide (errors p = []), p)
      end
  end.

(** [parse(vector)]: [&argv[0]] of an empty vector is undefined. *)
Definition parse_vector (args : list str) (p : parser) : res (bool * parser) :=
  match args with
  | [] => Fault Undefined
  | _ => parse (map Util.c_str args) p
  end.

(** The loop of [parse(string)]: the arguments, or an error. *)
Fixpoint tokenize (arg buf : str) (in_quote : bool) (args : list str) : str + list str :=
  match arg with
  | [] =>
      if in_quote then inl (lit "quote is not closed")
      else inr (if (0 <? length buf)%nat then args ++ [buf] else args)
  | c :: arg =>
      if decide (c = quote) then tokenize arg buf (negb in_quote) args
      else if bool_decide (c = " "%char) && negb in_quote then tokenize arg [] in_quote (args ++ [buf])
      else if decide (c = backslash) then
        match arg with
        | [] => inl (lit "unexpected occurrence of '\' at end of string")
        | d :: arg => tokenize arg (buf ++ [d]) in_quote args
        end
      else tokenize arg (buf ++ [c]) in_quote args
  end.

Definition parse_string (arg : str) (p : parser) : res (bool * parser) :=
  match tokenize arg [] false [] with
  | inl e => Ok (false, push_error e p)
  | inr args => parse_vector args p
  end.

(** ** Errors, usage and the check *)
Definition error (p : parser) : str := match errors p with e :: _ => e | [] => [] end.
Definition error_full (p : parser) : str := concat (map (fun e => e ++ [newline]) (errors p)).

Definition ordered_options (p : parser) : list option_base := omap (fun n => options p !! n) (ordered p).
Definition max_width (os : list option_base) : nat := foldl (fun w o => Nat.max w (length (name o))) 0%nat os.

Definition usage_line (width : nat) (o : option_base) : str :=
  (if bool_decide (short_name o = NUL) then lit "      " else lit "  -" ++ [short_name o] ++ lit ", ") ++
  lit "--" ++ name o ++ replicate (width + 4 - length (name o)) " "%char ++ description o ++ [newline].

Definition usage (p : parser) : str :=
  let os := ordered_options p in
  lit "usage: " ++ prog_name p ++ lit " " ++
  concat (map (fun o => if must o then short_description o ++ lit " " else []) os) ++
  lit "[options] ... " ++ ftr p ++ [newline] ++ lit "options:" ++ [newline] ++
  concat (map (usage_line (max_width os)) os).

Inductive outcome : Type := Continue | Exit (code : Z) (cerr : str).

Definition check (argc : Z) (ok : bool) (p : parser) : res outcome :=
  help ← (if (argc =? 1) && negb ok then Ok true else exist (lit "help") p);
  if help : bool then Ok (Exit 0 (usage p))
  else if negb ok then Ok (Exit 1 (error p ++ [newline] ++ usage p))
  else Ok Continue.

Definition add_help (p : parser) : res parser :=
  match options p !! lit "help" with
  | None => add (lit "help") "?"%char (lit "print this message") p
  | Some _ => Ok p
  end.

Definition parse_check_string (arg : str) (p : parser) : res (outcome * parser) :=
  p ← add_help p; '(ok, p) ← parse_string arg p; o ← check 0 ok p; Ok (o, p).
Definition parse_check_vector (args : list str) (p : parser) : res (outcome * parser) :=
  p ← add_help p; '(ok, p) ← parse_vector args p; o ← check (Z.of_nat (length args)) ok p; Ok (o, p).
Definition parse_check (argv : list str) (p : parser) : res (outcome * parser) :=
  p ← add_help p; '(ok, p) ← parse argv p; o ← check (Z.of_nat (length argv)) ok p; Ok (o, p).
End cmdline.
