(* ===== verification/CmdlineProps.v ===== *)
(** * The command line: what the parser accepts

    [Cmdline] parses the arguments of [main].  The arguments it accepts are
    exactly the renderings of lists of [item]s, and what it stores is what the
    items say; strings are cut in arguments that were quoted by [quoted].  The last part is the exit codes of
    [parse_check]. *)
From S2P Require Import Prelude CStr StdString StringAssist StringProps SysUtil Cmdline.
Open Scope Z_scope.
Import cmdline.

(** Take a conjunction apart without unfolding its parts. *)
Ltac ands := repeat match goal with |- _ /\ _ => split end.

(** ** The two types *)
Class OptionTypeLaws (T : Type) `{OptionType T} := {
  of_to_value (x : T) : of_value (to_value x) = Some x;
  cast_throws (s : str) f : lexical_cast (T:=T) s = Fault f -> f = Thrown
}.

Lemma int_cast_throws s f : int_cast s = Fault f -> f = Thrown.
Proof. unfold int_cast. destruct (scan_int s) as [[n [|]]|]; [case_match |..]; congruence. Qed.

#[export] Instance string_laws : OptionTypeLaws str.
Proof. split; [done | discriminate]. Qed.
#[export] Instance int_laws : OptionTypeLaws Z.
Proof. split; [done | apply int_cast_throws]. Qed.

(** A reader that answers a value or throws. *)
Definition reads {A} (reader : str -> res A) : Prop := forall s f, reader s = Fault f -> f = Thrown.

Section ReaderLemmas.
Context {T : Type} `{OptionTypeLaws T}.

Lemma default_reader_reads : reads (default_reader (T:=T)).
Proof. intros s f. apply cast_throws. Qed.

Lemma range_reader_reads low high : reads (range_reader (T:=T) low high).
Proof.
  intros s f. unfold range_reader. destruct (default_reader s) eqn:E; cbn [mbind res_bind].
  - case_match; congruence.
  - intros [= <-]. by eapply default_reader_reads.
Qed.

Lemma oneof_reader_reads `{EqDecision T} alt : reads (oneof_reader (T:=T) alt).
Proof.
  intros s f. unfold oneof_reader. destruct (default_reader s) eqn:E; cbn [mbind res_bind].
  - case_decide; congruence.
  - intros [= <-]. by eapply default_reader_reads.
Qed.

Lemma oneof_all (alts : list T) : oneof alts = alts.
Proof.
  assert (forall l acc : list T, foldl oneof_add acc l = acc ++ l) as E.
  { induction l as [|x l IH]; intros acc; cbn [foldl]; [by rewrite app_nil_r |].
    rewrite IH. unfold oneof_add. by rewrite <- app_assoc. }
  apply E.
Qed.
End ReaderLemmas.
#[export] Hint Resolve default_reader_reads range_reader_reads oneof_reader_reads : sample.

Lemma alter_lookup {A} (f : A -> A) (m : gmap str A) n x : m !! n = Some x -> alter f n m = <[n := f x]> m.
Proof.
  intros Hn. apply map_eq. intros k. destruct (decide (n = k)) as [<-|].
  - by rewrite lookup_alter_eq, Hn, lookup_insert_eq.
  - by rewrite lookup_alter_ne, lookup_insert_ne.
Qed.

(** ** Options that differ only in what was set *)
Definition static (o : option_base) : option_base :=
  match o with
  | option_without_value nam snam desc _ => option_without_value nam snam desc false
  | option_with_value nam snam need desc _ def _ reader => option_with_value nam snam need desc false def def reader
  end.

Definition actual_of (o : option_base) : option value :=
  match o with option_without_value _ _ _ _ => None | option_with_value _ _ _ _ _ _ actual _ => Some actual end.

(** The value an option reads from a string. *)
Definition read_value (o : option_base) (v : str) : option value :=
  match o with
  | option_without_value _ _ _ _ => None
  | option_with_value _ _ _ _ _ _ _ reader => match reader v with Ok x => Some x | Fault _ => None end
  end.

(** An option after it was set, to a value if there is one. *)
Definition mark (x : option value) (o : option_base) : option_base :=
  match o with
  | option_without_value nam snam desc _ => option_without_value nam snam desc true
  | option_with_value nam snam need desc _ def actual reader =>
      option_with_value nam snam need desc true def (default actual x) reader
  end.

Lemma static_mark x o : static (mark x o) = static o.
Proof. by destruct o. Qed.
Lemma has_set_mark x o : has_set (mark x o) = true.
Proof. by destruct o. Qed.

Lemma static_has_value {o o'} (E : static o = static o') : has_value o = has_value o'.
Proof. by destruct o, o'. Qed.
Lemma static_short_name {o o'} (E : static o = static o') : short_name o = short_name o'.
Proof. destruct o, o'; try discriminate E; injection E as; by subst. Qed.
Lemma static_read {o o'} (E : static o = static o') v : read_value o v = read_value o' v.
Proof. destruct o, o'; try discriminate E; injection E as; by subst. Qed.
Lemma static_must {o o'} (E : static o = static o') : must o = must o'.
Proof. destruct o, o'; try discriminate E; injection E as; by subst. Qed.

Definition statics (m : gmap str option_base) : gmap str option_base := static <$> m.

Lemma statics_lookup m m' n o : statics m = statics m' -> m !! n = Some o ->
  exists o', m' !! n = Some o' /\ static o' = static o.
Proof.
  intros E Hn. apply (f_equal (lookup n)) in E. unfold statics in E. rewrite !lookup_fmap, Hn in E.
  destruct (m' !! n) as [o'|]; [| discriminate]. exists o'. split; [done |]. by injection E.
Qed.

Lemma statics_insert m n o o' : m !! n = Some o -> static o' = static o -> statics (<[n := o']> m) = statics m.
Proof.
  intros Hn E. unfold statics. rewrite fmap_insert. apply insert_id. by rewrite lookup_fmap, Hn, E.
Qed.

(** ** Well-formed parsers *)
Definition wf_option (n : str) (o : option_base) : Prop :=
  name o = n /\ match o with option_without_value _ _ _ _ => True | option_with_value _ _ _ _ _ _ _ r => reads r end.

Definition wf (p : parser) : Prop :=
  (forall n o, options p !! n = Some o -> wf_option n o) /\
  NoDup (ordered p) /\ forall n, n ∈ ordered p <-> is_Some (options p !! n).

Lemma wf_new : wf new_parser.
Proof.
  split; [by intros |]. split; [constructor |].
  intros n. split; [by intros ?%elem_of_nil | by intros [? ?]].
Qed.

(** Adding an option keeps the parser well-formed and makes the option
    unset with its default; a name that is taken throws. *)
Lemma add_option_wf p n o : wf p -> wf_option n o ->
  match options p !! n with
  | Some _ => add_option n o p = Fault Thrown
  | None => exists p', add_option n o p = Ok p' /\ wf p' /\ options p' = <[n := o]> (options p) /\
      ordered p' = ordered p ++ [n]
  end.
Proof.
  intros (Hw & Hn & Ho) Hwf. unfold add_option. destruct (options p !! n) eqn:E; [done |].
  eexists. split; [done |]. split; [| done]. split; [| split]; cbn [options ordered].
  - intros m o' [[<- <-]|[_ Hm]]%lookup_insert_Some; [done | by apply Hw].
  - apply NoDup_app. split; [done |]. split; [| apply NoDup_singleton].
    intros m Hm%Ho ->%list_elem_of_singleton. rewrite E in Hm. by destruct Hm.
  - intros m. rewrite elem_of_app, list_elem_of_singleton, Ho.
    destruct (decide (m = n)) as [->|]; [rewrite lookup_insert_eq; naive_solver |].
    rewrite lookup_insert_ne by done. naive_solver.
Qed.

Lemma add_option_keeps p n o p' : wf p -> wf_option n o -> add_option n o p = Ok p' -> wf p'.
Proof.
  intros Hw Ho E. pose proof (add_option_wf p n o Hw Ho) as H. destruct (options p !! n); [congruence |].
  destruct H as (p1 & E1 & Hw1 & _). congruence.
Qed.

Lemma add_option_options p n o p' : add_option n o p = Ok p' -> options p' = <[n := o]> (options p).
Proof. unfold add_option. destruct (options p !! n); [done |]. by intros [= <-]. Qed.

Lemma wf_without n short desc : wf_option n (option_without_value n short desc false).
Proof. done. Qed.

Lemma wf_reader {T} `{OptionTypeLaws T} n short need desc def a (reader : str -> res T) : reads reader ->
  wf_option n (option_with_value n short need desc false def a (fun s => x ← reader s; Ok (to_value x))).
Proof.
  intros Hr. split; [done |]. intros s f. destruct (reader s) eqn:E; cbn [mbind res_bind]; [done |].
  intros [= <-]. by eapply Hr.
Qed.

Lemma add_wf n short desc p p' : wf p -> add n short desc p = Ok p' -> wf p'.
Proof. intros Hw. apply add_option_keeps; [done | apply wf_without]. Qed.

Lemma add_reader_wf {T} `{OptionTypeLaws T} n short desc need (def : T) reader p p' : reads reader ->
  wf p -> add_reader n short desc need def reader p = Ok p' -> wf p'.
Proof. intros Hr Hw. apply add_option_keeps; [done | by apply wf_reader]. Qed.

Lemma add_value_wf {T} `{OptionTypeLaws T} n short desc need (def : T) p p' :
  wf p -> add_value n short desc need def p = Ok p' -> wf p'.
Proof. apply add_reader_wf, default_reader_reads. Qed.

(** ** The grammar of the command line

    An item is one or two arguments; the names of the options that short names
    stand for are part of it. *)
Inductive item : Type :=
  | LongFlag (n : str)
  | LongEq (n v : str)
  | LongArg (n v : str)
  | Shorts (fs : list (ascii * str)) (c : ascii) (n : str)
  | ShortArg (fs : list (ascii * str)) (c : ascii) (n v : str)
  | Dash
  | Other (s : str).

Definition render (i : item) : list str :=
  match i with
  | LongFlag n => [lit "--" ++ n]
  | LongEq n v => [lit "--" ++ n ++ "="%char :: v]
  | LongArg n v => [lit "--" ++ n; v]
  | Shorts fs c _ => [lit "-" ++ map fst fs ++ [c]]
  | ShortArg fs c _ v => [lit "-" ++ map fst fs ++ [c]; v]
  | Dash => [lit "-"]
  | Other s => [s]
  end.

(** The options an item sets, with the text of their value, and the argument
    it leaves to the program. *)
Definition setting : Type := (str * option str)%type.
Definition settings (i : item) : list setting :=
  match i with
  | LongFlag n => [(n, None)]
  | LongEq n v | LongArg n v => [(n, Some v)]
  | Shorts fs _ n => map (fun f => (f.2, None)) fs ++ [(n, None)]
  | ShortArg fs _ n v => map (fun f => (f.2, None)) fs ++ [(n, Some v)]
  | Dash | Other _ => []
  end.
Definition left_over (i : item) : list str := match i with Other s => [s] | _ => [] end.

(** A flag takes no value; any other option needs one its reader accepts. *)
Definition can_set (m : gmap str option_base) (s : setting) : Prop :=
  exists o, m !! s.1 = Some o /\
    match s.2 with None => has_value o = false | Some v => is_Some (read_value o v) end.

Definition short_for (m : gmap str option_base) (c : ascii) (n : str) : Prop :=
  exists o, m !! n = Some o /\ short_name o = c /\ c <> NUL /\ n <> [].

Definition shorts_for (m : gmap str option_base) (fs : list (ascii * str)) : Prop :=
  Forall (fun f => short_for m f.1 f.2) fs.

Definition valid_form (m : gmap str option_base) (i : item) : Prop :=
  match i with
  | LongFlag n | LongEq n _ | LongArg n _ => "="%char ∉ n
  | Shorts fs c n | ShortArg fs c n _ => shorts_for m (fs ++ [(c, n)]) /\ head (map fst fs ++ [c]) <> Some "-"%char
  | Dash => True
  | Other s => head s <> Some "-"%char
  end.

Definition valid_item (m : gmap str option_base) (i : item) : Prop :=
  valid_form m i /\ Forall (can_set m) (settings i).

(** What the settings do to the options. *)
Definition set_one (m : gmap str option_base) (s : setting) : gmap str option_base :=
  alter (fun o => mark (s.2 ≫= read_value o) o) s.1 m.
Definition set_all (ss : list setting) (m : gmap str option_base) : gmap str option_base := foldl set_one m ss.

Definition all_settings (its : list item) : list setting := concat (map settings its).
Definition all_left (its : list item) : list str := concat (map left_over its).
Definition command_line (its : list item) : list str := concat (map render its).

Lemma statics_set_one m s : statics (set_one m s) = statics m.
Proof.
  unfold set_one. destruct (m !! s.1) as [o|] eqn:E.
  - rewrite (alter_lookup _ _ _ o) by done. apply (statics_insert _ _ o); [done | apply static_mark].
  - rewrite alter_id; [done | congruence].
Qed.
Lemma statics_set_all ss : forall m, statics (set_all ss m) = statics m.
Proof. induction ss as [|s ss IH]; intros m; [done |]. cbn. unfold set_all in IH. by rewrite IH, statics_set_one. Qed.

Section SameStatics.
Context {m m' : gmap str option_base} (E : statics m = statics m').

Lemma can_set_static s : can_set m s -> can_set m' s.
Proof.
  intros (o & Ho & Hs). destruct (statics_lookup _ _ _ _ E Ho) as (o' & Ho' & Es). exists o'. split; [done |].
  destruct s.2; [by rewrite (static_read Es) | by rewrite (static_has_value Es)].
Qed.
Lemma short_for_static c n : short_for m c n -> short_for m' c n.
Proof.
  intros (o & Ho & Hc & Hn). destruct (statics_lookup _ _ _ _ E Ho) as (o' & Ho' & Es).
  exists o'. by rewrite (static_short_name Es).
Qed.
Lemma valid_item_static i : valid_item m i -> valid_item m' i.
Proof.
  intros [Hf Hs]. split; [| eapply Forall_impl; [exact Hs | apply can_set_static]].
  destruct i; cbn in *; try done; destruct Hf as [Hf ?]; (split; [| done]);
    (eapply Forall_impl; [exact Hf |]); intros []; apply short_for_static.
Qed.
End SameStatics.

(** ** Setting *)
Section Setting.
Context (p : parser).

Lemma set_option_ok n : can_set (options p) (n, None) ->
  set_option n p = mkParser (set_one (options p) (n, None)) (ordered p) (ftr p) (prog_name p) (others p) (errors p).
Proof.
  intros (o & Ho & Hv). cbn in *. unfold set_option. rewrite Ho. destruct o; [| done]. cbn. unfold put, set_one. cbn [fst snd mbind option_bind].
  by rewrite (alter_lookup _ _ _ _ Ho).
Qed.

Lemma set_option_to_ok n v : can_set (options p) (n, Some v) ->
  set_option_to n v p =
    Ok (mkParser (set_one (options p) (n, Some v)) (ordered p) (ftr p) (prog_name p) (others p) (errors p)).
Proof.
  intros (o & Ho & x & Hx). cbn in *. unfold set_option_to. rewrite Ho. destruct o as [|nam snam need desc has def actual reader]; [done |].
  cbn in *. destruct (reader v) as [y|] eqn:E; [| done]. cbn. unfold put, set_one. cbn [fst snd mbind option_bind].
  rewrite (alter_lookup _ _ _ _ Ho). cbn. by rewrite E.
Qed.
End Setting.

(** An unsuccessful attempt adds an error and changes no option. *)
Definition fails (p p' : parser) : Prop :=
  options p' = options p /\ ordered p' = ordered p /\ ftr p' = ftr p /\ prog_name p' = prog_name p /\
  others p' = others p /\ exists e, errors p' = errors p ++ [e].

Lemma push_error_fails e p : fails p (push_error e p).
Proof. unfold fails. cbn. eauto 10. Qed.

Lemma set_option_cases n p : can_set (options p) (n, None) \/ fails p (set_option n p).
Proof.
  unfold set_option. destruct (options p !! n) as [o|] eqn:Ho; [| right; apply push_error_fails].
  destruct o; [left; by eexists |]. right. unfold fails. cbn. rewrite insert_id by done. eauto 10.
Qed.

Lemma set_option_to_cases n v p : wf p ->
  can_set (options p) (n, Some v) \/ exists p', set_option_to n v p = Ok p' /\ fails p p'.
Proof.
  intros [Hw _]. unfold set_option_to. destruct (options p !! n) as [o|] eqn:Ho; [| right; eauto using push_error_fails].
  apply Hw in Ho as Hr. destruct o as [|nam snam need desc has def actual reader].
  - right. eexists. split; [done |]. unfold fails. cbn. rewrite insert_id by done. eauto 10.
  - destruct (reader v) as [x|f] eqn:E; [left; eexists; split; [done |]; exists x; cbn; by rewrite E |].
    destruct Hr as [_ Hr]. apply Hr in E as Ef. subst f. right. cbn. rewrite E. eexists. split; [done |]. unfold fails. cbn.
    rewrite insert_id by done. eauto 10.
Qed.

(** ** Steps of the parser

    [advances p p' ss os es]: from [p] to [p'] the settings [ss] were made, the
    arguments [os] left over and the errors [es] reported. *)
Definition advances (p p' : parser) (ss : list setting) (os es : list str) : Prop :=
  options p' = set_all ss (options p) /\ ordered p' = ordered p /\ ftr p' = ftr p /\ prog_name p' = prog_name p /\
  others p' = others p ++ os /\ errors p' = errors p ++ es.

Lemma advances_refl p : advances p p [] [] [].
Proof. unfold advances. by rewrite !app_nil_r. Qed.

Lemma advances_trans p1 p2 p3 s1 s2 o1 o2 e1 e2 :
  advances p1 p2 s1 o1 e1 -> advances p2 p3 s2 o2 e2 -> advances p1 p3 (s1 ++ s2) (o1 ++ o2) (e1 ++ e2).
Proof.
  intros (Ho & Hr & Hf & Hp & Ht & He) (Ho' & Hr' & Hf' & Hp' & Ht' & He'). unfold advances, set_all.
  rewrite Ho', Hr', Hf', Hp', Ht', He', Ho, Hr, Hf, Hp, Ht, He, foldl_app, !app_assoc. done.
Qed.

Lemma fails_advances p p' : fails p p' -> exists e, advances p p' [] [] [e].
Proof. intros (? & ? & ? & ? & ? & e & ?). exists e. unfold advances. by rewrite app_nil_r. Qed.

Lemma advances_statics p p' ss os es : advances p p' ss os es -> statics (options p') = statics (options p).
Proof. intros [-> _]. apply statics_set_all. Qed.

Lemma wf_statics p p' : statics (options p) = statics (options p') -> ordered p' = ordered p -> wf p -> wf p'.
Proof.
  intros E Eo (Hw & Hn & Ho). unfold wf. rewrite Eo. split; [| split; [done |]].
  - intros n o' Ho'. destruct (statics_lookup _ _ _ _ (eq_sym E) Ho') as (o & Hoo & Es). apply Hw in Hoo.
    destruct o, o'; try discriminate Es; injection Es as; unfold wf_option in *; cbn in *; by subst.
  - intros n. rewrite Ho. split; intros [o Hoo]; [| symmetry in E]; destruct (statics_lookup _ _ _ _ E Hoo) as (o' & -> & _); by eexists.
Qed.

Lemma advances_wf p p' ss os es : advances p p' ss os es -> wf p -> wf p'.
Proof. intros Ha. eapply wf_statics; [symmetry; by eapply advances_statics | apply Ha]. Qed.

(** ** Short names *)
Definition shorts_distinct (m : gmap str option_base) : Prop :=
  forall c n n', short_for m c n -> short_for m c n' -> n = n'.

Definition listed (es : list (str * option_base)) (c : ascii) (n : str) : Prop :=
  exists o, (n, o) ∈ es /\ short_name o = c /\ c <> NUL /\ n <> [].

Lemma listed_cons n0 o0 es c n :
  listed ((n0, o0) :: es) c n <-> (n = n0 /\ short_name o0 = c /\ c <> NUL /\ n0 <> []) \/ listed es c n.
Proof.
  unfold listed. split.
  - intros (o & [[= <- <-]|Hin]%elem_of_cons & Hc); [by left | right; eauto].
  - intros [(-> & Hc)|(o & Hin & Hc)]; [exists o0 | exists o]; (split; [| done]); [left | by right].
Qed.

Lemma short_names_listed es : forall lookup, NoDup es.*1 ->
  match short_names es lookup with
  | inr t => forall c n, t !! c = Some n <-> lookup !! c = Some n \/ listed es c n
  | inl c => exists n, listed es c n /\ (is_Some (lookup !! c) \/ exists n', n' <> n /\ listed es c n')
  end.
Proof.
  induction es as [|[n0 o0] es IH]; intros lookup Hnd; cbn [short_names].
  { intros c n. split; [by left | intros [?|(? & ?%elem_of_nil & _)]; done]. }
  cbn in Hnd. apply NoDup_cons in Hnd as [Hn0 Hnd]. specialize (IH lookup Hnd) as IH0.
  assert (n0 = [] \/ short_name o0 = NUL -> forall c n, listed ((n0, o0) :: es) c n <-> listed es c n) as Hskip
    by (intros Hs c n; rewrite listed_cons; naive_solver).
  assert (n0 = [] \/ short_name o0 = NUL ->
    match short_names es lookup with
    | inr t => forall c n, t !! c = Some n <-> lookup !! c = Some n \/ listed ((n0, o0) :: es) c n
    | inl c => exists n, listed ((n0, o0) :: es) c n /\
        (is_Some (lookup !! c) \/ exists n', n' <> n /\ listed ((n0, o0) :: es) c n')
    end) as Hsame.
  { intros Hs. specialize (Hskip Hs). destruct (short_names es lookup) as [c|t]; [| intros c n; by rewrite Hskip].
    destruct IH0 as (n & Hn & H). exists n. rewrite Hskip. split; [done |].
    destruct H as [?|(n' & ? & ?)]; [by left | right; exists n'; by rewrite Hskip]. }
  case_bool_decide as E1; [by apply Hsame; left |]. cbv zeta. case_bool_decide as E2; [by apply Hsame; right |].
  clear Hskip Hsame IH0. destruct (lookup !! short_name o0) as [m0|] eqn:E.
  { exists n0. rewrite listed_cons. split; [by left | left; by eexists]. }
  specialize (IH (<[short_name o0 := n0]> lookup) Hnd). destruct (short_names es _) as [c|t].
  - destruct IH as (n & Hn & H). exists n. rewrite listed_cons. split; [by right |].
    destruct H as [[m Hm]|(n' & ? & ?)]; [| right; exists n'; rewrite listed_cons; by auto].
    apply lookup_insert_Some in Hm as [[<- <-]|[_ Hm]]; [| left; by eexists].
    right. exists n0. rewrite listed_cons. split; [| by left].
    intros ->. destruct Hn as (o & Hin & _). apply Hn0, list_elem_of_fmap. by exists (n, o).
  - intros c n. rewrite IH, listed_cons, lookup_insert_Some. split; [naive_solver |].
    intros [Hl|[(-> & <- & ? & ?)|Hl]]; [| by auto | by auto].
    destruct (decide (short_name o0 = c)) as [<-|]; [congruence | by auto].
Qed.

Lemma entries_elem m n o : (n, o) ∈ entries m <-> m !! n = Some o.
Proof. unfold entries. rewrite merge_sort_Permutation. apply elem_of_map_to_list. Qed.

Lemma listed_entries m c n : listed (entries m) c n <-> short_for m c n.
Proof. unfold listed, short_for. setoid_rewrite entries_elem. done. Qed.

Lemma entries_NoDup m : NoDup (entries m).*1.
Proof. unfold entries. rewrite merge_sort_Permutation. apply NoDup_fst_map_to_list. Qed.

Lemma short_names_spec m :
  match short_names (entries m) ∅ with
  | inr t => forall c n, t !! c = Some n <-> short_for m c n
  | inl c => exists n n', n <> n' /\ short_for m c n /\ short_for m c n'
  end.
Proof.
  pose proof (short_names_listed (entries m) ∅ (entries_NoDup m)) as H.
  destruct (short_names (entries m) ∅) as [c|t].
  - destruct H as (n & Hn & [[? ?]|(n' & Hne & Hn')]); [done |]. exists n, n'. by rewrite <- !listed_entries.
  - intros c n. rewrite H, listed_entries, lookup_empty. naive_solver.
Qed.

Lemma short_names_distinct m : shorts_distinct m ->
  exists t, short_names (entries m) ∅ = inr t /\ forall c n, t !! c = Some n <-> short_for m c n.
Proof.
  intros Hd. pose proof (short_names_spec m) as H. destruct (short_names (entries m) ∅) as [c|t]; [| by eexists].
  destruct H as (n & n' & Hne & Hn & Hn'). by destruct Hne; eapply Hd.
Qed.

(** ** The loop over the arguments *)
Definition lookup_ok (lookup : gmap ascii str) (m : gmap str option_base) : Prop :=
  forall c n, lookup !! c = Some n <-> short_for m c n.

Lemma lookup_ok_statics lookup m m' : statics m = statics m' -> lookup_ok lookup m -> lookup_ok lookup m'.
Proof. intros E Hl c n. rewrite (Hl c n). split; apply short_for_static; [exact E | exact (eq_sym E)]. Qed.

Lemma set_option_advances n p : can_set (options p) (n, None) -> advances p (set_option n p) [(n, None)] [] [].
Proof. intros Hc. rewrite set_option_ok by done. unfold advances. cbn. by rewrite !app_nil_r. Qed.

Lemma set_option_to_advances n v p : can_set (options p) (n, Some v) ->
  exists p', set_option_to n v p = Ok p' /\ advances p p' [(n, Some v)] [] [].
Proof. intros Hc. rewrite set_option_to_ok by done. eexists. split; [done |]. unfold advances. cbn. by rewrite !app_nil_r. Qed.

(** Either the option was set, or there is an error. *)
Definition set_or_error (p p' : parser) (s : setting) : Prop :=
  (can_set (options p) s /\ advances p p' [s] [] []) \/ exists e, advances p p' [] [] [e].

Lemma set_option_or n p : set_or_error p (set_option n p) (n, None).
Proof.
  destruct (set_option_cases n p) as [Hc|Hf]; [left; split; [done | by apply set_option_advances] |].
  right. by apply fails_advances.
Qed.

Lemma set_option_to_or n v p : wf p -> exists p', set_option_to n v p = Ok p' /\ set_or_error p p' (n, Some v).
Proof.
  intros Hw. destruct (set_option_to_cases n v p Hw) as [Hc|(p' & E & Hf)].
  - destruct (set_option_to_advances _ _ _ Hc) as (p' & E & Ha). exists p'. split; [done |]. by left.
  - exists p'. split; [done |]. right. by apply fails_advances.
Qed.

Lemma push_error_advances e p : advances p (push_error e p) [] [] [e].
Proof. unfold advances. cbn. by rewrite app_nil_r. Qed.
#[local] Hint Resolve push_error_advances advances_refl : sample.

Section Shorts.
Context (lookup : gmap ascii str).

Lemma short_flag_or c p : lookup_ok lookup (options p) ->
  (exists n, short_for (options p) c n /\ can_set (options p) (n, None) /\
     short_flag lookup c p = set_option n p) \/
  exists e, advances p (short_flag lookup c p) [] [] [e].
Proof.
  intros Hl. unfold short_flag. destruct (lookup !! c) as [[|x n]|] eqn:E; [right; eauto with sample | | right; eauto with sample].
  destruct (set_option_or (x :: n) p) as [[Hc _]|?]; [left | by right].
  exists (x :: n). split; [by apply Hl | done].
Qed.

Definition flag_settings (fs : list (ascii * str)) : list setting := map (fun f => (f.2, None)) fs.

Lemma short_loop_spec cs : forall c p, lookup_ok lookup (options p) ->
  exists cs' c' p' ss es, short_loop lookup c cs p = (c', p') /\ c :: cs = cs' ++ [c'] /\ advances p p' ss [] es /\
    (es = [] -> exists fs, shorts_for (options p) fs /\ map fst fs = cs' /\ ss = flag_settings fs /\
       Forall (can_set (options p)) ss).
Proof.
  induction cs as [|d cs IH]; intros c p Hl; cbn [short_loop].
  { exists [], c, p, [], []. ands; [done.. | by apply advances_refl |]. intros _. exists []. by repeat constructor. }
  destruct (short_flag_or c p Hl) as [(n & Hn & Hc & ->)|[e He]].
  - pose proof (set_option_advances _ _ Hc) as Ha. pose proof (advances_statics _ _ _ _ _ Ha) as Es.
    destruct (IH d (set_option n p)) as (cs' & c' & p' & ss & es & -> & E & Ha' & Hs);
      [by eapply lookup_ok_statics; [symmetry |] |].
    exists (c :: cs'), c', p', ((n, None) :: ss), es. ands; [done | by rewrite E | |].
    { by apply (advances_trans _ _ _ _ _ _ _ _ _ Ha Ha'). }
    intros Hes. destruct (Hs Hes) as (fs & Hfs & <- & -> & Hset). exists ((c, n) :: fs). ands; [| done | done |].
    + constructor; [done |]. eapply Forall_impl; [exact Hfs |]. intros []. by apply short_for_static.
    + constructor; [done |]. eapply Forall_impl; [exact Hset |]. by apply can_set_static.
  - destruct (IH d (short_flag lookup c p)) as (cs' & c' & p' & ss & es & -> & E & Ha' & _);
      [eapply lookup_ok_statics; [symmetry; by eapply advances_statics | done] |].
    exists (c :: cs'), c', p', ss, (e :: es). ands; [done | by rewrite E | | done].
    by apply (advances_trans _ _ _ _ _ _ _ _ _ He Ha').
Qed.

Lemma short_flags_set fs c p : lookup_ok lookup (options p) -> shorts_for (options p) fs ->
  Forall (can_set (options p)) (flag_settings fs) ->
  exists p', advances p p' (flag_settings fs) [] [] /\ forall cs d, map fst fs ++ [c] = d :: cs ->
    short_loop lookup d cs p = (c, p').
Proof.
  revert p. induction fs as [|[d n] fs IH]; intros p Hl Hf Hs.
  { exists p. split; [apply advances_refl |]. by intros cs d [= <- <-]. }
  apply Forall_cons in Hf as [Hn Hf], Hs as [Hc Hs]. cbn in Hn, Hc.
  pose proof (set_option_advances _ _ Hc) as Ha. pose proof (advances_statics _ _ _ _ _ Ha) as Es. symmetry in Es.
  destruct (IH (set_option n p)) as (p' & Ha' & E).
  - by eapply lookup_ok_statics.
  - eapply Forall_impl; [exact Hf |]. intros []. by apply short_for_static.
  - eapply Forall_impl; [exact Hs |]. by apply can_set_static.
  - exists p'. split; [apply (advances_trans _ _ _ _ _ _ _ _ _ Ha Ha') |].
    intros cs d' [= <- <-]. destruct (map fst fs ++ [c]) as [|d2 cs2] eqn:Em; [by destruct fs |].
    cbn [short_loop]. assert (short_flag lookup d p = set_option n p) as ->; [| by apply E].
    unfold short_flag. rewrite (proj2 (Hl _ _) Hn). destruct n; [| done]. by destruct Hn as (? & _ & _ & _ & []).
Qed.
End Shorts.

(** ** Prefixes and the equals sign *)
Lemma is_prefix_app a b : is_prefix a (a ++ b) = true.
Proof. apply is_prefix_spec. by eexists. Qed.

Lemma is_prefix_split a s : is_prefix a s = true -> s = a ++ drop (length a) s.
Proof. intros [r ->]%is_prefix_spec. by rewrite drop_app_length. Qed.

Lemma drop_dashes s : drop 2 (lit "--" ++ s) = s.
Proof. done. Qed.

Lemma not_long s : head s <> Some "-"%char -> is_prefix (lit "--") ("-"%char :: s) = false.
Proof.
  intros Hh. apply bool_decide_eq_false_2. destruct s as [|c s]; [done |]. cbn. intros [= ->]. by apply Hh.
Qed.

Lemma not_option s : head s <> Some "-"%char -> is_prefix (lit "--") s = false /\ is_prefix (lit "-") s = false.
Proof.
  intros Hh. split; apply bool_decide_eq_false_2; destruct s as [|c s]; try done; cbn; intros E;
    (assert (c = "-"%char) as -> by congruence); by apply Hh.
Qed.

Lemma prefix_dash s : is_prefix (lit "--") s = false -> is_prefix (lit "-") s = true ->
  exists s', s = "-"%char :: s' /\ head s' <> Some "-"%char.
Proof.
  intros H2 E%is_prefix_split. change (s = lit "-" ++ drop 1 s) in E.
  exists (drop 1 s). split; [exact E |]. intros Hh. rewrite E in H2.
  destruct (drop 1 s) as [|c s']; [done |]. cbn in Hh. injection Hh as ->.
  exact (eq_true_false_abs _ (is_prefix_app (lit "--") s') H2).
Qed.

Lemma prefix_none s : is_prefix (lit "-") s = false -> head s <> Some "-"%char.
Proof. intros H Hh. destruct s as [|c s]; [done |]. injection Hh as ->.
  exact (eq_true_false_abs _ (is_prefix_app (lit "-") s) H).
Qed.

Lemma cut_app c a b : c ∉ a -> cut c (a ++ c :: b) = Some (a, b).
Proof.
  induction a as [|d a IH]; intros Hc; cbn; [by rewrite decide_True |].
  apply not_elem_of_cons in Hc as [Hd Hc]. rewrite decide_False by congruence. by rewrite IH.
Qed.

Lemma cut_none c a : c ∉ a -> cut c a = None.
Proof.
  induction a as [|d a IH]; intros Hc; cbn; [done |].
  apply not_elem_of_cons in Hc as [Hd Hc]. rewrite decide_False by congruence. by rewrite IH.
Qed.

Lemma cut_spec c s : match cut c s with
  | Some (a, b) => s = a ++ c :: b /\ c ∉ a
  | None => c ∉ s
  end.
Proof.
  induction s as [|d s IH]; cbn; [by intros ?%elem_of_nil |]. case_decide as E.
  { subst d. split; [done | by intros ?%elem_of_nil]. }
  destruct (cut c s) as [[a b]|]; [| apply not_elem_of_cons; by split; [congruence |]].
  destruct IH as [-> Hn]. split; [done |]. apply not_elem_of_cons. by split; [congruence |].
Qed.

(** ** Items are parsed, and what is parsed without an error is items *)
Section Items.
Context (lookup : gmap ascii str).

Lemma parse_cluster fs c n o p : lookup_ok lookup (options p) -> shorts_for (options p) (fs ++ [(c, n)]) ->
  head (map fst fs ++ [c]) <> Some "-"%char -> Forall (can_set (options p)) (flag_settings fs) ->
  options p !! n = Some o ->
  exists p1, advances p p1 (flag_settings fs) [] [] /\
    forall args, parse_args lookup (("-"%char :: map fst fs ++ [c]) :: args) p =
      match args with
      | v :: args' => if has_value o then p' ← set_option_to n v p1; parse_args lookup args' p'
                      else parse_args lookup args (set_option n p1)
      | [] => Ok (set_option n p1)
      end.
Proof.
  intros Hl Hf Hh Hs Ho. apply Forall_app in Hf as [Hf [Hn _]%Forall_cons]. cbn in Hn.
  destruct (short_flags_set lookup fs c p Hl Hf Hs) as (p1 & Ha & Hloop). exists p1. split; [done |]. intros args.
  destruct (map fst fs ++ [c]) as [|d cs] eqn:Em; [by destruct fs |]. cbn [parse_args].
  rewrite not_long by done. change (is_prefix (lit "-") ("-"%char :: d :: cs)) with true. cbn [drop].
  rewrite (Hloop _ _ eq_refl), (proj2 (Hl _ _) Hn). destruct n as [|x n]; [by destruct Hn as (? & _ & _ & _ & []) |].
  destruct args as [|v args]; [done |].
  destruct (statics_lookup _ _ _ _ (eq_sym (advances_statics _ _ _ _ _ Ha)) Ho) as (o' & -> & Es).
  by rewrite (static_has_value Es).
Qed.

Lemma parse_item i p : lookup_ok lookup (options p) -> valid_item (options p) i ->
  exists p', advances p p' (settings i) (left_over i) [] /\
    forall args, parse_args lookup (render i ++ args) p = parse_args lookup args p'.
Proof.
  intros Hl [Hf Hs]. destruct i as [n|n v|n v|fs c n|fs c n v| |s]; cbn [settings left_over valid_form] in *.
  - apply Forall_cons in Hs as [Hc _]. exists (set_option n p). split; [by apply set_option_advances |]. intros args.
    change (render (LongFlag n) ++ args) with ((lit "--" ++ n) :: args). cbn [parse_args].
    rewrite is_prefix_app, drop_dashes, cut_none by done. destruct Hc as (o & Ho & Hv). cbn in Ho, Hv. by rewrite Ho, Hv.
  - apply Forall_cons in Hs as [Hc _]. destruct (set_option_to_advances _ _ _ Hc) as (p' & E & Ha).
    exists p'. split; [done |]. intros args.
    change (render (LongEq n v) ++ args) with ((lit "--" ++ n ++ "="%char :: v) :: args). cbn [parse_args].
    rewrite is_prefix_app, drop_dashes, cut_app by done. by rewrite E.
  - apply Forall_cons in Hs as [Hc _]. destruct (set_option_to_advances _ _ _ Hc) as (p' & E & Ha).
    exists p'. split; [done |]. intros args.
    change (render (LongArg n v) ++ args) with ((lit "--" ++ n) :: v :: args). cbn [parse_args].
    rewrite is_prefix_app, drop_dashes, cut_none by done. destruct Hc as (o & Ho & x & Hx). cbn in Ho. rewrite Ho.
    destruct o; [done |]. cbn [has_value]. by rewrite E.
  - destruct Hf as [Hf Hh]. apply Forall_app in Hs as [Hs [Hc _]%Forall_cons]. pose proof Hc as (o & Ho & Hv). cbn in Ho, Hv.
    destruct (parse_cluster fs c n o p Hl Hf Hh Hs Ho) as (p1 & Ha & E).
    apply (can_set_static (eq_sym (advances_statics _ _ _ _ _ Ha))) in Hc. exists (set_option n p1).
    split; [apply (advances_trans _ _ _ _ _ _ _ _ _ Ha (set_option_advances _ _ Hc)) |]. intros args.
    change (render (Shorts fs c n) ++ args) with (("-"%char :: map fst fs ++ [c]) :: args).
    rewrite (E args), Hv. by destruct args.
  - destruct Hf as [Hf Hh]. apply Forall_app in Hs as [Hs [Hc _]%Forall_cons]. pose proof Hc as (o & Ho & x & Hx). cbn in Ho, Hx.
    destruct (parse_cluster fs c n o p Hl Hf Hh Hs Ho) as (p1 & Ha & E).
    apply (can_set_static (eq_sym (advances_statics _ _ _ _ _ Ha))) in Hc.
    destruct (set_option_to_advances _ _ _ Hc) as (p' & E' & Ha'). exists p'.
    split; [apply (advances_trans _ _ _ _ _ _ _ _ _ Ha Ha') |]. intros args.
    change (render (ShortArg fs c n v) ++ args) with (("-"%char :: map fst fs ++ [c]) :: v :: args).
    rewrite (E (v :: args)), E'. by destruct o.
  - exists p. split; [apply advances_refl | done].
  - exists (push_other s p). split; [unfold advances; cbn; by rewrite app_nil_r |]. intros args.
    change (render (Other s) ++ args) with (s :: args). cbn [parse_args].
    by destruct (not_option s Hf) as [-> ->].
Qed.

Lemma parse_items its : forall p, lookup_ok lookup (options p) -> Forall (valid_item (options p)) its ->
  exists p', parse_args lookup (command_line its) p = Ok p' /\ advances p p' (all_settings its) (all_left its) [].
Proof.
  induction its as [|i its IH]; intros p Hl Hv; [exists p; split; [done | apply advances_refl] |].
  apply Forall_cons in Hv as [Hi Hv]. destruct (parse_item i p Hl Hi) as (p1 & Ha & E).
  pose proof (eq_sym (advances_statics _ _ _ _ _ Ha)) as Es. destruct (IH p1) as (p2 & E2 & Ha2).
  - by eapply lookup_ok_statics.
  - eapply Forall_impl; [exact Hv |]. by apply valid_item_static.
  - exists p2. split; [unfold command_line; cbn [map concat]; by rewrite E |].
    apply (advances_trans _ _ _ _ _ _ _ _ _ Ha Ha2).
Qed.

(** The other way: every step is an item or an error. *)
Definition steps_to (pre : list str) (p p' : parser) : Prop :=
  exists ss os es, advances p p' ss os es /\ (es = [] -> exists i, valid_item (options p) i /\ pre = render i).

Lemma error_steps pre p p' ss os es : es <> [] -> advances p p' ss os es -> steps_to pre p p'.
Proof. intros He Ha. eexists _, _, _. split; [exact Ha | done]. Qed.

Lemma set_or_error_steps i s p p' : set_or_error p p' s -> settings i = [s] -> valid_form (options p) i ->
  steps_to (render i) p p'.
Proof.
  intros [[Hc Ha]|[e Ha]] Es Hf; [| by eapply error_steps; [| exact Ha]].
  eexists _, _, _. split; [exact Ha |]. intros _. exists i. split; [| done]. split; [done |].
  rewrite Es. by constructor.
Qed.

Definition step (a : str) (args : list str) (p : parser) : Prop :=
  exists pre args' p', a :: args = pre ++ args' /\ (length args' <= length args)%nat /\
    parse_args lookup (a :: args) p = parse_args lookup args' p' /\ steps_to pre p p'.

Lemma step_one a args p p' : parse_args lookup (a :: args) p = parse_args lookup args p' -> steps_to [a] p p' ->
  step a args p.
Proof. intros E Hs. exists [a], args, p'. ands; auto. Qed.

Lemma step_two a v args p p' : parse_args lookup (a :: v :: args) p = parse_args lookup args p' ->
  steps_to [a; v] p p' -> step a (v :: args) p.
Proof. intros E Hs. exists [a; v], args, p'. ands; [done | cbn; lia | done | done]. Qed.

Lemma long_step s args p : wf p -> step (lit "--" ++ s) args p.
Proof.
  intros Hw. pose proof (cut_spec "="%char s) as Hc.
  destruct (cut "="%char s) as [[n v]|] eqn:Ec.
  - destruct Hc as [-> Hn]. destruct (set_option_to_or n v p Hw) as (p' & E' & Hs).
    apply (step_one _ _ _ p'); [cbn [parse_args]; rewrite is_prefix_app, drop_dashes, Ec; by rewrite E' |].
    exact (set_or_error_steps (LongEq n v) _ _ _ Hs eq_refl Hn).
  - destruct (options p !! s) as [o|] eqn:Ho.
    2:{ eapply step_one; [cbn [parse_args]; rewrite is_prefix_app, drop_dashes, Ec, Ho; done |].
        by eapply error_steps; [| apply push_error_advances]. }
    destruct (has_value o) eqn:Hv.
    2:{ eapply step_one; [cbn [parse_args]; rewrite is_prefix_app, drop_dashes, Ec, Ho, Hv; done |].
        exact (set_or_error_steps (LongFlag s) _ _ _ (set_option_or s p) eq_refl Hc). }
    destruct args as [|v args].
    + eapply step_one; [cbn [parse_args]; rewrite is_prefix_app, drop_dashes, Ec, Ho, Hv; done |].
      by eapply error_steps; [| apply push_error_advances].
    + destruct (set_option_to_or s v p Hw) as (p' & E' & Hs).
      apply (step_two _ _ _ _ p'); [cbn [parse_args]; rewrite is_prefix_app, drop_dashes, Ec, Ho, Hv; by rewrite E' |].
      exact (set_or_error_steps (LongArg s v) _ _ _ Hs eq_refl Hc).
Qed.

Definition cluster_item (fs : list (ascii * str)) (c : ascii) (n : str) (ov : option str) : item :=
  match ov with None => Shorts fs c n | Some v => ShortArg fs c n v end.

Lemma cluster_steps cs c n ov p p1 p2 ss es : advances p p1 ss [] es ->
  (es = [] -> exists fs, shorts_for (options p) fs /\ map fst fs = cs /\ ss = flag_settings fs /\
     Forall (can_set (options p)) ss) ->
  set_or_error p1 p2 (n, ov) -> short_for (options p) c n -> head (cs ++ [c]) <> Some "-"%char ->
  steps_to (("-"%char :: cs ++ [c]) :: match ov with Some v => [v] | None => [] end) p p2.
Proof.
  intros Ha Hfs [[Hc Ha2]|[e Ha2]] Hn Hh.
  2:{ eapply error_steps; [| exact (advances_trans _ _ _ _ _ _ _ _ _ Ha Ha2)]. by intros [_ ?]%app_eq_nil. }
  eexists _, _, _. split; [exact (advances_trans _ _ _ _ _ _ _ _ _ Ha Ha2) |].
  intros [He _]%app_eq_nil. destruct (Hfs He) as (fs & Hf & <- & -> & Hs). exists (cluster_item fs c n ov).
  split; [| by destruct ov].
  assert (shorts_for (options p) (fs ++ [(c, n)])) as Hfc by (apply Forall_app; split; [done | by repeat constructor]).
  assert (Forall (can_set (options p)) (flag_settings fs ++ [(n, ov)])) as Hall.
  { apply Forall_app. split; [done |]. constructor; [| constructor].
    eapply can_set_static; [by eapply advances_statics | exact Hc]. }
  by destruct ov.
Qed.

Lemma short_step d cs args p : wf p -> lookup_ok lookup (options p) -> d <> "-"%char ->
  step ("-"%char :: d :: cs) args p.
Proof.
  intros Hw Hl Hd. destruct (short_loop_spec lookup cs d p Hl) as (cs' & c & p1 & ss & es & Eloop & E & Ha & Hfs).
  assert (head (cs' ++ [c]) <> Some "-"%char) as Hh by (rewrite <- E; cbn; congruence).
  assert (forall l, parse_args lookup (("-"%char :: d :: cs) :: l) p =
    match lookup !! c with
    | None => parse_args lookup l (push_error (lit "undefined short option: -" ++ [c]) p1)
    | Some [] => parse_args lookup l (push_error (lit "ambiguous short option: -" ++ [c]) p1)
    | Some n => match l with
        | [] => parse_args lookup l (set_option n p1)
        | v :: l' => match options p1 !! n with
            | None => Fault Undefined
            | Some o => if has_value o then p ← set_option_to n v p1; parse_args lookup l' p
                        else parse_args lookup l (set_option n p1)
            end
        end
    end) as Eq.
  { intros l. cbn [parse_args]. rewrite not_long by (cbn; congruence).
    change (is_prefix (lit "-") ("-"%char :: d :: cs)) with true. cbn [drop]. by rewrite Eloop. }
  assert (forall m, steps_to [("-"%char :: d :: cs)] p (push_error m p1)) as Herr.
  { intros m. eapply error_steps; [| exact (advances_trans _ _ _ _ _ _ _ _ _ Ha (push_error_advances m p1))].
    by intros [_ ?]%app_eq_nil. }
  destruct (lookup !! c) as [[|x n]|] eqn:El;
    [exact (step_one _ _ _ _ (Eq args) (Herr _)) | | exact (step_one _ _ _ _ (Eq args) (Herr _))].
  apply Hl in El as Hn. rewrite E in *. set (name := x :: n) in *.
  pose proof (cluster_steps cs' c name None p p1 _ ss es Ha Hfs (set_option_or name p1) Hn Hh) as Hflag. cbn in Hflag.
  destruct args as [|v args]; [exact (step_one _ _ _ _ (Eq []) Hflag) |]. destruct Hn as (o & Ho & Hn).
  destruct (statics_lookup _ _ _ _ (eq_sym (advances_statics _ _ _ _ _ Ha)) Ho) as (o' & Ho' & Es).
  specialize (Eq (v :: args)). rewrite Ho' in Eq. destruct (has_value o'); [| exact (step_one _ _ _ _ Eq Hflag)].
  destruct (set_option_to_or name v p1 (advances_wf _ _ _ _ _ Ha Hw)) as (p2 & E2 & Hs). rewrite E2 in Eq.
  eapply step_two; [exact Eq |]. apply (cluster_steps cs' c name (Some v) p p1 p2 ss es Ha Hfs Hs); [by eexists | done].
Qed.

Lemma parse_step a args p : wf p -> lookup_ok lookup (options p) -> step a args p.
Proof.
  intros Hw Hl. destruct (is_prefix (lit "--") a) eqn:E2.
  { rewrite (is_prefix_split _ _ E2). by apply long_step. }
  destruct (is_prefix (lit "-") a) eqn:E1.
  - destruct (prefix_dash a E2 E1) as (s & -> & Hh). destruct s as [|d cs]; [| apply short_step; [done.. | cbn in Hh; congruence]].
    eapply step_one; [done |]. eexists _, _, _. split; [apply advances_refl |]. intros _. exists Dash.
    by repeat constructor.
  - eapply step_one; [cbn [parse_args]; by rewrite E1, E2 |]. exists [], [a], [].
    split; [unfold advances; cbn; by rewrite app_nil_r |]. intros _. exists (Other a). apply prefix_none in E1.
    by repeat constructor.
Qed.

Lemma parse_args_spec args : forall p, wf p -> lookup_ok lookup (options p) ->
  exists p' ss os es, parse_args lookup args p = Ok p' /\ advances p p' ss os es /\
    (es = [] -> exists its, Forall (valid_item (options p)) its /\ args = command_line its).
Proof.
  induction args as [args IH] using (induction_ltof1 _ (@length str)). intros p Hw Hl. destruct args as [|a args].
  { exists p, [], [], []. ands; [done | apply advances_refl |]. intros _. by exists []. }
  destruct (parse_step a args p Hw Hl) as (pre & args' & p1 & E & Hlen & -> & ss & os & es & Ha & Hi).
  pose proof (eq_sym (advances_statics _ _ _ _ _ Ha)) as Es.
  destruct (IH args') with (p := p1) as (p2 & ss2 & os2 & es2 & -> & Ha2 & Hits).
  { unfold ltof. cbn. lia. }
  { by eapply advances_wf. }
  { by eapply lookup_ok_statics. }
  eexists p2, _, _, _. ands; [done | exact (advances_trans _ _ _ _ _ _ _ _ _ Ha Ha2) |].
  intros [E1 E2]%app_eq_nil. destruct (Hi E1) as (i & Hv & ->). destruct (Hits E2) as (its & Hvs & ->).
  exists (i :: its). split; [| exact E]. constructor; [done |].
  eapply Forall_impl; [exact Hvs |]. by apply valid_item_static.
Qed.
End Items.

(** ** The whole of [parse] *)
Definition missing (m : gmap str option_base) : list str :=
  map fst (filter (fun e => valid e.2 = false) (entries m)).

Lemma need_options_advances es : forall p, advances p (need_options es p) [] []
  (map (fun n => lit "need option: --" ++ n) (map fst (filter (fun e => valid e.2 = false) es))).
Proof.
  induction es as [|[n o] es IH]; intros p; [apply advances_refl |]. rewrite filter_cons. cbn [fst snd].
  unfold need_options in *. cbn [foldl fst snd]. destruct (valid o); [by rewrite decide_False |].
  rewrite decide_True by done. exact (advances_trans _ _ _ _ _ _ _ _ _ (push_error_advances _ _) (IH _)).
Qed.

Lemma map_nil_iff {A B} (f : A -> B) l : map f l = [] <-> l = [].
Proof. by destruct l. Qed.

Lemma missing_none m : missing m = [] <-> forall n o, m !! n = Some o -> valid o = true.
Proof.
  unfold missing. rewrite map_nil_iff. split.
  - intros E n o Ho%entries_elem. destruct (valid o) eqn:Ev; [done |].
    assert ((n, o) ∈ filter (fun e => valid e.2 = false) (entries m)) as Hin by by apply list_elem_of_filter.
    rewrite E in Hin. by apply elem_of_nil in Hin.
  - intros Hv. apply filter_none. intros [n o] Ho%entries_elem. cbn. by rewrite (Hv _ _ Ho).
Qed.

(** The parser [parse] starts from. *)
Definition started (argv0 : str) (p : parser) : parser :=
  mkParser (options p) (ordered p) (ftr p) (if bool_decide (prog_name p = []) then argv0 else prog_name p) [] [].

Lemma parse_eq argv0 args p : parse (argv0 :: args) p =
  match short_names (entries (options p)) ∅ with
  | inl c => Ok (false, push_error (lit "short option '" ++ [c] ++ lit "' is ambiguous") (started argv0 p))
  | inr lookup => p' ← parse_args lookup args (started argv0 p);
      let p' := need_options (entries (options p')) p' in Ok (bool_decide (errors p' = []), p')
  end.
Proof. unfold parse, started. cbv zeta. cbn [prog_name]. by case_bool_decide. Qed.

(** The parser accepts exactly the renderings of lists of valid items that
    set every option that must be set, when no short name stands for two options.
    On any arguments behind the name of the program it returns, well-formed and
    with the same options, and accepts them if there is no error; after valid
    items the options are the old ones with the settings made in order, the other
    arguments are those of the items, and the errors name the missing options,
    in the order of the names. *)
Lemma parse_accepts p argv0 args : wf p ->
  exists ok p', parse (argv0 :: args) p = Ok (ok, p') /\ wf p' /\ statics (options p') = statics (options p) /\
    (ok = true <-> errors p' = []) /\
    (ok = true <-> shorts_distinct (options p) /\ exists its, Forall (valid_item (options p)) its /\
       args = command_line its /\ missing (set_all (all_settings its) (options p)) = []) /\
    (forall its, shorts_distinct (options p) -> Forall (valid_item (options p)) its -> args = command_line its ->
       options p' = set_all (all_settings its) (options p) /\ others p' = all_left its /\
       errors p' = map (fun n => lit "need option: --" ++ n) (missing (options p')) /\
       ftr p' = ftr p /\ ordered p' = ordered p /\
       prog_name p' = if bool_decide (prog_name p = []) then argv0 else prog_name p).
Proof.
  intros Hw. set (p0 := started argv0 p). assert (wf p0) as Hw0 by exact Hw.
  rewrite parse_eq. fold p0. pose proof (short_names_spec (options p)) as Hl.
  destruct (short_names (entries (options p)) ∅) as [c|lookup].
  { destruct Hl as (n & n' & Hne & Hn & Hn'). assert (~ shorts_distinct (options p)) as Hd by (intros Hd; by apply Hne, (Hd c)).
    eexists _, _. ands; [done | exact Hw0 | done | done | | by intros its Hd'].
    split; [done | by intros [Hd' _]]. }
  assert (lookup_ok lookup (options p0)) as Hl0 by exact Hl.
  assert (shorts_distinct (options p)) as Hd by (intros c n n' Hn%Hl Hn'%Hl; congruence).
  destruct (parse_args_spec lookup args p0 Hw0 Hl0) as (p1 & ss & os & es & E & Ha & Hits). rewrite E. cbn [mbind res_bind]. cbv zeta.
  pose proof (need_options_advances (entries (options p1)) p1) as Ha2. fold (missing (options p1)) in Ha2.
  set (p2 := need_options (entries (options p1)) p1) in *.
  pose proof (advances_trans _ _ _ _ _ _ _ _ _ Ha Ha2) as Hall. rewrite app_nil_r in Hall.
  assert (options p2 = options p1) as Eo by apply Ha2.
  assert (errors p2 = es ++ map (fun n => lit "need option: --" ++ n) (missing (options p2))) as Ee
    by (rewrite Eo; apply Hall).
  assert (forall its, Forall (valid_item (options p)) its -> args = command_line its ->
    es = [] /\ options p2 = set_all (all_settings its) (options p) /\ others p2 = all_left its) as Hout.
  { intros its Hv ->. destruct (parse_items lookup its p0 Hl0 Hv) as (p1' & E' & Ha'). rewrite E' in E. injection E as ->.
    destruct Ha' as (Ho' & _ & _ & _ & Ht' & He'). destruct Ha as (_ & _ & _ & _ & _ & He). rewrite He in He'.
    apply app_inv_head in He'. ands; [done | by rewrite Eo |]. destruct Ha2 as (_ & _ & _ & _ & -> & _).
    by rewrite Ht', app_nil_r. }
  exists (bool_decide (errors p2 = [])), p2.
  split; [done |]. split; [by eapply advances_wf |]. split; [exact (advances_statics _ _ _ _ _ Hall) |].
  split; [apply bool_decide_eq_true |]. split.
  - rewrite bool_decide_eq_true, Ee. split.
    + intros [He Hm]%app_eq_nil. split; [done |]. destruct (Hits He) as (its & Hv & Ea). exists its. ands; [done.. |].
      destruct (Hout its Hv Ea) as (_ & <- & _). by apply map_nil_iff in Hm.
    + intros [_ (its & Hv & Ea & Hm)]. destruct (Hout its Hv Ea) as (-> & -> & _). by rewrite Hm.
  - intros its _ Hv Ea. destruct (Hout its Hv Ea) as (Hes & Ho & Ht). destruct Hall as (_ & Hr & Hf & Hp & _).
    ands; [done.. | by rewrite Ee, Hes | exact Hf | exact Hr | exact Hp].
Qed.

Lemma valid_settings m its : Forall (valid_item m) its -> Forall (can_set m) (all_settings its).
Proof.
  intros Hv. unfold all_settings. apply Forall_concat, Forall_map. eapply Forall_impl; [exact Hv |]. by intros i [_ ?].
Qed.

(** ** What the program reads from the parser *)

(** The values given to an option, in order. *)
Definition given (n : str) (ss : list setting) : list str :=
  omap (fun s => if decide (s.1 = n) then s.2 else None) ss.

Lemma set_one_lookup m s n o : m !! n = Some o ->
  set_one m s !! n = Some (if decide (s.1 = n) then mark (s.2 ≫= read_value o) o else o).
Proof.
  intros Ho. unfold set_one. destruct (decide (s.1 = n)) as [->|Hne].
  - by rewrite lookup_alter_eq, Ho.
  - by rewrite lookup_alter_ne.
Qed.

Lemma actual_mark x o : actual_of (mark x o) = match o with
  | option_without_value _ _ _ _ => None
  | _ => match x with Some v => Some v | None => actual_of o end
  end.
Proof. destruct o; [done |]. by destruct x. Qed.

Lemma set_all_lookup ss : forall m n o, Forall (can_set m) ss -> m !! n = Some o ->
  exists o', set_all ss m !! n = Some o' /\ static o' = static o /\
    has_set o' = has_set o || bool_decide (n ∈ map fst ss) /\
    actual_of o' = match last (given n ss) with Some v => read_value o v | None => actual_of o end.
Proof.
  induction ss as [|s ss IH] using rev_ind; intros m n o Hs Ho.
  { exists o. ands; [done.. | | done]. by rewrite orb_false_r. }
  apply Forall_app in Hs as [Hs [(os & Hos & Hset) _]%Forall_cons]. destruct (IH m n o Hs Ho) as (o1 & Ho1 & Es & Hh & Ha).
  unfold set_all in *. rewrite foldl_app. cbn [foldl]. eexists. split; [by apply set_one_lookup |].
  unfold given in *. rewrite omap_app, map_app. cbn [map omap list_omap].
  destruct (decide (s.1 = n)) as [<-|Hne].
  - ands; [by rewrite static_mark | |].
    + rewrite has_set_mark, bool_decide_eq_true_2, orb_true_r; [done |]. apply elem_of_app. right. left.
    + rewrite Ho in Hos. injection Hos as <-. rewrite actual_mark. destruct s.2 as [v|]; cbn [mbind option_bind].
      * rewrite last_snoc, (static_read Es). destruct Hset as [x Hx]. rewrite Hx. destruct o1, o; done.
      * rewrite app_nil_r. by destruct o1, o, (last _).
  - ands; [done | | by rewrite app_nil_r]. rewrite Hh. f_equal. apply bool_decide_ext. rewrite elem_of_app, list_elem_of_singleton.
    naive_solver.
Qed.

(** What an option of the type [T] reads from a string. *)
Definition read_as {T} `{OptionType T} (p : parser) (n v : str) : res T :=
  match options p !! n with
  | Some o => match read_value o v with
      | Some x => match of_value x with Some y => Ok y | None => Fault Thrown end
      | None => Fault Thrown
      end
  | None => Fault Thrown
  end.

(** After valid items [exist] says which options were given, now or before, and [get]
    answers the last value given to an option, read by its reader, or what it answered
    before: the default, for an option that was never set.  A name that is not an option
    throws. *)
Lemma parse_get p argv0 its ok p' : wf p -> shorts_distinct (options p) -> Forall (valid_item (options p)) its ->
  parse (argv0 :: command_line its) p = Ok (ok, p') ->
  forall n, exist n p' = match options p !! n with
    | Some o => Ok (has_set o || bool_decide (n ∈ map fst (all_settings its)))
    | None => Fault Thrown
    end /\
    forall T `{OptionType T}, get (T:=T) n p' = match last (given n (all_settings its)) with
      | Some v => read_as p n v
      | None => get n p
      end.
Proof.
  intros Hw Hd Hv E n. destruct (parse_accepts p argv0 (command_line its) Hw) as (ok' & p1 & E1 & _ & _ & _ & _ & Hout).
  rewrite E1 in E. injection E as _ ->. destruct (Hout its Hd Hv eq_refl) as (Ho & _).
  apply valid_settings in Hv as Hs.
  unfold exist, get, read_as. rewrite Ho. destruct (options p !! n) as [o|] eqn:En.
  - destruct (set_all_lookup _ _ _ _ Hs En) as (o' & -> & Es & -> & Ha). split; [done |]. intros T HT.
    destruct o, o'; try discriminate Es; cbn [actual_of] in Ha; [by destruct (last _) |].
    destruct (last _) as [v|]; [| by injection Ha as ->]. by rewrite <- Ha.
  - assert (set_all (all_settings its) (options p) !! n = None) as Hn.
    { apply eq_None_not_Some. intros [o Hn].
      destruct (statics_lookup _ (options p) n o (statics_set_all (all_settings its) _) Hn) as (? & ? & _). congruence. }
    rewrite Hn. split; [done |]. intros T HT. by destruct (last _).
Qed.

(** What was given once is not forgotten: a second [parse] does without it. *)
Lemma parse_again p argv0 : wf p -> shorts_distinct (options p) -> missing (options p) = [] ->
  exists p', parse [argv0] p = Ok (true, p') /\ options p' = options p.
Proof.
  intros Hw Hd Hm. destruct (parse_accepts p argv0 [] Hw) as (ok & p' & E & _ & _ & _ & [_ Hok] & Hout). exists p'.
  rewrite Hok in E; [| split; [done |]; by exists []]. split; [done |].
  by destruct (Hout [] Hd (Forall_nil_2 _) eq_refl) as (-> & _).
Qed.

(** ** [parse_check] *)
Definition help : str := lit "help".

Lemma add_help_ok p : wf p -> exists p0, add_help p = Ok p0 /\ wf p0 /\ is_Some (options p0 !! help) /\
  (forall n, n <> help -> options p0 !! n = options p !! n).
Proof.
  intros Hw. unfold add_help, add. fold help. destruct (options p !! help) as [o|] eqn:E.
  { exists p. ands; [done | done | by eexists | done]. }
  pose proof (add_option_wf p help (option_without_value help "?"%char (lit "print this message") false) Hw (wf_without _ _ _)) as H.
  rewrite E in H. destruct H as (p0 & -> & Hw0 & Ho & _). exists p0. rewrite Ho.
  ands; [done | done | rewrite lookup_insert_eq; by eexists |]. intros n Hn. by rewrite lookup_insert_ne.
Qed.

(** [parse_check] lets the program go on exactly when the arguments are valid
    items with every option that must be set and without [help].  It exits with 0
    when [help] was set, or when there are no arguments and an option is missing, and with 1
    and the first error otherwise. *)
Lemma parse_check_exits p p0 argv0 args : wf p -> add_help p = Ok p0 -> exist help p0 = Ok false ->
  exists o p', parse_check (argv0 :: args) p = Ok (o, p') /\ wf p' /\
    (exists ok, parse (argv0 :: args) p0 = Ok (ok, p')) /\
    (o = Continue <-> shorts_distinct (options p0) /\ exists its, Forall (valid_item (options p0)) its /\
       args = command_line its /\ missing (set_all (all_settings its) (options p0)) = [] /\
       help ∉ map fst (all_settings its)) /\
    match o with
    | Continue => errors p' = [] /\ exist help p' = Ok false
    | Exit code text =>
        (code = 0 /\ text = usage p' /\ (exist help p' = Ok true \/ args = [] /\ errors p' <> [])) \/
        (code = 1 /\ exist help p' = Ok false /\ exists e es, errors p' = e :: es /\ text = e ++ [newline] ++ usage p')
    end.
Proof.
  intros Hw Ep0 Hh0. destruct (add_help_ok p Hw) as (p0' & E & Hw0 & [h Hh] & _). rewrite Ep0 in E. injection E as <-.
  destruct (parse_accepts p0 argv0 args Hw0) as (ok & p' & E & Hw' & Es & Herr & Hacc & Hout).
  destruct (statics_lookup _ _ _ _ (eq_sym Es) Hh) as (h' & Hh' & _).
  assert (exist help p' = Ok (has_set h')) as Hex by (unfold exist; by rewrite Hh').
  assert (forall its, shorts_distinct (options p0) -> Forall (valid_item (options p0)) its -> args = command_line its ->
    has_set h' = bool_decide (help ∈ map fst (all_settings its))) as Hset.
  { intros its Hd Hv ->. destruct (parse_get p0 argv0 its ok p' Hw0 Hd Hv E help) as [Hget _].
    unfold exist in Hh0. rewrite Hex, Hh in *. injection Hh0 as Hh0. rewrite Hh0 in Hget. by injection Hget. }
  unfold parse_check. rewrite Ep0. cbn [mbind res_bind]. rewrite E. cbn [mbind res_bind].
  assert (check (Z.of_nat (length (argv0 :: args))) ok p' = Ok
    (if bool_decide (args = []) && negb ok || has_set h' then Exit 0 (usage p')
     else if negb ok then Exit 1 (error p' ++ [newline] ++ usage p') else Continue)) as ->.
  { unfold check. fold help. rewrite Hex. replace (Z.of_nat _ =? 1) with (bool_decide (args = []))
      by (destruct args; cbn [length]; case_bool_decide; by case_bool; try lia).
    destruct (bool_decide (args = []) && negb ok), (has_set h'), ok; done. }
  eexists _, p'. split; [done |]. split; [done |]. split; [by exists ok |]. split.
  - destruct ok; cbn [negb].
    + rewrite andb_false_r, orb_false_l. destruct (proj1 Hacc eq_refl) as [Hd (its & Hv & Ea & Hm)].
      specialize (Hset its Hd Hv Ea) as Hs. split.
      * intros Hc. split; [done |]. exists its. ands; [done.. |].
        rewrite Hs in Hc. by case_bool_decide.
      * intros [_ (its' & Hv' & Ea' & _ & Hn)]. by rewrite (Hset its' Hd Hv' Ea'), bool_decide_eq_false_2.
    + split; [by destruct (bool_decide _ && _ || _) |]. intros [Hd (its & Hv & Ea & Hm & _)]. discriminate (proj2 Hacc).
      split; [done |]. by exists its.
  - rewrite Hex. destruct ok; cbn [negb].
    + rewrite andb_false_r, orb_false_l. destruct (has_set h'); [left; by auto |]. split; [by apply Herr | done].
    + assert (errors p' <> []) as Hne by (intros He; discriminate (proj2 Herr He)). rewrite andb_true_r.
      destruct (bool_decide_reflect (args = [])); cbn [orb]; [left; by auto |]. destruct (has_set h'); [left; by auto | right].
      split; [done |]. split; [done |]. unfold error. destruct (errors p') as [|e es]; [done |]. by exists e, es.
Qed.

(** What the program reads from the parser after the items [its]: the arguments that are left,
    which options were given, and the values. *)
Definition reads_items (p : parser) (its : list item) (p' : parser) : Prop :=
  rest p' = all_left its /\
  forall n, exist n p' = match options p !! n with
    | Some o => Ok (has_set o || bool_decide (n ∈ map fst (all_settings its)))
    | None => Fault Thrown
    end /\
    forall T `{OptionType T}, get (T:=T) n p' = match last (given n (all_settings its)) with
      | Some v => read_as p n v
      | None => get n p
      end.

(** C9: The grammar of the command line, for any well-formed parser and any arguments behind the name
    of the program.  [parse_check] lets the program go on exactly when the arguments are the
    rendering of a list of valid items, in which every option that must be set is and [help] is not, and no
    short name stands for two options.  It exits with 0 when [help] was set, or when there are no
    arguments and something is missing, and with 1 and the first error otherwise; it never stops in another way.
    For valid items the other arguments are kept in their order, [exist] says
    which options were given, and [get] answers the last value of an option as its reader reads it,
    or its default; a wrong name or type throws. *)
Theorem parse_check_reads p p0 argv0 args : wf p -> add_help p = Ok p0 -> exist help p0 = Ok false ->
  exists o p', parse_check (argv0 :: args) p = Ok (o, p') /\
    (o = Continue <-> shorts_distinct (options p0) /\ exists its, Forall (valid_item (options p0)) its /\
       args = command_line its /\ missing (set_all (all_settings its) (options p0)) = [] /\
       help ∉ map fst (all_settings its)) /\
    (forall its, shorts_distinct (options p0) -> Forall (valid_item (options p0)) its -> args = command_line its ->
       reads_items p0 its p') /\
    match o with
    | Continue => errors p' = []
    | Exit code text =>
        (code = 0 /\ text = usage p' /\ (exist help p' = Ok true \/ args = [] /\ errors p' <> [])) \/
        (code = 1 /\ exists e es, errors p' = e :: es /\ text = e ++ [newline] ++ usage p')
    end.
Proof.
  intros Hw E0 Hh. destruct (parse_check_exits p p0 argv0 args Hw E0 Hh) as (o & p' & E & _ & [ok Ep] & Hc & Ho).
  destruct (add_help_ok p Hw) as (p0' & E0' & Hw0 & _). rewrite E0 in E0'. injection E0' as <-.
  exists o, p'. split; [exact E |]. split; [exact Hc |]. split.
  - intros its Hd Hv ->. split; [| by eapply parse_get].
    destruct (parse_accepts p0 argv0 (command_line its) Hw0) as (ok' & p1 & E1 & _ & _ & _ & _ & Hout).
    rewrite Ep in E1. injection E1 as <- <-. by destruct (Hout its Hd Hv eq_refl) as (_ & Ht & _).
  - destruct o as [|code text]; [apply Ho |]. destruct Ho as [?|(? & _ & ?)]; [by left | by right].
Qed.

(** ** Arguments in one string

    A word is written as characters, escaped characters and parts in quotes,
    where only the quote and the backslash are escaped. *)
Inductive piece : Type := Bare (c : ascii) | Escaped (c : ascii) | Quoted (cs : list (bool * ascii)).

Definition show_char (e : bool * ascii) : str := if e.1 then [backslash; e.2] else [e.2].
Definition show_piece (x : piece) : str :=
  match x with
  | Bare c => [c]
  | Escaped c => [backslash; c]
  | Quoted cs => quote :: concat (map show_char cs) ++ [quote]
  end.
Definition piece_text (x : piece) : str :=
  match x with Bare c | Escaped c => [c] | Quoted cs => map snd cs end.
Definition piece_ok (x : piece) : Prop :=
  match x with
  | Bare c => c <> quote /\ c <> backslash /\ c <> " "%char
  | Escaped _ => True
  | Quoted cs => Forall (fun e => e.1 = true \/ (e.2 <> quote /\ e.2 <> backslash)) cs
  end.

Definition word_text (w : list piece) : str := concat (map piece_text w).
Definition show_word (w : list piece) : str := concat (map show_piece w).
Definition show_words (ws : list (list piece)) : str := Util.join (lit " ") (map show_word ws).

Lemma tokenize_escape c r buf q args : tokenize (backslash :: c :: r) buf q args = tokenize r (buf ++ [c]) q args.
Proof. done. Qed.

Lemma tokenize_quoted cs : forall r buf args,
  Forall (fun e => e.1 = true \/ (e.2 <> quote /\ e.2 <> backslash)) cs ->
  tokenize (concat (map show_char cs) ++ quote :: r) buf true args = tokenize r (buf ++ map snd cs) false args.
Proof.
  induction cs as [|[[] c] cs IH]; intros r buf args Hcs; cbn [map concat app].
  - cbn [tokenize]. by rewrite decide_True, app_nil_r.
  - apply Forall_cons in Hcs as [_ Hcs]. cbn [show_char fst snd app].
    rewrite tokenize_escape, IH by done. by rewrite <- app_assoc.
  - apply Forall_cons in Hcs as [[?|[Hq Hb]] Hcs]; [done |]. cbn [fst snd] in *. cbn [show_char fst snd app tokenize].
    rewrite decide_False, andb_false_r, decide_False, IH by done. by rewrite <- app_assoc.
Qed.

Lemma tokenize_word w : forall r buf args, Forall piece_ok w ->
  tokenize (show_word w ++ r) buf false args = tokenize r (buf ++ word_text w) false args.
Proof.
  induction w as [|x w IH]; intros r buf args Hw; [by rewrite app_nil_r |].
  apply Forall_cons in Hw as [Hx Hw]. unfold show_word, word_text in *. cbn [map concat]. rewrite <- app_assoc, (app_assoc buf).
  rewrite <- IH by done. destruct x as [c|c|cs]; cbn [show_piece piece_text piece_ok] in *.
  - destruct Hx as (Hq & Hb & Hs). cbn [app tokenize].
    rewrite decide_False, bool_decide_eq_false_2, decide_False by done. done.
  - apply tokenize_escape.
  - rewrite <- app_comm_cons, <- app_assoc. cbn [app]. by rewrite <- tokenize_quoted.
Qed.

(** The words the parser keeps: an empty word at the end is lost. *)
Fixpoint kept (ts : list str) : list str :=
  match ts with
  | [] => []
  | [t] => if bool_decide (t = []) then [] else [t]
  | t :: ts => t :: kept ts
  end.

Lemma tokenize_words ws : forall args, Forall (Forall piece_ok) ws ->
  tokenize (show_words ws) [] false args = inr (args ++ kept (map word_text ws)).
Proof.
  induction ws as [|w ws IH]; intros args Hws; [by rewrite app_nil_r |].
  apply Forall_cons in Hws as [Hw Hws]. unfold show_words in *. cbn [map]. destruct ws as [|w' ws].
  - cbn [map Util.join kept]. rewrite <- (app_nil_r (show_word w)), tokenize_word by done. cbn [app tokenize].
    case_bool_decide as E; [by rewrite E, app_nil_r |]. by destruct (word_text w).
  - set (t := map word_text (w' :: ws)) in *.
    assert (kept (word_text w :: t) = word_text w :: kept t) as -> by done.
    change (Util.join (lit " ") (show_word w :: map show_word (w' :: ws)))
      with (show_word w ++ lit " " ++ Util.join (lit " ") (map show_word (w' :: ws))).
    rewrite tokenize_word by done. change (lit " " ++ ?s) with (" "%char :: s). cbn [app tokenize].
    change (tokenize _ [] false (args ++ [word_text w])) with
      (tokenize (Util.join (lit " ") (map show_word (w' :: ws))) [] false (args ++ [word_text w])).
    rewrite IH by done. by rewrite <- app_assoc.
Qed.

(** A string of words parses like the vector of their texts, however the characters
    were quoted; only an empty last word is not passed on. *)
Theorem parse_words ws p : Forall (Forall piece_ok) ws ->
  parse_string (show_words ws) p = parse_vector (kept (map word_text ws)) p.
Proof. intros Hws. unfold parse_string. by rewrite (tokenize_words ws []). Qed.

(** The string without arguments takes the address of the first element of an
    empty vector. *)
Lemma parse_empty_undefined p : parse_string [] p = Fault Undefined.
Proof. done. Qed.

(** ** A program with three options *)
Definition port_reader : str -> res Z := range_reader 1 65535.

Definition server_options : res parser :=
  p ← add (lit "help") "h"%char (lit "usage") new_parser;
  p ← add (lit "verbose") "v"%char (lit "talk") p;
  p ← add_value (lit "name") "n"%char (lit "a name") false (lit "anon") p;
  add_reader (lit "port") "p"%char (lit "the port") true 80 port_reader p.
Definition server_parser : parser := from_ok new_parser server_options.

Lemma server_options_ok : server_options = Ok server_parser.
Proof.
  assert (match server_options with Ok _ => true | _ => false end = true) as E by (vm_compute; reflexivity).
  unfold server_parser. by destruct server_options.
Qed.

Lemma server_parser_ok : wf server_parser /\ exists o0 o1 o2 o3,
  options server_parser = <[lit "port" := o3]> (<[lit "name" := o2]> (<[lit "verbose" := o1]> (<[help := o0]> ∅))) /\
  has_value o1 = false /\ short_name o0 = "h"%char /\ short_name o1 = "v"%char /\ short_name o2 = "n"%char /\
  short_name o3 = "p"%char /\ has_set o0 = false /\ has_set o1 = false /\ must o0 = false /\
  (forall v, read_value o2 v = Some (StringValue v)) /\
  (forall v, read_value o3 v = match port_reader v with Ok x => Some (IntValue x) | Fault _ => None end).
Proof.
  pose proof server_options_ok as E. unfold server_options in E. inv_res. rename H into E0, H0 into E1, H1 into E2. split.
  - eapply (add_reader_wf (T:=Z)); [apply range_reader_reads | | exact E].
    eapply (add_value_wf (T:=str)); [| exact E2]. eapply add_wf; [| exact E1]. eapply add_wf; [apply wf_new | exact E0].
  - apply add_option_options in E, E0, E1, E2. rewrite E2, E1, E0 in E. eexists _, _, _, _. split; [exact E |].
    ands; try reflexivity. intros v. cbn [read_value]. by destruct (port_reader v).
Qed.

Lemma server_shorts : shorts_distinct (options server_parser).
Proof.
  destruct server_parser_ok as (_ & o0 & o1 & o2 & o3 & -> & _ & H0 & H1 & H2 & H3 & _).
  assert (forall c n, short_for (<[lit "port" := o3]> (<[lit "name" := o2]> (<[lit "verbose" := o1]> (<[help := o0]> ∅)))) c n ->
    n = if decide (c = "p"%char) then lit "port" else if decide (c = "n"%char) then lit "name"
        else if decide (c = "v"%char) then lit "verbose" else help) as Hs.
  { intros c n (o & Ho & Hc & _). rewrite !lookup_insert_Some, lookup_empty in Ho.
    destruct Ho as [[<- <-]|[_ [[<- <-]|[_ [[<- <-]|[_ [[<- <-]|[_ ?]]]]]]]]; [| | | | done];
      rewrite <- Hc, ?H0, ?H1, ?H2, ?H3; reflexivity. }
  intros c n n' ->%Hs ->%Hs. done.
Qed.

Definition server_items : list item :=
  [ShortArg [("v"%char, lit "verbose")] "p"%char (lit "port") (lit "70"); Other (lit "x");
   LongEq (lit "port") (lit "8080"); Dash; LongArg (lit "name") (lit "--v")].
Definition server_args : list str :=
  [lit "-vp"; lit "70"; lit "x"; lit "--port=8080"; lit "-"; lit "--name"; lit "--v"].

Lemma server_lookup : exists o0 o1 o2 o3, options server_parser !! help = Some o0 /\
  options server_parser !! lit "verbose" = Some o1 /\
  options server_parser !! lit "name" = Some o2 /\ options server_parser !! lit "port" = Some o3 /\
  has_value o1 = false /\ short_name o1 = "v"%char /\ has_set o0 = false /\ has_set o1 = false /\
  (forall v, read_value o2 v = Some (StringValue v)) /\ short_name o3 = "p"%char /\
  (forall v, read_value o3 v = match port_reader v with Ok x => Some (IntValue x) | Fault _ => None end).
Proof.
  destruct server_parser_ok as (_ & o0 & o1 & o2 & o3 & -> & H1 & _ & H2 & _ & H3 & H4 & H5 & _ & H6 & H7).
  exists o0, o1, o2, o3. rewrite !lookup_insert_ne by discriminate. by rewrite !lookup_insert_eq.
Qed.

Lemma server_valid : Forall (valid_item (options server_parser)) server_items /\ server_args = command_line server_items.
Proof.
  destruct server_lookup as (o0 & o1 & o2 & o3 & _ & E1 & E2 & E3 & H1 & H2 & _ & H3 & H5 & H6 & H7).
  split; [| reflexivity]. assert (forall v x, port_reader v = Ok x -> can_set (options server_parser) (lit "port", Some v)) as Hp.
  { intros v x Hv. exists o3. split; [exact E3 |]. cbn [snd]. rewrite H7, Hv. by eexists. }
  repeat constructor; try discriminate; try (by exists o1); try (by exists o3); try (by eapply Hp; vm_compute).
  - by set_solver.
  - by set_solver.
  - exists o2. split; [exact E2 |]. cbn [snd]. rewrite H5. by eexists.
Qed.

Lemma server_complete : missing (set_all (all_settings server_items) (options server_parser)) = [].
Proof.
  apply missing_none. intros n o' Ho'. destruct server_valid as [Hv%valid_settings _].
  destruct (statics_lookup _ (options server_parser) n o' (statics_set_all _ _) Ho') as (o & Ho & Es).
  destruct (set_all_lookup _ _ _ _ Hv Ho) as (o2 & Ho2 & _ & Hh & _). assert (o2 = o') as -> by congruence.
  destruct server_parser_ok as (_ & o0 & o1 & p2 & o3 & E & _ & _ & _ & _ & _ & _ & _ & Hm & _).
  rewrite E, !lookup_insert_Some, lookup_empty in Ho.
  assert (has_set o' = true \/ must o' = false) as Hs.
  { destruct Ho as [[<- _]|[_ [[<- _]|[_ [[<- _]|[_ [[_ <-]|[_ ?]]]]]]]]; [left; rewrite Hh; apply orb_true_r.. | | done].
    right. by rewrite <- (static_must Es). }
  destruct o' as [|nam snam [] desc []]; try done. by destruct Hs.
Qed.

Lemma parse_check_reads_witness : exists p', parse_check (lit "prog" :: server_args) server_parser = Ok (Continue, p') /\
  rest p' = [lit "x"] /\ get (T:=Z) (lit "port") p' = Ok 8080 /\ get (T:=str) (lit "name") p' = Ok (lit "--v") /\
  get (T:=Z) (lit "name") p' = Fault Thrown /\ exist (lit "verbose") p' = Ok true.
Proof.
  destruct server_lookup as (o0 & o1 & o2 & o3 & E0 & E1 & E2 & E3 & _ & _ & H0 & H1 & H2 & _ & H3).
  destruct (parse_check_reads server_parser server_parser (lit "prog") server_args (proj1 server_parser_ok))
    as (o & p' & E & Hc & Hr & _); [unfold add_help; fold help; by rewrite E0 | unfold exist; by rewrite E0, H0 |].
  destruct server_valid as [Hv Ea]. rewrite (proj2 Hc) in E.
  2:{ split; [exact server_shorts |]. exists server_items.
      ands; [exact Hv | exact Ea | exact server_complete | apply (bool_decide_eq_false_1 _); reflexivity]. }
  destruct (Hr _ server_shorts Hv Ea) as [Ht H]. exists p'. ands; [exact E | exact Ht | ..].
  - rewrite (proj2 (H _) Z _). unfold read_as. change (last (given (lit "port") (all_settings server_items))) with (Some (lit "8080")).
    cbn match. rewrite E3, H3. vm_compute. reflexivity.
  - rewrite (proj2 (H _) str _). unfold read_as. change (last (given (lit "name") (all_settings server_items))) with (Some (lit "--v")).
    cbn match. by rewrite E2, H2.
  - rewrite (proj2 (H _) Z _). unfold read_as. change (last (given (lit "name") (all_settings server_items))) with (Some (lit "--v")).
    cbn match. by rewrite E2, H2.
  - rewrite (proj1 (H _)), E1, H1. reflexivity.
Defined.

Lemma parse_words_witness :
  parse_string (lit "prog --name=a\ b -v") server_parser = parse_vector [lit "prog"; lit "--name=a b"; lit "-v"] server_parser.
Proof.
  set (word s := map Bare (lit s)).
  exact (parse_words [word "prog"%string; word "--name=a"%string ++ [Escaped " "%char; Bare "b"%char]; word "-v"%string]
    server_parser ltac:(repeat constructor; discriminate)).
Defined.
