(* ===== verification/App.v ===== *)
(** * Configuration and start of an application: [src/src/include/app.h]

    The JSON document ([MJson]) and the linker library are not part of the
    repository: their calls are arguments.  The command line is that of [Cmdline].
    [Options] is the template parameter [OptType]: the members [Config] uses, and
    the others as [extra].  Members of [LinkerConfig] that [Config] never touches
    are left out; those of a fresh one are an argument. *)
From S2P Require Import Prelude CStr StdString StringAssist StringProps SysUtil Log Cmdline.
Open Scope Z_scope.

(** ** The document, as [Config] reads it

    [GetArray] fills a vector of strings, [GetTable] (an overload of the same
    name) one of rows: its answer, and the vector after the call. *)
Class MJson (J : Type) := {
  ParseError : J -> Z;
  GetInteger : J -> str -> str -> Z -> Z;
  GetBoolean : J -> str -> str -> bool -> bool;
  Get : J -> str -> str -> str -> str;
  GetArray : J -> str -> str -> list str -> bool * list str;
  GetTable : J -> str -> str -> list (list str) -> bool * list (list str)
}.

Record ServiceConfig : Type := mkService { service_name : str; service_url : str; hostkey : str }.
Record CompressConfig : Type := mkCompress { time_start : Z; time_end : Z }.

Record LinkerConfig : Type := mkLinkerConfig {
  config_file : str;
  agent_work_cpu_id : Z;
  agent_high_perfomance : bool;
  listen_urls : list str;
  services : list ServiceConfig;
  compress_time : list CompressConfig;
  etcd_endpoints : str;
  shm_write_close_time : str;
  shm_write_base_id : str;
  shm_write_suffix : str;
  is_open_index : Z;
  shm_id : Z;
  listen_etcd_url : str;
  msg_handlers : list str;
  tcp_sub_topic : list str;
  input_types : gset str;
  output_types : gset str;
  use_hare : bool;
  hare_conf_dir : str
}.

Record Options (X : Type) : Type := mkOptions { log_level : Z; log_dir : str; log_code : str; extra : X }.
Arguments mkOptions {X} _ _ _ _.
Arguments log_level {X} _.
Arguments log_dir {X} _.
Arguments log_code {X} _.
Arguments extra {X} _.

Record Config (X : Type) : Type := mkConfig { options : Options X; linker_cfg : LinkerConfig; jsonfile : str }.
Arguments mkConfig {X} _ _ _.
Arguments options {X} _.
Arguments linker_cfg {X} _.
Arguments jsonfile {X} _.

(** The constructor: [o] and [c] are what the members' own constructors make. *)
Definition Config_new {X} (o : Options X) (c : LinkerConfig) : Config X :=
  mkConfig (mkOptions 0 (lit "./log/") (log_code o) (extra o)) c [].

(** ** [parseOptions] *)

(** A row of [ztp_sub_url]: name, url and, in a row of exactly three, host key. *)
Definition read_service (i : list str) : res ServiceConfig :=
  match i with
  | name :: url :: r => Ok (mkService name url (match r with [k] => k | _ => [] end))
  | _ => Fault (Exited (-1))
  end.

Definition read_compress (i : list str) : res CompressConfig :=
  match i with
  | a :: b :: _ => s ← atoi_int a; e ← atoi_int b; Ok (mkCompress s e)
  | _ => Fault (Exited (-1))
  end.

(** [for (auto i : rows) l.push_back(read(i))] *)
Fixpoint push_rows {A} (read : list str -> res A) (rows : list (list str)) (l : list A) : res (list A) :=
  match rows with
  | [] => Ok l
  | i :: rows => c ← read i; push_rows read rows (l ++ [c])
  end.

Fixpoint append_endpoints (l : list str) (e : str) : str :=
  match l with
  | [] => e
  | i :: l => append_endpoints l ((if size e =? 0 then e else e ++ lit ",") ++ i)
  end.

Definition insert_all (l : list str) (s : gset str) : gset str := foldl (fun s i => {[ i ]} ∪ s) s l.

(** Types of input or output, ztp when there are none. *)
Definition read_types (l : list str) (s : gset str) : gset str :=
  let s := insert_all l s in if decide (s = ∅) then {[ lit "ztp" ]} ∪ s else s.

Section Config.
Context {J : Type} `{MJson J} {X : Type}.

Definition sds : str := lit "sds".

Definition read_table {A} (j : J) (key : str) (read : list str -> res A) (l : list A) : res (list A) :=
  let '(found, rows) := GetTable j sds key [] in if found then push_rows read rows l else Ok l.

Definition read_endpoints (j : J) : list str :=
  let endpoints := (GetArray j sds (lit "endpoints") []).2 in
  if decide (endpoints = []) then (GetArray j (lit "etcd") (lit "endpoints") endpoints).2 else endpoints.

Definition read_handlers (j : J) (l : list str) : res (list str) :=
  let handlers := Get j sds (lit "msg_handlers") [] in
  if decide (handlers = []) then Ok l else Assist.split handlers (lit ",").

Definition parseOptions (j : J) (g : Config X) : res (bool * Config X) :=
  let c := linker_cfg g in
  let options := mkOptions (GetInteger j sds (lit "log_level") 1) (Get j sds (lit "log_dir") (lit "./top"))
                   (Get j sds (lit "log_code") (lit "600446.sh")) (extra (options g)) in
  services ← read_table j (lit "ztp_sub_url") read_service (services c);
  compress_time ← read_table j (lit "compress_time") read_compress (compress_time c);
  msg_handlers ← read_handlers j (msg_handlers c);
  Ok (true, mkConfig options
    {| config_file := config_file c;
       agent_work_cpu_id := GetInteger j sds (lit "agent_work_cpu_id") (-1);
       agent_high_perfomance := GetBoolean j sds (lit "agent_high_perfomance") true;
       listen_urls := (GetArray j sds (lit "ztp_pub_url") (listen_urls c)).2;
       services := services;
       compress_time := compress_time;
       etcd_endpoints := append_endpoints (read_endpoints j) (etcd_endpoints c);
       shm_write_close_time := Get j sds (lit "shm_write_close_time") (lit "16,20");
       shm_write_base_id := Get j sds (lit "shm_write_base_id") (lit "110");
       shm_write_suffix := Get j sds (lit "shm_write_suffix") (lit "_2.0");
       is_open_index := GetInteger j sds (lit "is_open_index") 0;
       shm_id := GetInteger j sds (lit "shm_id") 9901;
       listen_etcd_url := Get j sds (lit "bind_etcd_key") [];
       msg_handlers := msg_handlers;
       tcp_sub_topic := (GetArray j sds (lit "tcp_sub_topic") (tcp_sub_topic c)).2;
       input_types := read_types (GetArray j sds (lit "input_types") []).2 (input_types c);
       output_types := read_types (GetArray j sds (lit "output_types") []).2 (output_types c);
       use_hare := GetBoolean j sds (lit "use_hare") false;
       hare_conf_dir := Get j sds (lit "hare_conf_dir") [] |} (jsonfile g)).

Definition set_config_file (f : str) (c : LinkerConfig) : LinkerConfig :=
  {| config_file := f; agent_work_cpu_id := agent_work_cpu_id c; agent_high_perfomance := agent_high_perfomance c;
     listen_urls := listen_urls c; services := services c; compress_time := compress_time c;
     etcd_endpoints := etcd_endpoints c; shm_write_close_time := shm_write_close_time c;
     shm_write_base_id := shm_write_base_id c; shm_write_suffix := shm_write_suffix c;
     is_open_index := is_open_index c; shm_id := shm_id c; listen_etcd_url := listen_etcd_url c;
     msg_handlers := msg_handlers c; tcp_sub_topic := tcp_sub_topic c; input_types := input_types c;
     output_types := output_types c; use_hare := use_hare c; hare_conf_dir := hare_conf_dir c |}.

(** [Load]: [open] is the constructor of [MJson]; the option parser may change
    the options it is given. *)
Definition Load (open : str -> J) (file : str) (cfg_parser : option (J -> Options X -> bool * Options X)) (g : Config X)
  : res (bool * Config X) :=
  let g := mkConfig (options g) (set_config_file file (linker_cfg g)) file in
  let json := open file in
  if negb (ParseError json =? 0) then Ok (false, g)
  else
    '(ok, g) ← parseOptions json g;
    if ok : bool then
      match cfg_parser with
      | None => Ok (true, g)
      | Some p =>
          let '(b, o) := p json (options g) in
          Ok (b, mkConfig o (linker_cfg g) (jsonfile g))
      end
    else Ok (false, g).

(** ** [AppInfos] *)
Record AppInfos : Type := mkAppInfos {
  version : str;
  app_name : str;
  ap : cmdline.parser;
  cfg : option (Config X)
}.

Definition AppInfos_new (app_name version : str) (fresh : Config X) : res AppInfos :=
  ap ← cmdline.add (lit "version") "v"%char (lit "print version") cmdline.new_parser;
  ap ← cmdline.add_value (lit "conf") "c"%char (lit "config file path") false (lit "./config.json") ap;
  Ok (mkAppInfos version app_name ap (Some fresh)).

Section Init.
Context {R FS : Type} `{SpdLog R} (access : FS -> str -> bool) (mkdir : FS -> str -> FS * bool).
Context (open : str -> J).

Definition init (argv : list str) (cfg_parser : option (J -> Options X -> bool * Options X)) (without_config_file : bool)
  (a : AppInfos) (s : LogSys R FS) : res (Z * AppInfos * LogSys R FS) :=
  '(o, ap) ← cmdline.parse_check argv (ap a);
  match o with
  | cmdline.Exit code _ => Fault (Exited code)
  | cmdline.Continue =>
      print_version ← cmdline.exist (lit "version") ap;
      if print_version : bool then Fault (Exited 0)
      else
        match cfg a with
        | None => Fault Undefined
        | Some g =>
            '(ok, g) ← (if without_config_file then Ok (true, g)
                        else conf ← cmdline.get (lit "conf") ap; Load open conf cfg_parser g);
            let a := mkAppInfos (version a) (app_name a) ap (Some g) in
            if negb ok then Ok (-1, a, s)
            else
              let opts := options g in
              '(fs, made) ← CreateDir access mkdir (Util.c_str (log_dir opts)) (disk s);
              let s := mkLogSys (inited s) (spd s) fs in
              if negb (0 =? made) then Ok (-2, a, s)
              else
                s ← setup_log_system access mkdir (log_dir opts) BASE_LOGGER_NAME (log_level opts) BASE_LOGGER_NAME false s;
                Ok (1, a, s)
        end
  end.
End Init.

(** [app_tag]: [order] is the iteration order of the set. *)
Definition app_tag (order : gset str -> list str) (a : AppInfos) : res str :=
  match cfg a with
  | None => Fault Undefined
  | Some g =>
      let c := linker_cfg g in
      let suffix := match listen_urls c with _ :: u :: _ => u | _ => concat (order (output_types c)) end in
      Ok (app_name a ++ lit "_" ++ suffix)
  end.

(** [run]: the context made by the linker library, if it makes one; whether the
    service was run, and the result. *)
Definition run {Ctx} (init_linker_context : LinkerConfig -> option Ctx) (func : option (Ctx -> Z)) (a : AppInfos) : bool * Z :=
  match cfg a with
  | None => (false, -1)
  | Some g =>
      match init_linker_context (linker_cfg g) with
      | None => (false, -2)
      | Some ctx =>
          match func with
          | Some f => if negb (f ctx =? 0) then (false, f ctx) else (true, 0)
          | None => (true, 0)
          end
      end
  end.
End Config.
