(* ===== verification/AppProps.v ===== *)
(** * Configuration and start of an application: what is read, what is ready *)
From S2P Require Import Prelude CStr StdString StringAssist StringProps SysUtil Log LogProps Cmdline CmdlineProps App.
Open Scope Z_scope.

(** ** Tables *)
Definition short_row (r : list str) : bool := (length r <? 2)%nat.
Definition column (i : nat) (r : list str) : str := nth i r [].

(** The service of a row, and the interval of a row. *)
Definition row_service (r : list str) : ServiceConfig :=
  mkService (column 0 r) (column 1 r) (if (length r =? 3)%nat then column 2 r else []).
Definition row_compress (r : list str) : CompressConfig := mkCompress (atoi (column 0 r)) (atoi (column 1 r)).

Definition is_int (s : str) : Prop := - 2 ^ 31 <= atoi s < 2 ^ 31.

Lemma atoi_int_fits s : is_int s -> atoi_int s = Ok (atoi s).
Proof.
  intros [H1 H2]. unfold atoi_int.
  by rewrite (proj2 (Z.leb_le _ _) H1), (proj2 (Z.ltb_lt _ _) H2).
Qed.

Lemma read_service_row r : read_service r = if short_row r then Fault (Exited (-1)) else Ok (row_service r).
Proof. by destruct r as [|a [|b [|c [|d r]]]]. Qed.

Lemma read_compress_row r : is_int (column 0 r) -> is_int (column 1 r) ->
  read_compress r = if short_row r then Fault (Exited (-1)) else Ok (row_compress r).
Proof. destruct r as [|a [|b r]]; intros Ha Hb; [done.. |]. unfold read_compress. by rewrite !atoi_int_fits. Qed.

Lemma push_rows_spec {A} (read : list str -> res A) (of_row : list str -> A) rows : forall l,
  Forall (fun r => read r = if short_row r then Fault (Exited (-1)) else Ok (of_row r)) rows ->
  push_rows read rows l = if existsb short_row rows then Fault (Exited (-1)) else Ok (l ++ map of_row rows).
Proof.
  induction rows as [|r rows IH]; intros l Hf; cbn [push_rows existsb map]; [by rewrite app_nil_r |].
  apply Forall_cons in Hf as [Hr Hf]. rewrite Hr. destruct (short_row r); [done |]. cbn [orb mbind res_bind].
  rewrite IH by done. destruct (existsb short_row rows); [done |]. by rewrite <- app_assoc.
Qed.

(** ** Endpoints and types *)
Lemma append_endpoints_join l : forall e, e <> [] -> Forall (fun i => i <> []) l ->
  append_endpoints l e = Util.join (lit ",") (e :: l).
Proof.
  induction l as [|i l IH]; intros e He Hf; [done |]. apply Forall_cons in Hf as [Hi Hf]. cbn [append_endpoints].
  rewrite (proj2 (Z.eqb_neq (size e) 0)) by (unfold size; destruct e; [done | cbn; lia]).
  rewrite <- app_assoc, IH by (done || by destruct e). cbn [Util.join]. by destruct l; cbn [Util.join]; rewrite <- ?app_assoc.
Qed.

Lemma parts_join_list c l : l <> [] -> Forall (fun i => c ∉ i) l -> parts [c] (Util.join [c] l) = l.
Proof.
  induction l as [|i l IH]; intros Hl Hf; [done |]. apply Forall_cons in Hf as [Hi Hf].
  assert (Forall (fun x => x ∉ [c]) i) as Hc.
  { apply Forall_forall. intros x Hx ->%list_elem_of_singleton. done. }
  destruct l as [|k l]; [by apply parts_free |].
  change (Util.join [c] (i :: k :: l)) with (i ++ c :: Util.join [c] (k :: l)).
  rewrite parts_hit by (done || by left). by rewrite IH.
Qed.

Lemma insert_all_union l : forall s, insert_all l s = s ∪ list_to_set l.
Proof.
  unfold insert_all. induction l as [|i l IH]; intros s; cbn [foldl]; [set_solver | rewrite IH; set_solver].
Qed.

Lemma read_types_spec l s :
  read_types l s = if decide (s ∪ list_to_set l = ∅) then {[ lit "ztp" ]} else s ∪ list_to_set l.
Proof. unfold read_types. rewrite insert_all_union. case_decide as E; [| done]. rewrite E. set_solver. Qed.

Section Props.
Context {J : Type} `{MJson J} {X : Type}.
Implicit Types (j : J) (g : Config X).

(** The rows of a table of the document: none when it has no such table. *)
Definition table (j : J) (key : str) : list (list str) :=
  let '(found, rows) := GetTable j sds key [] in if found then rows else [].

Lemma read_table_spec {A} j key (read : list str -> res A) (of_row : list str -> A) l :
  Forall (fun r => read r = if short_row r then Fault (Exited (-1)) else Ok (of_row r)) (table j key) ->
  read_table j key read l =
  if existsb short_row (table j key) then Fault (Exited (-1)) else Ok (l ++ map of_row (table j key)).
Proof.
  unfold read_table, table. destruct (GetTable j sds key []) as [[] rows]; intros Hf; [by apply push_rows_spec |].
  cbn [existsb map]. by rewrite app_nil_r.
Qed.

(** C37: the configuration read from a document: a row of the tables of
    services and of times with fewer than two columns ends the program;
    otherwise every row is kept, in order (a host key only from a row of exactly
    three columns), the message handlers are the parts of their list, and the
    types of input and of output are those there were and those of the document,
    or the type ztp alone when there are none. *)
Theorem parseOptions_spec j g :
  let urls := table j (lit "ztp_sub_url") in
  let times := table j (lit "compress_time") in
  let handlers := Get j sds (lit "msg_handlers") [] in
  let types key s := s ∪ list_to_set (GetArray j sds key []).2 in
  let or_ztp (s : gset str) := if decide (s = ∅) then {[ lit "ztp" ]} else s in
  Forall (fun r => is_int (column 0 r) /\ is_int (column 1 r)) times ->
  short handlers ->
  if existsb short_row (urls ++ times) then parseOptions j g = Fault (Exited (-1))
  else exists g', parseOptions j g = Ok (true, g') /\
    services (linker_cfg g') = services (linker_cfg g) ++ map row_service urls /\
    compress_time (linker_cfg g') = compress_time (linker_cfg g) ++ map row_compress times /\
    msg_handlers (linker_cfg g') =
      (if decide (handlers = []) then msg_handlers (linker_cfg g) else parts (lit ",") handlers) /\
    input_types (linker_cfg g') = or_ztp (types (lit "input_types") (input_types (linker_cfg g))) /\
    output_types (linker_cfg g') = or_ztp (types (lit "output_types") (output_types (linker_cfg g))).
Proof.
  intros urls times handlers types or_ztp Ht Hs. unfold parseOptions.
  rewrite (read_table_spec _ _ _ row_service) by (apply Forall_forall; intros r _; apply read_service_row).
  rewrite existsb_app. fold urls. destruct (existsb short_row urls); [done |]. cbn [orb mbind res_bind].
  rewrite (read_table_spec _ _ _ row_compress)
    by (eapply Forall_impl; [exact Ht |]; intros r [Ha Hb]; by apply read_compress_row).
  fold times. destruct (existsb short_row times); [done |]. cbn [mbind res_bind].
  assert (read_handlers j (msg_handlers (linker_cfg g)) =
    Ok (if decide (handlers = []) then msg_handlers (linker_cfg g) else parts (lit ",") handlers)) as ->.
  { unfold read_handlers. fold handlers. destruct (decide (handlers = [])) as [|Hn]; [done |].
    unfold Assist.split. rewrite (proj2 (Z.eqb_neq (size handlers) 0))
      by (unfold size in *; destruct handlers; [done | cbn; lia]).
    apply (assist_split_loop ","%char (length handlers) handlers [] []); [lia | lia | done]. }
  cbn [mbind res_bind]. eexists. split; [done |].
  cbn [linker_cfg services compress_time msg_handlers input_types output_types].
  split_and!; try done; apply read_types_spec.
Qed.

(** The endpoints of the section of the application, or those of etcd when
    it has none, are given to the linker as a list that splits into them. *)
Theorem endpoints_split j g g' :
  let endpoints := if decide ((GetArray j sds (lit "endpoints") []).2 = [])
                   then (GetArray j (lit "etcd") (lit "endpoints") []).2
                   else (GetArray j sds (lit "endpoints") []).2 in
  Forall (fun i => i <> [] /\ ","%char ∉ i) endpoints ->
  etcd_endpoints (linker_cfg g) = [] -> short (etcd_endpoints (linker_cfg g')) ->
  parseOptions j g = Ok (true, g') ->
  Util.split (etcd_endpoints (linker_cfg g')) (lit ",") [] = Ok (if decide (endpoints = []) then [[]] else endpoints).
Proof.
  intros endpoints Hf He Hs Hp. rewrite util_split_parts by done. f_equal. cbn [app].
  unfold parseOptions in Hp. apply res_bind_Ok in Hp as (s & _ & Hp). apply res_bind_Ok in Hp as (t & _ & Hp).
  apply res_bind_Ok in Hp as (h & _ & Hp). injection Hp as <-. cbn. rewrite He.
  assert (read_endpoints j = endpoints) as ->.
  { unfold read_endpoints, endpoints. destruct (decide (_ = [])) as [E|E]; [by rewrite E | done]. }
  clearbody endpoints. destruct endpoints as [|i l]; [done |]. cbn [append_endpoints app].
  change (size [] =? 0) with true. cbv iota. cbn [app].
  rewrite append_endpoints_join.
  - apply parts_join_list; [done |]. eapply Forall_impl; [exact Hf |]. by intros i' [_ ?].
  - by apply Forall_cons in Hf as [[? _] _].
  - apply Forall_cons in Hf as [_ Hf]. eapply Forall_impl; [exact Hf |]. by intros i' [? _].
Qed.

(** ** Start *)

(** The options of an application, and with those [parse_check] adds. *)
Definition app_parser : cmdline.parser :=
  from_ok cmdline.new_parser
    (ap ← cmdline.add (lit "version") "v"%char (lit "print version") cmdline.new_parser;
     cmdline.add_value (lit "conf") "c"%char (lit "config file path") false (lit "./config.json") ap).
Definition help_parser : cmdline.parser := from_ok cmdline.new_parser (cmdline.add_help app_parser).

Lemma app_parser_wf : wf app_parser.
Proof.
  destruct (cmdline.add (lit "version") "v"%char (lit "print version") cmdline.new_parser) as [p1|f] eqn:E1; [| discriminate E1].
  destruct (cmdline.add_value (lit "conf") "c"%char (lit "config file path") false (lit "./config.json") p1) as [p2|f] eqn:E2.
  - replace app_parser with p2 by (unfold app_parser; rewrite E1; cbn [mbind res_bind]; by rewrite E2).
    exact (add_value_wf (T:=str) _ _ _ _ _ _ _ (add_wf _ _ _ _ _ wf_new E1) E2).
  - injection E1 as <-. discriminate E2.
Qed.

Lemma help_parser_ok : cmdline.add_help app_parser = Ok help_parser.
Proof. vm_compute. reflexivity. Qed.

Lemma help_parser_wf : wf help_parser.
Proof.
  destruct (add_help_ok _ app_parser_wf) as (p0 & E & Hw & _). rewrite help_parser_ok in E. by injection E as ->.
Qed.

Lemma help_parser_shorts : shorts_distinct (cmdline.options help_parser).
Proof.
  pose proof (short_names_spec (cmdline.options help_parser)) as Hs.
  destruct (cmdline.short_names _ _) as [c|t] eqn:E; [vm_compute in E; discriminate E |].
  intros c n n' Hn%Hs Hn'%Hs. congruence.
Qed.

(** The file named on the command line. *)
Definition conf_file (its : list item) : str :=
  match last (given (lit "conf") (all_settings its)) with Some v => v | None => lit "./config.json" end.
Definition names (its : list item) : list str := map fst (all_settings its).

(** No option of an application must be set. *)
Lemma help_parser_complete ss : missing (set_all ss (cmdline.options help_parser)) = [].
Proof.
  apply missing_none. intros n o' Ho'.
  destruct (statics_lookup _ (cmdline.options help_parser) n o' (statics_set_all ss _) Ho') as (o & Ho & Es).
  assert (Forall (fun e => cmdline.must e.2 = false) (cmdline.entries (cmdline.options help_parser))) as Hmust
    by (vm_compute; repeat constructor).
  apply entries_elem in Ho. eapply Forall_forall in Hmust; [| exact Ho]. cbn in Hmust.
  rewrite (static_must Es) in Hmust. destruct o' as [|nam snam [] desc has def actual reader]; done.
Qed.

Lemma help_parser_version b :
  match cmdline.options help_parser !! lit "version" with
  | Some o => Ok (cmdline.has_set o || b)
  | None => Fault Thrown
  end = Ok b.
Proof. vm_compute. reflexivity. Qed.
Lemma help_parser_reads v : read_as help_parser (lit "conf") v = Ok v.
Proof. vm_compute. reflexivity. Qed.
Lemma help_parser_default : cmdline.get (lit "conf") help_parser = Ok (lit "./config.json").
Proof. vm_compute. reflexivity. Qed.

(** The command line of an application: its options are read from valid items, and anything
    else ends the program. *)
Lemma app_command_line name ver (fresh : Config X) a argv0 args : AppInfos_new name ver fresh = Ok a ->
  exists o ap', cmdline.parse_check (argv0 :: args) (ap a) = Ok (o, ap') /\
    (forall its, Forall (valid_item (cmdline.options help_parser)) its -> args = command_line its -> help ∉ names its ->
       o = cmdline.Continue /\ cmdline.exist (lit "version") ap' = Ok (bool_decide (lit "version" ∈ names its)) /\
       cmdline.get (lit "conf") ap' = Ok (conf_file its)) /\
    match o with
    | cmdline.Continue => exists its, Forall (valid_item (cmdline.options help_parser)) its /\ args = command_line its /\
        help ∉ names its
    | cmdline.Exit code _ => code = 0 \/ code = 1
    end.
Proof.
  intros Ea. assert (ap a = app_parser) as -> by (vm_compute in Ea; injection Ea as <-; reflexivity).
  destruct (parse_check_exits app_parser help_parser argv0 args app_parser_wf help_parser_ok eq_refl)
    as (o & p' & E & _ & [ok Ep] & Hc & Ho). exists o, p'. split; [done |]. split.
  - intros its Hv Ea' Hh. assert (o = cmdline.Continue) as ->.
    { apply Hc. split; [apply help_parser_shorts |]. exists its. ands; [assumption.. | apply help_parser_complete | assumption]. }
    split; [done |]. subst args. pose proof (parse_get _ _ _ _ _ help_parser_wf help_parser_shorts Hv Ep) as Hget.
    split; [rewrite (proj1 (Hget _)); apply help_parser_version |]. rewrite (proj2 (Hget _) str _). unfold conf_file.
    destruct (last _) as [v|]; [apply help_parser_reads | apply help_parser_default].
  - destruct o as [|code text]; [| destruct Ho as [(-> & _)|(-> & _)]; [by left | by right]]. destruct (proj1 Hc eq_refl) as [_ (its & ? & ? & _ & ?)].
    exists its. ands; assumption.
Qed.

Section Start.
Context {R FS : Type} `{SpdLogLaws R} (access : FS -> str -> bool) (mkdir : FS -> str -> FS * bool).
Context (open : str -> J).

(** What [init] does with a command line that is accepted. *)
Definition starts (a : AppInfos (X:=X)) (ap' : cmdline.parser) (ok : bool) (g' : Config X) (s : LogSys R FS)
  (r : res (Z * AppInfos * LogSys R FS)) : Prop :=
  let a' := mkAppInfos (version a) (app_name a) ap' (Some g') in
  let opts := options g' in
  let dir := Util.c_str (log_dir opts) in
  if negb ok then r = Ok (-1, a', s)
  else if dir_fits dir then
    exists ret s', r = Ok (ret, a', s') /\
      (ret = 1 /\
       (forall d rest, dir = d ++ rest -> d <> [] -> last d <> Some "/"%char ->
          rest = [] \/ head rest = Some "/"%char -> access (disk s') d = true) /\
       (get_logger (spd s) BASE_LOGGER_NAME = None ->
          get_logger (spd s') BASE_LOGGER_NAME = None \/
          get_logger (spd s') BASE_LOGGER_NAME =
            Some (made_logger (log_dir opts) BASE_LOGGER_NAME (log_level opts) BASE_LOGGER_NAME false s')) \/
       ret = -2 /\ spd s' = spd s)
  else r = Fault Undefined.

Lemma init_starts argv p without a ap' (s : LogSys R FS) g v conf :
  (forall fs p fs', mkdir fs p = (fs', true) -> access fs' p = true) ->
  (forall fs p q, access fs q = true -> access (mkdir fs p).1 q = true) ->
  cfg a = Some g -> cmdline.parse_check argv (ap a) = Ok (cmdline.Continue, ap') ->
  cmdline.exist (lit "version") ap' = Ok v -> cmdline.get (lit "conf") ap' = Ok conf ->
  let r := init access mkdir open argv p without a s in
  if v then r = Fault (Exited 0)
  else match (if without : bool then Ok (true, g) else Load open conf p g) with
       | Ok (ok, g') => starts a ap' ok g' s r
       | Fault f => r = Fault f
       end.
Proof.
  intros Hm Hk Hg Hc Hv Hf r. unfold r, init, starts. cbv zeta. rewrite Hc. cbn [mbind res_bind]. rewrite Hv.
  cbn [mbind res_bind]. destruct v; [done |]. rewrite Hg, Hf. cbn [mbind res_bind].
  destruct (if without then _ else _) as [[ok g']|]; [| done]. cbn [mbind res_bind]. destruct ok; [| done]. cbn [negb]. cbv zeta.
  set (opts := options g'). set (dir := Util.c_str (log_dir opts)).
  pose proof (CreateDir_returns access mkdir dir (disk s)) as Hr.
  destruct (dir_fits dir) eqn:Efit; [| by rewrite Hr].
  destruct Hr as (fs' & n & E & Hn). rewrite E. cbn [mbind res_bind].
  destruct Hn as [-> | ->]; cbn [negb Z.eqb Z.opp]; [| by eexists _, _; split; [done | by right]].
  set (s1 := mkLogSys (inited s) (spd s) fs').
  destruct (setup_returns access mkdir (log_dir opts) BASE_LOGGER_NAME (log_level opts) BASE_LOGGER_NAME false s1)
    as [s2 Es]; [by right |].
  rewrite Es. cbn [mbind res_bind]. eexists _, _. split; [done |]. left. split; [done |].
  destruct (setup_result _ _ _ _ _ _ _ _ _ Es) as (_ & _ & _ & Hres).
  change (spd s1) with (spd s) in Hres. change (disk s1) with fs' in Hres.
  assert (forall d rest, dir = d ++ rest -> d <> [] -> last d <> Some "/"%char ->
    rest = [] \/ head rest = Some "/"%char -> access fs' d = true) as Hdirs
    by (apply (CreateDir_exists access mkdir Hm Hk dir (disk s)); done).
  destruct (get_logger (spd s) BASE_LOGGER_NAME) as [l|].
  - destruct Hres as [_ ->]. by split.
  - destruct Hres as (n & Ed & Hres). split.
    + intros d rest E1 E2 E3 E4. apply (CreateDir_keeps access mkdir Hk _ _ _ _ _ Ed). by eapply Hdirs.
    + intros _. destruct Hres as [?|[? _]]; [by left | by right].
Qed.

(** C38: what a fresh application does with any command line.  When it is
    a list of valid items of the options [version], [conf] and [help], without [help],
    [init] exits with 0 if [version] is among them, and otherwise loads the last file
    named by [conf], or the default.  When loading ends the program, as a row of a
    configuration table with too few columns does, so does [init]; when the
    configuration cannot be loaded it answers -1 and touches no directory; otherwise
    it answers 1 with the log directory and its parents in place, or -2 when one
    cannot be made; a log directory without a name, or with one of a hundred
    characters or more, is undefined behaviour.  The answer 0 of its comment, for a
    version that was asked for, is never given.  The answer 1 does not say that there
    is a log: a base logger that was not set up before is one with the level and
    directory of the configuration, or still missing.  With any other command line the
    program exits with 0 or 1. *)
Theorem init_spec name ver (fresh : Config X) a argv0 args p without (s : LogSys R FS) :
  (forall fs p fs', mkdir fs p = (fs', true) -> access fs' p = true) ->
  (forall fs p q, access fs q = true -> access (mkdir fs p).1 q = true) ->
  AppInfos_new name ver fresh = Ok a ->
  let r := init access mkdir open (argv0 :: args) p without a s in
  let accepted its := Forall (valid_item (cmdline.options help_parser)) its /\ args = command_line its /\ help ∉ names its in
  (forall its, accepted its ->
     if bool_decide (lit "version" ∈ names its) then r = Fault (Exited 0)
     else match (if without : bool then Ok (true, fresh) else Load open (conf_file its) p fresh) with
          | Ok (ok, g') => exists ap', starts a ap' ok g' s r
          | Fault f => r = Fault f
          end) /\
  ((forall its, ~ accepted its) -> r = Fault (Exited 0) \/ r = Fault (Exited 1)).
Proof.
  intros Hm Hk Ea r accepted. destruct (app_command_line name ver fresh a argv0 args Ea) as (o & ap' & E & Hits & Ho).
  assert (cfg a = Some fresh) as Hg by (vm_compute in Ea; injection Ea as <-; reflexivity). split.
  - intros its (Hv & Hargs & Hh). destruct (Hits its Hv Hargs Hh) as (-> & Hver & Hconf).
    pose proof (init_starts (argv0 :: args) p without a ap' s fresh _ _ Hm Hk Hg E Hver Hconf) as Hr.
    cbv zeta in Hr. fold r in Hr. destruct (bool_decide _); [exact Hr |].
    destruct (if without then _ else _) as [[ok g']|f]; [by exists ap' | exact Hr].
  - intros Hno. destruct o as [|code text].
    + destruct Ho as (its & Hv & Hargs & Hh). destruct (Hno its). by split_and!.
    + unfold r, init. rewrite E. cbn [mbind res_bind]. destruct Ho as [-> | ->]; [by left | by right].
Qed.
End Start.
End Props.

(** ** A document *)
Record Doc : Type := mkDoc {
  strings : gmap (str * str) str;
  arrays : gmap (str * str) (list str);
  tables : gmap (str * str) (list (list str))
}.

#[export] Instance Doc_MJson : MJson (option Doc) := {
  ParseError j := match j with Some _ => 0 | None => 1 end;
  GetInteger j s k d := match j ≫= fun j => strings j !! (s, k) with Some v => atoi v | None => d end;
  GetBoolean j s k d := match j ≫= fun j => strings j !! (s, k) with Some v => bool_decide (v = lit "true") | None => d end;
  Get j s k d := default d (j ≫= fun j => strings j !! (s, k));
  GetArray j s k l := match j ≫= fun j => arrays j !! (s, k) with Some v => (true, v) | None => (false, l) end;
  GetTable j s k l := match j ≫= fun j => tables j !! (s, k) with Some v => (true, v) | None => (false, l) end
}.

Definition doc : option Doc := Some {|
  strings := {[ (sds, lit "msg_handlers") := lit "a,b"; (sds, lit "log_dir") := lit "top/logs" ]};
  arrays := {[ (lit "etcd", lit "endpoints") := [lit "h1:2379"; lit "h2:2379"] ]};
  tables := {[ (sds, lit "ztp_sub_url") := [[lit "n"; lit "u"; lit "k"]];
               (sds, lit "compress_time") := [[lit "9"; lit "15"]] ]}
|}.

Definition fresh : Config unit :=
  Config_new (mkOptions 0 [] [] tt)
    {| config_file := []; agent_work_cpu_id := 0; agent_high_perfomance := false; listen_urls := []; services := [];
       compress_time := []; etcd_endpoints := []; shm_write_close_time := []; shm_write_base_id := [];
       shm_write_suffix := []; is_open_index := 0; shm_id := 0; listen_etcd_url := []; msg_handlers := [];
       tcp_sub_topic := []; input_types := ∅; output_types := ∅; use_hare := false; hare_conf_dir := [] |}.

Lemma parseOptions_spec_witness :
  exists g', parseOptions doc fresh = Ok (true, g') /\
    services (linker_cfg g') = [mkService (lit "n") (lit "u") (lit "k")] /\
    compress_time (linker_cfg g') = [mkCompress 9 15] /\ msg_handlers (linker_cfg g') = [lit "a"; lit "b"] /\
    output_types (linker_cfg g') = {[ lit "ztp" ]}.
Proof.
  destruct (parseOptions_spec doc fresh) as (g' & H1 & H2 & H3 & H4 & _ & H6).
  - constructor; [vm_compute; done | constructor].
  - vm_compute. reflexivity.
  - exists g'. split; [exact H1 |]. rewrite H2, H3, H4, H6. vm_compute. split_and!; reflexivity.
Defined.

Definition parsed : Config unit := match parseOptions doc fresh with Ok (_, g) => g | Fault _ => fresh end.

Lemma endpoints_split_witness :
  Util.split (etcd_endpoints (linker_cfg parsed)) (lit ",") [] = Ok [lit "h1:2379"; lit "h2:2379"].
Proof.
  pose proof (endpoints_split doc fresh parsed) as H. cbv zeta in H. rewrite H; clear H.
  - vm_compute. reflexivity.
  - vm_compute. repeat constructor; try done; intros Hin; repeat (apply elem_of_cons in Hin as [Hin|Hin]; [done |]); by apply elem_of_nil in Hin.
  - reflexivity.
  - vm_compute. reflexivity.
  - unfold parsed. destruct (parseOptions doc fresh) as [[[] g]|] eqn:E; [done | |];
      apply (f_equal (fun r => match r with Ok (b, _) => b | _ => false end)) in E; vm_compute in E; discriminate E.
Defined.

(** Directories as a set of names. *)
Definition set_access (fs : gset str) (p : str) : bool := bool_decide (p ∈ fs).
Definition set_mkdir (fs : gset str) (p : str) : gset str * bool := ({[ p ]} ∪ fs, true).

Lemma set_mkdir_makes fs p fs' : set_mkdir fs p = (fs', true) -> set_access fs' p = true.
Proof. intros [= <-]. apply bool_decide_eq_true_2. set_solver. Qed.
Lemma set_mkdir_keeps fs p q : set_access fs q = true -> set_access (set_mkdir fs p).1 q = true.
Proof. intros Hx%bool_decide_eq_true_1. apply bool_decide_eq_true_2. set_solver. Qed.

Definition quiet : LogSys Registry (gset str) := mkLogSys false (mkRegistry ∅ 0 []) ∅.

Definition sample_app : AppInfos := mkAppInfos (lit "1.0") (lit "app") app_parser (Some fresh).
Definition app_args : list item := [ShortArg [] "c"%char (lit "conf") (lit "c.json")].

Lemma app_new : AppInfos_new (lit "app") (lit "1.0") fresh = Ok sample_app.
Proof. vm_compute. reflexivity. Qed.

Lemma app_args_valid : Forall (valid_item (cmdline.options help_parser)) app_args /\
  [lit "-c"; lit "c.json"] = command_line app_args /\ help ∉ names app_args.
Proof.
  split; [| split; [reflexivity | apply not_elem_of_cons; split; [discriminate | apply not_elem_of_nil]]]. constructor; [| constructor].
  destruct (cmdline.options help_parser !! lit "conf") as [o|] eqn:E; [| vm_compute in E; discriminate E].
  assert (cmdline.short_name o = "c"%char /\ exists x, read_value o (lit "c.json") = Some x) as [Hs [x Hx]]
    by (vm_compute in E; injection E as <-; split; [reflexivity | by eexists]).
  split; [split; [| discriminate] |].
  - constructor; [| constructor]. exists o. split; [exact E |]. split; [exact Hs |]. split; discriminate.
  - constructor; [| constructor]. exists o. split; [exact E | exists x; exact Hx].
Qed.

Lemma init_spec_witness :
  exists ret s' ap' g', init set_access set_mkdir (fun _ => doc) [lit "app"; lit "-c"; lit "c.json"] None false sample_app quiet
    = Ok (ret, mkAppInfos (lit "1.0") (lit "app") ap' (Some g'), s') /\
  (ret = 1 /\ set_access (disk s') (lit "top") = true \/ ret = -2).
Proof.
  destruct (Load (fun _ => doc) (lit "c.json") (X:=unit) None fresh) as [[ok g']|] eqn:E; [| vm_compute in E; discriminate E].
  pose proof (init_spec set_access set_mkdir (fun _ => doc) (lit "app") (lit "1.0") fresh sample_app
    (lit "app") [lit "-c"; lit "c.json"] None false quiet set_mkdir_makes set_mkdir_keeps app_new) as [H _].
  specialize (H app_args app_args_valid).
  assert (ok = true /\ log_dir (options g') = lit "top/logs") as [-> Hd]
    by (vm_compute in E; injection E as <- <-; split; reflexivity).
  change (bool_decide (lit "version" ∈ names app_args)) with false in H. cbv iota in H.
  change (conf_file app_args) with (lit "c.json") in H. rewrite E in H. destruct H as [ap' H]. unfold starts in H.
  rewrite Hd in H. cbn [negb] in H. destruct H as (ret & s' & Hr & [(-> & H & _)|[-> _]]).
  - exists 1, s', ap', g'. split; [exact Hr |]. left. split; [done |]. apply (H (lit "top") (lit "/logs")); [done | done | by vm_compute | by right].
  - exists (-2), s', ap', g'. split; [exact Hr | by right].
Defined.
