(* ===== verification/DBWork.v ===== *)
(** * The statement queue: [DBWorkHandle] of [src/src/use_mysql/main.cpp]

    The MySQL connector is third-party: every call into it is a value of [call],
    answered by the argument [handle] with a value or a [std::exception].  A
    prepared statement names the connection and the text it was made from.
    [mu] makes a turn of either thread one step, until the destructor runs; taking a statement off the queue
    is another.  The queue has one producer, so it is first in, first out. *)
From S2P Require Import Prelude CStr.
From S2P Require Export Trace.
Open Scope Z_scope.

Abbreviation Connection := positive.

(** An exception, or the value. *)
Abbreviation thrown := unit (only parsing).
Abbreviation exn T := (thrown + T)%type (only parsing).

Record MysqlInfo : Type := mkMysqlInfo { url_ : str; user_ : str; pass_ : str; data_base_ : str }.

Inductive call : Type -> Type :=
  (** whether the driver is not null *)
  | get_mysql_driver_instance : call (exn bool)
  | connect (url user pass : str) : call (exn (option Connection))
  | setSchema (k : Connection) (db : str) : call (exn unit)
  | isValid (k : Connection) : call (exn bool)
  | close (k : Connection) : call (exn unit)
  | delete_connection (k : Connection) : call unit
  (** whether the statement is not null *)
  | prepareStatement (k : Connection) (sql : str) : call (exn bool)
  | executeUpdate (k : Connection) (sql : str) : call (exn Z)
  | executeQuery (k : Connection) (sql : str) : call (exn unit)
  | threadEnd : call (exn unit)
  | delete_driver : call unit
  (** the constructor of [std::thread] *)
  | start_check : call (exn unit)
  | start_update : call (exn unit).

(** [sql] is the statement [UpdateThread] has taken off the queue and not yet
    dealt with, [count] the static variable of [CheckStatus]. *)
Record DBWorkHandle : Type := mkDBWork {
  dbinfo_ : MysqlInfo;
  exit_ : bool;
  check_thread_ : bool;
  update_thread_ : bool;
  conn_ : option Connection;
  driver_ : bool;
  q : list str;
  sql : option str;
  count : Z }.

(** [std::make_shared<DBWorkHandle>()] zeroes the pointers. *)
Definition DBWorkHandle_new (dbinfo : MysqlInfo) : DBWorkHandle :=
  mkDBWork dbinfo false false false None false [] None 0.

Definition set_dbinfo (i : MysqlInfo) (h : DBWorkHandle) : DBWorkHandle :=
  mkDBWork i (exit_ h) (check_thread_ h) (update_thread_ h) (conn_ h) (driver_ h) (q h) (sql h) (count h).
Definition set_exit (h : DBWorkHandle) : DBWorkHandle :=
  mkDBWork (dbinfo_ h) true (check_thread_ h) (update_thread_ h) (conn_ h) (driver_ h) (q h) (sql h) (count h).
Definition set_threads (c u : bool) (h : DBWorkHandle) : DBWorkHandle :=
  mkDBWork (dbinfo_ h) (exit_ h) c u (conn_ h) (driver_ h) (q h) (sql h) (count h).
Definition set_conn (k : option Connection) (h : DBWorkHandle) : DBWorkHandle :=
  mkDBWork (dbinfo_ h) (exit_ h) (check_thread_ h) (update_thread_ h) k (driver_ h) (q h) (sql h) (count h).
Definition set_driver (d : bool) (h : DBWorkHandle) : DBWorkHandle :=
  mkDBWork (dbinfo_ h) (exit_ h) (check_thread_ h) (update_thread_ h) (conn_ h) d (q h) (sql h) (count h).
Definition set_queue (l : list str) (s : option str) (h : DBWorkHandle) : DBWorkHandle :=
  mkDBWork (dbinfo_ h) (exit_ h) (check_thread_ h) (update_thread_ h) (conn_ h) (driver_ h) l s (count h).
Definition set_count (n : Z) (h : DBWorkHandle) : DBWorkHandle :=
  mkDBWork (dbinfo_ h) (exit_ h) (check_thread_ h) (update_thread_ h) (conn_ h) (driver_ h) (q h) (sql h) n.

Abbreviation World := (Trace.World call DBWorkHandle).
Abbreviation C := (Trace.C call DBWorkHandle).

Section Methods.
Context {D : Type} (handle : forall T, call T -> D -> T * D).

Local Abbreviation do := (Trace.do handle).

(** Sequencing inside a [try]: an exception leaves it. *)
Definition and_then {A B} (m : C D (exn A)) (k : A -> C D (exn B)) : C D (exn B) :=
  r ← m; match r with inl e => mret (inl e) | inr a => k a end.
Definition try_ret {A} (a : A) : C D (exn A) := mret (inr a).
(** [catch] with a value. *)
Definition catch {A} (m : C D (exn A)) (a : A) : C D A := r ← m; mret (match r with inl _ => a | inr a => a end).
(** A call that does not throw, or an assignment, inside a [try]. *)
Definition plain {A} (m : C D A) : C D (exn A) := a ← m; try_ret a.

Definition DisConnect (destroy : bool) : C D (exn unit) :=
  h ← get;
  and_then
    (match conn_ h with
     | Some k => and_then (do (close k)) (fun _ => plain (_ ← do (delete_connection k); upd (set_conn None)))
     | None => try_ret tt
     end)
    (fun _ =>
       if driver_ h && destroy
       then and_then (do threadEnd) (fun _ => plain (_ ← do delete_driver; upd (set_driver false)))
       else try_ret tt).

(** [Connect]; a null [driver_] is dereferenced. *)
Definition connect_to (i : MysqlInfo) : C D bool :=
  catch
    (and_then (do (connect (url_ i) (user_ i) (pass_ i))) (fun k =>
       and_then (plain (upd (set_conn k))) (fun _ =>
         match k with
         | None => try_ret false
         | Some k => and_then (do (setSchema k (data_base_ i))) (fun _ => try_ret true)
         end)))
    false.

Definition Connect : C D bool :=
  h ← get; if driver_ h then connect_to (dbinfo_ h) else lift (Fault Undefined).

(** [Init]; an exception out of [DisConnect] in the [catch] leaves it. *)
Definition Init (dbinfo : MysqlInfo) : C D bool :=
  _ ← upd (set_dbinfo dbinfo);
  r ← and_then (do get_mysql_driver_instance) (fun d =>
        and_then (plain (upd (set_driver d))) (fun _ =>
          if d then
            and_then (plain Connect) (fun ok =>
              if ok : bool then
                and_then (do start_check) (fun _ =>
                  and_then (plain (upd (set_threads true false))) (fun _ =>
                    and_then (do start_update) (fun _ =>
                      and_then (plain (upd (set_threads true true))) (fun _ => try_ret true))))
              else try_ret false)
          else try_ret false));
  match r with
  | inr b => mret b
  | inl _ => e ← DisConnect false; match e with inl _ => lift (Fault Thrown) | inr _ => mret true end
  end.

(** The [try] of a turn of [CheckStatus]. *)
Definition reconnect : C D (exn unit) := and_then (DisConnect false) (fun _ => plain (_ ← Connect; mret tt)).

Definition probe (k : Connection) : C D (exn unit) :=
  h ← get;
  if 1000 <? count h + 1 then
    _ ← upd (set_count 0);
    and_then (do (prepareStatement k (lit "select 1 = 1;"))) (fun stmt =>
      if stmt then do (executeQuery k (lit "select 1 = 1;")) else try_ret tt)
  else plain (upd (set_count (count h + 1))).

Definition CheckStatus : C D unit :=
  h ← get;
  catch
    (match conn_ h with
     | None => reconnect
     | Some k => and_then (do (isValid k)) (fun valid => if valid then probe k else reconnect)
     end) tt.

(** What [UpdateThread] does with a statement it has taken: [conn_] is read again
    for the statement; a null pointer is dereferenced. *)
Definition update_run (s : str) : C D (exn unit) :=
  h ← get;
  match conn_ h with
  | None => lift (Fault Undefined)
  | Some k =>
      and_then (do (prepareStatement k s)) (fun stmt =>
        if stmt then and_then (do (executeUpdate k s)) (fun _ => try_ret tt) else try_ret tt)
  end.

(** [!conn_ || !conn_->isValid()], negated. *)
Definition update_valid : C D (exn bool) :=
  h ← get; match conn_ h with None => try_ret false | Some k => do (isValid k) end.

Definition update (s : str) : C D unit :=
  catch (and_then update_valid (fun valid => if valid then update_run s else try_ret tt)) tt.

(** ** The steps of the two threads and of the producer *)
Inductive action : Type :=
  | Enqueue (s : str)
  | Dequeue
  | Update
  | Check_.

Definition OnMsg (s : str) : C D unit := upd (fun h => set_queue (q h ++ [s]) (sql h) h).

(** [q.try_dequeue(sql)]; the thread does it only when it has dealt with the
    statement before. *)
Definition try_dequeue : C D unit :=
  upd (fun h => match sql h, q h with None, s :: l => set_queue l (Some s) h | _, _ => h end).

Definition UpdateThread : C D unit :=
  h ← get;
  match sql h with
  | None => mret tt
  | Some s => _ ← update s; upd (fun h => set_queue (q h) None h)
  end.

Definition step (a : action) : C D unit :=
  match a with
  | Enqueue s => OnMsg s
  | Dequeue => try_dequeue
  | Update => UpdateThread
  | Check_ => CheckStatus
  end.

Fixpoint steps (l : list action) : C D unit :=
  match l with [] => mret tt | a :: l => _ ← step a; steps l end.

(** The destructor, when nothing else runs: it joins [check_thread_], but takes
    no mutex and does not join [update_thread_] (see [delete_races]).  Destroying
    [update_thread_] while it runs, and an exception out of a destructor, end the
    program. *)
Definition delete : C D unit :=
  _ ← upd set_exit;
  _ ← upd (fun h => set_threads false (update_thread_ h) h);
  r ← DisConnect true;
  match r with
  | inl _ => lift (Fault AssertFailed)
  | inr _ => h ← get; if update_thread_ h then lift (Fault AssertFailed) else mret tt
  end.
End Methods.
