(* ===== verification/DBWorkProps.v ===== *)
(** * The statement queue: what is executed, which connections are open *)
From S2P Require Import Prelude CStr DBWork.
Open Scope Z_scope.

(** The statements given to the server. *)
Definition executed1 (e : event call) : option str :=
  match e with Event _ c _ => match c with executeUpdate _ s => Some s | _ => None end end.
Definition executed (es : list (event call)) : list str := omap executed1 es.

Definition enqueued (l : list action) : list str :=
  omap (fun a => match a with Enqueue s => Some s | _ => None end) l.

Lemma executed_snoc es e : executed (es ++ [e]) = executed es ++ option_list (executed1 e).
Proof. unfold executed. rewrite omap_app. cbn. by destruct (executed1 e). Qed.

(** What a call does to the connections. *)
Definition connection_effect (e : event call) : effect Connection :=
  match e with
  | Event _ c a =>
      match c in call T return T -> effect Connection with
      | connect _ _ _ => fun a => Makes (match a with inr k => k | inl _ => None end)
      | delete_connection k => fun _ => Frees k
      | setSchema k _ => fun _ => Uses k
      | isValid k => fun _ => Uses k
      | close k => fun _ => Uses k
      | prepareStatement k _ => fun _ => Uses k
      | executeUpdate k _ => fun _ => Uses k
      | executeQuery k _ => fun _ => Uses k
      | _ => fun _ => Quiet
      end a
  end.
Definition open_connections : list (event call) -> option (list Connection) := resources connection_effect.

Section Props.
Context {D : Type} (handle : forall T, call T -> D -> T * D).

(** ** Rules for the combinators of [try] *)
Lemma keeps_and_then {A B} P (m : C D (exn A)) (k : A -> C D (exn B)) :
  keeps P m -> (forall a, keeps P (k a)) -> keeps P (and_then m k).
Proof. intros Hm Hk. apply keeps_bind; [done |]. intros [e|a]; [apply keeps_ret | apply Hk]. Qed.

Lemma keeps_plain {A} P (m : C D A) : keeps P m -> keeps P (plain m).
Proof. intros Hm. apply keeps_bind; [done |]. intros a. apply keeps_ret. Qed.

Lemma keeps_catch {A} P (m : C D (exn A)) a : keeps P m -> keeps P (catch m a).
Proof. intros Hm. apply keeps_bind; [done |]. intros r. apply keeps_ret. Qed.

(** ** Everything but [update] leaves the queue and the executed statements *)
Definition frame (K : option Connection -> Prop) (e : list str) (s : option str) (l : list str) (w : World D) : Prop :=
  executed (log w) = e /\ sql (self w) = s /\ q (self w) = l /\ driver_ (self w) = true /\ K (conn_ (self w)).

Definition silent {T} (c : call T) : Prop := match c with executeUpdate _ _ => False | _ => True end.

Lemma frame_do {T} (c : call T) K e s l : silent c -> keeps (frame K e s l) (do handle c).
Proof.
  intros Hc. apply keeps_do. intros w a d (He & Hw). split; [| done]. cbn [log].
  rewrite executed_snoc, He. destruct c; try done; apply app_nil_r.
Qed.

Lemma frame_upd f K e s l :
  (forall h, sql (f h) = sql h /\ q (f h) = q h /\ driver_ (f h) = driver_ h /\ (K (conn_ h) -> K (conn_ (f h)))) ->
  keeps (frame K e s l) (upd f).
Proof.
  intros Hf. apply keeps_upd. intros w (He & Hs & Hl & Hd & Hk). destruct (Hf (self w)) as (E1 & E2 & E3 & E4).
  split; [done |]. cbn [self]. rewrite E1, E2, E3. by auto.
Qed.
End Props.

(** Runs through a program whose every step keeps the invariant. *)
Ltac keep_steps :=
  repeat first
    [ simple apply keeps_and_then; [| intros ?]
    | simple apply keeps_plain
    | simple apply keeps_catch
    | simple apply keeps_bind; [| intros ?]
    | apply keeps_ret
    | simple apply keeps_get
    | by apply frame_do
    | by apply frame_upd
    | match goal with |- keeps _ (match ?x with _ => _ end) => destruct x end ].

Section Props2.
Context {D : Type} (handle : forall T, call T -> D -> T * D).

(** ** Whatever the connector answers *)
Local Abbreviation any := (fun _ : option Connection => True).

Lemma frame_Connect e s l : keeps (frame any e s l) (Connect handle).
Proof.
  apply keeps_get_bind. intros w Hw. assert (driver_ (self w) = true) as -> by apply Hw.
  generalize (dbinfo_ (self w)). intros i. revert w Hw. change (keeps (frame any e s l) (connect_to handle i)).
  unfold connect_to. keep_steps.
Qed.

Lemma frame_DisConnect e s l : keeps (frame any e s l) (DisConnect handle false).
Proof.
  unfold DisConnect. apply keeps_bind; [apply keeps_get |]. intros h. rewrite andb_false_r. keep_steps.
Qed.

Lemma frame_CheckStatus e s l : keeps (frame any e s l) (CheckStatus handle).
Proof.
  unfold CheckStatus, reconnect, probe. keep_steps; try apply frame_DisConnect; try apply frame_Connect.
Qed.

Lemma update_any s w :
  exists w', update handle s w = (Ok tt, w') /\ self w' = self w /\
    (executed (log w') = executed (log w) \/ executed (log w') = executed (log w) ++ [s]).
Proof.
  unfold update, update_valid, update_run, catch, and_then, try_ret, mbind, mret, C_bind, C_ret, get, do.
  destruct (conn_ (self w)) as [k|] eqn:Ek; [| exists w; auto].
  destruct (handle _ (isValid k) (drv w)) as [[e1|[]] d1]; cbn [drv self log];
    [| rewrite Ek; cbn [drv self log]; destruct (handle _ (prepareStatement k s) d1) as [[e2|[]] d2]; cbn [drv self log];
       [| destruct (handle _ (executeUpdate k s) d2) as [[e3|n] d3]; cbn [drv self log] |] |];
    (eexists; split_and!; [done | done |]; cbn [log]; rewrite !executed_snoc; cbn [executed1 option_list];
     rewrite !app_nil_r; auto).
Qed.

(** ** A connector that works: the connection stays valid and statements are
    prepared *)
Section Healthy.
Context (valid : forall k d, (handle _ (isValid k) d).1 = inr true).
Context (prepared : forall k s d, (handle _ (prepareStatement k s) d).1 = inr true).
Context (k : Connection).
Local Abbreviation held := (fun c : option Connection => c = Some k).

Lemma healthy_CheckStatus e s l : keeps (frame held e s l) (CheckStatus handle).
Proof.
  apply keeps_get_bind. intros w Hw. assert (conn_ (self w) = Some k) as -> by apply Hw.
  revert w Hw. change (keeps (frame held e s l)
    (catch (and_then (do handle (isValid k)) (fun valid => if valid then probe handle k else reconnect handle)) tt)).
  apply keeps_catch. intros w Hw. destruct (frame_do handle (isValid k) held e s l I w Hw) as (a & w' & E & Hw').
  unfold and_then, mbind, C_bind. rewrite E.
  assert (a = inr true) as ->.
  { unfold do in E. pose proof (valid k (drv w)) as Hv. destruct (handle _ (isValid k) (drv w)) as [a' d].
    by injection E as <- _. }
  revert w' E Hw'. intros w' _. revert w'. change (keeps (frame held e s l) (probe handle k)). unfold probe. keep_steps.
Qed.

Lemma healthy_update s w : conn_ (self w) = Some k ->
  exists w', update handle s w = (Ok tt, w') /\ self w' = self w /\ executed (log w') = executed (log w) ++ [s].
Proof.
  intros Hk. unfold update, update_valid, update_run, catch, and_then, try_ret, mbind, mret, C_bind, C_ret, get, do. rewrite Hk.
  pose proof (valid k (drv w)) as Hv. destruct (handle _ (isValid k) (drv w)) as [v d1]. cbn [fst] in Hv. subst v.
  cbn [drv self log]. rewrite Hk. cbn [drv self log]. pose proof (prepared k s d1) as Hp. destruct (handle _ (prepareStatement k s) d1) as [p d2].
  cbn [fst] in Hp. subst p. cbn [drv self log]. destruct (handle _ (executeUpdate k s) d2) as [[e3|n] d3]; cbn [drv self log];
    (eexists; split_and!; [done | done |]; cbn [log]; rewrite !executed_snoc; cbn [executed1 option_list]; by rewrite !app_nil_r).
Qed.
End Healthy.

(** ** Delivery: every statement enqueued was dealt with, is being dealt with or
    waits; [R] relates the executed ones to those dealt with *)
Section Delivery.
Context (R : list str -> list str -> Prop) (K : option Connection -> Prop).
Context (check_keeps : forall e s l, keeps (frame K e s l) (CheckStatus handle)).
Context (update_deals : forall s w c, K (conn_ (self w)) -> R (executed (log w)) c ->
  exists w', update handle s w = (Ok tt, w') /\ self w' = self w /\ R (executed (log w')) (c ++ [s])).

Definition delivery (enq : list str) (w : World D) : Prop :=
  driver_ (self w) = true /\ K (conn_ (self w)) /\
  exists consumed, enq = consumed ++ option_list (sql (self w)) ++ q (self w) /\ R (executed (log w)) consumed.

Lemma step_delivery a enq w : delivery enq w ->
  exists w', step handle a w = (Ok tt, w') /\ delivery (enq ++ enqueued [a]) w'.
Proof.
  intros (Hd & HK & c & -> & HR). destruct a as [s| | |]; cbn [step enqueued omap list_omap]; rewrite ?app_nil_r.
  - eexists. split; [done |]. split_and!; [done | done |]. exists c. cbn. split; [| done]. by rewrite <- !app_assoc.
  - unfold try_dequeue, upd. eexists. split; [done |]. unfold delivery. cbn [self log].
    destruct (sql (self w)) as [s|] eqn:Es; [split_and!; [done | done |]; exists c; by rewrite Es |].
    destruct (q (self w)) as [|s l] eqn:El; (split_and!; [done | done |]; exists c); [by rewrite Es, El | done].
  - unfold UpdateThread, mbind, C_bind, get. destruct (sql (self w)) as [s|] eqn:Es.
    + destruct (update_deals s w c HK HR) as (w' & E & Eh & HR'). rewrite E. unfold upd. eexists. split; [done |].
      unfold delivery. cbn [self log driver_ conn_ set_queue]. rewrite Eh. split_and!; [done | done |].
      exists (c ++ [s]). cbn. split; [by rewrite <- app_assoc | done].
    + exists w. split; [done |]. split_and!; [done | done |]. exists c. by rewrite Es.
  - destruct (check_keeps (executed (log w)) (sql (self w)) (q (self w)) w) as ([] & w' & E & He & Hs & Hl & Hd' & HK');
      [done |].
    exists w'. split; [done |]. split_and!; [done | done |]. exists c. by rewrite He, Hs, Hl.
Qed.

Lemma steps_delivery l : forall enq w, delivery enq w ->
  exists w', steps handle l w = (Ok tt, w') /\ delivery (enq ++ enqueued l) w'.
Proof.
  induction l as [|a l IH]; intros enq w Hw; cbn [steps].
  - exists w. by rewrite app_nil_r.
  - destruct (step_delivery a enq w Hw) as (w1 & E1 & H1). destruct (IH _ w1 H1) as (w2 & E2 & H2).
    exists w2. unfold mbind, C_bind. rewrite E1. split; [done |].
    change (a :: l) with ([a] ++ l). unfold enqueued in *. by rewrite omap_app, app_assoc.
Qed.
End Delivery.

(** A handle that waits for statements, with nothing executed. *)
Definition idle (w : World D) : Prop :=
  driver_ (self w) = true /\ sql (self w) = None /\ q (self w) = [] /\ executed (log w) = [].

(** C6: whatever the connector answers and however the threads interleave, no
    step fails, the statements taken off the queue are the first ones enqueued
    and those executed are among them, each at most once and in order; they are
    exactly the ones dealt with as long as the connection stays valid and
    statements can be prepared. *)
Theorem statements_delivered l w :
  idle w ->
  exists w' consumed, steps handle l w = (Ok tt, w') /\
    enqueued l = consumed ++ option_list (sql (self w')) ++ q (self w') /\
    executed (log w') `sublist_of` consumed /\
    (forall k, conn_ (self w) = Some k ->
       (forall k d, (handle _ (isValid k) d).1 = inr true) ->
       (forall k s d, (handle _ (prepareStatement k s) d).1 = inr true) ->
       executed (log w') = consumed).
Proof.
  intros (Hd & Hs & Hl & He).
  destruct (steps_delivery sublist any frame_CheckStatus) with (l := l) (enq := @nil str) (w := w)
    as (w' & E & _ & _ & c & Hc & HR).
  - intros s w1 c _ HR. destruct (update_any s w1) as (w2 & E & Eh & [H|H]); exists w2; rewrite H; (split; [done |]); (split; [done |]).
    + by apply sublist_inserts_r.
    + by apply sublist_app.
  - split_and!; [done | done |]. exists []. by rewrite Hs, Hl, He.
  - exists w', c. split; [done |]. split; [done |]. split; [done |]. intros k Hk Hv Hp.
    destruct (steps_delivery eq (fun c => c = Some k) (healthy_CheckStatus Hv k)) with (l := l) (enq := @nil str) (w := w)
      as (w2 & E2 & _ & _ & c2 & Hc2 & HR2).
    + intros s w1 c1 Hk1 <-. destruct (healthy_update Hv Hp k s w1 Hk1) as (w2 & E2 & Eh & H). exists w2. by rewrite H.
    + split_and!; [done | done |]. exists []. by rewrite Hs, Hl, He.
    + rewrite E in E2. injection E2 as <-. rewrite HR2. rewrite Hc in Hc2.
      by apply app_inv_tail in Hc2.
Qed.
End Props2.

(** ** Connections

    A program that stops early leaves them accounted for too. *)
Section Connections.
Context {D : Type} (handle : forall T, call T -> D -> T * D).

Definition owned_at (k : option Connection) (w : World D) : Prop :=
  open_connections (log w) = Some (option_list k) /\ conn_ (self w) = k.
Definition owned (w : World D) : Prop := exists k, owned_at k w.

Local Abbreviation triple := (Trace.triple owned).

Lemma triple_upd f k k' : (forall h, conn_ h = k -> conn_ (f h) = k') -> k = k' ->
  triple (owned_at k) (upd f) (fun _ => owned_at k').
Proof. intros Hf <- w [Ho Hk]. split; [done | by apply Hf]. Qed.

(** A call on the connection held, or on none. *)
Definition uses_only (k : option Connection) {T} (c : call T) : Prop :=
  forall a, connection_effect (Event T c a) = Quiet \/ exists b, k = Some b /\ connection_effect (Event T c a) = Uses b.

Lemma triple_do {T} (c : call T) k : uses_only k c -> triple (owned_at k) (do handle c) (fun _ => owned_at k).
Proof.
  intros Hc w [Ho Hk]. unfold do. destruct (handle T c (drv w)) as [a d]. split; [| done]. cbn [log].
  unfold open_connections in *. rewrite resources_snoc, Ho. cbn [mbind option_bind].
  destruct (Hc a) as [-> | (b & -> & ->)]; [done |]. apply apply_uses. by left.
Qed.

Lemma triple_and_then {A B} P (m : C D (exn A)) (k : A -> C D (exn B)) (R : exn A -> World D -> Prop) Q :
  triple P m R -> (forall e w, R (inl e) w -> Q (inl e) w) -> (forall a, triple (R (inr a)) (k a) Q) ->
  triple P (and_then m k) Q.
Proof.
  intros Hm Hl Hk. eapply triple_bind; [exact Hm |]. intros [e|a]; [apply triple_ret, Hl | apply Hk].
Qed.

Lemma triple_plain {A} P (m : C D A) (Q : exn A -> World D -> Prop) :
  triple P m (fun a => Q (inr a)) -> triple P (plain m) Q.
Proof. intros Hm. eapply triple_bind; [exact Hm |]. intros a. by apply triple_ret. Qed.

Lemma triple_catch {A} P (m : C D (exn A)) a (Q : A -> World D -> Prop) :
  triple P m (fun r => Q (match r with inl _ => a | inr a => a end)) -> triple P (catch m a) Q.
Proof. intros Hm. eapply triple_bind; [exact Hm |]. intros r. by apply triple_ret. Qed.

(** ** The operations *)
Lemma at_owned k w : owned_at k w -> owned w.
Proof. by exists k. Qed.

Lemma triple_delete k : triple (owned_at (Some k)) (_ ← do handle (delete_connection k); upd (set_conn None)) (fun _ => owned_at None).
Proof.
  intros w [Ho Hk]. unfold mbind, C_bind, do, upd. destruct (handle unit (delete_connection k) (drv w)) as [a d].
  split; [| done]. cbn [log]. unfold open_connections in *. rewrite resources_snoc, Ho. apply apply_frees_only.
Qed.

Lemma triple_DisConnect b :
  triple owned (DisConnect handle b) (fun r w => owned w /\ (r = inr tt -> owned_at None w)).
Proof.
  unfold DisConnect. apply triple_get. intros h.
  apply triple_and_then with (R := fun r w => owned w /\ (r = inr tt -> owned_at None w)).
  - destruct (conn_ h) as [k|] eqn:Ek.
    + apply triple_weaken with (P := owned_at (Some k)) (Q := fun r w => owned w /\ (r = inr tt -> owned_at None w)); [| | done].
      2: { intros w [(k' & Ho & Hk) Hh]. split; congruence. }
      eapply triple_and_then with (R := fun _ => owned_at (Some k)).
      * apply triple_do. intros ?. eauto.
      * intros e w Hw. split; [by eapply at_owned | done].
      * intros _. apply triple_plain. eapply triple_weaken; [apply triple_delete | done |].
        intros [] w Hw. split; [by eapply at_owned | done].
    + apply triple_ret. intros w [(k' & Ho & Hk) Hh].
      assert (owned_at None w) as Hw by (split; congruence). split; [by eapply at_owned | done].
  - intros e w [Hw _]. by split.
  - intros []. destruct (driver_ h && b); [| by apply triple_ret].
    apply triple_weaken with (P := owned_at None) (Q := fun r w => owned w /\ (r = inr tt -> owned_at None w)); [| naive_solver | done].
    eapply triple_and_then with (R := fun _ => owned_at None).
    + apply triple_do. intros ?. eauto.
    + intros e w Hw. split; [by eapply at_owned | done].
    + intros []. apply triple_plain. eapply triple_bind with (R := fun _ => owned_at None); [apply triple_do; intros ?; eauto |].
      intros _. eapply triple_weaken; [by apply (triple_upd _ None None) | done |].
      intros [] w Hw. split; [by eapply at_owned | done].
Qed.

Lemma triple_Connect : triple (owned_at None) (Connect handle) (fun _ => owned).
Proof.
  unfold Connect. apply triple_get. intros h. destruct (driver_ h).
  2: { intros w [Hw _]. by eapply at_owned. }
  apply triple_weaken with (P := owned_at None) (Q := fun _ => owned); [| by intros w [Hw _] | done].
  unfold connect_to. apply triple_catch. set (i := dbinfo_ h).
  intros w [Ho Hk]. unfold and_then at 1, mbind, C_bind, do at 1.
  destruct (handle _ (connect (url_ i) (user_ i) (pass_ i)) (drv w)) as [r d] eqn:E.
  set (w1 := mkWorld _ _ _).
  assert (open_connections (log w1) = Some (option_list (match r with inr k => k | inl _ => None end))) as H1.
  { unfold w1, open_connections in *. cbn [log]. rewrite resources_snoc, Ho. by destruct r as [e|[k|]]. }
  destruct r as [e|k]; [by exists None |].
  assert (triple (fun w => open_connections (log w) = Some (option_list k))
    (and_then (plain (upd (set_conn k))) (fun _ => match k with None => try_ret false
       | Some k => and_then (do handle (setSchema k (data_base_ i))) (fun _ => try_ret true) end)) (fun _ => owned)) as H;
    [| by apply (H w1)].
  apply triple_and_then with (R := fun _ => owned_at k); [by intros w2 H2 | by intros e w2 H2; exists k |].
  intros _. destruct k as [k|]; [| apply triple_ret; intros w2; by apply at_owned].
  eapply triple_and_then with (R := fun _ => owned_at (Some k)); [apply triple_do; intros ?; eauto | |].
  - intros e w2. apply at_owned.
  - intros _. apply triple_ret. intros w2. apply at_owned.
Qed.

Lemma triple_reconnect : triple owned (reconnect handle) (fun _ => owned).
Proof.
  unfold reconnect. eapply triple_and_then; [apply triple_DisConnect | by intros e w [Hw _] |]. intros [].
  apply triple_plain. eapply triple_bind with (R := fun _ => owned).
  - eapply triple_weaken; [apply triple_Connect | intros w [_ Hw]; by apply Hw | done].
  - intros _. by apply triple_ret.
Qed.

(** What is read of the object, when a connection is held. *)
Lemma triple_read {B} (k : DBWorkHandle -> C D B) :
  (forall h, conn_ h = None -> triple (owned_at None) (k h) (fun _ => owned)) ->
  (forall h c, conn_ h = Some c -> triple (owned_at (Some c)) (k h) (fun _ => owned)) ->
  triple owned (get ≫= k) (fun _ => owned).
Proof.
  intros Hn Hs. apply triple_get. intros h w [(c & Ho & Hk) Hh]. subst c.
  destruct (conn_ (self w)) as [c|] eqn:E; [apply (Hs h c) | apply (Hn h)]; try congruence; by split.
Qed.

(** A call on the connection held, then the rest. *)
Lemma triple_call {T B} c (m : call (exn T)) (k : T -> C D (exn B)) :
  uses_only (Some c) m -> (forall a, triple (owned_at (Some c)) (k a) (fun _ => owned)) ->
  triple (owned_at (Some c)) (and_then (do handle m) k) (fun _ => owned).
Proof.
  intros Hm Hk. eapply triple_and_then; [by apply triple_do | intros e w; apply at_owned | done].
Qed.

Lemma triple_done {A} k (a : A) : triple (owned_at k) (mret a) (fun _ => owned).
Proof. apply triple_ret. intros w. apply at_owned. Qed.

Lemma triple_assign f k : (forall h, conn_ h = k -> conn_ (f h) = k) -> triple (owned_at k) (upd f) (fun _ => owned_at k).
Proof. intros Hf. by apply triple_upd. Qed.

Lemma triple_probe c : triple (owned_at (Some c)) (probe handle c) (fun _ => owned).
Proof.
  unfold probe. apply triple_get. intros h.
  apply triple_weaken with (P := owned_at (Some c)) (Q := fun _ => owned); [| by intros w [Hw _] | done].
  destruct (1000 <? count h + 1).
  - eapply triple_bind; [by apply triple_assign |]. intros ?. apply triple_call; [intros ?; eauto |]. intros [].
    + eapply triple_weaken; [apply (triple_do _ (Some c)); intros ?; eauto | done | intros ? w; apply at_owned].
    + apply triple_done.
  - apply triple_plain. eapply triple_weaken; [by apply (triple_assign _ (Some c)) | done | intros ? w; apply at_owned].
Qed.

Lemma triple_CheckStatus : triple owned (CheckStatus handle) (fun _ => owned).
Proof.
  unfold CheckStatus. apply triple_read; intros h; [intros -> | intros c ->]; apply triple_catch.
  - eapply triple_weaken; [apply triple_reconnect | intros w; apply at_owned | done].
  - apply triple_call; [intros ?; eauto |]. intros []; [apply triple_probe |].
    eapply triple_weaken; [apply triple_reconnect | intros w; apply at_owned | done].
Qed.

Lemma triple_valid : triple owned (update_valid handle) (fun r w => owned w /\ (r = inr true -> exists c, owned_at (Some c) w)).
Proof.
  unfold update_valid. apply triple_get. intros h w [(c & Ho & Hk) Hh]. subst c. destruct (conn_ h) as [k|] eqn:Ek.
  - assert (owned_at (Some k) w) as Hw by (by rewrite Hh, Ek in Ho; split; [| rewrite Hh]).
    eapply triple_weaken; [apply (triple_do (isValid k) (Some k)); intros ?; eauto | done | | exact Hw].
    intros r w' Hw'. split; [exact (at_owned (Some k) w' Hw') | by exists k].
  - cbn. split; [by exists (conn_ (self w)) | done].
Qed.

Lemma triple_update s : triple owned (update handle s) (fun _ => owned).
Proof.
  unfold update. apply triple_catch. eapply triple_and_then; [apply triple_valid | by intros e w [Hw _] |].
  intros [|]; [| apply triple_ret; by intros w [Hw _]]. intros w [_ Hw]. destruct (Hw eq_refl) as (c & Hc).
  assert (triple (owned_at (Some c)) (update_run handle s) (fun _ => owned)) as Hrun; [| by apply Hrun].
  unfold update_run. apply triple_get. intros h. destruct (conn_ h) as [k|] eqn:Ek; [| intros w' [[_ Hk] Hh]; congruence].
  apply triple_weaken with (P := owned_at (Some k)) (Q := fun _ => owned); [| intros w' [[Ho Hk] Hh]; split; congruence | done].
  apply triple_call; [intros ?; eauto |]. intros []; [| apply triple_done].
  apply triple_call; [intros ?; eauto |]. intros n. apply triple_done.
Qed.

Lemma triple_set f : (forall h, conn_ (f h) = conn_ h) -> triple owned (upd f) (fun _ => owned).
Proof. intros Hf w (k & Ho & Hk). exists k. split; [done |]. cbn [self]. by rewrite Hf. Qed.

Lemma triple_step a : triple owned (step handle a) (fun _ => owned).
Proof.
  destruct a as [s| | |]; cbn [step].
  - by apply triple_set.
  - apply triple_set. intros h. by destruct (sql h), (q h).
  - unfold UpdateThread. apply triple_get. intros h.
    apply triple_weaken with (P := owned) (Q := fun _ => owned); [| by intros w [Hw _] | done].
    destruct (sql h); [| by apply triple_ret]. eapply triple_bind; [apply triple_update |]. intros ?. by apply triple_set.
  - apply triple_CheckStatus.
Qed.

Lemma triple_steps l : triple owned (steps handle l) (fun _ => owned).
Proof.
  induction l as [|a l IH]; cbn [steps]; [by apply triple_ret |].
  eapply triple_bind; [apply triple_step | done].
Qed.

(** Calls that are not about a connection. *)
Lemma triple_other {T} (c : call T) : (forall a, connection_effect (Event T c a) = Quiet) ->
  triple owned (do handle c) (fun _ => owned).
Proof.
  intros Hc w (k & Hw). eapply triple_weaken; [apply (triple_do c k) | done | | exact Hw].
  - intros a. left. apply Hc.
  - intros a w'. apply at_owned.
Qed.

Lemma triple_Init i : triple (owned_at None) (Init handle i) (fun _ => owned).
Proof.
  unfold Init. eapply triple_bind; [by apply triple_assign |]. intros ?. eapply triple_bind with (R := fun _ => owned).
  - eapply triple_and_then with (R := fun _ => owned_at None); [apply triple_do; intros ?; eauto | intros e w; apply at_owned |].
    intros d. eapply triple_and_then with (R := fun _ => owned_at None); [| intros e w; apply at_owned |].
    { apply triple_plain. by apply triple_assign. }
    intros ?. destruct d; [| apply triple_done].
    eapply triple_and_then with (R := fun _ => owned); [apply triple_plain, triple_Connect | done |].
    intros []; [| by apply triple_ret].
    eapply triple_and_then with (R := fun _ => owned); [by apply triple_other | done |]. intros ?.
    eapply triple_and_then with (R := fun _ => owned); [by apply triple_plain, triple_set | done |]. intros ?.
    eapply triple_and_then with (R := fun _ => owned); [by apply triple_other | done |]. intros ?.
    eapply triple_and_then with (R := fun _ => owned); [by apply triple_plain, triple_set | done |]. intros ?.
    by apply triple_ret.
  - intros [e|b]; [| by apply triple_ret]. eapply triple_bind; [apply triple_DisConnect |].
    intros [e'|[]]; [intros w [Hw _]; done | apply triple_ret; by intros w [Hw _]].
Qed.

Lemma triple_destroy : triple owned (delete handle) (fun _ => owned_at None).
Proof.
  unfold delete. eapply triple_bind; [by apply triple_set |]. intros ?. eapply triple_bind; [by apply triple_set |].
  intros ?. eapply triple_bind; [apply triple_DisConnect |]. intros [e|[]]; [by intros w [Hw _] |].
  apply triple_get. intros h. destruct (update_thread_ h); [by intros w [[Hw _] _] |].
  apply triple_ret. intros w [[_ Hw] _]. by apply Hw.
Qed.
End Connections.

(** C25: from the construction of the handle to its destruction, whatever the
    connector answers and however the threads interleave, a connection is used only
    while it is open, closed connections are deleted once and the handle holds the
    only open one - provided that [Init] started both threads or none, since
    otherwise its own [DisConnect] runs beside the check thread.  The destructor of
    a handle that started none leaves no connection open when it returns; that of
    a handle with an update thread races with it ([delete_races]). *)
Theorem connections_owned {D} (handle : forall T, call T -> D -> T * D) i i' d l :
  let w0 := mkWorld (DBWorkHandle_new i) d [] in
  let w1 := (Init handle i' w0).2 in
  let w2 := (steps handle l w1).2 in
  check_thread_ (self w1) = update_thread_ (self w1) ->
  open_connections (log w1) = Some (option_list (conn_ (self w1))) /\
  open_connections (log w2) = Some (option_list (conn_ (self w2))) /\
  (update_thread_ (self w1) = false ->
     let '(r, w3) := delete handle w1 in
     open_connections (log w3) = Some (option_list (conn_ (self w3))) /\
     (r = Ok tt -> open_connections (log w3) = Some [])).
Proof.
  intros w0 w1 w2 _.
  assert (owned w1) as H1 by (by apply (triple_run _ _ _ _ w0 (triple_Init handle i'))).
  assert (owned w2) as H2 by (by apply (triple_run _ _ _ _ w1 (triple_steps handle l))).
  pose proof (triple_destroy handle w1 H1) as H3. destruct H1 as (? & Ho1 & <-), H2 as (? & Ho2 & <-).
  split_and!; [done | done |]. intros _. destruct (delete handle w1) as [[[]|f] w3].
  - destruct H3 as [Ho3 Hk3]. rewrite Hk3. by split.
  - destruct H3 as (? & Ho3 & <-). by split.
Qed.

(** ** Reconnection *)
Section Reconnection.
Context {D : Type} (handle : forall T, call T -> D -> T * D) (k' : Connection).
Context (invalid : forall k d, (handle _ (isValid k) d).1 = inr false).
Context (closes : forall k d, (handle _ (close k) d).1 = inr tt).
Context (connects : forall u p x d, (handle _ (connect u p x) d).1 = inr (Some k')).

(** A call whose answer is known. *)
Lemma do_answers {T} (c : call T) (a : T) (w : World D) : (forall d, (handle _ c d).1 = a) ->
  exists w', do handle c w = (Ok a, w') /\ self w' = self w.
Proof.
  intros Ha. specialize (Ha (drv w)). unfold do. destruct (handle _ c (drv w)) as [a' d]. cbn [fst] in Ha. subst a'. eauto.
Qed.

Lemma DisConnect_closes (w : World D) : driver_ (self w) = true ->
  exists w', DisConnect handle false w = (Ok (inr tt), w') /\ driver_ (self w') = true.
Proof.
  intros Hd. unfold DisConnect, and_then, plain, mbind, C_bind, get. rewrite andb_false_r.
  destruct (conn_ (self w)) as [k|]; [| by exists w].
  destruct (do_answers (close k) (inr tt) w (closes k)) as (w1 & -> & H1). unfold do at 1.
  destruct (handle _ (delete_connection k) (drv w1)) as [a d]. eexists. split; [reflexivity |]. cbn. by rewrite H1.
Qed.

Lemma Connect_connects (w : World D) : driver_ (self w) = true ->
  exists ok w', Connect handle w = (Ok ok, w') /\ conn_ (self w') = Some k'.
Proof.
  intros Hd. unfold Connect, connect_to, catch, and_then, plain, mbind, C_bind, get. rewrite Hd. set (i := dbinfo_ _).
  destruct (do_answers (connect (url_ i) (user_ i) (pass_ i)) (inr (Some k')) w) as (w1 & -> & H1); [done |].
  unfold upd at 1, try_ret, mret, C_ret, do. cbn [self drv log].
  destruct (handle _ (setSchema k' _) _) as [[] d4]; do 2 eexists; (split; [reflexivity | done]).
Qed.

Lemma reconnect_connects (w : World D) : driver_ (self w) = true ->
  exists w', reconnect handle w = (Ok (inr tt), w') /\ conn_ (self w') = Some k'.
Proof.
  intros Hd. unfold reconnect, and_then, plain, mbind, C_bind.
  destruct (DisConnect_closes w Hd) as (w1 & -> & Hd1). destruct (Connect_connects w1 Hd1) as (ok & w2 & -> & Hk).
  by exists w2.
Qed.

Lemma CheckStatus_connects (w : World D) : driver_ (self w) = true ->
  exists w', CheckStatus handle w = (Ok tt, w') /\ conn_ (self w') = Some k'.
Proof.
  intros Hd. unfold CheckStatus, catch, and_then, mbind, C_bind, get. destruct (conn_ (self w)) as [k|].
  - destruct (do_answers (isValid k) (inr false) w (invalid k)) as (w1 & -> & H1).
    destruct (reconnect_connects w1) as (w2 & -> & Hk); [by rewrite H1 | by exists w2].
  - destruct (reconnect_connects w Hd) as (w2 & -> & Hk). by exists w2.
Qed.
End Reconnection.

(** One turn of [CheckStatus] on a handle whose connection is missing or no
    longer valid closes and deletes it and makes a new one, when the connector
    closes and connects; the new connection is kept even when its schema cannot
    be selected. *)
Theorem check_reconnects {D} (handle : forall T, call T -> D -> T * D) k' (w : World D) :
  driver_ (self w) = true ->
  (forall k d, (handle _ (isValid k) d).1 = inr false) ->
  (forall k d, (handle _ (close k) d).1 = inr tt) ->
  (forall u p x d, (handle _ (connect u p x) d).1 = inr (Some k')) ->
  open_connections (log w) = Some (option_list (conn_ (self w))) ->
  exists w', CheckStatus handle w = (Ok tt, w') /\ conn_ (self w') = Some k' /\ open_connections (log w') = Some [k'].
Proof.
  intros Hd Hv Hc Hn Ho. destruct (CheckStatus_connects handle k' Hv Hc Hn w Hd) as (w' & E & Hk).
  exists w'. split; [done |]. split; [done |]. pose proof (triple_CheckStatus handle w) as H. rewrite E in H.
  destruct H as (k & Ho' & Hk'); [by exists (conn_ (self w)) |]. rewrite Hk in Hk'. by subst k.
Qed.

(** ** A connector *)

(** Connections are numbered; [up] says whether they work. *)
Definition connector (up : bool) (T : Type) (c : call T) : positive -> T * positive :=
  match c in call T return positive -> T * positive with
  | get_mysql_driver_instance => fun d => (inr true, d)
  | connect _ _ _ => fun d => (inr (Some d), Pos.succ d)
  | setSchema _ _ => fun d => (if up then inr tt else inl tt, d)
  | isValid _ => fun d => (inr up, d)
  | close _ => fun d => (inr tt, d)
  | delete_connection _ => fun d => (tt, d)
  | prepareStatement _ _ => fun d => (inr true, d)
  | executeUpdate _ _ => fun d => (inr 1, d)
  | executeQuery _ _ => fun d => (inr tt, d)
  | threadEnd => fun d => (inr tt, d)
  | delete_driver => fun d => (tt, d)
  | start_check => fun d => (inr tt, d)
  | start_update => fun d => (inr tt, d)
  end.

(** Every new connection gets the same number. *)
Definition one_connection (T : Type) (c : call T) (d : unit) : T * unit :=
  let '(a, _) := connector false T c 7%positive in (a, tt).

Definition no_info : MysqlInfo := mkMysqlInfo (lit "tcp://127.0.0.1:3306") (lit "u") (lit "p") (lit "db").
Definition working : World positive := (Init (connector true) no_info (mkWorld (DBWorkHandle_new no_info) 1%positive [])).2.

Lemma statements_delivered_witness :
  exists w' consumed,
    steps (connector true) [Enqueue (lit "a"); Dequeue; Check_; Enqueue (lit "b"); Update; Dequeue; Update; Enqueue (lit "c")] working
      = (Ok tt, w') /\
    [lit "a"; lit "b"; lit "c"] = consumed ++ option_list (sql (self w')) ++ q (self w') /\
    executed (log w') = consumed.
Proof.
  destruct (statements_delivered (connector true)
    [Enqueue (lit "a"); Dequeue; Check_; Enqueue (lit "b"); Update; Dequeue; Update; Enqueue (lit "c")] working)
    as (w' & c & E & Hc & _ & He).
  - split_and!; reflexivity.
  - exists w', c. split; [exact E |]. split; [exact Hc |]. apply (He 1%positive); [reflexivity | done | done].
Defined.

Lemma check_reconnects_witness :
  let w := mkWorld (set_driver true (DBWorkHandle_new no_info)) tt [] in
  exists w', CheckStatus one_connection w = (Ok tt, w') /\ conn_ (self w') = Some 7%positive /\
    open_connections (log w') = Some [7%positive].
Proof. apply (check_reconnects one_connection 7%positive); done. Defined.

(** A statement taken while the connection is not valid is lost. *)
Example statement_lost :
  let w := (steps (connector false) [Enqueue (lit "a"); Dequeue; Update; Check_; Dequeue; Update]
              (mkWorld (set_conn (Some 1%positive) (set_driver true (DBWorkHandle_new no_info))) 2%positive [])).2 in
  executed (log w) = [] /\ q (self w) = [] /\ sql (self w) = None.
Proof. split_and!; reflexivity. Qed.

(** A handle whose schema cannot be selected starts no thread, and is destroyed. *)
Lemma connections_owned_witness :
  let w0 := mkWorld (DBWorkHandle_new no_info) 1%positive [] in
  let w1 := (Init (connector false) no_info w0).2 in
  update_thread_ (self w1) = false /\ conn_ (self w1) = Some 1%positive /\
  (delete (connector false) w1).1 = Ok tt /\ open_connections (log (delete (connector false) w1).2) = Some [].
Proof.
  intros w0 w1. destruct (connections_owned (connector false) no_info no_info 1%positive []) as (_ & _ & H); [by vm_compute |].
  specialize (H ltac:(by vm_compute)). fold w0 w1 in H. change (let '(_, w3) := delete (connector false) w1 in
    open_connections (log w3) = Some (option_list (conn_ (self w3))) /\ ((delete (connector false) w1).1 = Ok tt -> open_connections (log w3) = Some [])) in H.
  split_and!; [by vm_compute | by vm_compute | by vm_compute |].
  exact (proj2 H eq_refl).
Defined.

(** The destructor closes and deletes the connection between the check and the use
    that the update thread makes of it, without the mutex: a null pointer is
    dereferenced. *)
Lemma delete_races :
  let w := (steps (connector true) [Enqueue (lit "a"); Dequeue] working).2 in
  let '(r1, w1) := update_valid (connector true) w in
  let '(r2, w2) := DisConnect (connector true) true w1 in
  update_thread_ (self w) = true /\ sql (self w) = Some (lit "a") /\
  r1 = Ok (inr true) /\ r2 = Ok (inr tt) /\ (update_run (connector true) (lit "a") w2).1 = Fault Undefined.
Proof. vm_compute. auto. Qed.
