(* ===== verification/ZkLock.v ===== *)
(** * A lock on ZooKeeper: [src/src/zk_test/zklock.cpp]

    The servers are third-party: the class [ZooKeeper] states what their
    documentation says of the calls made, over the nodes below [/locks] with the
    session that made each.  Writes are ordered; a session reads what its own
    server has applied, which may be behind but never goes back and is never
    behind the session's own writes; a call that fails may have been done.  The
    number of a sequential node is a signed int of 32 bits that overflows.  A run
    is an interleaving of the clients' calls, their deaths and the servers' own
    steps; the session of a client that is alive does not expire. *)
From S2P Require Import Prelude CStr SysUtil.
Open Scope Z_scope.

Abbreviation session := positive.
(** A node below [/locks]: its name, and its session. *)
Abbreviation node := (prod str session).

(** A sequential node: the name, and [%010d] of the counter. *)
Definition sequential (name : str) (n : Z) : str := name ++ pad0 10 (i32 n).
Definition locks : str := lit "/locks/".
(** The base of the node [main] asks for, [/locks/lock]. *)
Definition base : str := lit "lock".

(** The nodes after the last write. *)
Definition current (h : list (list node)) : list node := default [] (last h).

Class ZooKeeper (Z' : Type) := {
  (** the nodes after each write, and the write the session's server is at *)
  history : Z' -> list (list node);
  seen : session -> Z' -> nat;
  (** the times the counter of [/locks] was raised *)
  sequence : Z' -> Z;
  (** return code, and the path put in the buffer *)
  zoo_create : session -> str -> Z' -> Z * str * Z';
  zoo_get_children : session -> Z' -> Z * list str;
  zoo_awget : session -> str -> Z' -> Z;
  zoo_delete : session -> str -> Z' -> Z * Z';
  zookeeper_close : session -> Z' -> Z';
  (** steps of the servers: one applies writes, a session expires *)
  catch_up : session -> Z' -> Z' -> Prop;
  expire : session -> Z' -> Z';
  create_spec : forall s name z rc path z', zoo_create s (locks ++ name) z = (rc, path, z') ->
    (forall t, t <> s -> seen t z' = seen t z) /\
    ((rc <> 0 /\ history z' = history z /\ sequence z <= sequence z') \/
     exists n c, sequence z <= n < sequence z' /\ sequential name n ∉ map fst (current (history z)) /\
       c ≡ₚ (sequential name n, s) :: current (history z) /\ history z' = history z ++ [c] /\
       (rc = 0 -> path = locks ++ sequential name n /\ seen s z' = length (history z)));
  children_spec : forall s z l, zoo_get_children s z = (0, l) ->
    exists c, history z !! seen s z = Some c /\ l ≡ₚ map fst c;
  delete_spec : forall s name z rc z', zoo_delete s (locks ++ name) z = (rc, z') ->
    (history z' = history z \/ history z' = history z ++ [filter (fun x => x.1 <> name) (current (history z))]) /\
    sequence z <= sequence z' /\ forall t, (seen t z <= seen t z')%nat /\ (t <> s -> seen t z' = seen t z);
  close_spec : forall s z,
    (history (zookeeper_close s z) = history z \/
     history (zookeeper_close s z) = history z ++ [filter (fun x => x.2 <> s) (current (history z))]) /\
    sequence z <= sequence (zookeeper_close s z) /\ forall t, seen t (zookeeper_close s z) = seen t z;
  catch_up_spec : forall s z z', catch_up s z z' ->
    history z' = history z /\ sequence z' = sequence z /\ forall t, (seen t z <= seen t z')%nat;
  expire_spec : forall s z,
    history (expire s z) = history z ++ [filter (fun x => x.2 <> s) (current (history z))] /\
    sequence z <= sequence (expire s z) /\ forall t, seen t (expire s z) = seen t z
}.

(** [<] of a C string and a [std::string]. *)
Definition str_ltb (a b : str) : bool := negb (str_leb b a).

(** The loop over the children. *)
Definition smallest (l : list str) (first : str) : str :=
  foldl (fun m x => if str_ltb x m then x else m) first l.

Section Acquire.
Context `{ZooKeeper Z'}.

(** [acquireLock], after the node was made with the path [buff]: the children,
    the smallest, the watch on the last but one; [data[-1]], and [data[0]] of an
    empty vector, are outside it. *)
Definition check_lock (s : session) (buff : str) (z : Z') : res bool :=
  let '(rc, l) := zoo_get_children s z in
  if negb (rc =? 0) then Ok false
  else
    first ← at_index l 0;
    if decide (buff = locks ++ smallest l first) then Ok true
    else
      if (length l <? 2)%nat then Fault Undefined
      else
        prev ← at_index l (length l - 2);
        let rc := zoo_awget s (locks ++ prev) z in
        if negb (rc =? 0) then Ok false else Ok false.

Definition create_lock (s : session) (lockPath : str) (z : Z') : option str * Z' :=
  let '(rc, buff, z) := zoo_create s lockPath z in (if rc =? 0 then Some buff else None, z).

Definition acquireLock (s : session) (lockPath : str) (z : Z') : res bool * Z' :=
  match create_lock s lockPath z with
  | (None, z) => (Ok false, z)
  | (Some buff, z) => (check_lock s buff z, z)
  end.

(** The release at the end of [main]. *)
Definition release (s : session) (z : Z') : Z' := (zoo_delete s (locks ++ base) z).2.

(** ** Clients that run [main] *)

(** Where a client is: before [acquireLock], between its two calls, with the
    lock, without it, after the release, after [zookeeper_close] or dead. *)
Inductive client : Type :=
  | Connected | Created (buff : str) | Holding (buff : str) | Refused (buff : option str)
  | Released (buff : str) | Closed.

Record System : Type := mkSystem { server : Z'; clients : session -> client }.

Definition goto (s : session) (c : client) (f : session -> client) : session -> client :=
  fun x => if decide (x = s) then c else f x.

(** [main] closes the session of a client that was refused or has released. *)
Definition at_close (c : client) : Prop :=
  match c with Refused _ | Released _ => True | _ => False end.

Inductive step : System -> System -> Prop :=
  | step_create s z f buff z' : f s = Connected -> create_lock s (locks ++ base) z = (Some buff, z') ->
      step (mkSystem z f) (mkSystem z' (goto s (Created buff) f))
  | step_create_failed s z f z' : f s = Connected -> create_lock s (locks ++ base) z = (None, z') ->
      step (mkSystem z f) (mkSystem z' (goto s (Refused None) f))
  | step_acquire s z f buff : f s = Created buff -> check_lock s buff z = Ok true ->
      step (mkSystem z f) (mkSystem z (goto s (Holding buff) f))
  | step_refuse s z f buff : f s = Created buff -> check_lock s buff z = Ok false ->
      step (mkSystem z f) (mkSystem z (goto s (Refused (Some buff)) f))
  | step_release s z f buff : f s = Holding buff ->
      step (mkSystem z f) (mkSystem (release s z) (goto s (Released buff) f))
  | step_close s z f : at_close (f s) ->
      step (mkSystem z f) (mkSystem (zookeeper_close s z) (goto s Closed f))
  | step_die s z f : step (mkSystem z f) (mkSystem z (goto s Closed f))
  | step_expire s z f : f s = Closed -> step (mkSystem z f) (mkSystem (expire s z) f)
  | step_catch_up s z f z' : catch_up s z z' -> step (mkSystem z f) (mkSystem z' f).

Definition reachable (z : Z') : System -> Prop := rtc step (mkSystem z (fun _ => Connected)).
End Acquire.

(** ** The order of sequential nodes is the order of their numbers *)
Abbreviation all_digits := (Forall (fun c => is_digit c = true)).

Lemma digits_lt x : forall y a b, all_digits x -> all_digits y -> length x = length y -> a < b ->
  (scan_digits a x).1 < (scan_digits b y).1.
Proof.
  induction x as [|c x IH]; intros [|d y] a b Hx Hy Hl Hab; try discriminate Hl; [done |].
  apply Forall_cons in Hx as [Hc Hx]. apply Forall_cons in Hy as [Hd Hy]. injection Hl as Hl.
  cbn [scan_digits]. rewrite Hc, Hd. apply IH; [done | done | done |].
  unfold is_digit, digit_val in *. lia.
Qed.

Lemma digits_order x : forall y a, all_digits x -> all_digits y -> length x = length y ->
  str_leb x y = true <-> (scan_digits a x).1 <= (scan_digits a y).1.
Proof.
  induction x as [|c x IH]; intros [|d y] a Hx Hy Hl; try discriminate Hl; [cbn; split; [lia | done] |].
  apply Forall_cons in Hx as [Hc Hx]. apply Forall_cons in Hy as [Hd Hy]. injection Hl as Hl.
  cbn [scan_digits str_leb]. rewrite Hc, Hd. unfold digit_val.
  destruct (Z.ltb_spec (ord c) (ord d)); [| destruct (Z.ltb_spec (ord d) (ord c))].
  - pose proof (digits_lt x y (10 * a + (ord c - 48)) (10 * a + (ord d - 48)) Hx Hy Hl ltac:(lia)).
    split; [lia | done].
  - pose proof (digits_lt y x (10 * a + (ord d - 48)) (10 * a + (ord c - 48)) Hy Hx (eq_sym Hl) ltac:(lia)).
    split; [done | lia].
  - replace (ord d) with (ord c) by lia. by apply IH.
Qed.

Lemma pad0_digits n : 0 <= n -> all_digits (pad0 10 n).
Proof.
  intros Hn. unfold pad0. destruct (Z.ltb_spec n 0); [lia |]. apply Forall_app. split.
  - by apply Forall_replicate.
  - by apply digits_all_digits.
Qed.

Lemma pad0_value n : 0 <= n < 10 ^ 10 -> (scan_digits 0 (pad0 10 n)).1 = n.
Proof.
  intros Hn. unfold pad0. destruct (Z.ltb_spec n 0); [lia |].
  rewrite scan_digits_zeros, <- (app_nil_r (show_nat n)), scan_digits_show; [done | lia | done].
Qed.

Lemma str_leb_app p x y : str_leb (p ++ x) (p ++ y) = str_leb x y.
Proof. induction p as [|c p IH]; [done |]. cbn. by rewrite Z.ltb_irrefl. Qed.

(** The counter before it overflows. *)
Abbreviation counted n := (0 <= n < 2 ^ 31).

Lemma sequential_order name m n : counted m -> counted n ->
  str_leb (sequential name m) (sequential name n) = true <-> m <= n.
Proof.
  intros Hm Hn. unfold sequential. rewrite str_leb_app, !i32_small by lia.
  pose proof (digits_order (pad0 10 m) (pad0 10 n) 0) as H. rewrite !pad0_value in H by lia.
  apply H; [apply pad0_digits; lia | apply pad0_digits; lia | by rewrite !pad0_length by lia].
Qed.

Lemma sequential_length name n : counted n -> length (sequential name n) = (length name + 10)%nat.
Proof. intros Hn. unfold sequential. by rewrite length_app, i32_small, pad0_length by lia. Qed.

Lemma sequential_inj name m n : counted m -> counted n -> sequential name m = sequential name n -> m = n.
Proof.
  intros Hm Hn E. apply Z.le_antisymm; apply (sequential_order name); try done; rewrite E;
    destruct (str_leb_total (sequential name n) (sequential name n)); done.
Qed.

(** ** The smallest child *)
Lemma smallest_spec l : forall m, (smallest l m = m \/ smallest l m ∈ l) /\
  str_leb (smallest l m) m = true /\ forall x, x ∈ l -> str_leb (smallest l m) x = true.
Proof.
  assert (forall x, str_leb x x = true) as Hrefl by (intros x; by destruct (str_leb_total x x)).
  unfold smallest. induction l as [|y l IH]; intros m; cbn [foldl].
  - split_and!; [by left | done | by intros x ?%elem_of_nil].
  - destruct (IH (if str_ltb y m then y else m)) as (Hin & Hle & Hall).
    assert (str_leb (if str_ltb y m then y else m) m = true /\ str_leb (if str_ltb y m then y else m) y = true) as [H1 H2].
    { unfold str_ltb. destruct (str_leb m y) eqn:E; cbn [negb]; [by auto |].
      split; [| done]. destruct (str_leb_total m y); congruence. }
    split_and!.
    + destruct Hin as [-> | Hin]; [| right; by right]. unfold str_ltb. destruct (str_leb m y); cbn [negb]; [by left | right; by left].
    + by eapply str_leb_trans.
    + intros x [-> | Hx]%elem_of_cons; [by eapply str_leb_trans | by apply Hall].
Qed.

Lemma str_leb_antisym a : forall b, str_leb a b = true -> str_leb b a = true -> a = b.
Proof.
  induction a as [|x a IH]; intros [|y b]; cbn; try done.
  destruct (Z.ltb_spec (ord x) (ord y)); destruct (Z.ltb_spec (ord y) (ord x)); try done; try lia.
  intros H1 H2. f_equal; [apply ord_inj; lia | by apply IH].
Qed.

(** ** The invariant *)
Lemma current_snoc h c : current (h ++ [c]) = c.
Proof. unfold current. by rewrite last_snoc. Qed.

Section Lock.
Context `{ZooKeeper Z'}.
Implicit Types (st : System (Z' := Z')) (z : Z').

Definition client_path (c : client) : option str :=
  match c with Created b | Holding b | Refused (Some b) | Released b => Some b | _ => None end.

Abbreviation here st := (current (history (server st))).

(** The nodes still there whose name is not above that of the node of [s] are
    in all that [s] may read from now on. *)
Definition reads_older st (s : session) (x : str) : Prop :=
  forall i c, (seen s (server st) <= i)%nat -> history (server st) !! i = Some c ->
    forall y t, (y, t) ∈ here st -> str_leb y x = true -> (y, t) ∈ c.

Record lock_ok st : Prop := {
  node_named : forall c x s, c ∈ history (server st) -> (x, s) ∈ c ->
    exists n, x = sequential base n /\ counted n /\ n < sequence (server st);
  node_owned : forall x s, (x, s) ∈ here st ->
    clients st s <> Connected /\ forall b, client_path (clients st s) = Some b -> b = locks ++ x;
  client_node : forall s b, client_path (clients st s) = Some b ->
    exists x, b = locks ++ x /\ (x, s) ∈ here st /\ reads_older st s x;
  nodes_once : NoDup (map fst (here st));
  holder_first : forall s x, clients st s = Holding (locks ++ x) ->
    forall y t, (y, t) ∈ here st -> str_leb x y = true
}.

Lemma here_named st x s : lock_ok st -> (x, s) ∈ here st ->
  exists n, x = sequential base n /\ counted n /\ n < sequence (server st).
Proof.
  intros Hok Hx. unfold current in Hx. destruct (last (history (server st))) as [c|] eqn:E; [| by apply elem_of_nil in Hx].
  apply (node_named st Hok c x s); [by apply last_Some_elem_of | done].
Qed.

(** What changes when nodes go away, a client moves and views go forward. *)
Definition shrinks (f : session -> client) z z' : Prop :=
  (history z' = history z \/ exists P (_ : forall x, Decision (P x)),
     history z' = history z ++ [filter P (current (history z))] /\
     forall x t, (x, t) ∈ current (history z) -> client_path (f t) <> None -> P (x, t)) /\
  sequence z <= sequence z' /\ forall t, client_path (f t) <> None -> (seen t z <= seen t z')%nat.

Lemma shrinks_current f z z' x t : shrinks f z z' -> client_path (f t) <> None ->
  (x, t) ∈ current (history z) -> (x, t) ∈ current (history z').
Proof.
  intros [[-> | (P & HP & -> & Hkeep)] _] Ht Hx; [done |]. rewrite current_snoc, list_elem_of_filter. by auto.
Qed.

Lemma shrinks_sublist f z z' : shrinks f z z' -> current (history z') `sublist_of` current (history z).
Proof. intros [[-> | (P & HP & -> & _)] _]; [done |]. rewrite current_snoc. apply sublist_filter. Qed.

Lemma shrinks_contents f z z' i c : shrinks f z z' -> history z' !! i = Some c ->
  history z !! i = Some c \/ c = current (history z').
Proof.
  intros [[-> | (P & HP & -> & _)] _] Hc; [by left |]. rewrite current_snoc.
  apply lookup_app_Some in Hc as [Hc | [_ Hc]]; [by left |]. apply list_lookup_singleton_Some in Hc as [_ <-]. by right.
Qed.

(** A client that goes from [c] to [c'] keeps the path it has, and holds the
    lock only with the first node. *)
Definition may_move st (f : session -> client) : Prop := forall s,
  (clients st s <> Connected -> f s <> Connected) /\
  (forall b, client_path (f s) = Some b -> client_path (clients st s) = Some b) /\
  (forall x, f s = Holding (locks ++ x) -> forall y t, (y, t) ∈ here st -> str_leb x y = true).

Lemma lock_ok_shrinks st z' f : lock_ok st -> may_move st f -> shrinks f (server st) z' -> lock_ok (mkSystem z' f).
Proof.
  intros Hok Hm Hz. pose proof (shrinks_sublist _ _ _ Hz) as Hsub.
  assert (forall x, x ∈ current (history z') -> x ∈ here st) as Hin
    by (intros x Hx; eapply elem_of_submseteq; [exact Hx | by apply sublist_submseteq]).
  constructor; cbn [server clients].
  - intros c x s Hc Hx. apply list_elem_of_lookup in Hc as [i Hc]. pose proof (proj1 (proj2 Hz)) as Hq.
    assert (exists n, x = sequential base n /\ counted n /\ n < sequence (server st)) as (n & ? & ? & ?).
    { destruct (shrinks_contents f _ _ i c Hz Hc) as [Hc' | ->].
      - apply (node_named st Hok c x s); [by eapply list_elem_of_lookup_2 | done].
      - by eapply here_named, Hin. }
    exists n. split_and!; [done | lia | lia | lia].
  - intros x s Hx%Hin. destruct (node_owned st Hok x s Hx) as [Hc Hp]. destruct (Hm s) as (H1 & H2 & _). split; by auto.
  - intros s b Hb. destruct (Hm s) as (_ & H2 & _). destruct (client_node st Hok s b) as (x & -> & Hx & Hr); [by auto |].
    exists x. assert (client_path (f s) <> None) as Hs by congruence. split_and!; [done | by eapply shrinks_current |].
    intros i c Hi Hc y t Hy Hle. cbn [server] in *.
    destruct (shrinks_contents f _ _ i c Hz Hc) as [Hc' | ->]; [| done].
    apply (Hr i c); [| done | by apply Hin | done]. destruct Hz as (_ & _ & Hv). specialize (Hv s Hs). lia.
  - eapply sublist_NoDup; [exact (nodes_once st Hok) | by apply fmap_sublist].
  - intros s x Hs y t Hy%Hin. destruct (Hm s) as (_ & _ & H3). by eapply H3.
Qed.

(** Only the client [s] moves. *)
Lemma move_one st s c : lock_ok st -> c <> Connected ->
  (forall b, client_path c = Some b -> client_path (clients st s) = Some b) ->
  (forall x, c = Holding (locks ++ x) -> forall y t, (y, t) ∈ here st -> str_leb x y = true) ->
  may_move st (goto s c (clients st)).
Proof.
  intros Hok Hc Hp Hh t. unfold goto. destruct (decide (t = s)) as [->|]; [by split_and! |].
  split_and!; [done | done | by apply holder_first].
Qed.

Lemma move_none st : lock_ok st -> may_move st (clients st).
Proof. intros Hok t. split_and!; [done | done | by apply holder_first]. Qed.

(** A node was made for [s], whose path is the client's if the call succeeded. *)
Lemma lock_ok_create st z' s n c k : lock_ok st -> clients st s = Connected ->
  sequence (server st) <= n < sequence z' -> counted n ->
  sequential base n ∉ map fst (here st) -> c ≡ₚ (sequential base n, s) :: here st ->
  history z' = history (server st) ++ [c] -> (forall t, t <> s -> seen t z' = seen t (server st)) ->
  k = Refused None \/ k = Created (locks ++ sequential base n) /\ seen s z' = length (history (server st)) ->
  lock_ok (mkSystem z' (goto s k (clients st))).
Proof.
  intros Hok Hs Hn Hc31 Hnew Hc Hh Hseen Hk.
  assert (forall t, t <> s -> goto s k (clients st) t = clients st t) as Hother
    by (intros t Ht; unfold goto; by rewrite decide_False).
  assert (goto s k (clients st) s = k) as Hself by (unfold goto; by rewrite decide_True).
  assert (forall x, (x, s) ∉ here st) as Hnone by (intros x Hx; by apply (node_owned st Hok x s) in Hx as []).
  assert (forall x t, (x, t) ∈ here st -> exists m, x = sequential base m /\ counted m /\ m < n) as Hbelow.
  { intros x t Hx. destruct (here_named st x t Hok Hx) as (m & ? & ? & ?). exists m. split_and!; [done | lia | lia | lia]. }
  constructor; cbn [server clients]; rewrite ?Hh, ?current_snoc.
  - intros c' x t [Hc' | ->%list_elem_of_singleton]%elem_of_app Hx.
    + destruct (node_named st Hok c' x t Hc' Hx) as (m & ? & ? & ?). exists m. split_and!; [done | lia | lia | lia].
    + rewrite Hc in Hx. apply elem_of_cons in Hx as [[= -> ->] | Hx]; [exists n; split_and!; [done | lia | lia | lia] |].
      destruct (Hbelow x t Hx) as (m & ? & ? & ?). exists m. split_and!; [done | lia | lia | lia].
  - intros x t. rewrite Hc. intros [[= -> ->] | Hx]%elem_of_cons.
    + rewrite Hself. destruct Hk as [-> | [-> _]]; [done |]. split; [done |]. by intros b [= <-].
    + rewrite Hother by (intros ->; by apply (Hnone x)). by apply (node_owned st Hok).
  - intros t b Hb. destruct (decide (t = s)) as [->|Ht].
    + rewrite Hself in Hb. destruct Hk as [-> | [-> Hk]]; [done |]. injection Hb as <-. eexists. split; [done |].
      split; [rewrite Hc; by left |]. intros i c' Hi Hl y t Hy _. cbn [server] in *. rewrite Hh in Hl, Hy. rewrite current_snoc in Hy.
      apply lookup_app_Some in Hl as [Hl%lookup_lt_Some | [_ Hl%list_lookup_singleton_Some]]; [lia |].
      by destruct Hl as [_ <-].
    + rewrite Hother in Hb by done. destruct (client_node st Hok t b Hb) as (x & -> & Hx & Hr). exists x.
      split_and!; [done | rewrite Hc; by right |]. intros i c' Hi Hl y u Hy Hle. cbn [server] in *.
      rewrite Hh in Hl, Hy. rewrite current_snoc, Hc in Hy. rewrite Hseen in Hi by done.
      assert ((y, u) ∈ here st) as Hy'.
      { apply elem_of_cons in Hy as [[= -> ->] | Hy]; [| done]. destruct (Hbelow x t Hx) as (m & -> & Hm & Hmn).
        apply sequential_order in Hle; lia. }
      apply lookup_app_Some in Hl as [Hl | [_ Hl%list_lookup_singleton_Some]]; [by apply (Hr i c') |].
      destruct Hl as [_ <-]. rewrite Hc. by right.
  - rewrite Hc. by constructor; [| apply (nodes_once st Hok)].
  - intros t x Ht y u. rewrite Hc. destruct (decide (t = s)) as [->|Hts].
    + rewrite Hself in Ht. by destruct Hk as [-> | [-> _]].
    + rewrite Hother in Ht by done. intros [[= -> ->] | Hy]%elem_of_cons; [| by eapply holder_first].
      destruct (client_node st Hok t (locks ++ x)) as (x' & <-%app_inv_head & Hx & _); [by rewrite Ht |].
      destruct (Hbelow x t Hx) as (m & -> & Hm & Hmn). apply sequential_order; lia.
Qed.

Lemma check_lock_true s buff z : check_lock s buff z = Ok true ->
  exists x c, buff = locks ++ x /\ history z !! seen s z = Some c /\ forall y t, (y, t) ∈ c -> str_leb x y = true.
Proof.
  unfold check_lock. destruct (zoo_get_children s z) as [rc l] eqn:E. destruct (Z.eqb_spec rc 0) as [->|]; [| done].
  cbn [negb]. destruct (children_spec s z l E) as (c & Hc & Hl). unfold at_index.
  destruct (l !! 0%nat) as [first|]; [| done]. cbn [mbind res_bind].
  destruct (decide (buff = locks ++ smallest l first)) as [->|].
  - intros _. exists (smallest l first), c. split_and!; [done | done |]. intros y t Hy.
    apply (smallest_spec l first). rewrite Hl. apply list_elem_of_fmap. by exists (y, t).
  - destruct (_ <? _)%nat; [done |]. destruct (l !! _); [| done]. cbn [mbind res_bind]. by destruct (negb _).
Qed.

(** The first of what it reads is the first of all. *)
Lemma first_read_first st s x c : lock_ok st -> client_path (clients st s) = Some (locks ++ x) ->
  history (server st) !! seen s (server st) = Some c -> (forall y t, (y, t) ∈ c -> str_leb x y = true) ->
  forall y t, (y, t) ∈ here st -> str_leb x y = true.
Proof.
  intros Hok Hp Hc Hfirst y t Hy. destruct (str_leb_total x y) as [|Hle]; [done |].
  destruct (client_node st Hok s _ Hp) as (x' & <-%app_inv_head & _ & Hr).
  by apply (Hfirst y t), (Hr _ c (le_n _) Hc).
Qed.

Lemma shrinks_none f z : shrinks f z z.
Proof. split_and!; [by left | lia | lia]. Qed.

Lemma step_sequence st st' : step st st' -> sequence (server st) <= sequence (server st').
Proof.
  destruct 1 as [s z f buff z' Hf Hc|s z f z' Hf Hc|s z f buff Hf Hc|s z f buff Hf Hc|s z f b Hf|s z f Hf|s z f|s z f Hf|s z f z' Hf];
    cbn [server]; try lia.
  1,2: unfold create_lock in Hc; destruct (zoo_create s (locks ++ base) z) as [[rc path] z1] eqn:E;
    assert (z' = z1) as -> by (destruct (rc =? 0); congruence);
    destruct (create_spec s base z rc path z1 E) as (_ & [(_ & _ & Hq) | (n & c & Hq & _)]); lia.
  - unfold release. destruct (zoo_delete s (locks ++ base) z) as [rc z'] eqn:E. by apply (delete_spec s base z rc z') in E as (_ & ? & _).
  - apply close_spec.
  - apply expire_spec.
  - apply catch_up_spec in Hf as (_ & -> & _). lia.
Qed.

Lemma create_lock_ok z f s o z' : lock_ok (mkSystem z f) -> f s = Connected -> sequence z' <= 2 ^ 31 ->
  0 <= sequence z ->
  create_lock s (locks ++ base) z = (o, z') ->
  lock_ok (mkSystem z' (goto s (match o with Some b => Created b | None => Refused None end) f)).
Proof.
  intros Hok Hf Hq H0 Hc. unfold create_lock in Hc.
  destruct (zoo_create s (locks ++ base) z) as [[rc path] z1] eqn:E.
  destruct (create_spec s base z rc path z1 E) as (Hseen & [(Hrc & Hh & Hn) | (n & c & Hn & Hnew & Hcc & Hh & Hp)]).
  - assert (o = None /\ z' = z1) as [-> ->] by (destruct (Z.eqb_spec rc 0); [done | split; congruence]).
    apply (lock_ok_shrinks (mkSystem z f)); [done | by apply (move_one (mkSystem z f)) |]. split_and!; [by left | done |].
    intros t Ht. rewrite Hseen; [done |]. intros ->. unfold goto in Ht. by rewrite decide_True in Ht.
  - assert (z' = z1) as -> by (destruct (rc =? 0); congruence).
    apply (lock_ok_create (mkSystem z f) z1 s n c); cbn [server clients]; try done; [lia |].
    destruct (Z.eqb_spec rc 0) as [Hrc|]; injection Hc as <-; [| by left]. right. by destruct (Hp Hrc) as [-> ->].
Qed.

Lemma step_lock_ok st st' :
  step st st' -> lock_ok st -> 0 <= sequence (server st) -> sequence (server st') <= 2 ^ 31 -> lock_ok st'.
Proof.
  intros Hs Hok H0 Hq. pose proof (move_none st Hok) as Hnone.
  destruct Hs as [s z f buff z' Hf Hc|s z f z' Hf Hc|s z f buff Hf Hc|s z f buff Hf Hc|s z f b Hf|s z f Hf|s z f|s z f Hf|s z f z' Hf];
    cbn [server clients] in *.
  - by apply (create_lock_ok z f s (Some buff) z').
  - by apply (create_lock_ok z f s None z').
  - apply (lock_ok_shrinks _ z _ Hok); [| by apply shrinks_none]. apply (move_one _ s _ Hok); [done | by cbn; rewrite Hf |].
    intros x Ex. assert (buff = locks ++ x) as -> by congruence. destruct (check_lock_true _ _ _ Hc) as (x' & c & <-%app_inv_head & Hl & Hx).
    apply (first_read_first _ s x c Hok); [by cbn; rewrite Hf | done | done].
  - apply (lock_ok_shrinks _ z _ Hok); [| by apply shrinks_none]. apply (move_one _ s _ Hok); [done | by cbn; rewrite Hf | done].
  - apply (lock_ok_shrinks _ _ _ Hok); [apply (move_one _ s _ Hok); [done | by cbn; rewrite Hf | done] |].
    unfold release. destruct (zoo_delete s (locks ++ base) z) as [rc z'] eqn:E.
    apply (delete_spec s base z rc z') in E as (Hh & Hn & Hv). cbn [snd]. split_and!; [| done | by intros t _; apply Hv].
    destruct Hh as [Hh | Hh]; [by left | right]. do 2 eexists. split; [exact Hh |]. intros x t Hx _.
    destruct (here_named _ x t Hok Hx) as (n & -> & Hn' & _). cbn [fst]. intros Eb%(f_equal length). by rewrite sequential_length in Eb.
  - apply (lock_ok_shrinks _ _ _ Hok); [by apply (move_one _ s _ Hok) |].
    destruct (close_spec s z) as (Hh & Hn & Hv). split_and!; [| done | intros t _; by rewrite Hv].
    destruct Hh as [Hh | Hh]; [by left | right]. do 2 eexists. split; [exact Hh |]. intros x t _ Ht. cbn [snd]. intros ->.
    unfold goto in Ht. by rewrite decide_True in Ht.
  - apply (lock_ok_shrinks _ z _ Hok); [by apply (move_one _ s _ Hok) | by apply shrinks_none].
  - apply (lock_ok_shrinks _ _ _ Hok Hnone). destruct (expire_spec s z) as (Hh & Hn & Hv).
    split_and!; [| done | intros t _; by rewrite Hv]. right. do 2 eexists. split; [exact Hh |].
    intros x t _ Ht. cbn [snd]. intros ->. by rewrite Hf in Ht.
  - apply (lock_ok_shrinks _ _ _ Hok Hnone). destruct (catch_up_spec s z z' Hf) as (Hh & Hn & Hv).
    split_and!; [by left | cbn; lia | by intros t _].
Qed.

(** Servers without lock nodes. *)
Definition empty_locks (z : Z') : Prop := Forall (fun c => c = []) (history z) /\ 0 <= sequence z.

Lemma reachable_ok z st : empty_locks z -> reachable z st -> sequence (server st) <= 2 ^ 31 -> lock_ok st.
Proof.
  intros [Hn H0] Hr.
  enough (sequence z <= sequence (server st) /\ (sequence (server st) <= 2 ^ 31 -> lock_ok st)) as [_ H1] by done.
  refine (rtc_ind_r (fun st => sequence z <= sequence (server st) /\ (sequence (server st) <= 2 ^ 31 -> lock_ok st)) _ _ _ st Hr).
  - split; [cbn; lia |]. intros _. rewrite Forall_forall in Hn.
    assert (current (history z) = []) as Hc.
    { unfold current. destruct (last (history z)) as [c|] eqn:E; [| done]. by apply Hn, last_Some_elem_of. }
    constructor; cbn [server clients]; rewrite ?Hc; try done; [| by intros x s ?%elem_of_nil | by constructor].
    intros c x s Hc' Hx. rewrite (Hn c Hc') in Hx. by apply elem_of_nil in Hx.
  - intros st1 st2 _ Hs [IH1 IH2]. pose proof (step_sequence _ _ Hs). split; [lia |]. intros Hq.
    apply (step_lock_ok st1); [done | apply IH2; lia | lia | done].
Qed.

Lemma holding_node st s b : lock_ok st -> clients st s = Holding b -> exists x, b = locks ++ x /\ (x, s) ∈ here st.
Proof. intros Hok Hc. destruct (client_node st Hok s b) as (x & -> & Hx & _); [by rewrite Hc | by exists x]. Qed.

(** C4: in every interleaving of the clients' calls, their deaths and the
    servers' steps, however stale the reads, at most one client has been told that
    it holds the lock, as long as the sessions of living clients do not expire and
    the counter of [/locks], a signed int, has not overflowed. *)
Theorem lock_exclusive z st s t b b' :
  empty_locks z -> reachable z st -> sequence (server st) <= 2 ^ 31 ->
  clients st s = Holding b -> clients st t = Holding b' -> s = t.
Proof.
  intros Hz Hr Hq Hs Ht. pose proof (reachable_ok z st Hz Hr Hq) as Hok.
  destruct (holding_node st s b Hok Hs) as (x & -> & Hx). destruct (holding_node st t b' Hok Ht) as (y & -> & Hy).
  pose proof (holder_first st Hok s x Hs y t Hy) as H1. pose proof (holder_first st Hok t y Ht x s Hx) as H2.
  destruct (here_named st x s Hok Hx) as (m & -> & Hm & _). destruct (here_named st y t Hok Hy) as (n & -> & Hn & _).
  apply sequential_order in H1; [| done | done]. apply sequential_order in H2; [| done | done].
  assert (m = n) as -> by lia. pose proof (nodes_once st Hok) as Hnd.
  apply (elem_of_list_to_map_1 (M := gmap str) _ _ _ Hnd) in Hx, Hy. congruence.
Qed.

(** A client that has made its node is told, without undefined behaviour, that
    it holds the lock exactly when the children can be read and its node has the
    smallest number of all that are there. *)
Theorem lock_granted z st s b :
  empty_locks z -> reachable z st -> sequence (server st) <= 2 ^ 31 -> clients st s = Created b ->
  exists x r, b = locks ++ x /\ check_lock s b (server st) = Ok r /\
    (r = true -> forall y t, (y, t) ∈ here st -> str_leb x y = true) /\
    (r = false -> (zoo_get_children s (server st)).1 = 0 ->
       exists c y t, history (server st) !! seen s (server st) = Some c /\ (y, t) ∈ c /\ str_leb x y = false).
Proof.
  intros Hz Hr Hq Hs. pose proof (reachable_ok z st Hz Hr Hq) as Hok.
  destruct (client_node st Hok s b) as (x & -> & Hx & Hread); [by rewrite Hs |]. exists x.
  assert (forall r, check_lock s (locks ++ x) (server st) = Ok r -> r = true -> forall y t, (y, t) ∈ here st -> str_leb x y = true) as Htrue.
  { intros r E ->. destruct (check_lock_true _ _ _ E) as (x' & c & <-%app_inv_head & Hc & Hf).
    apply (first_read_first st s x c Hok); [by rewrite Hs | done | done]. }
  assert (exists r, check_lock s (locks ++ x) (server st) = Ok r /\ (r = false -> (zoo_get_children s (server st)).1 = 0 ->
       exists c y t, history (server st) !! seen s (server st) = Some c /\ (y, t) ∈ c /\ str_leb x y = false)) as (r & E & Hr2);
    [| exists r; split_and!; [done | done | by apply Htrue | done]]. clear Htrue.
  unfold check_lock. destruct (zoo_get_children s (server st)) as [rc l] eqn:E. destruct (Z.eqb_spec rc 0) as [->|Hrc]; cbn [negb fst].
  2: { by exists false. }
  destruct (children_spec s _ l E) as (c & Hc & Hl).
  assert ((x, s) ∈ c) as Hxc by (apply (Hread _ c (le_n _) Hc x s Hx); by destruct (str_leb_total x x)).
  assert (x ∈ l) as Hin by (rewrite Hl; apply list_elem_of_fmap; by exists (x, s)).
  destruct l as [|first l]; [by apply elem_of_nil in Hin |]. change (at_index (first :: l) 0) with (Ok first).
  cbn [mbind res_bind]. destruct (decide _) as [|Hne]; [by exists true |].
  destruct (smallest_spec (first :: l) first) as (Hm & _ & Hall).
  assert (smallest (first :: l) first ∈ first :: l) as Hsm by (destruct Hm as [-> | ?]; [by left | done]).
  assert (2 <= length (first :: l))%nat as Hlen.
  { destruct l as [|? l]; [| cbn; lia]. apply list_elem_of_singleton in Hin, Hsm. congruence. }
  rewrite (proj2 (Nat.ltb_ge _ _)) by done. unfold at_index.
  destruct (lookup_lt_is_Some_2 (first :: l) (length (first :: l) - 2)) as [prev ->]; [lia |].
  cbn [mbind res_bind]. exists false. split; [by destruct (negb _) |]. intros _ _. set (m := smallest _ _) in *. clearbody m.
  pose proof Hsm as Hsm'. rewrite Hl in Hsm. apply list_elem_of_fmap in Hsm as ([y t] & Ey & Hy). cbn [fst] in Ey. exists c, y, t.
  split_and!; [done | done |]. destruct (str_leb x y) eqn:Exy; [| done]. exfalso. apply Hne. f_equal.
  rewrite <- Ey in Exy. apply str_leb_antisym; [done | by apply Hall].
Qed.
End Lock.

(** ** Servers *)
Record Znodes : Type := mkZnodes { contents : list (list node); view : session -> nat; next : Z }.

Definition set_view (s : session) (n : nat) (v : session -> nat) : session -> nat :=
  fun t => if decide (t = s) then n else v t.

Definition znodes_create (s : session) (path : str) (z : Znodes) : Z * str * Znodes :=
  let name := sequential (drop (length locks) path) (next z) in
  if decide (name ∈ map fst (current (contents z)))
  then (-110, [], mkZnodes (contents z) (view z) (next z + 1))
  else (0, locks ++ name,
        mkZnodes (contents z ++ [(name, s) :: current (contents z)])
                 (set_view s (length (contents z)) (view z)) (next z + 1)).

Definition znodes_drop (s : session) (z : Znodes) : Znodes :=
  mkZnodes (contents z ++ [filter (fun x => x.2 <> s) (current (contents z))]) (view z) (next z).

Definition znodes_children (s : session) (z : Znodes) : Z * list str :=
  match contents z !! view z s with Some c => (0, map fst c) | None => (-4, []) end.

#[export] #[refine] Instance Znodes_ZooKeeper : ZooKeeper Znodes := {
  history := contents;
  seen s z := view z s;
  sequence := next;
  zoo_create := znodes_create;
  zoo_get_children := znodes_children;
  zoo_awget _ _ _ := 0;
  zoo_delete s path z := (-101, z);
  zookeeper_close := znodes_drop;
  catch_up s z z' := exists n, (view z s <= n)%nat /\ z' = mkZnodes (contents z) (set_view s n (view z)) (next z);
  expire := znodes_drop
}.
Proof.
  - intros s name z rc path z'. unfold znodes_create. rewrite drop_app_length.
    destruct (decide _) as [Hin|Hin]; intros [= <- <- <-]; cbn [contents view next].
    + split; [done |]. left. split_and!; [done | done | lia].
    + split; [intros t Ht; unfold set_view; by rewrite decide_False |]. right. eexists (next z), _.
      split_and!; [lia | lia | done | done | done |]. intros _. split; [done |]. unfold set_view. by rewrite decide_True.
  - intros s z l. unfold znodes_children. destruct (_ !! _) as [c|] eqn:E; [| done]. intros [= <-]. by exists c.
  - intros s name z rc z' [= <- <-]. split_and!; [by left | lia | done].
  - intros s z. split_and!; [by right | cbn; lia | done].
  - intros s z z' (n & Hn & ->). split_and!; [done | done |]. intros t. cbn. unfold set_view. by destruct (decide _) as [->|].
  - intros s z. split_and!; [done | cbn; lia | done].
Defined.

(** No node yet, the counter at [n]. *)
Definition no_nodes (n : Z) : Znodes := mkZnodes [] (fun _ => 0%nat) n.
Definition node_path (n : Z) : str := locks ++ sequential base n.

(** Two clients have made their nodes; then the first asks, and the second. *)
Definition created1 (n : Z) : Znodes := (create_lock 1%positive (locks ++ base) (no_nodes n)).2.
Definition created2 (n : Z) : Znodes := (create_lock 2%positive (locks ++ base) (created1 n)).2.
Definition both (n : Z) : System :=
  mkSystem (created2 n) (goto 2%positive (Created (node_path (n + 1))) (goto 1%positive (Created (node_path n)) (fun _ => Connected))).
Definition first_holds (n : Z) : System :=
  mkSystem (created2 n) (goto 1%positive (Holding (node_path n)) (clients (both n))).

Lemma both_reachable n : n = 0 \/ n = 2 ^ 31 - 1 -> reachable (no_nodes n) (both n).
Proof.
  intros Hn. eapply rtc_l; [apply (step_create 1%positive _ _ (node_path n) (created1 n)); [done | by destruct Hn as [-> | ->]] |].
  apply rtc_once, (step_create 2%positive _ _ (node_path (n + 1)) (created2 n)); [done |]. by destruct Hn as [-> | ->].
Qed.

Lemma first_holds_reachable n : n = 0 \/ n = 2 ^ 31 - 1 -> reachable (no_nodes n) (first_holds n).
Proof.
  intros Hn. eapply rtc_r; [by apply both_reachable |]. apply (step_acquire 1%positive); [done |].
  by destruct Hn as [-> | ->].
Qed.

Lemma lock_exclusive_witness :
  clients (first_holds 0) 1%positive = Holding (node_path 0) /\ ~ exists b, clients (first_holds 0) 2%positive = Holding b.
Proof.
  split; [done |]. intros [b Hb].
  assert (1%positive = 2%positive) as E; [| discriminate E].
  apply (lock_exclusive (no_nodes 0) (first_holds 0) 1%positive 2%positive (node_path 0) b);
    [by split | apply first_holds_reachable; by left | done | done | exact Hb].
Defined.

(** A client whose server is behind reads its own node and those before it; the
    second is refused, and stays without the lock: nothing runs when the watched
    node goes away. *)
Example second_refused :
  check_lock 2%positive (node_path 1) (server (both 0)) = Ok false /\
  check_lock 1%positive (node_path 0) (server (both 0)) = Ok true /\
  (zoo_get_children 1%positive (server (both 0))).2 = [sequential base 0].
Proof. done. Qed.

(** Once the counter has overflowed, the next node is the first of all: a second
    client is told that it holds the lock as well. *)
Example lock_overflow : exists st : System (Z' := Znodes),
  reachable (no_nodes (2 ^ 31 - 1)) st /\
  clients st 1%positive = Holding (node_path (2 ^ 31 - 1)) /\ clients st 2%positive = Holding (node_path (2 ^ 31)).
Proof.
  exists (mkSystem (created2 (2 ^ 31 - 1)) (goto 2%positive (Holding (node_path (2 ^ 31))) (clients (first_holds (2 ^ 31 - 1))))).
  split; [| done]. eapply rtc_r; [apply first_holds_reachable; by right |]. by apply (step_acquire 2%positive).
Qed.
